(** * Pull-based operator cursors of the query execution engine

    A shallow embedding of [src/query/plan/operator.cpp]: every operator
    cursor is a state record together with a [Pull] function that threads
    the caller's frame and the execution context, and returns whether a
    row was produced.  C++ exceptions are an explicit outcome; loops that
    pull from an input cursor run on fuel. *)

From Stdlib Require Import ZArith String List Bool Lia.
From stdpp Require Import base option list.
Import ListNotations.

Local Open Scope string_scope.
Local Open Scope list_scope.
Local Open Scope Z_scope.

(** ** Data model *)

(** Global address of a record: [(gid, worker_id)]. *)
Record Address := mkAddress { gid : nat; worker_id : nat }.

Definition Address_eqb (a b : Address) : bool :=
  Nat.eqb (gid a) (gid b) && Nat.eqb (worker_id a) (worker_id b).

(** The record state an accessor currently exposes ([SwitchOld] /
    [SwitchNew]). *)
Inductive GraphView := OLD | NEW | AS_IS.

Record VertexAccessor := mkVertex {
  vertex_address : Address;
  vertex_current_new : bool
}.

Record EdgeAccessor := mkEdge {
  edge_address : Address;
  from_ : Address;
  to_ : Address;
  edge_type : nat
}.

(** Accessors compare by global address ([operator==]). *)
Definition VertexAccessor_eqb (a b : VertexAccessor) : bool :=
  Address_eqb (vertex_address a) (vertex_address b).

Definition EdgeAccessor_eqb (a b : EdgeAccessor) : bool :=
  Address_eqb (edge_address a) (edge_address b).

Definition from (e : EdgeAccessor) : VertexAccessor := mkVertex (from_ e) false.
Definition to (e : EdgeAccessor) : VertexAccessor := mkVertex (to_ e) false.
Definition is_cycle (e : EdgeAccessor) : bool := Address_eqb (from_ e) (to_ e).

(** [SwitchAccessor] of the source, on a vertex accessor. *)
Definition SwitchAccessor (v : VertexAccessor) (graph_view : GraphView)
  : VertexAccessor :=
  match graph_view with
  | NEW => mkVertex (vertex_address v) true
  | OLD => mkVertex (vertex_address v) false
  | AS_IS => v
  end.

(** [TypedValue]: the tagged union of runtime values.  A double is kept
    as its 64 bit pattern; no operator modelled here computes on it. *)
#[warnings="-register-all"]
Inductive TypedValue :=
| Null
| Bool (b : bool)
| Int (i : Z)
| Double (bits : Z)
| String (s : string)
| List (l : list TypedValue)
| Map (m : list (string * TypedValue))
| Vertex (v : VertexAccessor)
| Edge (e : EdgeAccessor)
| Path (vs : list VertexAccessor) (es : list EdgeAccessor).

(** [TypedValue::Type]. *)
Inductive Type_ :=
| TNull | TBool | TInt | TDouble | TString | TList | TMap | TVertex | TEdge
| TPath.

Definition type (v : TypedValue) : Type_ :=
  match v with
  | Null => TNull | Bool _ => TBool | Int _ => TInt | Double _ => TDouble
  | String _ => TString | List _ => TList | Map _ => TMap
  | Vertex _ => TVertex | Edge _ => TEdge | Path _ _ => TPath
  end.

Definition Type_eqb (a b : Type_) : bool :=
  match a, b with
  | TNull, TNull | TBool, TBool | TInt, TInt | TDouble, TDouble
  | TString, TString | TList, TList | TMap, TMap | TVertex, TVertex
  | TEdge, TEdge | TPath, TPath => true
  | _, _ => false
  end.

Definition Type_name (t : Type_) : string :=
  match t with
  | TNull => "Null" | TBool => "Bool" | TInt => "Int" | TDouble => "Double"
  | TString => "String" | TList => "List" | TMap => "Map"
  | TVertex => "Vertex" | TEdge => "Edge" | TPath => "Path"
  end.

Definition IsNull (v : TypedValue) : bool :=
  match v with Null => true | _ => false end.

(** A symbol is a name and a dense position in the frame. *)
Record Symbol := mkSymbol { name : string; position : nat }.

(** The frame: one slot per symbol position.  [frame[symbol]] indexes
    [elems_] by the symbol's position; the source leaves an index past the
    end undefined, here a read gives [Null] and a write changes nothing. *)
Abbreviation Frame := (list TypedValue) (only parsing).

Definition frame_at (frame : Frame) (symbol : Symbol) : TypedValue :=
  default Null (frame !! position symbol).

Definition frame_set (symbol : Symbol) (value : TypedValue) (frame : Frame)
  : Frame :=
  <[position symbol := value]> frame.

(** ** Exceptions

    [UndefinedBehavior] is not an exception of the source: it marks the
    places where the source dereferences a null pointer or an empty
    optional, which the planner is expected to exclude. *)

Inductive Exception :=
| QueryRuntimeException (msg : string)
| HintedAbortError
| TypedValueException
| SerializationError (msg : string)
| LockTimeoutException (msg : string)
| ReconstructionException
| RecordDeletedError
| UndefinedBehavior (what : string).

(** The kinds of the error taxonomy that the source throws as
    [QueryRuntimeException]. *)
Definition is_QueryError (e : Exception) : bool :=
  match e with QueryRuntimeException _ => true | _ => false end.

(** ** Execution context *)

(** An expression of the plan.  The AST and its evaluator are outside
    these sources: an expression is represented by what
    [expression->Accept(evaluator)] computes from the evaluator's graph
    view, the frame and the database. *)
Record Expression (Db : Type) := mkExpression {
  expr_eval : GraphView -> Frame -> Db -> Exception + TypedValue
}.
Arguments mkExpression {Db} _.
Arguments expr_eval {Db} _ _ _ _.

(** Calls made on the graph accessor by the mutating operators, in the
    order they were made. *)
Inductive DbCall :=
| CallRemoveEdge (e : EdgeAccessor)
| CallRemoveVertex (v : VertexAccessor)
| CallDetachRemoveVertex (v : VertexAccessor)
| CallAdvanceCommand
| CallRemotePullAccumulate (worker : nat)
| CallRemoteUpdateApplyAll
| CallUpdatesServerApply
| CallNotifyAllTransactionCommandAdvanced.

(** The context threaded through a pull chain: the database as seen by
    the transaction, plus two ghost logs (the expressions evaluated and
    the mutating accessor calls) and the answers [IsFutureReady] is going
    to give, consumed one per question. *)
Record Context (Db : Type) := mkContext {
  db_accessor_ : Db;
  eval_log : list (Expression Db);
  db_log : list DbCall;
  future_ready : list bool
}.
Arguments mkContext {Db} _ _ _ _.
Arguments db_accessor_ {Db} _.
Arguments eval_log {Db} _.
Arguments db_log {Db} _.
Arguments future_ready {Db} _.

(** Result of running a piece of cursor code. *)
Inductive Outcome (Db A : Type) :=
| Ok (a : A) (context : Context Db)
| Throw (e : Exception) (context : Context Db)
| OutOfFuel.
Arguments Ok {Db A} _ _.
Arguments Throw {Db A} _ _.
Arguments OutOfFuel {Db A}.

Definition M (Db A : Type) := Context Db -> Outcome Db A.

Definition ret {Db A} (a : A) : M Db A := fun context => Ok a context.

Definition bind {Db A B} (m : M Db A) (k : A -> M Db B) : M Db B :=
  fun context =>
    match m context with
    | Ok a context' => k a context'
    | Throw e context' => Throw e context'
    | OutOfFuel => OutOfFuel
    end.

Definition throw {Db A} (e : Exception) : M Db A :=
  fun context => Throw e context.

Definition diverge {Db A} : M Db A := fun _ => OutOfFuel.

Declare Scope cursor_scope.
Delimit Scope cursor_scope with cursor.
Notation "x <- m ;; k" := (bind m (fun x => k))
  (at level 20, m at level 99, k at level 200, only parsing) : cursor_scope.
Notation "' p <- m ;; k" := (bind m (fun x => let 'p := x in k))
  (at level 20, p pattern, m at level 99, k at level 200, only parsing)
  : cursor_scope.
Local Open Scope cursor_scope.

Definition lift {Db A} (r : Exception + A) : M Db A :=
  match r with inl e => throw e | inr a => ret a end.

(** ** The graph accessor interface

    The storage layer is an external collaborator; the operators use it
    through these calls only. *)
Class GraphDbAccessor (Db : Type) := {
  should_abort : Db -> bool;
  WorkerId : Db -> nat;
  Vertices : Db -> bool -> list VertexAccessor;
  VerticesByValue :
    Db -> nat -> nat -> TypedValue -> bool -> Exception + list VertexAccessor;
  vertex_in : Db -> VertexAccessor -> list nat -> list EdgeAccessor;
  vertex_out : Db -> VertexAccessor -> list nat -> list EdgeAccessor;
  vertex_in_from :
    Db -> VertexAccessor -> VertexAccessor -> list nat -> list EdgeAccessor;
  vertex_out_to :
    Db -> VertexAccessor -> VertexAccessor -> list nat -> list EdgeAccessor;
  in_degree : Db -> VertexAccessor -> nat;
  out_degree : Db -> VertexAccessor -> nat;
  RemoveEdge : EdgeAccessor -> Db -> Exception + Db;
  RemoveVertex : VertexAccessor -> Db -> Exception + (bool * Db);
  DetachRemoveVertex : VertexAccessor -> Db -> Exception + Db;
  AdvanceCommand : Db -> Db;
  ReconstructTypedValue : Db -> TypedValue -> Exception + TypedValue
}.

(** ** Values: operations declared with [TypedValue]

    The comparison and arithmetic of [TypedValue] live in
    [query/typed_value.hpp], outside these sources.  [BoolEqual] is the
    null-aware equality (two nulls are equal); [moved_from] is the state a
    value is left in after [std::move]. *)
Class TypedValueOps := {
  BoolEqual : TypedValue -> TypedValue -> bool;
  TypedValue_less : TypedValue -> TypedValue -> Exception + TypedValue;
  TypedValue_greater : TypedValue -> TypedValue -> Exception + TypedValue;
  TypedValue_plus : TypedValue -> TypedValue -> Exception + TypedValue;
  TypedValue_div_double : TypedValue -> Z -> Exception + TypedValue;
  moved_from : TypedValue -> TypedValue
}.

(** ** The distributed services

    What [Synchronize] asks of the RPC client pools and of the local
    update server: the state a worker reports for its accumulation pull,
    the results of the apply-all broadcast, and the local apply. *)
Module RemotePullState.
Inductive t :=
| CURSOR_EXHAUSTED | CURSOR_IN_PROGRESS | SERIALIZATION_ERROR
| LOCK_TIMEOUT_ERROR | UPDATE_DELETED_ERROR | RECONSTRUCTION_ERROR
| QUERY_ERROR.
End RemotePullState.

Module RemoteUpdateResult.
Inductive t :=
| DONE | SERIALIZATION_ERROR | UPDATE_DELETED_ERROR | LOCK_TIMEOUT_ERROR.
End RemoteUpdateResult.

Class DistributedGraphDb (Db : Type) := {
  GetWorkerIds : Db -> list nat;
  RemotePull_accumulate : Db -> nat -> RemotePullState.t;
  RemoteUpdateApplyAll : Db -> list RemoteUpdateResult.t;
  updates_server_Apply : Db -> Db
}.

(** ** The cursor protocol *)

(** [Pull(frame, context)] returns [true] when a row was put on the
    frame and [false] on exhaustion; [Reset] throws for the cursors that
    do not support it. *)
Module Cursor.
Class Cursor (Db TCursor : Type) := {
  Pull : nat -> TCursor -> Frame -> M Db (bool * TCursor * Frame);
  Reset : TCursor -> Exception + TCursor
}.
End Cursor.

Section Evaluation.
Context {Db : Type} `{!GraphDbAccessor Db}.

Definition get_db : M Db Db := fun context => Ok (db_accessor_ context) context.

Definition set_db (db : Db) : M Db unit :=
  fun context =>
    Ok tt (mkContext db (eval_log context) (db_log context)
                     (future_ready context)).

Definition log_call (call : DbCall) : M Db unit :=
  fun context =>
    Ok tt (mkContext (db_accessor_ context) (eval_log context)
                     (db_log context ++ [call]) (future_ready context)).

(** [db_.should_abort()] at the head of a pull. *)
Definition check_abort : M Db unit :=
  db <- get_db ;;
  if should_abort db then throw HintedAbortError else ret tt.

(** [expression->Accept(evaluator)] with an evaluator built on the given
    graph view; the evaluation is entered in the ghost log. *)
Definition Accept (expression : Expression Db) (graph_view : GraphView)
  (frame : Frame) : M Db TypedValue :=
  fun context =>
    let context' :=
      mkContext (db_accessor_ context) (eval_log context ++ [expression])
                (db_log context) (future_ready context) in
    match expr_eval expression graph_view frame (db_accessor_ context) with
    | inl e => Throw e context'
    | inr v => Ok v context'
    end.

(** [ExpectType]. *)
Definition ExpectType (symbol : Symbol) (value : TypedValue)
  (expected : Type_) : M Db unit :=
  if Type_eqb (type value) expected then ret tt
  else throw (QueryRuntimeException
                ("Expected a " ++ Type_name expected ++ " for '" ++
                 name symbol ++ "', but got " ++ Type_name (type value) ++
                 ".")).

(** [EvaluateFilter]: null is false, any other non-boolean is an error. *)
Definition EvaluateFilter (graph_view : GraphView)
  (filter : Expression Db) (frame : Frame) : M Db bool :=
  result <- Accept filter graph_view frame ;;
  match result with
  | Null => ret false
  | Bool b => ret b
  | _ => throw (QueryRuntimeException
                  ("Filter expression must be a bool or null, but got " ++
                   Type_name (type result) ++ "."))
  end.

(** [query::ReconstructTypedValue]. *)
Definition Reconstruct (value : TypedValue) : M Db TypedValue :=
  db <- get_db ;; lift (ReconstructTypedValue db value).

Definition db_AdvanceCommand : M Db unit :=
  _ <- log_call CallAdvanceCommand ;;
  db <- get_db ;;
  set_db (AdvanceCommand db).

End Evaluation.

(** ** Operators *)

(** *** Once *)
Module Once.
Section Once.
Context {Db : Type}.

Record OnceCursor := mkOnceCursor { did_pull_ : bool }.

Definition Pull (fuel : nat) (this : OnceCursor) (frame : Frame)
  : M Db (bool * OnceCursor * Frame) :=
  if negb (did_pull_ this) then ret (true, mkOnceCursor true, frame)
  else ret (false, this, frame).

Definition Reset (this : OnceCursor) : Exception + OnceCursor :=
  inr (mkOnceCursor false).

Definition MakeCursor : OnceCursor := mkOnceCursor false.

#[global] Instance Once_Cursor : Cursor.Cursor Db OnceCursor :=
  Cursor.Build_Cursor Db OnceCursor Pull Reset.

End Once.
End Once.

(** Monadic iteration over a vector. *)
Fixpoint mapM {Db A B} (f : A -> M Db B) (l : list A) : M Db (list B) :=
  match l with
  | [] => ret []
  | x :: l' => y <- f x ;; ys <- mapM f l' ;; ret (y :: ys)
  end.

Fixpoint forM_ {Db A} (f : A -> M Db unit) (l : list A) : M Db unit :=
  match l with
  | [] => ret tt
  | x :: l' => _ <- f x ;; forM_ f l'
  end.

(** [for (symbol : symbols) frame[symbol] = *row_it++]. *)
Fixpoint restore_symbols (symbols : list Symbol) (row : list TypedValue)
  (frame : Frame) : Frame :=
  match symbols, row with
  | symbol :: symbols', value :: row' =>
      restore_symbols symbols' row' (frame_set symbol value frame)
  | _, _ => frame
  end.

(** *** Filter *)
Module Filter.
Section Filter.
Context {Db : Type} `{!GraphDbAccessor Db}.
Context {TInput : Type} `{!Cursor.Cursor Db TInput}.

Record Filter := mkFilter { expression_ : Expression Db }.

Record FilterCursor := mkFilterCursor {
  self_ : Filter;
  input_cursor_ : TInput
}.

Fixpoint Pull (fuel : nat) (this : FilterCursor) (frame : Frame)
  : M Db (bool * FilterCursor * Frame) :=
  match fuel with
  | O => diverge
  | S fuel' =>
      '(pulled, input, frame) <-
        Cursor.Pull fuel' (input_cursor_ this) frame ;;
      let this := mkFilterCursor (self_ this) input in
      if pulled then
        keep <- EvaluateFilter OLD (expression_ (self_ this)) frame ;;
        if keep then ret (true, this, frame) else Pull fuel' this frame
      else ret (false, this, frame)
  end.

Definition Reset (this : FilterCursor) : Exception + FilterCursor :=
  match Cursor.Reset (input_cursor_ this) with
  | inl e => inl e
  | inr input => inr (mkFilterCursor (self_ this) input)
  end.

Definition MakeCursor (self : Filter) (input : TInput) : FilterCursor :=
  mkFilterCursor self input.

#[global] Instance Filter_Cursor : Cursor.Cursor Db FilterCursor :=
  Cursor.Build_Cursor Db FilterCursor Pull Reset.

End Filter.
End Filter.

(** *** Unwind *)
Module Unwind.
Section Unwind.
Context {Db : Type} `{!GraphDbAccessor Db}.
Context {TInput : Type} `{!Cursor.Cursor Db TInput}.

Record Unwind := mkUnwind {
  input_expression_ : Expression Db;
  output_symbol_ : Symbol
}.

(** [input_value_it_] is kept as the elements of [input_value_] still
    ahead of the iterator. *)
Record UnwindCursor := mkUnwindCursor {
  self_ : Unwind;
  input_cursor_ : TInput;
  input_value_ : list TypedValue;
  input_value_it_ : list TypedValue
}.

Fixpoint Pull (fuel : nat) (this : UnwindCursor) (frame : Frame)
  : M Db (bool * UnwindCursor * Frame) :=
  match fuel with
  | O => diverge
  | S fuel' =>
      _ <- check_abort ;;
      match input_value_it_ this with
      | value :: rest =>
          ret (true,
               mkUnwindCursor (self_ this) (input_cursor_ this)
                              (input_value_ this) rest,
               frame_set (output_symbol_ (self_ this)) value frame)
      | [] =>
          '(pulled, input, frame) <-
            Cursor.Pull fuel' (input_cursor_ this) frame ;;
          if negb pulled then
            ret (false,
                 mkUnwindCursor (self_ this) input (input_value_ this) [],
                 frame)
          else
            input_value <-
              Accept (input_expression_ (self_ this)) AS_IS frame ;;
            match input_value with
            | List values =>
                match values with
                | [] =>
                    Pull fuel' (mkUnwindCursor (self_ this) input [] [])
                         frame
                | value :: rest =>
                    ret (true,
                         mkUnwindCursor (self_ this) input values rest,
                         frame_set (output_symbol_ (self_ this)) value frame)
                end
            | _ =>
                throw (QueryRuntimeException
                         ("UNWIND only accepts list values, got '" ++
                          Type_name (type input_value) ++ "'"))
            end
      end
  end.

Definition Reset (this : UnwindCursor) : Exception + UnwindCursor :=
  match Cursor.Reset (input_cursor_ this) with
  | inl e => inl e
  | inr input => inr (mkUnwindCursor (self_ this) input [] [])
  end.

Definition MakeCursor (self : Unwind) (input : TInput) : UnwindCursor :=
  mkUnwindCursor self input [] [].

#[global] Instance Unwind_Cursor : Cursor.Cursor Db UnwindCursor :=
  Cursor.Build_Cursor Db UnwindCursor Pull Reset.

End Unwind.
End Unwind.

(** *** Skip *)
Module Skip.
Section Skip.
Context {Db : Type} `{!GraphDbAccessor Db}.
Context {TInput : Type} `{!Cursor.Cursor Db TInput}.

Record Skip := mkSkip { expression_ : Expression Db }.

(** [to_skip_] is [-1] until the expression has been evaluated.  The
    members are declared in the header, outside these sources; they are
    taken wide enough for the value of the expression. *)
Record SkipCursor := mkSkipCursor {
  self_ : Skip;
  input_cursor_ : TInput;
  to_skip_ : Z;
  skipped_ : Z
}.

Definition evaluate_to_skip (this : SkipCursor) (frame : Frame) : M Db Z :=
  if to_skip_ this =? -1 then
    to_skip <- Accept (expression_ (self_ this)) AS_IS frame ;;
    match to_skip with
    | Int value =>
        if value <? 0 then
          throw (QueryRuntimeException
                   "Result of SKIP expression must be greater or equal to zero")
        else ret value
    | _ =>
        throw (QueryRuntimeException
                 "Result of SKIP expression must be an int")
    end
  else ret (to_skip_ this).

Fixpoint Pull (fuel : nat) (this : SkipCursor) (frame : Frame)
  : M Db (bool * SkipCursor * Frame) :=
  match fuel with
  | O => diverge
  | S fuel' =>
      '(pulled, input, frame) <-
        Cursor.Pull fuel' (input_cursor_ this) frame ;;
      if pulled then
        to_skip <- evaluate_to_skip this frame ;;
        let next :=
          mkSkipCursor (self_ this) input to_skip (skipped_ this + 1) in
        if skipped_ this <? to_skip then Pull fuel' next frame
        else ret (true, next, frame)
      else
        ret (false,
             mkSkipCursor (self_ this) input (to_skip_ this) (skipped_ this),
             frame)
  end.

Definition Reset (this : SkipCursor) : Exception + SkipCursor :=
  match Cursor.Reset (input_cursor_ this) with
  | inl e => inl e
  | inr input => inr (mkSkipCursor (self_ this) input (-1) 0)
  end.

Definition MakeCursor (self : Skip) (input : TInput) : SkipCursor :=
  mkSkipCursor self input (-1) 0.

#[global] Instance Skip_Cursor : Cursor.Cursor Db SkipCursor :=
  Cursor.Build_Cursor Db SkipCursor Pull Reset.

End Skip.
End Skip.

(** *** Limit *)
Module Limit.
Section Limit.
Context {Db : Type} `{!GraphDbAccessor Db}.
Context {TInput : Type} `{!Cursor.Cursor Db TInput}.

Record Limit := mkLimit { expression_ : Expression Db }.

(** [limit_] is [-1] until the expression has been evaluated. *)
Record LimitCursor := mkLimitCursor {
  self_ : Limit;
  input_cursor_ : TInput;
  limit_ : Z;
  pulled_ : Z
}.

Definition evaluate_limit (this : LimitCursor) (frame : Frame) : M Db Z :=
  if limit_ this =? -1 then
    limit <- Accept (expression_ (self_ this)) AS_IS frame ;;
    match limit with
    | Int value =>
        if value <? 0 then
          throw (QueryRuntimeException
                   "Result of LIMIT expression must be greater or equal to zero")
        else ret value
    | _ =>
        throw (QueryRuntimeException
                 "Result of LIMIT expression must be an int")
    end
  else ret (limit_ this).

Definition Pull (fuel : nat) (this : LimitCursor) (frame : Frame)
  : M Db (bool * LimitCursor * Frame) :=
  limit <- evaluate_limit this frame ;;
  if limit <=? pulled_ this then
    ret (false,
         mkLimitCursor (self_ this) (input_cursor_ this) limit
                       (pulled_ this + 1),
         frame)
  else
    '(pulled, input, frame) <- Cursor.Pull fuel (input_cursor_ this) frame ;;
    ret (pulled, mkLimitCursor (self_ this) input limit (pulled_ this + 1),
         frame).

Definition Reset (this : LimitCursor) : Exception + LimitCursor :=
  match Cursor.Reset (input_cursor_ this) with
  | inl e => inl e
  | inr input => inr (mkLimitCursor (self_ this) input (-1) 0)
  end.

Definition MakeCursor (self : Limit) (input : TInput) : LimitCursor :=
  mkLimitCursor self input (-1) 0.

#[global] Instance Limit_Cursor : Cursor.Cursor Db LimitCursor :=
  Cursor.Build_Cursor Db LimitCursor Pull Reset.

End Limit.
End Limit.

(** [TypedValueVectorEqual]: [std::equal] over the left vector with
    [BoolEqual]; the source requires both vectors to have one size. *)
Fixpoint TypedValueVectorEqual `{!TypedValueOps}
  (left right : list TypedValue) : bool :=
  match left, right with
  | [], _ => true
  | l :: left', r :: right' => BoolEqual l r && TypedValueVectorEqual left' right'
  | _ :: _, [] => false
  end.

(** *** Distinct *)
Module Distinct.
Section Distinct.
Context {Db : Type} `{!GraphDbAccessor Db} `{!TypedValueOps}.
Context {TInput : Type} `{!Cursor.Cursor Db TInput}.

Record Distinct := mkDistinct { value_symbols_ : list Symbol }.

(** [seen_rows_] is an unordered set keyed with [TypedValueVectorEqual];
    it is kept as the rows inserted so far, oldest first. *)
Record DistinctCursor := mkDistinctCursor {
  self_ : Distinct;
  input_cursor_ : TInput;
  seen_rows_ : list (list TypedValue)
}.

(** [seen_rows_.insert(row).second]: the row is new when no stored row
    is equal to it. *)
Definition contains (seen_rows : list (list TypedValue))
  (row : list TypedValue) : bool :=
  existsb (TypedValueVectorEqual row) seen_rows.

Fixpoint Pull (fuel : nat) (this : DistinctCursor) (frame : Frame)
  : M Db (bool * DistinctCursor * Frame) :=
  match fuel with
  | O => diverge
  | S fuel' =>
      '(pulled, input, frame) <-
        Cursor.Pull fuel' (input_cursor_ this) frame ;;
      if negb pulled then
        ret (false, mkDistinctCursor (self_ this) input (seen_rows_ this),
             frame)
      else
        let row := map (frame_at frame) (value_symbols_ (self_ this)) in
        if contains (seen_rows_ this) row then
          Pull fuel' (mkDistinctCursor (self_ this) input (seen_rows_ this))
               frame
        else
          ret (true,
               mkDistinctCursor (self_ this) input (seen_rows_ this ++ [row]),
               frame)
  end.

Definition Reset (this : DistinctCursor) : Exception + DistinctCursor :=
  match Cursor.Reset (input_cursor_ this) with
  | inl e => inl e
  | inr input => inr (mkDistinctCursor (self_ this) input [])
  end.

Definition MakeCursor (self : Distinct) (input : TInput) : DistinctCursor :=
  mkDistinctCursor self input [].

#[global] Instance Distinct_Cursor : Cursor.Cursor Db DistinctCursor :=
  Cursor.Build_Cursor Db DistinctCursor Pull Reset.

End Distinct.
End Distinct.

(** *** Accumulate *)
Module Accumulate.
Section Accumulate.
Context {Db : Type} `{!GraphDbAccessor Db}.
Context {TInput : Type} `{!Cursor.Cursor Db TInput}.

Record Accumulate := mkAccumulate {
  symbols_ : list Symbol;
  advance_command_ : bool
}.

(** [cache_it_] is kept as the rows of [cache_] still ahead of it. *)
Record AccumulateCursor := mkAccumulateCursor {
  self_ : Accumulate;
  input_cursor_ : TInput;
  cache_ : list (list TypedValue);
  cache_it_ : list (list TypedValue);
  pulled_all_input_ : bool
}.

(** [while (input_cursor_->Pull(frame, context)) cache_.emplace_back(row)]. *)
Fixpoint cache_input (fuel : nat) (symbols : list Symbol) (input : TInput)
  (cache : list (list TypedValue)) (frame : Frame)
  : M Db (TInput * list (list TypedValue) * Frame) :=
  match fuel with
  | O => diverge
  | S fuel' =>
      '(pulled, input, frame) <- Cursor.Pull fuel' input frame ;;
      if pulled then
        let row := map (frame_at frame) symbols in
        cache_input fuel' symbols input (cache ++ [row]) frame
      else ret (input, cache, frame)
  end.

Definition Pull (fuel : nat) (this : AccumulateCursor) (frame : Frame)
  : M Db (bool * AccumulateCursor * Frame) :=
  '(this, frame) <-
    (if negb (pulled_all_input_ this) then
       '(input, cache, frame) <-
         cache_input fuel (symbols_ (self_ this)) (input_cursor_ this)
                     (cache_ this) frame ;;
       cache <-
         (if advance_command_ (self_ this) then
            _ <- db_AdvanceCommand ;;
            mapM (mapM Reconstruct) cache
          else ret cache) ;;
       ret (mkAccumulateCursor (self_ this) input cache cache true, frame)
     else ret (this, frame)) ;;
  match cache_it_ this with
  | [] => ret (false, this, frame)
  | row :: rest =>
      ret (true,
           mkAccumulateCursor (self_ this) (input_cursor_ this)
                              (cache_ this) rest (pulled_all_input_ this),
           restore_symbols (symbols_ (self_ this)) row frame)
  end.

Definition Reset (this : AccumulateCursor) : Exception + AccumulateCursor :=
  match Cursor.Reset (input_cursor_ this) with
  | inl e => inl e
  | inr input => inr (mkAccumulateCursor (self_ this) input [] [] false)
  end.

Definition MakeCursor (self : Accumulate) (input : TInput)
  : AccumulateCursor :=
  mkAccumulateCursor self input [] [] false.

#[global] Instance Accumulate_Cursor : Cursor.Cursor Db AccumulateCursor :=
  Cursor.Build_Cursor Db AccumulateCursor Pull Reset.

End Accumulate.
End Accumulate.

(** *** Merge *)
Module Merge.
Section Merge.
Context {Db : Type} `{!GraphDbAccessor Db}.
Context {TInput : Type} `{!Cursor.Cursor Db TInput}.
Context {TMatch : Type} `{!Cursor.Cursor Db TMatch}.
Context {TCreate : Type} `{!Cursor.Cursor Db TCreate}.

Record MergeCursor := mkMergeCursor {
  input_cursor_ : TInput;
  merge_match_cursor_ : TMatch;
  merge_create_cursor_ : TCreate;
  pull_input_ : bool
}.

(** The part of [Pull] from "pull from the merge_match cursor" on;
    [again] is the recursive call [Pull(frame, context)]. *)
Definition pull_match
  (again : MergeCursor -> Frame -> M Db (bool * MergeCursor * Frame))
  (fuel : nat) (this : MergeCursor) (frame : Frame)
  : M Db (bool * MergeCursor * Frame) :=
  '(matched, merge_match, frame) <-
    Cursor.Pull fuel (merge_match_cursor_ this) frame ;;
  if matched then
    ret (true,
         mkMergeCursor (input_cursor_ this) merge_match
                       (merge_create_cursor_ this) false,
         frame)
  else if pull_input_ this then
    '(merge_create_pull_result, merge_create, frame) <-
      Cursor.Pull fuel (merge_create_cursor_ this) frame ;;
    ret (true,
         mkMergeCursor (input_cursor_ this) merge_match merge_create
                       (pull_input_ this),
         frame)
  else
    again (mkMergeCursor (input_cursor_ this) merge_match
                         (merge_create_cursor_ this) true)
          frame.

Fixpoint Pull (fuel : nat) (this : MergeCursor) (frame : Frame)
  : M Db (bool * MergeCursor * Frame) :=
  match fuel with
  | O => diverge
  | S fuel' =>
      if pull_input_ this then
        '(pulled, input, frame) <-
          Cursor.Pull fuel' (input_cursor_ this) frame ;;
        if pulled then
          merge_match <- lift (Cursor.Reset (merge_match_cursor_ this)) ;;
          merge_create <- lift (Cursor.Reset (merge_create_cursor_ this)) ;;
          pull_match (Pull fuel') fuel'
            (mkMergeCursor input merge_match merge_create (pull_input_ this))
            frame
        else
          ret (false,
               mkMergeCursor input (merge_match_cursor_ this)
                             (merge_create_cursor_ this) (pull_input_ this),
               frame)
      else pull_match (Pull fuel') fuel' this frame
  end.

Definition Reset (this : MergeCursor) : Exception + MergeCursor :=
  match Cursor.Reset (input_cursor_ this) with
  | inl e => inl e
  | inr input =>
      match Cursor.Reset (merge_match_cursor_ this) with
      | inl e => inl e
      | inr merge_match =>
          match Cursor.Reset (merge_create_cursor_ this) with
          | inl e => inl e
          | inr merge_create =>
              inr (mkMergeCursor input merge_match merge_create true)
          end
      end
  end.

Definition MakeCursor (input : TInput) (merge_match : TMatch)
  (merge_create : TCreate) : MergeCursor :=
  mkMergeCursor input merge_match merge_create true.

#[global] Instance Merge_Cursor : Cursor.Cursor Db MergeCursor :=
  Cursor.Build_Cursor Db MergeCursor Pull Reset.

End Merge.
End Merge.

(** *** Optional *)
Module Optional.
Section Optional.
Context {Db : Type} `{!GraphDbAccessor Db}.
Context {TInput : Type} `{!Cursor.Cursor Db TInput}.
Context {TOptional : Type} `{!Cursor.Cursor Db TOptional}.

Record Optional := mkOptional { optional_symbols_ : list Symbol }.

Record OptionalCursor := mkOptionalCursor {
  self_ : Optional;
  input_cursor_ : TInput;
  optional_cursor_ : TOptional;
  pull_input_ : bool
}.

Definition pull_optional
  (again : OptionalCursor -> Frame -> M Db (bool * OptionalCursor * Frame))
  (fuel : nat) (this : OptionalCursor) (frame : Frame)
  : M Db (bool * OptionalCursor * Frame) :=
  '(pulled, optional, frame) <-
    Cursor.Pull fuel (optional_cursor_ this) frame ;;
  if pulled then
    ret (true,
         mkOptionalCursor (self_ this) (input_cursor_ this) optional false,
         frame)
  else if pull_input_ this then
    ret (true,
         mkOptionalCursor (self_ this) (input_cursor_ this) optional true,
         fold_left (fun frame sym => frame_set sym Null frame)
                   (optional_symbols_ (self_ this)) frame)
  else
    again (mkOptionalCursor (self_ this) (input_cursor_ this) optional true)
          frame.

Fixpoint Pull (fuel : nat) (this : OptionalCursor) (frame : Frame)
  : M Db (bool * OptionalCursor * Frame) :=
  match fuel with
  | O => diverge
  | S fuel' =>
      if pull_input_ this then
        '(pulled, input, frame) <-
          Cursor.Pull fuel' (input_cursor_ this) frame ;;
        if pulled then
          optional <- lift (Cursor.Reset (optional_cursor_ this)) ;;
          pull_optional (Pull fuel') fuel'
            (mkOptionalCursor (self_ this) input optional (pull_input_ this))
            frame
        else
          ret (false,
               mkOptionalCursor (self_ this) input (optional_cursor_ this)
                                (pull_input_ this),
               frame)
      else pull_optional (Pull fuel') fuel' this frame
  end.

Definition Reset (this : OptionalCursor) : Exception + OptionalCursor :=
  match Cursor.Reset (input_cursor_ this) with
  | inl e => inl e
  | inr input =>
      match Cursor.Reset (optional_cursor_ this) with
      | inl e => inl e
      | inr optional => inr (mkOptionalCursor (self_ this) input optional true)
      end
  end.

Definition MakeCursor (self : Optional) (input : TInput)
  (optional : TOptional) : OptionalCursor :=
  mkOptionalCursor self input optional true.

#[global] Instance Optional_Cursor : Cursor.Cursor Db OptionalCursor :=
  Cursor.Build_Cursor Db OptionalCursor Pull Reset.

End Optional.
End Optional.

(** *** Delete *)
Module Delete.
Section Delete.
Context {Db : Type} `{!GraphDbAccessor Db}.
Context {TInput : Type} `{!Cursor.Cursor Db TInput}.

Record Delete := mkDelete {
  expressions_ : list (Expression Db);
  detach_ : bool
}.

Record DeleteCursor := mkDeleteCursor {
  self_ : Delete;
  input_cursor_ : TInput
}.

Definition db_RemoveEdge (edge : EdgeAccessor) : M Db unit :=
  _ <- log_call (CallRemoveEdge edge) ;;
  db <- get_db ;;
  db <- lift (RemoveEdge edge db) ;;
  set_db db.

Definition db_RemoveVertex (va : VertexAccessor) : M Db bool :=
  _ <- log_call (CallRemoveVertex va) ;;
  db <- get_db ;;
  '(removed, db) <- lift (RemoveVertex va db) ;;
  _ <- set_db db ;;
  ret removed.

Definition db_DetachRemoveVertex (va : VertexAccessor) : M Db unit :=
  _ <- log_call (CallDetachRemoveVertex va) ;;
  db <- get_db ;;
  db <- lift (DetachRemoveVertex va db) ;;
  set_db db.

(** The body of the first loop: delete edges first. *)
Definition delete_edge (expression_result : TypedValue) : M Db unit :=
  match expression_result with
  | Edge edge => db_RemoveEdge edge
  | _ => ret tt
  end.

(** The body of the second loop: delete vertices. *)
Definition delete_vertex (detach : bool) (expression_result : TypedValue)
  : M Db unit :=
  match expression_result with
  | Vertex va =>
      let va := SwitchAccessor va NEW in
      if detach then db_DetachRemoveVertex va
      else
        removed <- db_RemoveVertex va ;;
        if removed then ret tt
        else
          throw (QueryRuntimeException
                   ("Failed to remove vertex because of it's existing " ++
                    "connections. Consider using DETACH DELETE."))
  | Edge _ | Null => ret tt
  | _ => throw (QueryRuntimeException "Can only delete edges and vertices")
  end.

Definition Pull (fuel : nat) (this : DeleteCursor) (frame : Frame)
  : M Db (bool * DeleteCursor * Frame) :=
  '(pulled, input, frame) <- Cursor.Pull fuel (input_cursor_ this) frame ;;
  let this := mkDeleteCursor (self_ this) input in
  if negb pulled then ret (false, this, frame)
  else
    expression_results <-
      mapM (fun expression => Accept expression NEW frame)
           (expressions_ (self_ this)) ;;
    _ <- forM_ delete_edge expression_results ;;
    _ <- forM_ (delete_vertex (detach_ (self_ this))) expression_results ;;
    ret (true, this, frame).

Definition Reset (this : DeleteCursor) : Exception + DeleteCursor :=
  match Cursor.Reset (input_cursor_ this) with
  | inl e => inl e
  | inr input => inr (mkDeleteCursor (self_ this) input)
  end.

Definition MakeCursor (self : Delete) (input : TInput) : DeleteCursor :=
  mkDeleteCursor self input.

#[global] Instance Delete_Cursor : Cursor.Cursor Db DeleteCursor :=
  Cursor.Build_Cursor Db DeleteCursor Pull Reset.

End Delete.
End Delete.

(** *** Aggregate *)
Module Aggregation.
Inductive Op := COUNT | MIN | MAX | SUM | AVG | COLLECT_LIST | COLLECT_MAP.
End Aggregation.

Module Aggregate.

(** [AggregateCursor::AggregationValue]; its [remember_] member is
    [remember_values_] here, to keep it apart from [Aggregate::remember_]. *)
Record AggregationValue := mkAggregationValue {
  counts_ : list Z;
  values_ : list TypedValue;
  remember_values_ : list TypedValue
}.

Section Aggregate.
Context {Db : Type} `{!GraphDbAccessor Db} `{!TypedValueOps}.
Context {TInput : Type} `{!Cursor.Cursor Db TInput}.

(** [Aggregate::Element]; [value] is null for the count of rows, [key] is set
    for [COLLECT_MAP] only. *)
Record Element := mkElement {
  value : option (Expression Db);
  key : option (Expression Db);
  op : Aggregation.Op;
  output_sym : Symbol
}.

Record Aggregate := mkAggregate {
  aggregations_ : list Element;
  group_by_ : list (Expression Db);
  remember_ : list Symbol
}.

(** [aggregation_] is an unordered map keyed with
    [TypedValueVectorEqual]; it is kept as its entries in insertion
    order, and [aggregation_it_] as the entries still ahead of it. *)
Record AggregateCursor := mkAggregateCursor {
  self_ : Aggregate;
  input_cursor_ : TInput;
  aggregation_ : list (list TypedValue * AggregationValue);
  aggregation_it_ : list (list TypedValue * AggregationValue);
  pulled_all_input_ : bool
}.

Definition DefaultAggregationOpValue (element : Element) : TypedValue :=
  match op element with
  | Aggregation.COUNT => Int 0
  | Aggregation.SUM | Aggregation.MIN | Aggregation.MAX | Aggregation.AVG =>
      Null
  | Aggregation.COLLECT_LIST => List []
  | Aggregation.COLLECT_MAP => Map []
  end.

Definition EnsureOkForMinMax (value : TypedValue) : M Db unit :=
  match value with
  | Bool _ | Int _ | Double _ | String _ => ret tt
  | _ =>
      throw (QueryRuntimeException
               ("Only Bool, Int, Double and String values are allowed in " ++
                "MIN and MAX aggregations"))
  end.

Definition EnsureOkForAvgSum (value : TypedValue) : M Db unit :=
  match value with
  | Int _ | Double _ => ret tt
  | _ =>
      throw (QueryRuntimeException
               "Only numeric values allowed in SUM and AVG aggregations")
  end.

(** [catch (const TypedValueException &) { throw QueryRuntimeException }]. *)
Definition rethrow {A} (m : M Db A) (msg : string) : M Db A :=
  fun context =>
    match m context with
    | Throw TypedValueException context' =>
        Throw (QueryRuntimeException msg) context'
    | outcome => outcome
    end.

Definition ValueBool (v : TypedValue) : M Db bool :=
  match v with Bool b => ret b | _ => throw TypedValueException end.

Definition ValueList (v : TypedValue) : M Db (list TypedValue) :=
  match v with List l => ret l | _ => throw TypedValueException end.

Definition ValueMap (v : TypedValue) : M Db (list (string * TypedValue)) :=
  match v with Map m => ret m | _ => throw TypedValueException end.

(** [std::map::emplace]: the map is kept in the order of its keys, and
    an existing key keeps its value. *)
Fixpoint map_emplace (k : string) (v : TypedValue)
  (m : list (string * TypedValue)) : list (string * TypedValue) :=
  match m with
  | [] => [(k, v)]
  | (k', v') :: rest =>
      match String.compare k k' with
      | Lt => (k, v) :: m
      | Eq => m
      | Gt => (k', v') :: map_emplace k v rest
      end
  end.

Definition collect_map (frame : Frame) (element : Element)
  (input_value current : TypedValue) : M Db TypedValue :=
  match key element with
  | None => throw (UndefinedBehavior "null key expression")
  | Some key_expression =>
      k <- Accept key_expression NEW frame ;;
      match k with
      | String s =>
          m <- ValueMap current ;; ret (Map (map_emplace s input_value m))
      | _ => throw (QueryRuntimeException "Map key must be a string")
      end
  end.

(** One turn of the loop of [Update], for one aggregation element with
    its count and value. *)
Definition update_one (frame : Frame) (element : Element) (count : Z)
  (current : TypedValue) : M Db (Z * TypedValue) :=
  match value element with
  | None => ret (count + 1, Int (count + 1))
  | Some input_expr =>
      input_value <- Accept input_expr NEW frame ;;
      if IsNull input_value then ret (count, current)
      else
        let count := count + 1 in
        if count =? 1 then
          match op element with
          | Aggregation.MIN | Aggregation.MAX =>
              _ <- EnsureOkForMinMax input_value ;; ret (count, input_value)
          | Aggregation.SUM | Aggregation.AVG =>
              _ <- EnsureOkForAvgSum input_value ;; ret (count, input_value)
          | Aggregation.COUNT => ret (count, Int 1)
          | Aggregation.COLLECT_LIST =>
              l <- ValueList current ;; ret (count, List (l ++ [input_value]))
          | Aggregation.COLLECT_MAP =>
              m <- collect_map frame element input_value current ;;
              ret (count, m)
          end
        else
          match op element with
          | Aggregation.COUNT => ret (count, Int count)
          | Aggregation.MIN =>
              _ <- EnsureOkForMinMax input_value ;;
              smaller <-
                rethrow (comparison_result <-
                           lift (TypedValue_less input_value current) ;;
                         ValueBool comparison_result)
                        ("Unable to get MIN of '" ++
                         Type_name (type input_value) ++ "' and '" ++
                         Type_name (type current) ++ "'") ;;
              ret (count, if smaller then input_value else current)
          | Aggregation.MAX =>
              _ <- EnsureOkForMinMax input_value ;;
              greater <-
                rethrow (comparison_result <-
                           lift (TypedValue_greater input_value current) ;;
                         ValueBool comparison_result)
                        ("Unable to get MAX of '" ++
                         Type_name (type input_value) ++ "' and '" ++
                         Type_name (type current) ++ "'") ;;
              ret (count, if greater then input_value else current)
          | Aggregation.AVG | Aggregation.SUM =>
              _ <- EnsureOkForAvgSum input_value ;;
              total <- lift (TypedValue_plus current input_value) ;;
              ret (count, total)
          | Aggregation.COLLECT_LIST =>
              l <- ValueList current ;; ret (count, List (l ++ [input_value]))
          | Aggregation.COLLECT_MAP =>
              m <- collect_map frame element input_value current ;;
              ret (count, m)
          end
  end.

(** [Update]: the three vectors are walked together, as long as there
    are counts. *)
Fixpoint Update (frame : Frame) (elements : list Element) (counts : list Z)
  (values : list TypedValue) : M Db (list Z * list TypedValue) :=
  match counts, values, elements with
  | count :: counts', current :: values', element :: elements' =>
      '(count, current) <- update_one frame element count current ;;
      '(counts', values') <- Update frame elements' counts' values' ;;
      ret (count :: counts', current :: values')
  | _, _, _ => ret (counts, values)
  end.

Definition EnsureInitialized (self : Aggregate) (frame : Frame)
  (agg_value : AggregationValue) : AggregationValue :=
  if (0 <? length (values_ agg_value))%nat then agg_value
  else
    mkAggregationValue
      (resize (length (aggregations_ self)) 0 (counts_ agg_value))
      (values_ agg_value ++ map DefaultAggregationOpValue (aggregations_ self))
      (remember_values_ agg_value ++ map (frame_at frame) (remember_ self)).

(** Position of the entry of [aggregation_] with the given key. *)
Fixpoint find_group (group_by : list TypedValue)
  (aggregation : list (list TypedValue * AggregationValue)) : option nat :=
  match aggregation with
  | [] => None
  | (stored, _) :: rest =>
      if TypedValueVectorEqual group_by stored then Some O
      else option_map S (find_group group_by rest)
  end.

Definition ProcessOne (self : Aggregate) (frame : Frame)
  (aggregation : list (list TypedValue * AggregationValue))
  : M Db (list (list TypedValue * AggregationValue)) :=
  group_by <-
    mapM (fun expression => Accept expression NEW frame) (group_by_ self) ;;
  let '(pos, aggregation) :=
    match find_group group_by aggregation with
    | Some pos => (pos, aggregation)
    | None =>
        (length aggregation,
         aggregation ++ [(group_by, mkAggregationValue [] [] [])])
    end in
  match aggregation !! pos with
  | None => ret aggregation
  | Some (stored, agg_value) =>
      let agg_value := EnsureInitialized self frame agg_value in
      '(counts, values) <-
        Update frame (aggregations_ self) (counts_ agg_value)
               (values_ agg_value) ;;
      ret (<[pos := (stored,
                     mkAggregationValue counts values
                                        (remember_values_ agg_value))]>
             aggregation)
  end.

(** [while (input_cursor_->Pull(frame, context)) ProcessOne(...)]. *)
Fixpoint process_input (fuel : nat) (self : Aggregate) (input : TInput)
  (aggregation : list (list TypedValue * AggregationValue)) (frame : Frame)
  : M Db (TInput * list (list TypedValue * AggregationValue) * Frame) :=
  match fuel with
  | O => diverge
  | S fuel' =>
      '(pulled, input, frame) <- Cursor.Pull fuel' input frame ;;
      if pulled then
        aggregation <- ProcessOne self frame aggregation ;;
        process_input fuel' self input aggregation frame
      else ret (input, aggregation, frame)
  end.

(** The division of the sums by the counts, for the [AVG] at [pos]. *)
Definition average_at (pos : nat) (agg_value : AggregationValue)
  : M Db AggregationValue :=
  match counts_ agg_value !! pos, values_ agg_value !! pos with
  | Some count, Some total =>
      if 0 <? count then
        quotient <- lift (TypedValue_div_double total count) ;;
        ret (mkAggregationValue (counts_ agg_value)
                                (<[pos := quotient]> (values_ agg_value))
                                (remember_values_ agg_value))
      else ret agg_value
  | _, _ => ret agg_value
  end.

Fixpoint calculate_averages (elements : list Element) (pos : nat)
  (aggregation : list (list TypedValue * AggregationValue))
  : M Db (list (list TypedValue * AggregationValue)) :=
  match elements with
  | [] => ret aggregation
  | element :: elements' =>
      aggregation <-
        match op element with
        | Aggregation.AVG =>
            mapM (fun kv =>
                    agg_value <- average_at pos (snd kv) ;;
                    ret (fst kv, agg_value))
                 aggregation
        | _ => ret aggregation
        end ;;
      calculate_averages elements' (S pos) aggregation
  end.

Definition ProcessAll (fuel : nat) (this : AggregateCursor) (frame : Frame)
  : M Db (TInput * list (list TypedValue * AggregationValue) * Frame) :=
  '(input, aggregation, frame) <-
    process_input fuel (self_ this) (input_cursor_ this) (aggregation_ this)
                  frame ;;
  aggregation <-
    calculate_averages (aggregations_ (self_ this)) O aggregation ;;
  ret (input, aggregation, frame).

(** The tail of [Pull]: place the next group on the frame. *)
Definition next_group (this : AggregateCursor) (frame : Frame)
  : M Db (bool * AggregateCursor * Frame) :=
  match aggregation_it_ this with
  | [] => ret (false, this, frame)
  | (_, agg_value) :: rest =>
      let frame :=
        restore_symbols (map output_sym (aggregations_ (self_ this)))
                        (values_ agg_value) frame in
      let frame :=
        restore_symbols (remember_ (self_ this)) (remember_values_ agg_value)
                        frame in
      ret (true,
           mkAggregateCursor (self_ this) (input_cursor_ this)
                             (aggregation_ this) rest
                             (pulled_all_input_ this),
           frame)
  end.

Definition Pull (fuel : nat) (this : AggregateCursor) (frame : Frame)
  : M Db (bool * AggregateCursor * Frame) :=
  if negb (pulled_all_input_ this) then
    '(input, aggregation, frame) <- ProcessAll fuel this frame ;;
    let this :=
      mkAggregateCursor (self_ this) input aggregation aggregation true in
    match aggregation, group_by_ (self_ this) with
    | [], [] =>
        let frame :=
          fold_left
            (fun frame elem =>
               frame_set (output_sym elem) (DefaultAggregationOpValue elem)
                         frame)
            (aggregations_ (self_ this)) frame in
        let frame :=
          fold_left (fun frame remember_sym => frame_set remember_sym Null frame)
                    (remember_ (self_ this)) frame in
        ret (true, this, frame)
    | _, _ => next_group this frame
    end
  else next_group this frame.

Definition Reset (this : AggregateCursor) : Exception + AggregateCursor :=
  match Cursor.Reset (input_cursor_ this) with
  | inl e => inl e
  | inr input => inr (mkAggregateCursor (self_ this) input [] [] false)
  end.

Definition MakeCursor (self : Aggregate) (input : TInput) : AggregateCursor :=
  mkAggregateCursor self input [] [] false.

#[global] Instance Aggregate_Cursor : Cursor.Cursor Db AggregateCursor :=
  Cursor.Build_Cursor Db AggregateCursor Pull Reset.

End Aggregate.
End Aggregate.

(** [v.back()] together with the vector after [v.resize(v.size() - 1)]. *)
Definition pop_back {A} (v : list A) : option (list A * A) :=
  match last v with
  | Some x => Some (removelast v, x)
  | None => None
  end.

(** [for (i < frame.elems().size()) frame.elems()[i] = result[i]]. *)
Fixpoint overwrite_elems (elems result : list TypedValue)
  : list TypedValue :=
  match elems, result with
  | _ :: elems', value :: result' => value :: overwrite_elems elems' result'
  | _, _ => elems
  end.

(** *** Synchronize *)
Module Synchronize.
Section Synchronize.
Context {Db : Type} `{!GraphDbAccessor Db} `{!DistributedGraphDb Db}.
Context `{!TypedValueOps}.
Context {TInput : Type} `{!Cursor.Cursor Db TInput}.
Context {TPullRemote : Type} `{!Cursor.Cursor Db TPullRemote}.

Record Synchronize := mkSynchronize { advance_command_ : bool }.

(** [pull_remote_cursor_] is null when the plan has no [PullRemote]. *)
Record SynchronizeCursor := mkSynchronizeCursor {
  self_ : Synchronize;
  input_cursor_ : TInput;
  pull_remote_cursor_ : option TPullRemote;
  initial_pull_done_ : bool;
  local_frames_ : list (list TypedValue)
}.

(** "Accumulate local results": every element of the frame is moved
    into the new local frame. *)
Fixpoint accumulate_local (fuel : nat) (input : TInput)
  (local_frames : list (list TypedValue)) (frame : Frame)
  : M Db (TInput * list (list TypedValue) * Frame) :=
  match fuel with
  | O => diverge
  | S fuel' =>
      '(pulled, input, frame) <- Cursor.Pull fuel' input frame ;;
      if pulled then
        accumulate_local fuel' input (local_frames ++ [frame])
                         (map moved_from frame)
      else ret (input, local_frames, frame)
  end.

Definition check_accumulation (pull_state : RemotePullState.t) : M Db unit :=
  match pull_state with
  | RemotePullState.CURSOR_EXHAUSTED => ret tt
  | RemotePullState.CURSOR_IN_PROGRESS =>
      throw (QueryRuntimeException
               "Expected exhausted cursor after remote pull accumulate")
  | RemotePullState.SERIALIZATION_ERROR =>
      throw (SerializationError
               "Failed to perform remote accumulate due to SerializationError")
  | RemotePullState.UPDATE_DELETED_ERROR =>
      throw (QueryRuntimeException
               "Failed to perform remote accumulate due to RecordDeletedError")
  | RemotePullState.LOCK_TIMEOUT_ERROR =>
      throw (LockTimeoutException
               ("Failed to perform remote accumulate due to " ++
                "LockTimeoutException"))
  | RemotePullState.RECONSTRUCTION_ERROR =>
      throw (QueryRuntimeException
               "Failed to perform remote accumulate due to ReconstructionError")
  | RemotePullState.QUERY_ERROR =>
      throw (QueryRuntimeException
               "Failed to perform remote accumulate due to Query runtime error")
  end.

Definition check_apply (result : RemoteUpdateResult.t) : M Db unit :=
  match result with
  | RemoteUpdateResult.SERIALIZATION_ERROR =>
      throw (SerializationError
               "Failed to apply deferred updates due to SerializationError")
  | RemoteUpdateResult.UPDATE_DELETED_ERROR =>
      throw (QueryRuntimeException
               "Failed to apply deferred updates due to RecordDeletedError")
  | RemoteUpdateResult.LOCK_TIMEOUT_ERROR =>
      throw (LockTimeoutException
               "Failed to apply deferred update due to LockTimeoutException")
  | RemoteUpdateResult.DONE => ret tt
  end.

(** The workers told to accumulate: all but this one, and only when
    there is a remote pull. *)
Definition accumulating_workers (this : SynchronizeCursor) (db : Db)
  : list nat :=
  match pull_remote_cursor_ this with
  | Some _ =>
      List.filter (fun worker_id => negb (Nat.eqb worker_id (WorkerId db)))
                  (GetWorkerIds db)
  | None => []
  end.

(** The two synchronisation points of [InitialPull], after the local
    results have been accumulated. *)
Definition await_and_apply (self : Synchronize) (workers : list nat)
  : M Db unit :=
  db <- get_db ;;
  _ <- forM_ (fun worker_id =>
                check_accumulation (RemotePull_accumulate db worker_id))
             workers ;;
  _ <- (if advance_command_ self then db_AdvanceCommand else ret tt) ;;
  _ <- log_call CallRemoteUpdateApplyAll ;;
  db <- get_db ;;
  let apply_futures := RemoteUpdateApplyAll db in
  _ <- log_call CallUpdatesServerApply ;;
  _ <- set_db (updates_server_Apply db) ;;
  _ <- forM_ check_apply apply_futures ;;
  if advance_command_ self
  then log_call CallNotifyAllTransactionCommandAdvanced
  else ret tt.

Definition InitialPull (fuel : nat) (this : SynchronizeCursor)
  (frame : Frame) : M Db (TInput * list (list TypedValue) * Frame) :=
  db <- get_db ;;
  let workers := accumulating_workers this db in
  _ <- forM_ (fun worker_id => log_call (CallRemotePullAccumulate worker_id))
             workers ;;
  '(input, local_frames, frame) <-
    accumulate_local fuel (input_cursor_ this) (local_frames_ this) frame ;;
  _ <- await_and_apply (self_ this) workers ;;
  ret (input, local_frames, frame).

Definition Pull (fuel : nat) (this : SynchronizeCursor) (frame : Frame)
  : M Db (bool * SynchronizeCursor * Frame) :=
  '(this, frame) <-
    (if negb (initial_pull_done_ this) then
       '(input, local_frames, frame) <- InitialPull fuel this frame ;;
       ret (mkSynchronizeCursor (self_ this) input (pull_remote_cursor_ this)
                                true local_frames,
            frame)
     else ret (this, frame)) ;;
  match pop_back (local_frames_ this) with
  | Some (local_frames, result) =>
      let result := take (length frame) result in
      result <-
        (if advance_command_ (self_ this) then mapM Reconstruct result
         else ret result) ;;
      ret (true,
           mkSynchronizeCursor (self_ this) (input_cursor_ this)
                               (pull_remote_cursor_ this)
                               (initial_pull_done_ this) local_frames,
           overwrite_elems frame result)
  | None =>
      match pull_remote_cursor_ this with
      | Some pull_remote =>
          '(pulled, pull_remote, frame) <- Cursor.Pull fuel pull_remote frame ;;
          ret (pulled,
               mkSynchronizeCursor (self_ this) (input_cursor_ this)
                                   (Some pull_remote)
                                   (initial_pull_done_ this)
                                   (local_frames_ this),
               frame)
      | None => ret (false, this, frame)
      end
  end.

Definition Reset (this : SynchronizeCursor) : Exception + SynchronizeCursor :=
  inl (QueryRuntimeException "Unsupported: Reset during Synchronize!").

Definition MakeCursor (self : Synchronize) (input : TInput)
  (pull_remote : option TPullRemote) : SynchronizeCursor :=
  mkSynchronizeCursor self input pull_remote false [].

#[global] Instance Synchronize_Cursor : Cursor.Cursor Db SynchronizeCursor :=
  Cursor.Build_Cursor Db SynchronizeCursor Pull Reset.

End Synchronize.
End Synchronize.

(** *** ScanAll

    [ScanAllCursor] is a template over the function that yields the
    vertices for the row just pulled; [vertices_it_] is kept as the
    vertices still ahead of it. *)
Module ScanAll.
Section ScanAll.
Context {Db : Type} `{!GraphDbAccessor Db}.
Context {TInput : Type} `{!Cursor.Cursor Db TInput}.

Record ScanAllCursor := mkScanAllCursor {
  output_symbol_ : Symbol;
  input_cursor_ : TInput;
  get_vertices_ : Frame -> M Db (list VertexAccessor);
  vertices_ : option (list VertexAccessor);
  vertices_it_ : option (list VertexAccessor)
}.

Definition at_end (this : ScanAllCursor) : bool :=
  match vertices_ this, vertices_it_ this with
  | Some _, Some (_ :: _) => false
  | _, _ => true
  end.

Definition Pull (fuel : nat) (this : ScanAllCursor) (frame : Frame)
  : M Db (bool * ScanAllCursor * Frame) :=
  _ <- check_abort ;;
  '(exhausted, this, frame) <-
    (if at_end this then
       '(pulled, input, frame) <-
         Cursor.Pull fuel (input_cursor_ this) frame ;;
       if negb pulled then
         ret (true,
              mkScanAllCursor (output_symbol_ this) input (get_vertices_ this)
                              (vertices_ this) (vertices_it_ this),
              frame)
       else
         vertices <- get_vertices_ this frame ;;
         ret (false,
              mkScanAllCursor (output_symbol_ this) input (get_vertices_ this)
                              (Some vertices) (Some vertices),
              frame)
     else ret (false, this, frame)) ;;
  if (exhausted : bool) then ret (false, this, frame)
  else
    match vertices_it_ this with
    | Some (vertex :: rest) =>
        ret (true,
             mkScanAllCursor (output_symbol_ this) (input_cursor_ this)
                             (get_vertices_ this) (vertices_ this) (Some rest),
             frame_set (output_symbol_ this) (Vertex vertex) frame)
    | _ => ret (false, this, frame)
    end.

Definition Reset (this : ScanAllCursor) : Exception + ScanAllCursor :=
  match Cursor.Reset (input_cursor_ this) with
  | inl e => inl e
  | inr input =>
      inr (mkScanAllCursor (output_symbol_ this) input (get_vertices_ this)
                           None None)
  end.

(** [ScanAll::MakeCursor]: all vertices of the chosen view. *)
Definition MakeCursor (output_symbol : Symbol) (graph_view : GraphView)
  (input : TInput) : ScanAllCursor :=
  mkScanAllCursor output_symbol input
    (fun _ =>
       db <- get_db ;;
       ret (Vertices db (match graph_view with NEW => true | _ => false end)))
    None None.

#[global] Instance ScanAll_Cursor : Cursor.Cursor Db ScanAllCursor :=
  Cursor.Build_Cursor Db ScanAllCursor Pull Reset.

End ScanAll.
End ScanAll.

(** *** ScanAllByLabelPropertyValue *)
Module ScanAllByLabelPropertyValue.
Section ScanAllByLabelPropertyValue.
Context {Db : Type} `{!GraphDbAccessor Db}.
Context {TInput : Type} `{!Cursor.Cursor Db TInput}.

Record ScanAllByLabelPropertyValue := mkScanAllByLabelPropertyValue {
  output_symbol : Symbol;
  label : nat;
  property : nat;
  expression : Expression Db;
  graph_view : GraphView
}.

Record ScanAllByLabelPropertyValueCursor :=
  mkScanAllByLabelPropertyValueCursor {
  self_ : ScanAllByLabelPropertyValue;
  input_cursor_ : TInput;
  vertices_ : option (list VertexAccessor);
  vertices_it_ : option (list VertexAccessor)
}.

Definition at_end (this : ScanAllByLabelPropertyValueCursor) : bool :=
  match vertices_ this, vertices_it_ this with
  | Some _, Some (_ :: _) => false
  | _, _ => true
  end.

(** [db_.Vertices(label, property, value, ...)] under its [try]. *)
Definition vertices_for (self : ScanAllByLabelPropertyValue)
  (value : TypedValue) : M Db (list VertexAccessor) :=
  db <- get_db ;;
  match VerticesByValue db (label self) (property self) value
          (match graph_view self with NEW => true | _ => false end) with
  | inr vertices => ret vertices
  | inl TypedValueException =>
      throw (QueryRuntimeException
               ("'" ++ Type_name (type value) ++
                "' cannot be used as a property value."))
  | inl e => throw e
  end.

(** The tail of [Pull], from the second test of the iterator on. *)
Definition next_vertex (this : ScanAllByLabelPropertyValueCursor)
  (frame : Frame) : M Db (bool * ScanAllByLabelPropertyValueCursor * Frame) :=
  match vertices_it_ this with
  | Some (vertex :: rest) =>
      ret (true,
           mkScanAllByLabelPropertyValueCursor
             (self_ this) (input_cursor_ this) (vertices_ this) (Some rest),
           frame_set (output_symbol (self_ this)) (Vertex vertex) frame)
  | _ => ret (false, this, frame)
  end.

Fixpoint Pull (fuel : nat) (this : ScanAllByLabelPropertyValueCursor)
  (frame : Frame) : M Db (bool * ScanAllByLabelPropertyValueCursor * Frame) :=
  match fuel with
  | O => diverge
  | S fuel' =>
      _ <- check_abort ;;
      if at_end this then
        '(pulled, input, frame) <-
          Cursor.Pull fuel' (input_cursor_ this) frame ;;
        let this :=
          mkScanAllByLabelPropertyValueCursor
            (self_ this) input (vertices_ this) (vertices_it_ this) in
        if negb pulled then ret (false, this, frame)
        else
          value <-
            Accept (expression (self_ this)) (graph_view (self_ this)) frame ;;
          if IsNull value then Pull fuel' this frame
          else
            vertices <- vertices_for (self_ this) value ;;
            next_vertex
              (mkScanAllByLabelPropertyValueCursor
                 (self_ this) input (Some vertices) (Some vertices))
              frame
      else next_vertex this frame
  end.

Definition Reset (this : ScanAllByLabelPropertyValueCursor)
  : Exception + ScanAllByLabelPropertyValueCursor :=
  match Cursor.Reset (input_cursor_ this) with
  | inl e => inl e
  | inr input =>
      inr (mkScanAllByLabelPropertyValueCursor (self_ this) input None None)
  end.

Definition MakeCursor (self : ScanAllByLabelPropertyValue) (input : TInput)
  : ScanAllByLabelPropertyValueCursor :=
  mkScanAllByLabelPropertyValueCursor self input None None.

#[global] Instance ScanAllByLabelPropertyValue_Cursor
  : Cursor.Cursor Db ScanAllByLabelPropertyValueCursor :=
  Cursor.Build_Cursor Db ScanAllByLabelPropertyValueCursor Pull Reset.

End ScanAllByLabelPropertyValue.
End ScanAllByLabelPropertyValue.

(** *** Expansion: what [Expand] and [ExpandVariable] share *)
Module EdgeAtom.
Inductive Direction := IN | OUT | BOTH.
End EdgeAtom.

Module ExpandCommon.
Section ExpandCommon.
Context {Db : Type} `{!GraphDbAccessor Db}.

Record ExpandCommon := mkExpandCommon {
  node_symbol_ : Symbol;
  edge_symbol_ : Symbol;
  direction_ : EdgeAtom.Direction;
  edge_types_ : list nat;
  input_symbol_ : Symbol;
  existing_node_ : bool;
  graph_view_ : GraphView
}.

Definition ValueVertex (v : TypedValue) : M Db VertexAccessor :=
  match v with Vertex va => ret va | _ => throw TypedValueException end.

Definition ValueEdge (v : TypedValue) : M Db EdgeAccessor :=
  match v with Edge ea => ret ea | _ => throw TypedValueException end.

Definition ValueList (v : TypedValue) : M Db (list TypedValue) :=
  match v with List l => ret l | _ => throw TypedValueException end.

Definition HandleExistingNode (self : ExpandCommon)
  (new_node : VertexAccessor) (frame : Frame) : M Db (bool * Frame) :=
  if existing_node_ self then
    let old_node_value := frame_at frame (node_symbol_ self) in
    if IsNull old_node_value then ret (false, frame)
    else
      _ <- ExpectType (node_symbol_ self) old_node_value TVertex ;;
      old_node <- ValueVertex old_node_value ;;
      ret (VertexAccessor_eqb old_node new_node, frame)
  else ret (true, frame_set (node_symbol_ self) (Vertex new_node) frame).

End ExpandCommon.
End ExpandCommon.

(** *** Expand *)
Module Expand.
Import ExpandCommon.

(** A pending remote expansion: the pair the asynchronous task is going
    to deliver, and the frame it was spawned on. *)
Record FutureExpand := mkFutureExpand {
  edge_to : EdgeAccessor * VertexAccessor;
  frame_elems : list TypedValue
}.

Section Expand.
Context {Db : Type} `{!GraphDbAccessor Db}.
Context {TInput : Type} `{!Cursor.Cursor Db TInput}.

(** The edge iterators are kept as the edges still ahead of them. *)
Record ExpandCursor := mkExpandCursor {
  self_ : ExpandCommon;
  input_cursor_ : TInput;
  in_edges_ : option (list EdgeAccessor);
  in_edges_it_ : option (list EdgeAccessor);
  out_edges_ : option (list EdgeAccessor);
  out_edges_it_ : option (list EdgeAccessor);
  future_expands_ : list FutureExpand;
  last_frame_ : list TypedValue
}.

(** [utils::IsFutureReady]: the next answer of the context. *)
Definition IsFutureReady : M Db bool :=
  fun context =>
    match future_ready context with
    | [] => Ok false context
    | ready :: rest =>
        Ok ready (mkContext (db_accessor_ context) (eval_log context)
                            (db_log context) rest)
    end.

(** [find_ready_future]: the futures before the first ready one, that
    one, and those after it. *)
Fixpoint find_ready_future (futures : list FutureExpand)
  : M Db (option (list FutureExpand * FutureExpand * list FutureExpand)) :=
  match futures with
  | [] => ret None
  | future :: rest =>
      ready <- IsFutureReady ;;
      if ready then ret (Some ([], future, rest))
      else
        found <- find_ready_future rest ;;
        ret (match found with
             | Some (before, it, after) => Some (future :: before, it, after)
             | None => None
             end)
  end.

Definition put_future_edge_on_frame (self : ExpandCommon)
  (future : FutureExpand) : Frame :=
  frame_set (node_symbol_ self) (Vertex (snd (edge_to future)))
    (frame_set (edge_symbol_ self) (Edge (fst (edge_to future)))
       (frame_elems future)).

Definition pull_node (self : ExpandCommon) (new_edge : EdgeAccessor)
  (direction : EdgeAtom.Direction) (frame : Frame) : Frame :=
  if existing_node_ self then frame
  else
    match direction with
    | EdgeAtom.IN => frame_set (node_symbol_ self) (Vertex (from new_edge)) frame
    | EdgeAtom.OUT => frame_set (node_symbol_ self) (Vertex (to new_edge)) frame
    | EdgeAtom.BOTH => frame
    end.

Definition push_future_edge (edge : EdgeAccessor)
  (direction : EdgeAtom.Direction) (frame : Frame) : FutureExpand :=
  mkFutureExpand
    (edge, match direction with EdgeAtom.IN => from edge | _ => to edge end)
    frame.

Definition is_local (db : Db) (edge : EdgeAccessor) : bool :=
  Nat.eqb (worker_id (edge_address edge)) (WorkerId db).

(** The edges to iterate for one direction in [InitEdges]: with an
    existing node that is null nothing is emplaced, and the iterator is
    then taken from whatever the optional held. *)
Definition init_direction (self : ExpandCommon) (frame : Frame)
  (all : list EdgeAccessor)
  (between : VertexAccessor -> list EdgeAccessor)
  (edges : option (list EdgeAccessor))
  : M Db (option (list EdgeAccessor) * option (list EdgeAccessor)) :=
  edges <-
    (if existing_node_ self then
       let existing_node := frame_at frame (node_symbol_ self) in
       if negb (IsNull existing_node) then
         _ <- ExpectType (node_symbol_ self) existing_node TVertex ;;
         existing <- ValueVertex existing_node ;;
         ret (Some (between existing))
       else ret edges
     else ret (Some all)) ;;
  match edges with
  | Some begin => ret (edges, Some begin)
  | None => throw (UndefinedBehavior "begin() of an empty optional")
  end.

Fixpoint InitEdges (fuel : nat) (this : ExpandCursor) (frame : Frame)
  : M Db (bool * ExpandCursor * Frame) :=
  match fuel with
  | O => diverge
  | S fuel' =>
      '(pulled, input, frame) <-
        Cursor.Pull fuel' (input_cursor_ this) frame ;;
      let this :=
        mkExpandCursor (self_ this) input (in_edges_ this)
                       (in_edges_it_ this) (out_edges_ this)
                       (out_edges_it_ this) (future_expands_ this)
                       (last_frame_ this) in
      if negb pulled then ret (false, this, frame)
      else
        let vertex_value := frame_at frame (input_symbol_ (self_ this)) in
        if IsNull vertex_value then InitEdges fuel' this frame
        else
          _ <- ExpectType (input_symbol_ (self_ this)) vertex_value TVertex ;;
          vertex <- ValueVertex vertex_value ;;
          let vertex := SwitchAccessor vertex (graph_view_ (self_ this)) in
          let frame :=
            frame_set (input_symbol_ (self_ this)) (Vertex vertex) frame in
          db <- get_db ;;
          let direction := direction_ (self_ this) in
          '(in_edges, in_edges_it) <-
            match direction with
            | EdgeAtom.IN | EdgeAtom.BOTH =>
                init_direction (self_ this) frame
                  (vertex_in db vertex (edge_types_ (self_ this)))
                  (fun existing =>
                     vertex_in_from db vertex existing
                                    (edge_types_ (self_ this)))
                  (in_edges_ this)
            | EdgeAtom.OUT => ret (in_edges_ this, in_edges_it_ this)
            end ;;
          '(out_edges, out_edges_it) <-
            match direction with
            | EdgeAtom.OUT | EdgeAtom.BOTH =>
                init_direction (self_ this) frame
                  (vertex_out db vertex (edge_types_ (self_ this)))
                  (fun existing =>
                     vertex_out_to db vertex existing
                                   (edge_types_ (self_ this)))
                  (out_edges_ this)
            | EdgeAtom.IN => ret (out_edges_ this, out_edges_it_ this)
            end ;;
          ret (true,
               mkExpandCursor (self_ this) input in_edges in_edges_it
                              out_edges out_edges_it (future_expands_ this)
                              (last_frame_ this),
               frame)
  end.

(** The next edge of an iterator, when its iterable is set and it is not
    at the end. *)
Definition next_edge (edges edges_it : option (list EdgeAccessor))
  : option (EdgeAccessor * list EdgeAccessor) :=
  match edges, edges_it with
  | Some _, Some (edge :: rest) => Some (edge, rest)
  | _, _ => None
  end.

Fixpoint Pull (fuel : nat) (this : ExpandCursor) (frame : Frame)
  : M Db (bool * ExpandCursor * Frame) :=
  match fuel with
  | O => diverge
  | S fuel' =>
      _ <- check_abort ;;
      future_it <- find_ready_future (future_expands_ this) ;;
      match future_it with
      | Some (before, future, after) =>
          let last_frame :=
            match last_frame_ this with [] => frame | saved => saved end in
          ret (true,
               mkExpandCursor (self_ this) (input_cursor_ this)
                              (in_edges_ this) (in_edges_it_ this)
                              (out_edges_ this) (out_edges_it_ this)
                              (before ++ after) last_frame,
               put_future_edge_on_frame (self_ this) future)
      | None =>
          let frame :=
            match last_frame_ this with [] => frame | saved => saved end in
          match next_edge (in_edges_ this) (in_edges_it_ this) with
          | Some (edge, rest) =>
              db <- get_db ;;
              if is_local db edge || existing_node_ (self_ this) then
                ret (true,
                     mkExpandCursor (self_ this) (input_cursor_ this)
                                    (in_edges_ this) (Some rest)
                                    (out_edges_ this) (out_edges_it_ this)
                                    (future_expands_ this) [],
                     pull_node (self_ this) edge EdgeAtom.IN
                       (frame_set (edge_symbol_ (self_ this)) (Edge edge)
                                  frame))
              else
                Pull fuel'
                  (mkExpandCursor (self_ this) (input_cursor_ this)
                     (in_edges_ this) (Some rest) (out_edges_ this)
                     (out_edges_it_ this)
                     (future_expands_ this ++
                      [push_future_edge edge EdgeAtom.IN frame])
                     [])
                  frame
          | None =>
              match next_edge (out_edges_ this) (out_edges_it_ this) with
              | Some (edge, rest) =>
                  db <- get_db ;;
                  let skip_cycle :=
                    match direction_ (self_ this) with
                    | EdgeAtom.BOTH => is_cycle edge
                    | _ => false
                    end in
                  if skip_cycle then
                    Pull fuel'
                      (mkExpandCursor (self_ this) (input_cursor_ this)
                         (in_edges_ this) (in_edges_it_ this)
                         (out_edges_ this) (Some rest)
                         (future_expands_ this) [])
                      frame
                  else if is_local db edge || existing_node_ (self_ this) then
                    ret (true,
                         mkExpandCursor (self_ this) (input_cursor_ this)
                                        (in_edges_ this) (in_edges_it_ this)
                                        (out_edges_ this) (Some rest)
                                        (future_expands_ this) [],
                         pull_node (self_ this) edge EdgeAtom.OUT
                           (frame_set (edge_symbol_ (self_ this)) (Edge edge)
                                      frame))
                  else
                    Pull fuel'
                      (mkExpandCursor (self_ this) (input_cursor_ this)
                         (in_edges_ this) (in_edges_it_ this)
                         (out_edges_ this) (Some rest)
                         (future_expands_ this ++
                          [push_future_edge edge EdgeAtom.OUT frame])
                         [])
                      frame
              | None =>
                  '(initialized, this, frame) <-
                    InitEdges fuel'
                      (mkExpandCursor (self_ this) (input_cursor_ this)
                         (in_edges_ this) (in_edges_it_ this)
                         (out_edges_ this) (out_edges_it_ this)
                         (future_expands_ this) [])
                      frame ;;
                  if (initialized : bool) then Pull fuel' this frame
                  else
                    match future_expands_ this with
                    | [] => ret (false, this, frame)
                    | _ =>
                        future_it <-
                          find_ready_future (future_expands_ this) ;;
                        match future_it with
                        | Some (before, future, after) =>
                            ret (true,
                                 mkExpandCursor (self_ this)
                                   (input_cursor_ this) (in_edges_ this)
                                   (in_edges_it_ this) (out_edges_ this)
                                   (out_edges_it_ this) (before ++ after)
                                   (last_frame_ this),
                                 put_future_edge_on_frame (self_ this) future)
                        | None => Pull fuel' this frame
                        end
                    end
              end
          end
      end
  end.

Definition Reset (this : ExpandCursor) : Exception + ExpandCursor :=
  match Cursor.Reset (input_cursor_ this) with
  | inl e => inl e
  | inr input =>
      inr (mkExpandCursor (self_ this) input None None None None [] [])
  end.

Definition MakeCursor (self : ExpandCommon) (input : TInput) : ExpandCursor :=
  mkExpandCursor self input None None None None [] [].

#[global] Instance Expand_Cursor : Cursor.Cursor Db ExpandCursor :=
  Cursor.Build_Cursor Db ExpandCursor Pull Reset.

End Expand.
End Expand.

(** *** ExpandVariable, depth first *)
Module ExpandVariable.
Section ExpandVariable.
Context {Db : Type}.

Record Lambda := mkLambda {
  inner_edge_symbol : Symbol;
  inner_node_symbol : Symbol;
  expression : option (Expression Db)
}.

(** The bounds are optional in the operator. *)
Record ExpandVariable := mkExpandVariable {
  common : @ExpandCommon.ExpandCommon;
  is_reverse_ : bool;
  lower_bound_ : option (Expression Db);
  upper_bound_ : option (Expression Db);
  filter_lambda_ : Lambda
}.

End ExpandVariable.
End ExpandVariable.

Definition int64_max : Z := 9223372036854775807.

Module ExpandVariableCursor.
Import ExpandCommon.
Section ExpandVariableCursor.
Context {Db : Type} `{!GraphDbAccessor Db}.
Context {TInput : Type} `{!Cursor.Cursor Db TInput}.

(** [edges_] and [edges_it_] are kept as one stack, top first: each
    level holds the pairs still ahead of its iterator. *)
Record ExpandVariableCursor := mkExpandVariableCursor {
  self_ : @ExpandVariable.ExpandVariable Db;
  input_cursor_ : TInput;
  upper_bound_ : Z;
  lower_bound_ : Z;
  edges_ : list (list (EdgeAccessor * EdgeAtom.Direction))
}.

Definition ExpandFromVertex (db : Db) (vertex : VertexAccessor)
  (direction : EdgeAtom.Direction) (edge_types : list nat)
  : list (EdgeAccessor * EdgeAtom.Direction) :=
  (match direction with
   | EdgeAtom.OUT => []
   | _ =>
       if (0 <? in_degree db vertex)%nat then
         map (fun edge => (edge, EdgeAtom.IN)) (vertex_in db vertex edge_types)
       else []
   end) ++
  (match direction with
   | EdgeAtom.IN => []
   | _ =>
       if (0 <? out_degree db vertex)%nat then
         map (fun edge => (edge, EdgeAtom.OUT))
             (vertex_out db vertex edge_types)
       else []
   end).

(** [EvaluateInt] under the check of [calc_bound]. *)
Definition calc_bound (bound : Expression Db) (frame : Frame) : M Db Z :=
  value <- Accept bound AS_IS frame ;;
  match value with
  | Int value =>
      if value <? 0 then
        throw (QueryRuntimeException
                 "Variable expansion bound must be positive or zero")
      else ret value
  | _ => throw (QueryRuntimeException "Variable expansion bound must be an int")
  end.

Fixpoint PullInput (fuel : nat) (this : ExpandVariableCursor) (frame : Frame)
  : M Db (bool * ExpandVariableCursor * Frame) :=
  match fuel with
  | O => diverge
  | S fuel' =>
      '(pulled, input, frame) <-
        Cursor.Pull fuel' (input_cursor_ this) frame ;;
      let this :=
        mkExpandVariableCursor (self_ this) input (upper_bound_ this)
                               (lower_bound_ this) (edges_ this) in
      let self := ExpandVariable.common (self_ this) in
      if negb pulled then ret (false, this, frame)
      else
        let vertex_value := frame_at frame (input_symbol_ self) in
        if IsNull vertex_value then PullInput fuel' this frame
        else
          _ <- ExpectType (input_symbol_ self) vertex_value TVertex ;;
          vertex <- ValueVertex vertex_value ;;
          let vertex := SwitchAccessor vertex (graph_view_ self) in
          let frame := frame_set (input_symbol_ self) (Vertex vertex) frame in
          lower_bound <-
            match ExpandVariable.lower_bound_ (self_ this) with
            | Some bound => calc_bound bound frame
            | None => ret 1
            end ;;
          upper_bound <-
            match ExpandVariable.upper_bound_ (self_ this) with
            | Some bound => calc_bound bound frame
            | None => ret int64_max
            end ;;
          db <- get_db ;;
          let vertex := SwitchAccessor vertex (graph_view_ self) in
          let frame :=
            if 0 <? upper_bound
            then frame_set (input_symbol_ self) (Vertex vertex) frame
            else frame in
          let edges :=
            if 0 <? upper_bound then
              ExpandFromVertex db vertex (direction_ self) (edge_types_ self)
              :: edges_ this
            else edges_ this in
          ret (true,
               mkExpandVariableCursor (self_ this) input upper_bound
                                      lower_bound edges,
               frame_set (edge_symbol_ self) (List []) frame)
  end.

(** [AppendEdge], given the size of [edges_]. *)
Definition AppendEdge (is_reverse : bool) (depth : nat)
  (new_edge : EdgeAccessor) (edges_on_frame : list TypedValue)
  : list TypedValue :=
  if is_reverse then
    let diff :=
      (length edges_on_frame - Nat.min (length edges_on_frame) (depth - 1))%nat
    in
    Edge new_edge :: drop diff edges_on_frame
  else
    take (Nat.min (length edges_on_frame) (depth - 1)) edges_on_frame
    ++ [Edge new_edge].

(** The shrinking of the list on the frame at the head of [Expand]. *)
Definition shrink (is_reverse : bool) (depth : nat)
  (edges_on_frame : list TypedValue) : list TypedValue :=
  if is_reverse then
    drop (length edges_on_frame - Nat.min (length edges_on_frame) depth)%nat
         edges_on_frame
  else take (Nat.min (length edges_on_frame) depth) edges_on_frame.

(** [std::any_of] with the edge-uniqueness predicate. *)
Fixpoint found_existing (current_edge : EdgeAccessor)
  (edges_on_frame : list TypedValue) : M Db bool :=
  match edges_on_frame with
  | [] => ret false
  | value :: rest =>
      edge <- ValueEdge value ;;
      if EdgeAccessor_eqb current_edge edge then ret true
      else found_existing current_edge rest
  end.

(** "pop from the stack while there is stuff to pop and the current
    level is exhausted". *)
Fixpoint pop_exhausted (edges : list (list (EdgeAccessor * EdgeAtom.Direction)))
  : list (list (EdgeAccessor * EdgeAtom.Direction)) :=
  match edges with
  | [] :: below => pop_exhausted below
  | _ => edges
  end.

Fixpoint Expand (fuel : nat) (this : ExpandVariableCursor) (frame : Frame)
  : M Db (bool * ExpandVariableCursor * Frame) :=
  match fuel with
  | O => diverge
  | S fuel' =>
      let self := ExpandVariable.common (self_ this) in
      let with_edges edges :=
        mkExpandVariableCursor (self_ this) (input_cursor_ this)
                               (upper_bound_ this) (lower_bound_ this) edges in
      match pop_exhausted (edges_ this) with
      | [] => ret (false, with_edges [], frame)
      | [] :: _ => ret (false, with_edges [], frame)
      | (current_edge :: level) :: below =>
          let depth := S (length below) in
          edges_on_frame <- ValueList (frame_at frame (edge_symbol_ self)) ;;
          let edges_on_frame :=
            shrink (ExpandVariable.is_reverse_ (self_ this)) depth
                   edges_on_frame in
          let frame :=
            frame_set (edge_symbol_ self) (List edges_on_frame) frame in
          let this := with_edges (level :: below) in
          existing <- found_existing (fst current_edge) edges_on_frame ;;
          if (existing : bool) then Expand fuel' this frame
          else
            let edges_on_frame :=
              AppendEdge (ExpandVariable.is_reverse_ (self_ this)) depth
                         (fst current_edge) edges_on_frame in
            let frame :=
              frame_set (edge_symbol_ self) (List edges_on_frame) frame in
            let current_vertex :=
              match snd current_edge with
              | EdgeAtom.IN => from (fst current_edge)
              | _ => to (fst current_edge)
              end in
            '(accepted, frame) <-
              HandleExistingNode self current_vertex frame ;;
            if negb accepted then Expand fuel' this frame
            else
              let filter_lambda := ExpandVariable.filter_lambda_ (self_ this) in
              let frame :=
                frame_set (ExpandVariable.inner_edge_symbol filter_lambda)
                          (Edge (fst current_edge)) frame in
              let frame :=
                frame_set (ExpandVariable.inner_node_symbol filter_lambda)
                          (Vertex current_vertex) frame in
              keep <-
                match ExpandVariable.expression filter_lambda with
                | Some filter => EvaluateFilter (graph_view_ self) filter frame
                | None => ret true
                end ;;
              if negb keep then Expand fuel' this frame
              else
                db <- get_db ;;
                let this :=
                  if Z.of_nat depth <? upper_bound_ this then
                    with_edges
                      (ExpandFromVertex db
                         (SwitchAccessor current_vertex (graph_view_ self))
                         (direction_ self) (edge_types_ self)
                       :: level :: below)
                  else this in
                if lower_bound_ this <=? Z.of_nat (length edges_on_frame)
                then ret (true, this, frame)
                else Expand fuel' this frame
      end
  end.

Fixpoint Pull (fuel : nat) (this : ExpandVariableCursor) (frame : Frame)
  : M Db (bool * ExpandVariableCursor * Frame) :=
  match fuel with
  | O => diverge
  | S fuel' =>
      '(expanded, this, frame) <- Expand fuel' this frame ;;
      if (expanded : bool) then ret (true, this, frame)
      else
        '(pulled, this, frame) <- PullInput fuel' this frame ;;
        if (pulled : bool) then
          if lower_bound_ this =? 0 then
            start_vertex <-
              ValueVertex
                (frame_at frame
                   (input_symbol_ (ExpandVariable.common (self_ this)))) ;;
            '(accepted, frame) <-
              HandleExistingNode (ExpandVariable.common (self_ this))
                                 start_vertex frame ;;
            if (accepted : bool) then ret (true, this, frame)
            else Pull fuel' this frame
          else Pull fuel' this frame
        else ret (false, this, frame)
  end.

Definition Reset (this : ExpandVariableCursor)
  : Exception + ExpandVariableCursor :=
  match Cursor.Reset (input_cursor_ this) with
  | inl e => inl e
  | inr input =>
      inr (mkExpandVariableCursor (self_ this) input (upper_bound_ this)
                                  (lower_bound_ this) [])
  end.

Definition MakeCursor (self : @ExpandVariable.ExpandVariable Db)
  (input : TInput) : ExpandVariableCursor :=
  mkExpandVariableCursor self input (-1) (-1) [].

#[global] Instance ExpandVariable_Cursor
  : Cursor.Cursor Db ExpandVariableCursor :=
  Cursor.Build_Cursor Db ExpandVariableCursor Pull Reset.

End ExpandVariableCursor.
End ExpandVariableCursor.

(** *** ExpandUniquenessFilter *)

(** The first element on which [f] answers true or fails decides, as in
    a loop that returns from inside. *)
Definition any_of {A} (f : A -> Exception + bool)
  : list A -> Exception + bool :=
  fix loop (l : list A) : Exception + bool :=
    match l with
    | [] => inr false
    | x :: rest =>
        match f x with
        | inl e => inl e
        | inr true => inr true
        | inr false => loop rest
        end
    end.

Module ExpandUniquenessFilter.

(** The template argument. *)
Inductive TAccessor := OfVertex | OfEdge.

(** [Value<VertexAccessor>] and [Value<EdgeAccessor>]. *)
Definition vertex_of (v : TypedValue) : Exception + VertexAccessor :=
  match v with Vertex va => inr va | _ => inl TypedValueException end.

Definition edge_of (v : TypedValue) : Exception + EdgeAccessor :=
  match v with Edge ea => inr ea | _ => inl TypedValueException end.

Definition same_vertex (a b : TypedValue) : Exception + bool :=
  match vertex_of a with
  | inl e => inl e
  | inr va =>
      match vertex_of b with
      | inl e => inl e
      | inr vb => inr (VertexAccessor_eqb va vb)
      end
  end.

Definition same_edge (a b : TypedValue) : Exception + bool :=
  match edge_of a with
  | inl e => inl e
  | inr ea =>
      match edge_of b with
      | inl e => inl e
      | inr eb => inr (EdgeAccessor_eqb ea eb)
      end
  end.

(** [ContainsSame<EdgeAccessor>(a, single)] for a [single] that is not a
    list: the recursion of the source then runs on [a] alone. *)
Fixpoint contains_single (single : TypedValue) (a : TypedValue)
  : Exception + bool :=
  match a with
  | List elems =>
      any_of (fun list_elem => contains_single single list_elem) elems
  | _ => same_edge a single
  end.

(** [ContainsSame<EdgeAccessor>].  When [a] is not a list and [b] is,
    the source calls itself with the elements of [b] first and [a]
    second, which is [contains_single a]. *)
Fixpoint ContainsSame_edge (a b : TypedValue) : Exception + bool :=
  match a with
  | List elems =>
      any_of (fun list_elem => ContainsSame_edge list_elem b) elems
  | _ =>
      match b with
      | List elems => any_of (contains_single a) elems
      | _ => same_edge a b
      end
  end.

Definition ContainsSame (accessor : TAccessor) (a b : TypedValue)
  : Exception + bool :=
  match accessor with
  | OfVertex => same_vertex a b
  | OfEdge => ContainsSame_edge a b
  end.

Section ExpandUniquenessFilter.
Context {Db : Type} `{!GraphDbAccessor Db}.
Context {TInput : Type} `{!Cursor.Cursor Db TInput}.

Record ExpandUniquenessFilter := mkExpandUniquenessFilter {
  accessor_ : TAccessor;
  expand_symbol_ : Symbol;
  previous_symbols_ : list Symbol
}.

Record ExpandUniquenessFilterCursor := mkExpandUniquenessFilterCursor {
  self_ : ExpandUniquenessFilter;
  input_cursor_ : TInput
}.

Fixpoint none_same (accessor : TAccessor) (expand_value : TypedValue)
  (frame : Frame) (previous_symbols : list Symbol) : Exception + bool :=
  match previous_symbols with
  | [] => inr true
  | previous_symbol :: rest =>
      match ContainsSame accessor (frame_at frame previous_symbol)
                         expand_value with
      | inl e => inl e
      | inr true => inr false
      | inr false => none_same accessor expand_value frame rest
      end
  end.

Definition expansion_ok (self : ExpandUniquenessFilter) (frame : Frame)
  : Exception + bool :=
  none_same (accessor_ self) (frame_at frame (expand_symbol_ self)) frame
            (previous_symbols_ self).

Fixpoint Pull (fuel : nat) (this : ExpandUniquenessFilterCursor)
  (frame : Frame) : M Db (bool * ExpandUniquenessFilterCursor * Frame) :=
  match fuel with
  | O => diverge
  | S fuel' =>
      '(pulled, input, frame) <-
        Cursor.Pull fuel' (input_cursor_ this) frame ;;
      let next := mkExpandUniquenessFilterCursor (self_ this) input in
      if pulled then
        ok <- lift (expansion_ok (self_ this) frame) ;;
        if ok then ret (true, next, frame) else Pull fuel' next frame
      else ret (false, next, frame)
  end.

Definition Reset (this : ExpandUniquenessFilterCursor)
  : Exception + ExpandUniquenessFilterCursor :=
  match Cursor.Reset (input_cursor_ this) with
  | inl e => inl e
  | inr input => inr (mkExpandUniquenessFilterCursor (self_ this) input)
  end.

Definition MakeCursor (self : ExpandUniquenessFilter) (input : TInput)
  : ExpandUniquenessFilterCursor :=
  mkExpandUniquenessFilterCursor self input.

#[global] Instance ExpandUniquenessFilter_Cursor
  : Cursor.Cursor Db ExpandUniquenessFilterCursor :=
  Cursor.Build_Cursor Db ExpandUniquenessFilterCursor Pull Reset.

End ExpandUniquenessFilter.
End ExpandUniquenessFilter.

(** *** ConstructNamedPath

    [query::Path] is declared in [query/path.hpp], outside these sources:
    a path is its vertices and its edges, [Expand] appends to them.  A
    failed [DCHECK] and [LOG(FATAL)], which end the process, are marked
    with [UndefinedBehavior]; without the checks, [ValueVertex] and
    [ValueEdge] throw on a value of another type. *)
Module ConstructNamedPath.

Record Path_ := mkPath {
  vertices : list VertexAccessor;
  edges : list EdgeAccessor
}.

Definition Expand_vertex (path : Path_) (vertex : VertexAccessor) : Path_ :=
  mkPath (vertices path ++ [vertex]) (edges path).

Definition Expand_edge (path : Path_) (edge : EdgeAccessor) : Path_ :=
  mkPath (vertices path) (edges path ++ [edge]).

Definition Expand_edge_vertex (path : Path_) (edge : EdgeAccessor)
  (vertex : VertexAccessor) : Path_ :=
  mkPath (vertices path ++ [vertex]) (edges path ++ [edge]).

(** The loop over the edges of an edge list: each edge is appended with
    its end that is not the last vertex of the path. *)
Fixpoint expand_edge_list (edge_values : list TypedValue) (path : Path_)
  : Exception + Path_ :=
  match edge_values with
  | [] => inr path
  | edge_value :: rest =>
      match edge_value with
      | Edge edge =>
          match last (vertices path) with
          | None => inl (UndefinedBehavior "back() of an empty vector")
          | Some back =>
              if VertexAccessor_eqb back (from edge)
              then expand_edge_list rest (Expand_edge_vertex path edge (to edge))
              else expand_edge_list rest
                     (Expand_edge_vertex path edge (from edge))
          end
      | _ => inl TypedValueException
      end
  end.

(** The loop over the path elements after the first; [None] when one of
    them is null. *)
Fixpoint expand_elements (frame : Frame) (symbols : list Symbol)
  (last_was_edge_list : bool) (path : Path_) : Exception + option Path_ :=
  match symbols with
  | [] => inr (Some path)
  | symbol :: rest =>
      match frame_at frame symbol with
      | Null => inr None
      | Vertex vertex =>
          expand_elements frame rest false
            (if last_was_edge_list then path else Expand_vertex path vertex)
      | Edge edge =>
          expand_elements frame rest last_was_edge_list
                          (Expand_edge path edge)
      | List edge_values =>
          match expand_edge_list edge_values path with
          | inl e => inl e
          | inr path => expand_elements frame rest true path
          end
      | _ =>
          inl (UndefinedBehavior "Unsupported type in named path construction")
      end
  end.

Section ConstructNamedPath.
Context {Db : Type} `{!GraphDbAccessor Db}.
Context {TInput : Type} `{!Cursor.Cursor Db TInput}.

Record ConstructNamedPath := mkConstructNamedPath {
  path_symbol_ : Symbol;
  path_elements_ : list Symbol
}.

Record ConstructNamedPathCursor := mkConstructNamedPathCursor {
  self_ : ConstructNamedPath;
  input_cursor_ : TInput
}.

Definition Pull (fuel : nat) (this : ConstructNamedPathCursor)
  (frame : Frame) : M Db (bool * ConstructNamedPathCursor * Frame) :=
  '(pulled, input, frame) <- Cursor.Pull fuel (input_cursor_ this) frame ;;
  let next := mkConstructNamedPathCursor (self_ this) input in
  if pulled then
    match path_elements_ (self_ this) with
    | [] => throw (UndefinedBehavior "Named path must contain at least one node")
    | first :: rest =>
        match frame_at frame first with
        | Null =>
            ret (true, next, frame_set (path_symbol_ (self_ this)) Null frame)
        | Vertex start_vertex =>
            result <- lift (expand_elements frame rest false
                              (mkPath [start_vertex] [])) ;;
            match result with
            | None =>
                ret (true, next,
                     frame_set (path_symbol_ (self_ this)) Null frame)
            | Some path =>
                ret (true, next,
                     frame_set (path_symbol_ (self_ this))
                               (Path (vertices path) (edges path)) frame)
            end
        | _ => throw TypedValueException
        end
    end
  else ret (false, next, frame).

Definition Reset (this : ConstructNamedPathCursor)
  : Exception + ConstructNamedPathCursor :=
  match Cursor.Reset (input_cursor_ this) with
  | inl e => inl e
  | inr input => inr (mkConstructNamedPathCursor (self_ this) input)
  end.

Definition MakeCursor (self : ConstructNamedPath) (input : TInput)
  : ConstructNamedPathCursor :=
  mkConstructNamedPathCursor self input.

#[global] Instance ConstructNamedPath_Cursor
  : Cursor.Cursor Db ConstructNamedPathCursor :=
  Cursor.Build_Cursor Db ConstructNamedPathCursor Pull Reset.

End ConstructNamedPath.
End ConstructNamedPath.

(** *** OrderBy: the comparison of rows

    The comparison of doubles, and of an integer with a double, is that of
    the machine; it is taken as given. *)
Class DoubleOps := {
  double_less : Z -> Z -> bool;
  int_less_double : Z -> Z -> bool;
  double_less_int : Z -> Z -> bool
}.

Module OrderBy.

Inductive Ordering := ASC | DESC.

Definition Ordering_eqb (a b : Ordering) : bool :=
  match a, b with ASC, ASC | DESC, DESC => true | _, _ => false end.

Definition IsNumeric (v : TypedValue) : bool :=
  match v with Int _ | Double _ => true | _ => false end.

Definition TypedValueCompare `{!DoubleOps} (a b : TypedValue)
  : Exception + bool :=
  if IsNull a then inr false
  else if IsNull b then inr true
  else if negb (Type_eqb (type a) (type b)) &&
          negb (IsNumeric a && IsNumeric b) then
    inl (QueryRuntimeException
           ("Can't compare value of type " ++ Type_name (type a) ++
            " to value of type " ++ Type_name (type b)))
  else
    match a with
    | Bool x =>
        match b with
        | Bool y => inr (negb x && y)
        | _ => inl TypedValueException
        end
    | Int x =>
        match b with
        | Double y => inr (int_less_double x y)
        | Int y => inr (x <? y)
        | _ => inl TypedValueException
        end
    | Double x =>
        match b with
        | Int y => inr (double_less_int x y)
        | Double y => inr (double_less x y)
        | _ => inl TypedValueException
        end
    | String x =>
        match b with
        | String y => inr (String.ltb x y)
        | _ => inl TypedValueException
        end
    | List _ | Map _ | Vertex _ | Edge _ | Path _ _ =>
        inl (QueryRuntimeException
               ("Comparison is not defined for values of type " ++
                Type_name (type a)))
    | Null => inl (UndefinedBehavior "Unhandled comparison for types")
    end.

(** The loop of [TypedValueVectorCompare::operator()]. *)
Fixpoint compare_elements `{!DoubleOps} (ordering : list Ordering)
  (c1 c2 : list TypedValue) : Exception + bool :=
  match c1, c2 with
  | x :: c1', y :: c2' =>
      match ordering with
      | [] =>
          inl (UndefinedBehavior
                 "Collections contain more elements then there are orderings")
      | o :: ordering' =>
          match TypedValueCompare x y with
          | inl e => inl e
          | inr true => inr (Ordering_eqb o ASC)
          | inr false =>
              match TypedValueCompare y x with
              | inl e => inl e
              | inr true => inr (Ordering_eqb o DESC)
              | inr false => compare_elements ordering' c1' c2'
              end
          end
      end
  | [], _ :: _ => inr true
  | _, _ => inr false
  end.

Definition TypedValueVectorCompare `{!DoubleOps} (ordering : list Ordering)
  (c1 c2 : list TypedValue) : Exception + bool :=
  if (length c1 <=? length ordering)%nat && (length c2 <=? length ordering)%nat
  then compare_elements ordering c1 c2
  else
    inl (UndefinedBehavior
           "Collections contain more elements then there are orderings").

End OrderBy.

(** *** Union *)
Module Union.

(** [results]: the map from symbol names to values, as the assignments
    made to it, the latest first.  Reading a name that was not assigned
    gives a default-constructed value, which is null. *)
Definition assign (key : string) (value : TypedValue)
  (results : list (string * TypedValue)) : list (string * TypedValue) :=
  (key, value) :: results.

Fixpoint at_name (key : string) (results : list (string * TypedValue))
  : TypedValue :=
  match results with
  | [] => Null
  | (key', value) :: rest =>
      if String.eqb key key' then value else at_name key rest
  end.

Definition collect (symbols : list Symbol) (frame : Frame)
  : list (string * TypedValue) :=
  fold_left (fun results output_symbol =>
               assign (name output_symbol) (frame_at frame output_symbol)
                      results)
            symbols [].

Definition place (symbols : list Symbol)
  (results : list (string * TypedValue)) (frame : Frame) : Frame :=
  fold_left (fun frame symbol =>
               frame_set symbol (at_name (name symbol) results) frame)
            symbols frame.

Section Union.
Context {Db : Type} `{!GraphDbAccessor Db}.
Context {TLeft : Type} `{!Cursor.Cursor Db TLeft}.
Context {TRight : Type} `{!Cursor.Cursor Db TRight}.

Record Union := mkUnion {
  union_symbols_ : list Symbol;
  left_symbols_ : list Symbol;
  right_symbols_ : list Symbol
}.

Record UnionCursor := mkUnionCursor {
  self_ : Union;
  left_cursor_ : TLeft;
  right_cursor_ : TRight
}.

Definition Pull (fuel : nat) (this : UnionCursor) (frame : Frame)
  : M Db (bool * UnionCursor * Frame) :=
  '(pulled, left_cursor, frame) <-
    Cursor.Pull fuel (left_cursor_ this) frame ;;
  if pulled then
    let results := collect (left_symbols_ (self_ this)) frame in
    ret (true, mkUnionCursor (self_ this) left_cursor (right_cursor_ this),
         place (union_symbols_ (self_ this)) results frame)
  else
    '(pulled, right_cursor, frame) <-
      Cursor.Pull fuel (right_cursor_ this) frame ;;
    if pulled then
      let results := collect (right_symbols_ (self_ this)) frame in
      ret (true, mkUnionCursor (self_ this) left_cursor right_cursor,
           place (union_symbols_ (self_ this)) results frame)
    else
      ret (false, mkUnionCursor (self_ this) left_cursor right_cursor, frame).

Definition Reset (this : UnionCursor) : Exception + UnionCursor :=
  match Cursor.Reset (left_cursor_ this) with
  | inl e => inl e
  | inr left_cursor =>
      match Cursor.Reset (right_cursor_ this) with
      | inl e => inl e
      | inr right_cursor =>
          inr (mkUnionCursor (self_ this) left_cursor right_cursor)
      end
  end.

Definition MakeCursor (self : Union) (left : TLeft) (right : TRight)
  : UnionCursor :=
  mkUnionCursor self left right.

#[global] Instance Union_Cursor : Cursor.Cursor Db UnionCursor :=
  Cursor.Build_Cursor Db UnionCursor Pull Reset.

End Union.
End Union.

(** *** Cartesian *)
Module Cartesian.
Section Cartesian.
Context {Db : Type} `{!GraphDbAccessor Db} `{!TypedValueOps}.
Context {TLeft : Type} `{!Cursor.Cursor Db TLeft}.
Context {TRight : Type} `{!Cursor.Cursor Db TRight}.

Record Cartesian := mkCartesian {
  left_symbols_ : list Symbol;
  right_symbols_ : list Symbol
}.

(** [left_op_frames_it_] is kept as the frames of [left_op_frames_]
    still ahead of it; at [end] it is empty. *)
Record CartesianCursor := mkCartesianCursor {
  self_ : Cartesian;
  left_op_frames_ : list (list TypedValue);
  right_op_frame_ : list TypedValue;
  left_op_cursor_ : TLeft;
  right_op_cursor_ : TRight;
  left_op_frames_it_ : list (list TypedValue);
  cartesian_pull_initialized_ : bool
}.

(** "Pull all left_op frames": [copy_frame] moves every element of the
    frame into the copy. *)
Fixpoint pull_left_frames (fuel : nat) (left_cursor : TLeft)
  (left_op_frames : list (list TypedValue)) (frame : Frame)
  : M Db (TLeft * list (list TypedValue) * Frame) :=
  match fuel with
  | O => diverge
  | S fuel' =>
      '(pulled, left_cursor, frame) <- Cursor.Pull fuel' left_cursor frame ;;
      if pulled then
        pull_left_frames fuel' left_cursor (left_op_frames ++ [frame])
                         (map moved_from frame)
      else ret (left_cursor, left_op_frames, frame)
  end.

Definition restore_frame (symbols : list Symbol)
  (restore_from : list TypedValue) (frame : Frame) : Frame :=
  fold_left (fun frame symbol =>
               frame_set symbol (frame_at restore_from symbol) frame)
            symbols frame.

Definition Pull (fuel : nat) (this : CartesianCursor) (frame : Frame)
  : M Db (bool * CartesianCursor * Frame) :=
  '(this, frame) <-
    (if negb (cartesian_pull_initialized_ this) then
       '(left_cursor, left_op_frames, frame) <-
         pull_left_frames fuel (left_op_cursor_ this) (left_op_frames_ this)
                          frame ;;
       ret (mkCartesianCursor (self_ this) left_op_frames
                              (right_op_frame_ this) left_cursor
                              (right_op_cursor_ this) [] true,
            frame)
     else ret (this, frame)) ;;
  match left_op_frames_ this with
  | [] => ret (false, this, frame)
  | first :: others =>
      match left_op_frames_it_ this with
      | [] =>
          '(pulled, right_cursor, frame) <-
            Cursor.Pull fuel (right_op_cursor_ this) frame ;;
          if pulled then
            ret (true,
                 mkCartesianCursor (self_ this) (left_op_frames_ this) frame
                                   (left_op_cursor_ this) right_cursor
                                   others
                                   (cartesian_pull_initialized_ this),
                 restore_frame (left_symbols_ (self_ this)) first
                               (map moved_from frame))
          else
            ret (false,
                 mkCartesianCursor (self_ this) (left_op_frames_ this)
                                   (right_op_frame_ this)
                                   (left_op_cursor_ this) right_cursor
                                   (left_op_frames_it_ this)
                                   (cartesian_pull_initialized_ this),
                 frame)
      | current :: ahead =>
          ret (true,
               mkCartesianCursor (self_ this) (left_op_frames_ this)
                                 (right_op_frame_ this)
                                 (left_op_cursor_ this)
                                 (right_op_cursor_ this) ahead
                                 (cartesian_pull_initialized_ this),
               restore_frame (left_symbols_ (self_ this)) current
                 (restore_frame (right_symbols_ (self_ this))
                                (right_op_frame_ this) frame))
      end
  end.

Definition Reset (this : CartesianCursor) : Exception + CartesianCursor :=
  match Cursor.Reset (left_op_cursor_ this) with
  | inl e => inl e
  | inr left_cursor =>
      match Cursor.Reset (right_op_cursor_ this) with
      | inl e => inl e
      | inr right_cursor =>
          inr (mkCartesianCursor (self_ this) [] [] left_cursor right_cursor
                                 [] false)
      end
  end.

Definition MakeCursor (self : Cartesian) (left_cursor : TLeft)
  (right_cursor : TRight) : CartesianCursor :=
  mkCartesianCursor self [] [] left_cursor right_cursor [] false.

#[global] Instance Cartesian_Cursor : Cursor.Cursor Db CartesianCursor :=
  Cursor.Build_Cursor Db CartesianCursor Pull Reset.

End Cartesian.
End Cartesian.

(** ** A ghost probe: counting the pulls made on a cursor *)
Module Probe.
Section Probe.
Context {Db : Type} {TInner : Type} `{!Cursor.Cursor Db TInner}.

Record Counted := mkCounted { pulls_ : nat; inner_ : TInner }.

Definition Pull (fuel : nat) (this : Counted) (frame : Frame)
  : M Db (bool * Counted * Frame) :=
  '(pulled, inner, frame) <- Cursor.Pull fuel (inner_ this) frame ;;
  ret (pulled, mkCounted (S (pulls_ this)) inner, frame).

Definition Reset (this : Counted) : Exception + Counted :=
  match Cursor.Reset (inner_ this) with
  | inl e => inl e
  | inr inner => inr (mkCounted (pulls_ this) inner)
  end.

#[global] Instance Counted_Cursor : Cursor.Cursor Db Counted :=
  Cursor.Build_Cursor Db Counted Pull Reset.

End Probe.
End Probe.

(** ** A small in-memory graph, for the examples *)
Module Fixture.

Definition Address_eq_dec (a b : Address) : {a = b} + {a <> b}.
Proof. decide equality; apply Nat.eq_dec. Defined.

Definition VertexAccessor_eq_dec (a b : VertexAccessor) : {a = b} + {a <> b}.
Proof. decide equality; [apply Bool.bool_dec | apply Address_eq_dec]. Defined.

Definition EdgeAccessor_eq_dec (a b : EdgeAccessor) : {a = b} + {a <> b}.
Proof. decide equality; try apply Nat.eq_dec; apply Address_eq_dec. Defined.

Fixpoint TypedValue_eq_dec (a b : TypedValue) {struct a} : {a = b} + {a <> b}.
Proof.
  decide equality.
  - apply Bool.bool_dec.
  - apply Z.eq_dec.
  - apply Z.eq_dec.
  - apply string_dec.
  - apply (List.list_eq_dec TypedValue_eq_dec).
  - apply List.list_eq_dec. intros [s1 v1] [s2 v2].
    destruct (string_dec s1 s2); [|right; congruence].
    destruct (TypedValue_eq_dec v1 v2); [left; congruence|right; congruence].
  - apply VertexAccessor_eq_dec.
  - apply EdgeAccessor_eq_dec.
  - apply (List.list_eq_dec EdgeAccessor_eq_dec).
  - apply (List.list_eq_dec VertexAccessor_eq_dec).
Defined.

(** Values with plain structural equality and no arithmetic. *)
#[global] Instance Plain_TypedValueOps : TypedValueOps := {|
  BoolEqual a b := if TypedValue_eq_dec a b then true else false;
  TypedValue_less _ _ := inl TypedValueException;
  TypedValue_greater _ _ := inl TypedValueException;
  TypedValue_plus _ _ := inl TypedValueException;
  TypedValue_div_double _ _ := inl TypedValueException;
  moved_from v := v
|}.

(** No double occurs in the examples. *)
#[global] Instance Plain_DoubleOps : DoubleOps := {|
  double_less _ _ := false;
  int_less_double _ _ := false;
  double_less_int _ _ := false
|}.

Record Graph := mkGraph {
  abort_hint : bool;
  graph_vertices : list VertexAccessor;
  graph_edges : list EdgeAccessor
}.

Definition has_type (edge_types : list nat) (e : EdgeAccessor) : bool :=
  match edge_types with
  | [] => true
  | _ => existsb (Nat.eqb (edge_type e)) edge_types
  end.

Definition edges_into (g : Graph) (v : VertexAccessor) : list EdgeAccessor :=
  List.filter (fun e => Address_eqb (to_ e) (vertex_address v)) (graph_edges g).

Definition edges_out_of (g : Graph) (v : VertexAccessor) : list EdgeAccessor :=
  List.filter (fun e => Address_eqb (from_ e) (vertex_address v))
              (graph_edges g).

(** The accessor of the toy graph.  Every label and property is indexed
    by the id of the vertex: a vertex has the integer value [id] exactly
    when [id] is its [gid]. *)
#[global] Instance Graph_Accessor : GraphDbAccessor Graph := {|
  should_abort := abort_hint;
  WorkerId _ := O;
  Vertices g _ := graph_vertices g;
  VerticesByValue g _ _ value _ :=
    match value with
    | Int id =>
        inr (List.filter
               (fun v => Z.of_nat (gid (vertex_address v)) =? id)
               (graph_vertices g))
    | Bool _ | Double _ | String _ | List _ | Map _ => inr []
    | _ => inl TypedValueException
    end;
  vertex_in g v edge_types := List.filter (has_type edge_types) (edges_into g v);
  vertex_out g v edge_types :=
    List.filter (has_type edge_types) (edges_out_of g v);
  vertex_in_from g v other edge_types :=
    List.filter (fun e => Address_eqb (from_ e) (vertex_address other))
                (List.filter (has_type edge_types) (edges_into g v));
  vertex_out_to g v other edge_types :=
    List.filter (fun e => Address_eqb (to_ e) (vertex_address other))
                (List.filter (has_type edge_types) (edges_out_of g v));
  in_degree g v := length (edges_into g v);
  out_degree g v := length (edges_out_of g v);
  RemoveEdge e g :=
    inr (mkGraph (abort_hint g) (graph_vertices g)
                 (List.filter (fun e' => negb (EdgeAccessor_eqb e e'))
                              (graph_edges g)));
  RemoveVertex v g :=
    match edges_into g v ++ edges_out_of g v with
    | [] =>
        inr (true,
             mkGraph (abort_hint g)
                     (List.filter (fun v' => negb (VertexAccessor_eqb v v'))
                                  (graph_vertices g))
                     (graph_edges g))
    | _ => inr (false, g)
    end;
  DetachRemoveVertex v g :=
    inr (mkGraph (abort_hint g)
                 (List.filter (fun v' => negb (VertexAccessor_eqb v v'))
                              (graph_vertices g))
                 (List.filter
                    (fun e =>
                       negb (Address_eqb (from_ e) (vertex_address v) ||
                             Address_eqb (to_ e) (vertex_address v)))
                    (graph_edges g)));
  AdvanceCommand g := g;
  ReconstructTypedValue _ v := inr v
|}.

(** A single worker: nobody to accumulate, nothing to apply remotely. *)
#[global] Instance Graph_Distributed : DistributedGraphDb Graph := {|
  GetWorkerIds _ := [O];
  RemotePull_accumulate _ _ := RemotePullState.CURSOR_EXHAUSTED;
  RemoteUpdateApplyAll _ := [];
  updates_server_Apply g := g
|}.

Definition empty_graph : Graph := mkGraph false [] [].

Definition start (g : Graph) : Context Graph := mkContext g [] [] [].

(** A literal. *)
Definition literal (v : TypedValue) : Expression Graph :=
  mkExpression (fun _ _ _ => inr v).

(** The value of a symbol. *)
Definition identifier (symbol : Symbol) : Expression Graph :=
  mkExpression (fun _ frame _ => inr (frame_at frame symbol)).

(** Pull until exhaustion, collecting the frames of the rows produced;
    the frame is handed back untouched between pulls. *)
Fixpoint pull_all {TCursor : Type} `{!Cursor.Cursor Graph TCursor}
  (fuel : nat) (cursor : TCursor) (frame : Frame)
  : M Graph (list Frame) :=
  match fuel with
  | O => diverge
  | S fuel' =>
      '(pulled, cursor, frame) <- Cursor.Pull fuel' cursor frame ;;
      if (pulled : bool) then
        rows <- pull_all fuel' cursor frame ;; ret (frame :: rows)
      else ret []
  end.

End Fixture.

(** A plan for the examples: [(n)-[r*lower..upper]->(m)], depth first,
    with the symbols [n], [r], [m] and the two of the lambda at the
    positions 0 to 4 of the frame. *)
Module Sample.

Definition n := mkSymbol "n" 0.
Definition r := mkSymbol "r" 1.
Definition m := mkSymbol "m" 2.
Definition inner_edge := mkSymbol "inner_edge" 3.
Definition inner_node := mkSymbol "inner_node" 4.

Definition common (direction : EdgeAtom.Direction)
  : ExpandCommon.ExpandCommon :=
  ExpandCommon.mkExpandCommon m r direction [] n false AS_IS.

Definition variable (direction : EdgeAtom.Direction) (is_reverse : bool)
  (lower upper : option (Expression Fixture.Graph))
  : @ExpandVariable.ExpandVariable Fixture.Graph :=
  ExpandVariable.mkExpandVariable (common direction) is_reverse lower upper
    (ExpandVariable.mkLambda inner_edge inner_node None).

Definition vertex (id : nat) : VertexAccessor :=
  mkVertex (mkAddress id 0) false.

Definition edge (id source target : nat) : EdgeAccessor :=
  mkEdge (mkAddress id 0) (mkAddress source 0) (mkAddress target 0) 0.

(** A frame with the given value for [n] and nothing else. *)
Definition row (value : TypedValue) : list TypedValue :=
  [value; Null; Null; Null; Null].

End Sample.

(** Two vertices and an edge each way between them. *)
Definition ring : Fixture.Graph :=
  Fixture.mkGraph false [Sample.vertex 0; Sample.vertex 1]
    [Sample.edge 10 0 1; Sample.edge 11 1 0].

(** * Properties of the cursors *)

(** ** Vocabulary *)

(** The context after one more evaluation has been entered in the log. *)
Definition evaluated {Db} (expression : Expression Db) (context : Context Db)
  : Context Db :=
  mkContext (db_accessor_ context) (eval_log context ++ [expression])
            (db_log context) (future_ready context).

Section Vocabulary.
Context {Db TCursor : Type} `{!Cursor.Cursor Db TCursor}.

(** Given enough fuel, the pull has the outcome [r]. *)
Definition pulls (cursor : TCursor) (frame : Frame) (context : Context Db)
  (r : Outcome Db (bool * TCursor * Frame)) : Prop :=
  exists N, forall n, (N <= n)%nat -> Cursor.Pull n cursor frame context = r.

(** Successive pulls produce the frames [rows] and then report
    exhaustion; between two pulls the consumer turns the frame it was
    given into [consumer frame]. *)
Inductive drains (consumer : Frame -> Frame)
  : TCursor -> Frame -> Context Db -> list Frame ->
    TCursor -> Frame -> Context Db -> Prop :=
| drains_done cursor frame context cursor' frame' context' :
    pulls cursor frame context (Ok (false, cursor', frame') context') ->
    drains consumer cursor frame context [] cursor' frame' context'
| drains_row cursor frame context cursor1 frame1 context1 rows
             cursor' frame' context' :
    pulls cursor frame context (Ok (true, cursor1, frame1) context1) ->
    drains consumer cursor1 (consumer frame1) context1 rows
           cursor' frame' context' ->
    drains consumer cursor frame context (frame1 :: rows)
           cursor' frame' context'.

(** Successive pulls produce the frames [rows], the frame being handed
    back untouched. *)
Inductive produces
  : TCursor -> Frame -> Context Db -> list Frame ->
    TCursor -> Frame -> Context Db -> Prop :=
| produces_nil cursor frame context :
    produces cursor frame context [] cursor frame context
| produces_row cursor frame context cursor1 frame1 context1 rows
               cursor' frame' context' :
    pulls cursor frame context (Ok (true, cursor1, frame1) context1) ->
    produces cursor1 frame1 context1 rows cursor' frame' context' ->
    produces cursor frame context (frame1 :: rows) cursor' frame' context'.

End Vocabulary.

(** ** The monad *)

Section Monad.
Context {Db : Type}.

Lemma bind_Ok {A B} (m : M Db A) (k : A -> M Db B) c a c1 :
  m c = Ok a c1 -> bind m k c = k a c1.
Proof. unfold bind. intros ->. reflexivity. Qed.

Lemma bind_Throw {A B} (m : M Db A) (k : A -> M Db B) c e c1 :
  m c = Throw e c1 -> bind m k c = Throw e c1.
Proof. unfold bind. intros ->. reflexivity. Qed.

Lemma bind_Ok_inv {A B} (m : M Db A) (k : A -> M Db B) c b c' :
  bind m k c = Ok b c' -> exists a c1, m c = Ok a c1 /\ k a c1 = Ok b c'.
Proof.
  unfold bind. destruct (m c) as [a c1| |]; try discriminate.
  intros Hk. exists a, c1. split; [reflexivity|exact Hk].
Qed.

Lemma bind_Throw_inv {A B} (m : M Db A) (k : A -> M Db B) c e c' :
  bind m k c = Throw e c' ->
  m c = Throw e c' \/ exists a c1, m c = Ok a c1 /\ k a c1 = Throw e c'.
Proof.
  unfold bind. destruct (m c) as [a c1|e1 c1|]; try discriminate.
  - intros Hk. right. exists a, c1. split; [reflexivity|exact Hk].
  - intros [= -> ->]. left. reflexivity.
Qed.

Lemma Accept_Ok (expression : Expression Db) graph_view frame c v :
  expr_eval expression graph_view frame (db_accessor_ c) = inr v ->
  Accept expression graph_view frame c = Ok v (evaluated expression c).
Proof. unfold Accept, evaluated. intros ->. reflexivity. Qed.

Lemma Accept_Throw (expression : Expression Db) graph_view frame c e :
  expr_eval expression graph_view frame (db_accessor_ c) = inl e ->
  Accept expression graph_view frame c = Throw e (evaluated expression c).
Proof. unfold Accept, evaluated. intros ->. reflexivity. Qed.

End Monad.

(** ** Skip and Limit: when the bound is evaluated *)

Section SkipLimit.
Context {Db : Type} `{!GraphDbAccessor Db}.
Context {TInput : Type} `{!Cursor.Cursor Db TInput}.

Lemma evaluate_limit_known (this : @Limit.LimitCursor Db TInput) frame c :
  0 <= Limit.limit_ this ->
  Limit.evaluate_limit this frame c = Ok (Limit.limit_ this) c.
Proof.
  intros Hknown. unfold Limit.evaluate_limit.
  destruct (Z.eqb_spec (Limit.limit_ this) (-1)); [lia|reflexivity].
Qed.

Lemma evaluate_to_skip_known (this : @Skip.SkipCursor Db TInput) frame c :
  0 <= Skip.to_skip_ this ->
  Skip.evaluate_to_skip this frame c = Ok (Skip.to_skip_ this) c.
Proof.
  intros Hknown. unfold Skip.evaluate_to_skip.
  destruct (Z.eqb_spec (Skip.to_skip_ this) (-1)); [lia|reflexivity].
Qed.

(** What a pull of [Limit] does once the bound is known: the bound is
    kept and nothing is evaluated. *)
Definition Limit_Pull_with_bound (fuel : nat)
  (this : @Limit.LimitCursor Db TInput) (frame : Frame) : M Db _ :=
  fun c =>
  if Limit.limit_ this <=? Limit.pulled_ this then
    Ok (false,
        Limit.mkLimitCursor (Limit.self_ this) (Limit.input_cursor_ this)
                            (Limit.limit_ this) (Limit.pulled_ this + 1),
        frame) c
  else
    match Cursor.Pull fuel (Limit.input_cursor_ this) frame c with
    | Ok (pulled, input, frame') c' =>
        Ok (pulled,
            Limit.mkLimitCursor (Limit.self_ this) input (Limit.limit_ this)
                                (Limit.pulled_ this + 1),
            frame') c'
    | Throw e c' => Throw e c'
    | OutOfFuel => OutOfFuel
    end.

(** What a pull of [Skip] does once the bound is known. *)
Definition Skip_Pull_with_bound (fuel : nat)
  (this : @Skip.SkipCursor Db TInput) (frame : Frame) : M Db _ :=
  fun c =>
  match Cursor.Pull fuel (Skip.input_cursor_ this) frame c with
  | Ok (true, input, frame') c' =>
      let next :=
        Skip.mkSkipCursor (Skip.self_ this) input (Skip.to_skip_ this)
                          (Skip.skipped_ this + 1) in
      if Skip.skipped_ this <? Skip.to_skip_ this
      then Skip.Pull fuel next frame' c'
      else Ok (true, next, frame') c'
  | Ok (false, input, frame') c' =>
      Ok (false,
          Skip.mkSkipCursor (Skip.self_ this) input (Skip.to_skip_ this)
                            (Skip.skipped_ this),
          frame') c'
  | Throw e c' => Throw e c'
  | OutOfFuel => OutOfFuel
  end.

Lemma Limit_Pull_known fuel (this : @Limit.LimitCursor Db TInput) frame c :
  0 <= Limit.limit_ this ->
  Limit.Pull fuel this frame c = Limit_Pull_with_bound fuel this frame c.
Proof.
  intros Hknown. unfold Limit.Pull, Limit_Pull_with_bound.
  rewrite (bind_Ok _ _ _ _ _ (evaluate_limit_known this frame c Hknown)).
  destruct (Limit.limit_ this <=? Limit.pulled_ this); [reflexivity|].
  unfold bind.
  destruct (Cursor.Pull fuel (Limit.input_cursor_ this) frame c)
    as [[[pulled input] frame'] c'| |]; reflexivity.
Qed.

Lemma Skip_Pull_known fuel (this : @Skip.SkipCursor Db TInput) frame c :
  0 <= Skip.to_skip_ this ->
  Skip.Pull (S fuel) this frame c = Skip_Pull_with_bound fuel this frame c.
Proof.
  intros Hknown. unfold Skip_Pull_with_bound. cbn [Skip.Pull]. unfold bind at 1.
  destruct (Cursor.Pull fuel (Skip.input_cursor_ this) frame c)
    as [[[[|] input] frame'] c'| |]; try reflexivity.
  rewrite (bind_Ok _ _ _ _ _ (evaluate_to_skip_known this frame' c' Hknown)).
  cbn zeta. destruct (Skip.skipped_ this <? Skip.to_skip_ this); reflexivity.
Qed.

(** C7 (amended): [Limit] evaluates its bound exactly once, at its
    first pull and before it pulls its input; [Skip] evaluates its bound
    exactly once, at the first pull in which its input produces a row, and
    not at all when its input produces none.  From then on the count is
    kept and the expression is not evaluated again.  When the evaluation
    gives a negative integer, or a value that is not an integer, that
    pull fails with a query error. *)
Theorem C7_skip_limit_bound (expression : Expression Db) (input : TInput)
  (frame : Frame) (context : Context Db) (fuel : nat) :
  let limit := Limit.MakeCursor (Limit.mkLimit expression) input in
  let skip := Skip.MakeCursor (Skip.mkSkip expression) input in
  (forall v,
     expr_eval expression AS_IS frame (db_accessor_ context) = inr v ->
     Limit.Pull fuel limit frame context =
     match v with
     | Int value =>
         if value <? 0 then
           Throw (QueryRuntimeException
                    "Result of LIMIT expression must be greater or equal to zero")
                 (evaluated expression context)
         else
           Limit_Pull_with_bound fuel
             (Limit.mkLimitCursor (Limit.mkLimit expression) input value 0)
             frame (evaluated expression context)
     | _ =>
         Throw (QueryRuntimeException
                  "Result of LIMIT expression must be an int")
               (evaluated expression context)
     end) /\
  (forall this : @Limit.LimitCursor Db TInput,
     0 <= Limit.limit_ this ->
     Limit.Pull fuel this frame context =
     Limit_Pull_with_bound fuel this frame context) /\
  (forall input' frame' context',
     Cursor.Pull fuel input frame context = Ok (false, input', frame') context' ->
     Skip.Pull (S fuel) skip frame context =
     Ok (false, Skip.MakeCursor (Skip.mkSkip expression) input', frame')
        context') /\
  (forall input' frame' context' v,
     Cursor.Pull fuel input frame context = Ok (true, input', frame') context' ->
     expr_eval expression AS_IS frame' (db_accessor_ context') = inr v ->
     Skip.Pull (S fuel) skip frame context =
     match v with
     | Int value =>
         if value <? 0 then
           Throw (QueryRuntimeException
                    "Result of SKIP expression must be greater or equal to zero")
                 (evaluated expression context')
         else
           let next :=
             Skip.mkSkipCursor (Skip.mkSkip expression) input' value 1 in
           if 0 <? value
           then Skip.Pull fuel next frame' (evaluated expression context')
           else Ok (true, next, frame') (evaluated expression context')
     | _ =>
         Throw (QueryRuntimeException
                  "Result of SKIP expression must be an int")
               (evaluated expression context')
     end) /\
  (forall this : @Skip.SkipCursor Db TInput,
     0 <= Skip.to_skip_ this ->
     Skip.Pull (S fuel) this frame context =
     Skip_Pull_with_bound fuel this frame context).
Proof.
  cbn zeta. repeat split.
  - intros v Hv. unfold Limit.Pull, Limit.MakeCursor, Limit.evaluate_limit.
    cbn [Limit.limit_ Limit.self_ Limit.expression_].
    change (-1 =? -1) with true. cbn iota.
    unfold bind at 1. unfold bind at 1.
    rewrite (Accept_Ok _ _ _ _ _ Hv).
    destruct v; try reflexivity.
    destruct (i <? 0) eqn:Hneg; [reflexivity|].
    unfold ret, Limit_Pull_with_bound.
    cbn [Limit.limit_ Limit.self_ Limit.input_cursor_ Limit.pulled_].
    destruct (i <=? 0); [reflexivity|].
    unfold bind.
    destruct (Cursor.Pull fuel input frame (evaluated expression context))
      as [[[pulled input'] frame'] c'| |]; reflexivity.
  - intros this Hknown. apply Limit_Pull_known, Hknown.
  - intros input' frame' context' Hpull. unfold Skip.MakeCursor.
    cbn [Skip.Pull Skip.input_cursor_].
    rewrite (bind_Ok _ _ _ _ _ Hpull). reflexivity.
  - intros input' frame' context' v Hpull Hv. unfold Skip.MakeCursor.
    cbn [Skip.Pull Skip.input_cursor_].
    rewrite (bind_Ok _ _ _ _ _ Hpull). cbn iota beta.
    unfold Skip.evaluate_to_skip.
    cbn [Skip.to_skip_ Skip.self_ Skip.expression_ Skip.skipped_].
    change (-1 =? -1) with true. cbn iota.
    unfold bind at 1. unfold bind at 1.
    rewrite (Accept_Ok _ _ _ _ _ Hv).
    destruct v; try reflexivity.
    destruct (i <? 0) eqn:Hneg; [reflexivity|].
    unfold ret. cbn zeta. change (0 + 1) with 1.
    destruct (0 <? i); reflexivity.
  - intros this Hknown. apply Skip_Pull_known, Hknown.
Qed.

End SkipLimit.

(** C7, first pull of [Limit] on a literal bound: the witness of the
    equations above. *)
Lemma C7_skip_limit_bound_witness :
  Limit.Pull 5
    (Limit.MakeCursor (Limit.mkLimit (Fixture.literal (Int 2)))
                      (@Once.MakeCursor))
    [Null] (Fixture.start Fixture.empty_graph) =
  Limit_Pull_with_bound 5
    (Limit.mkLimitCursor (Limit.mkLimit (Fixture.literal (Int 2)))
                         (@Once.MakeCursor) 2 0)
    [Null]
    (evaluated (Fixture.literal (Int 2)) (Fixture.start Fixture.empty_graph)).
Proof.
  exact (proj1 (C7_skip_limit_bound (Fixture.literal (Int 2))
                  (@Once.MakeCursor) [Null]
                  (Fixture.start Fixture.empty_graph) 5)
               (Int 2) eq_refl).
Defined.

(** C7 as stated fails: a [Skip] whose bound is the literal [-1], over
    an input that produces no row ([Filter] on [false]), does not
    evaluate its bound at its first pull and does not fail; it reports
    exhaustion. *)
Lemma C7_counterexample :
  let bound := Fixture.literal (Int (-1)) in
  let never := Fixture.literal (Bool false) in
  let input := Filter.MakeCursor (Filter.mkFilter never) (@Once.MakeCursor) in
  let skip := Skip.MakeCursor (Skip.mkSkip bound) input in
  expr_eval bound AS_IS [Null] Fixture.empty_graph = inr (Int (-1)) /\
  Cursor.Pull 3 skip [Null] (Fixture.start Fixture.empty_graph) =
  Ok (false,
      Skip.mkSkipCursor (Skip.mkSkip bound)
        (Filter.mkFilterCursor (Filter.mkFilter never) (Once.mkOnceCursor true))
        (-1) 0,
      [Null])
     (mkContext Fixture.empty_graph [never] [] []).
Proof. split; reflexivity. Qed.

(** ** Delete *)

Section DeleteProperties.
Context {Db : Type} `{!GraphDbAccessor Db}.
Context {TInput : Type} `{!Cursor.Cursor Db TInput}.

Definition deletable (expression_result : TypedValue) : bool :=
  match expression_result with
  | Vertex _ | Edge _ | Null => true
  | _ => false
  end.

Definition edges_of (expression_results : list TypedValue)
  : list EdgeAccessor :=
  omap (fun r => match r with Edge e => Some e | _ => None end)
       expression_results.

Definition vertices_of (expression_results : list TypedValue)
  : list VertexAccessor :=
  omap (fun r => match r with Vertex v => Some v | _ => None end)
       expression_results.

(** The accessor call that removes a vertex. *)
Definition vertex_call (detach : bool) (va : VertexAccessor) : DbCall :=
  if detach then CallDetachRemoveVertex (SwitchAccessor va NEW)
  else CallRemoveVertex (SwitchAccessor va NEW).

Lemma db_RemoveEdge_log edge c :
  match Delete.db_RemoveEdge edge c with
  | Ok _ c' | Throw _ c' => db_log c' = db_log c ++ [CallRemoveEdge edge]
  | OutOfFuel => False
  end.
Proof.
  unfold Delete.db_RemoveEdge, bind, log_call, get_db, set_db, lift; cbn.
  destruct (RemoveEdge edge (db_accessor_ c)); reflexivity.
Qed.

Lemma db_RemoveVertex_log va c :
  match Delete.db_RemoveVertex va c with
  | Ok _ c' | Throw _ c' => db_log c' = db_log c ++ [CallRemoveVertex va]
  | OutOfFuel => False
  end.
Proof.
  unfold Delete.db_RemoveVertex, bind, log_call, get_db, set_db, lift; cbn.
  destruct (RemoveVertex va (db_accessor_ c)) as [|[]]; reflexivity.
Qed.

Lemma db_DetachRemoveVertex_log va c :
  match Delete.db_DetachRemoveVertex va c with
  | Ok _ c' | Throw _ c' =>
      db_log c' = db_log c ++ [CallDetachRemoveVertex va]
  | OutOfFuel => False
  end.
Proof.
  unfold Delete.db_DetachRemoveVertex, bind, log_call, get_db, set_db, lift;
    cbn.
  destruct (DetachRemoveVertex va (db_accessor_ c)); reflexivity.
Qed.

(** The first loop calls [RemoveEdge] on the edges, in order, and stops
    at the first failure. *)
Lemma delete_edges_log expression_results c :
  match forM_ Delete.delete_edge expression_results c with
  | Ok _ c' =>
      db_log c' = db_log c ++ map CallRemoveEdge (edges_of expression_results)
  | Throw _ c' =>
      exists es rest,
        edges_of expression_results = es ++ rest /\ es <> [] /\
        db_log c' = db_log c ++ map CallRemoveEdge es
  | OutOfFuel => False
  end.
Proof.
  revert c. induction expression_results as [|r rs IH]; intros c.
  - cbn. rewrite app_nil_r. reflexivity.
  - cbn [forM_]. unfold bind.
    destruct r; try (exact (IH c)).
    cbn [Delete.delete_edge].
    pose proof (db_RemoveEdge_log e c) as Hlog.
    destruct (Delete.db_RemoveEdge e c) as [[] c1|e1 c1|]; [| |contradiction].
    + specialize (IH c1).
      destruct (forM_ Delete.delete_edge rs c1) as [[] c2|e2 c2|];
        [| |contradiction].
      * change (edges_of (Edge e :: rs)) with (e :: edges_of rs).
        rewrite IH, Hlog. cbn [map]. rewrite <- app_assoc. reflexivity.
      * destruct IH as (es & rest & Hes & Hne & Hl).
        exists (e :: es), rest.
        change (edges_of (Edge e :: rs)) with (e :: edges_of rs).
        rewrite Hes. split; [reflexivity|].
        split; [discriminate|].
        rewrite Hl, Hlog. cbn [map]. rewrite <- app_assoc. reflexivity.
    + exists [e], (edges_of rs). split; [reflexivity|].
      split; [discriminate|]. exact Hlog.
Qed.

Lemma delete_vertex_bad detach bad c :
  deletable bad = false ->
  Delete.delete_vertex detach bad c =
  Throw (QueryRuntimeException "Can only delete edges and vertices") c.
Proof. destruct bad; cbn; intros; try discriminate; reflexivity. Qed.

Lemma delete_vertex_call detach va c :
  match Delete.delete_vertex detach (Vertex va) c with
  | Ok _ c' | Throw _ c' => db_log c' = db_log c ++ [vertex_call detach va]
  | OutOfFuel => False
  end.
Proof.
  unfold vertex_call. cbn [Delete.delete_vertex]. destruct detach.
  - apply db_DetachRemoveVertex_log.
  - unfold bind.
    pose proof (db_RemoveVertex_log (SwitchAccessor va NEW) c) as Hlog.
    destruct (Delete.db_RemoveVertex (SwitchAccessor va NEW) c)
      as [[|] c1|e1 c1|]; exact Hlog.
Qed.

(** The second loop calls the accessor on the vertices, in order, and
    stops at the first failure. *)
Lemma delete_vertices_log detach expression_results c :
  match forM_ (Delete.delete_vertex detach) expression_results c with
  | Ok _ c' =>
      db_log c' =
      db_log c ++ map (vertex_call detach) (vertices_of expression_results)
  | Throw _ c' =>
      exists vs rest,
        vertices_of expression_results = vs ++ rest /\
        db_log c' = db_log c ++ map (vertex_call detach) vs
  | OutOfFuel => False
  end.
Proof.
  revert c. induction expression_results as [|r rs IH]; intros c.
  - cbn. rewrite app_nil_r. reflexivity.
  - cbn [forM_]. unfold bind.
    destruct (deletable r) eqn:Hr.
    + destruct r; try discriminate Hr; try (exact (IH c)).
      pose proof (delete_vertex_call detach v c) as Hlog.
      change (vertices_of (Vertex v :: rs)) with (v :: vertices_of rs).
      destruct (Delete.delete_vertex detach (Vertex v) c) as [[] c1|e1 c1|];
        [| |contradiction].
      * specialize (IH c1).
        destruct (forM_ (Delete.delete_vertex detach) rs c1)
          as [[] c2|e2 c2|]; [| |contradiction].
        -- rewrite IH, Hlog. cbn [map]. rewrite <- app_assoc. reflexivity.
        -- destruct IH as (vs & rest & Hvs & Hl).
           exists (v :: vs), rest. rewrite Hvs. split; [reflexivity|].
           rewrite Hl, Hlog. cbn [map]. rewrite <- app_assoc. reflexivity.
      * exists [v], (vertices_of rs). split; [reflexivity|]. exact Hlog.
    + rewrite (delete_vertex_bad detach r c Hr).
      exists [], (vertices_of (r :: rs)). split; [reflexivity|].
      cbn. rewrite app_nil_r. reflexivity.
Qed.

Lemma mapM_Accept_db_log (expressions : list (Expression Db)) graph_view
  frame c :
  match mapM (fun expression => Accept expression graph_view frame)
             expressions c with
  | Ok _ c' | Throw _ c' =>
      db_log c' = db_log c /\ db_accessor_ c' = db_accessor_ c
  | OutOfFuel => False
  end.
Proof.
  revert c. induction expressions as [|x xs IH]; intros c; [cbn; auto|].
  cbn [mapM]. unfold bind at 1. unfold Accept at 1.
  destruct (expr_eval x graph_view frame (db_accessor_ c)); [cbn; auto|].
  unfold bind at 1.
  match goal with |- context [mapM _ xs ?c1] => specialize (IH c1) end.
  cbn [db_log db_accessor_] in IH.
  match goal with
  | |- context [mapM ?f xs ?c1] => destruct (mapM f xs c1)
  end; [exact IH|exact IH|contradiction].
Qed.

Definition not_deletable : Exception :=
  QueryRuntimeException "Can only delete edges and vertices".

Definition still_connected : Exception :=
  QueryRuntimeException
    ("Failed to remove vertex because of it's existing " ++
     "connections. Consider using DETACH DELETE.").

(** The database after the accessor has removed the edges, in order;
    the error of the first removal that fails. *)
Fixpoint removed_edges (edges : list EdgeAccessor) (db : Db)
  : Exception + Db :=
  match edges with
  | [] => inr db
  | edge :: rest =>
      match RemoveEdge edge db with
      | inl e => inl e
      | inr db' => removed_edges rest db'
      end
  end.

(** The database after the accessor has removed a vertex, switched to
    its new state; without [DETACH] a vertex that the accessor refuses
    to remove is an error. *)
Definition removed_vertex (detach : bool) (vertex : VertexAccessor) (db : Db)
  : Exception + Db :=
  if detach then DetachRemoveVertex (SwitchAccessor vertex NEW) db
  else
    match RemoveVertex (SwitchAccessor vertex NEW) db with
    | inl e => inl e
    | inr (true, db') => inr db'
    | inr (false, _) => inl still_connected
    end.

Fixpoint removed_vertices (detach : bool) (vertices : list VertexAccessor)
  (db : Db) : Exception + Db :=
  match vertices with
  | [] => inr db
  | vertex :: rest =>
      match removed_vertex detach vertex db with
      | inl e => inl e
      | inr db' => removed_vertices detach rest db'
      end
  end.

(** The results that come before the first one that is not a vertex, an
    edge or null. *)
Fixpoint deletable_prefix (expression_results : list TypedValue)
  : list TypedValue :=
  match expression_results with
  | [] => []
  | r :: rest => if deletable r then r :: deletable_prefix rest else []
  end.

(** What the first loop does to the database. *)
Lemma delete_edges_db expression_results c :
  match removed_edges (edges_of expression_results) (db_accessor_ c) with
  | inl e => exists c', forM_ Delete.delete_edge expression_results c =
                        Throw e c'
  | inr db' =>
      exists c', forM_ Delete.delete_edge expression_results c = Ok tt c' /\
                 db_accessor_ c' = db'
  end.
Proof.
  revert c. induction expression_results as [|r rs IH]; intros c.
  - cbn. eauto.
  - cbn [forM_]. unfold bind at 1.
    destruct r; try (exact (IH c)).
    change (edges_of (Edge e :: rs)) with (e :: edges_of rs).
    cbn [removed_edges Delete.delete_edge].
    unfold Delete.db_RemoveEdge, bind, log_call, get_db, set_db, lift.
    cbn [db_accessor_].
    destruct (RemoveEdge e (db_accessor_ c)) as [failure|db'];
      [unfold throw; eauto|].
    unfold ret. cbn [db_accessor_ eval_log db_log future_ready].
    match goal with |- context [forM_ _ rs ?c1] => exact (IH c1) end.
Qed.

Lemma delete_vertex_db detach vertex c :
  match removed_vertex detach vertex (db_accessor_ c) with
  | inl e => exists c', Delete.delete_vertex detach (Vertex vertex) c =
                        Throw e c'
  | inr db' =>
      exists c', Delete.delete_vertex detach (Vertex vertex) c = Ok tt c' /\
                 db_accessor_ c' = db'
  end.
Proof.
  unfold removed_vertex. cbn [Delete.delete_vertex]. destruct detach.
  - unfold Delete.db_DetachRemoveVertex, bind, log_call, get_db, set_db, lift.
    cbn [db_accessor_].
    destruct (DetachRemoveVertex _ _) as [failure|db'];
      [unfold throw; eauto|].
    unfold ret. eexists. split; reflexivity.
  - unfold Delete.db_RemoveVertex, bind, log_call, get_db, set_db, lift.
    cbn [db_accessor_].
    destruct (RemoveVertex _ _) as [failure|[[|] db']];
      unfold throw, ret, still_connected; cbn iota beta; eauto.
Qed.

(** What the second loop does to the database. *)
Lemma delete_vertices_db detach expression_results c :
  match removed_vertices detach
          (vertices_of (deletable_prefix expression_results))
          (db_accessor_ c) with
  | inl e =>
      exists c', forM_ (Delete.delete_vertex detach) expression_results c =
                 Throw e c'
  | inr db' =>
      exists c',
        forM_ (Delete.delete_vertex detach) expression_results c =
        (if forallb deletable expression_results then Ok tt c'
         else Throw not_deletable c') /\
        db_accessor_ c' = db'
  end.
Proof.
  revert c. induction expression_results as [|r rs IH]; intros c.
  - cbn. eauto.
  - cbn [forM_ deletable_prefix forallb]. unfold bind.
    destruct (deletable r) eqn:Hr; cbn [andb].
    + destruct r; try discriminate Hr.
      * exact (IH c).
      * change (vertices_of (Vertex v :: deletable_prefix rs))
          with (v :: vertices_of (deletable_prefix rs)).
        cbn [removed_vertices].
        pose proof (delete_vertex_db detach v c) as Hvertex.
        destruct (removed_vertex detach v (db_accessor_ c)) as [failure|db'].
        -- destruct Hvertex as [c' ->]. eauto.
        -- destruct Hvertex as (c' & -> & <-). exact (IH c').
      * exact (IH c).
    + rewrite (delete_vertex_bad detach r c Hr). cbn. eauto.
Qed.

(** C10 (amended): given a row from the input and the results of the
    expressions, [Delete] skips the null results (a row of nulls is let
    through and nothing is removed).  The accessor removes the edges
    among the results, in order, and then, from the database these
    removals leave, the vertices, in order; the row is let through with
    the database the removals leave.  A result that is not a vertex, an
    edge or null makes the pull fail: with "Can only delete edges and
    vertices" when the removal of the edges and of the vertices before
    that result goes through, and with the error of the first removal
    that fails otherwise.  Every call that removes a vertex comes after
    the calls that remove the edges, all of which have been made by
    then. *)
Theorem C10_delete_nulls_types_order (self : @Delete.Delete Db)
  (input : TInput) (frame : Frame) (context : Context Db) (fuel : nat)
  (input' : TInput) (frame' : Frame) (context1 : Context Db)
  (expression_results : list TypedValue) (context2 : Context Db) :
  Cursor.Pull fuel input frame context = Ok (true, input', frame') context1 ->
  mapM (fun expression => Accept expression NEW frame')
       (Delete.expressions_ self) context1 = Ok expression_results context2 ->
  let pull := Delete.Pull fuel (Delete.MakeCursor self input) frame context in
  (Forall (fun r => r = Null) expression_results ->
   pull = Ok (true, Delete.MakeCursor self input', frame') context2) /\
  match removed_edges (edges_of expression_results)
                      (db_accessor_ context1) with
  | inl e => exists context', pull = Throw e context'
  | inr without_edges =>
      match removed_vertices (Delete.detach_ self)
              (vertices_of (deletable_prefix expression_results))
              without_edges with
      | inl e => exists context', pull = Throw e context'
      | inr without_vertices =>
          exists context',
            pull =
            (if forallb deletable expression_results
             then Ok (true, Delete.MakeCursor self input', frame') context'
             else Throw not_deletable context') /\
            db_accessor_ context' = without_vertices
      end
  end /\
  match pull with
  | Ok r context' =>
      r = (true, Delete.MakeCursor self input', frame') /\
      db_log context' =
      db_log context1 ++
      map CallRemoveEdge (edges_of expression_results) ++
      map (vertex_call (Delete.detach_ self)) (vertices_of expression_results)
  | Throw _ context' =>
      exists es vs,
        db_log context' =
        db_log context1 ++ map CallRemoveEdge es ++
        map (vertex_call (Delete.detach_ self)) vs /\
        (exists rest, edges_of expression_results = es ++ rest) /\
        (exists rest, vertices_of expression_results = vs ++ rest) /\
        (vs <> [] -> es = edges_of expression_results)
  | OutOfFuel => False
  end.
Proof.
  intros Hpull Hresults pull.
  assert (Hunfold :
    pull =
    match forM_ Delete.delete_edge expression_results context2 with
    | Ok _ c3 =>
        match forM_ (Delete.delete_vertex (Delete.detach_ self))
                    expression_results c3 with
        | Ok _ c4 => Ok (true, Delete.MakeCursor self input', frame') c4
        | Throw e c4 => Throw e c4
        | OutOfFuel => OutOfFuel
        end
    | Throw e c3 => Throw e c3
    | OutOfFuel => OutOfFuel
    end).
  { subst pull. unfold Delete.Pull, Delete.MakeCursor.
    cbn [Delete.input_cursor_ Delete.self_].
    rewrite (bind_Ok _ _ _ _ _ Hpull). cbn iota beta zeta.
    cbn [negb Delete.self_]. rewrite (bind_Ok _ _ _ _ _ Hresults).
    unfold bind, ret.
    destruct (forM_ Delete.delete_edge expression_results context2)
      as [[] c3| |]; [|reflexivity|reflexivity].
    destruct (forM_ (Delete.delete_vertex (Delete.detach_ self))
                    expression_results c3) as [[] c4| |]; reflexivity. }
  pose proof (mapM_Accept_db_log (Delete.expressions_ self) NEW frame'
                context1) as Hlog12.
  rewrite Hresults in Hlog12. destruct Hlog12 as [Hlog12 Hdb12].
  pose proof (delete_edges_log expression_results context2) as Hedges.
  split; [|split].
  - intros Hnull. rewrite Hunfold.
    assert (He : forM_ Delete.delete_edge expression_results context2 =
                 Ok tt context2).
    { clear -Hnull. induction Hnull as [|r rs -> _ IH]; [reflexivity|].
      cbn [forM_ Delete.delete_edge]. unfold bind, ret. exact IH. }
    assert (Hv : forM_ (Delete.delete_vertex (Delete.detach_ self))
                       expression_results context2 = Ok tt context2).
    { clear -Hnull. induction Hnull as [|r rs -> _ IH]; [reflexivity|].
      cbn [forM_ Delete.delete_vertex]. unfold bind, ret. exact IH. }
    rewrite He, Hv. reflexivity.
  - rewrite Hunfold, <- Hdb12.
    pose proof (delete_edges_db expression_results context2) as Hfirst.
    destruct (removed_edges (edges_of expression_results)
                            (db_accessor_ context2)) as [e|without_edges].
    + destruct Hfirst as [c3 ->]. eauto.
    + destruct Hfirst as (c3 & -> & <-).
      pose proof (delete_vertices_db (Delete.detach_ self)
                    expression_results c3) as Hsecond.
      destruct (removed_vertices (Delete.detach_ self)
                  (vertices_of (deletable_prefix expression_results))
                  (db_accessor_ c3)) as [e|without_vertices].
      * destruct Hsecond as [c4 ->]. eauto.
      * destruct Hsecond as (c4 & -> & <-). exists c4.
        destruct (forallb deletable expression_results);
          split; reflexivity.
  - rewrite Hunfold.
    destruct (forM_ Delete.delete_edge expression_results context2)
      as [[] c3|e3 c3|]; [| |contradiction].
    + pose proof (delete_vertices_log (Delete.detach_ self)
                    expression_results c3) as Hvs.
      destruct (forM_ (Delete.delete_vertex (Delete.detach_ self))
                      expression_results c3) as [[] c4|e4 c4|];
        [| |contradiction].
      * split; [reflexivity|].
        rewrite Hvs, Hedges, Hlog12, <- app_assoc. reflexivity.
      * destruct Hvs as (vs & rest & Hvs & Hl).
        exists (edges_of expression_results), vs.
        split; [rewrite Hl, Hedges, Hlog12, <- app_assoc; reflexivity|].
        split; [exists []; rewrite app_nil_r; reflexivity|].
        split; [exists rest; exact Hvs|]. reflexivity.
    + destruct Hedges as (es & rest & Hes & _ & Hl).
      exists es, []. cbn [map]. rewrite app_nil_r.
      split; [rewrite Hl, Hlog12; reflexivity|].
      split; [exists rest; exact Hes|].
      split; [exists (vertices_of expression_results); reflexivity|].
      intros Hne. contradiction.
Qed.

End DeleteProperties.

(** C10 at a concrete input: a vertex with a self-loop, deleted together
    with the loop and without [DETACH]; the edge is removed first, so the
    vertex goes too, and the graph is left empty. *)
Lemma C10_delete_nulls_types_order_witness :
  let v := mkVertex (mkAddress 1 0) false in
  let e := mkEdge (mkAddress 7 0) (mkAddress 1 0) (mkAddress 1 0) 0 in
  let g := Fixture.mkGraph false [v] [e] in
  let self :=
    Delete.mkDelete [Fixture.literal (Vertex v); Fixture.literal Null;
                     Fixture.literal (Edge e)] false in
  exists context',
    Delete.Pull 1 (Delete.MakeCursor self (@Once.MakeCursor)) [Null]
                (Fixture.start g) =
    Ok (true, Delete.MakeCursor self (Once.mkOnceCursor true), [Null])
       context' /\
    db_accessor_ context' = Fixture.mkGraph false [] [] /\
    db_log context' =
    [CallRemoveEdge e; CallRemoveVertex (mkVertex (mkAddress 1 0) true)].
Proof.
  intros v e g self.
  assert (Hpull :
    Cursor.Pull 1 (@Once.MakeCursor) [Null] (Fixture.start g) =
    Ok (true, Once.mkOnceCursor true, [Null]) (Fixture.start g))
    by reflexivity.
  assert (Hresults :
    mapM (fun expression => Accept expression NEW [Null])
         (Delete.expressions_ self) (Fixture.start g) =
    Ok [Vertex v; Null; Edge e]
       (mkContext g (Delete.expressions_ self) [] []))
    by reflexivity.
  destruct (C10_delete_nulls_types_order self (@Once.MakeCursor) [Null]
              (Fixture.start g) 1 _ _ _ _ _ Hpull Hresults)
    as (_ & Hdb & Hlog).
  vm_compute in Hdb. destruct Hdb as (context' & Hrow & Hdb).
  vm_compute in Hlog. destruct Hlog as [_ Hlog].
  injection Hrow as Hcontext. subst context'.
  eexists. split; [vm_compute; reflexivity|].
  split; [exact Hdb|exact Hlog].
Defined.

(** C10 as worded fails when a vertex that still has an edge comes
    before the result of the wrong type: deleting it without [DETACH]
    fails first, with another error. *)
Lemma C10_counterexample :
  let v := mkVertex (mkAddress 1 0) false in
  let e := mkEdge (mkAddress 7 0) (mkAddress 1 0) (mkAddress 1 0) 0 in
  let g := Fixture.mkGraph false [v] [e] in
  let self :=
    Delete.mkDelete [Fixture.literal (Vertex v); Fixture.literal (Int 1)]
                    false in
  deletable (Int 1) = false /\
  Delete.Pull 1 (Delete.MakeCursor self (@Once.MakeCursor)) [Null]
              (Fixture.start g) =
  Throw (QueryRuntimeException
           ("Failed to remove vertex because of it's existing " ++
            "connections. Consider using DETACH DELETE."))
        (mkContext g (Delete.expressions_ self)
                   [CallRemoveVertex (mkVertex (mkAddress 1 0) true)] []) /\
  QueryRuntimeException
    ("Failed to remove vertex because of it's existing " ++
     "connections. Consider using DETACH DELETE.") <>
  QueryRuntimeException "Can only delete edges and vertices".
Proof.
  intros v e g self.
  split; [reflexivity|]. split; [reflexivity|]. discriminate.
Qed.

(** ** Frames *)

Section Frames.

(** A sequence of writes to distinct positions inside the frame leaves
    each written value in its slot. *)
Lemma writes_untouched (writes : list (nat * TypedValue)) (frame : Frame) p :
  ~ In p (map fst writes) ->
  fold_left (fun frame w => <[fst w := snd w]> frame) writes frame !! p =
  frame !! p.
Proof.
  revert frame. induction writes as [|w ws IH]; intros frame Hp; [done|].
  cbn [fold_left]. rewrite IH.
  - apply list_lookup_insert_ne. intros Heq. apply Hp. left. exact Heq.
  - intros Hin. apply Hp. now right.
Qed.

Lemma writes_length (writes : list (nat * TypedValue)) (frame : Frame) :
  length (fold_left (fun frame w => <[fst w := snd w]> frame) writes frame) =
  length frame.
Proof.
  revert frame. induction writes as [|w ws IH]; intros frame; [done|].
  cbn [fold_left]. rewrite IH. apply length_insert.
Qed.

Lemma writes_lookup (writes : list (nat * TypedValue)) (frame : Frame) p v :
  List.NoDup (map fst writes) ->
  In (p, v) writes ->
  (p < length frame)%nat ->
  fold_left (fun frame w => <[fst w := snd w]> frame) writes frame !! p =
  Some v.
Proof.
  revert frame. induction writes as [|w ws IH]; intros frame Hnd Hin Hp.
  - destruct Hin.
  - cbn [fold_left]. cbn [map] in Hnd.
    apply List.NoDup_cons_iff in Hnd as [Hw Hnd].
    destruct Hin as [->|Hin].
    + cbn [fst snd] in *. rewrite writes_untouched by exact Hw.
      apply list_lookup_insert_eq. exact Hp.
    + apply IH; [exact Hnd|exact Hin|]. rewrite length_insert. exact Hp.
Qed.

Lemma fold_left_over_map {A B C} (f : A -> B -> A) (g : C -> B) l a :
  fold_left f (map g l) a = fold_left (fun a x => f a (g x)) l a.
Proof. revert a. induction l as [|x l IH]; intros a; [done|apply IH]. Qed.


End Frames.

(** ** Aggregate on an input without rows *)

Section AggregateProperties.
Context {Db : Type} `{!GraphDbAccessor Db} `{!TypedValueOps}.
Context {TInput : Type} `{!Cursor.Cursor Db TInput}.

Lemma calculate_averages_nil (elements : list (@Aggregate.Element Db)) pos
  (c : Context Db) :
  Aggregate.calculate_averages elements pos [] c = Ok [] c.
Proof.
  revert pos c. induction elements as [|element elements IH]; intros pos c.
  - reflexivity.
  - cbn [Aggregate.calculate_averages]. unfold bind.
    destruct (Aggregate.op element); cbn; apply IH.
Qed.

(** The frame of the synthetic row. *)
Definition default_row (self : @Aggregate.Aggregate Db) (frame : Frame)
  : Frame :=
  fold_left (fun frame remember_sym => frame_set remember_sym Null frame)
    (Aggregate.remember_ self)
    (fold_left
       (fun frame elem =>
          frame_set (Aggregate.output_sym elem)
                    (Aggregate.DefaultAggregationOpValue elem) frame)
       (Aggregate.aggregations_ self) frame).

(** The writes that make up [default_row]. *)
Definition default_writes (self : @Aggregate.Aggregate Db)
  : list (nat * TypedValue) :=
  map (fun elem =>
         (position (Aggregate.output_sym elem),
          Aggregate.DefaultAggregationOpValue elem))
      (Aggregate.aggregations_ self) ++
  map (fun remember_sym => (position remember_sym, Null))
      (Aggregate.remember_ self).

Lemma default_row_writes self frame :
  default_row self frame =
  fold_left (fun frame w => <[fst w := snd w]> frame) (default_writes self)
            frame.
Proof.
  unfold default_row, default_writes. rewrite fold_left_app.
  rewrite !fold_left_over_map. reflexivity.
Qed.

Lemma default_writes_positions self :
  map fst (default_writes self) =
  map position
      (map Aggregate.output_sym (Aggregate.aggregations_ self) ++
       Aggregate.remember_ self).
Proof.
  unfold default_writes. rewrite !map_app, !map_map. reflexivity.
Qed.

(** After the input has been consumed and found empty, the cursor of an
    [Aggregate] is in this state. *)
Definition consumed (self : @Aggregate.Aggregate Db) (input : TInput)
  : @Aggregate.AggregateCursor Db TInput :=
  Aggregate.mkAggregateCursor self input [] [] true.

(** The first pull of an [Aggregate] whose input has no row. *)
Lemma Aggregate_first_on_empty (self : @Aggregate.Aggregate Db)
  (input : TInput) (frame : Frame) (context : Context Db) (fuel : nat)
  (input' : TInput) (frame' : Frame) (context' : Context Db) :
  Cursor.Pull fuel input frame context = Ok (false, input', frame') context' ->
  Aggregate.Pull (S fuel) (Aggregate.MakeCursor self input) frame context =
  match Aggregate.group_by_ self with
  | [] => Ok (true, consumed self input', default_row self frame') context'
  | _ => Ok (false, consumed self input', frame') context'
  end.
Proof.
  intros Hpull.
  assert (Hall :
    Aggregate.ProcessAll (S fuel) (Aggregate.MakeCursor self input) frame
                         context = Ok (input', [], frame') context').
  { unfold Aggregate.ProcessAll, Aggregate.MakeCursor.
    cbn [Aggregate.process_input Aggregate.self_ Aggregate.input_cursor_
         Aggregate.aggregation_].
    unfold bind at 1. unfold bind at 1. rewrite Hpull. cbn iota beta.
    unfold ret at 1. unfold bind. rewrite calculate_averages_nil.
    reflexivity. }
  unfold Aggregate.Pull.
  change (Aggregate.pulled_all_input_ (Aggregate.MakeCursor self input))
    with false.
  cbn [negb]. rewrite (bind_Ok _ _ _ _ _ Hall). cbn iota beta zeta.
  change (Aggregate.self_ (Aggregate.MakeCursor self input)) with self.
  cbn [Aggregate.self_].
  destruct (Aggregate.group_by_ self); reflexivity.
Qed.

(** C5: when the input produces no row, [Aggregate] with a group-by
    expression produces no row; without group-by it produces exactly one
    row, whose aggregation slots hold the defaults (count 0, sum, avg,
    min and max null, an empty list or map for the collections) and whose
    remember slots hold null. *)
Theorem C5_aggregate_on_empty_input (self : @Aggregate.Aggregate Db)
  (input : TInput) (frame : Frame) (context : Context Db) (fuel : nat)
  (input' : TInput) (frame' : Frame) (context' : Context Db) :
  Cursor.Pull fuel input frame context = Ok (false, input', frame') context' ->
  let first := Aggregate.Pull (S fuel) (Aggregate.MakeCursor self input)
                              frame context in
  (forall n f c,
     Aggregate.Pull n (consumed self input') f c =
     Ok (false, consumed self input', f) c) /\
  (Aggregate.group_by_ self <> [] ->
   first = Ok (false, consumed self input', frame') context') /\
  (Aggregate.group_by_ self = [] ->
   first = Ok (true, consumed self input', default_row self frame') context' /\
   (List.NoDup
      (map position
           (map Aggregate.output_sym (Aggregate.aggregations_ self) ++
            Aggregate.remember_ self)) ->
    Forall (fun symbol => (position symbol < length frame')%nat)
           (map Aggregate.output_sym (Aggregate.aggregations_ self) ++
            Aggregate.remember_ self) ->
    (forall elem,
       In elem (Aggregate.aggregations_ self) ->
       frame_at (default_row self frame') (Aggregate.output_sym elem) =
       match Aggregate.op elem with
       | Aggregation.COUNT => Int 0
       | Aggregation.SUM | Aggregation.AVG | Aggregation.MIN
       | Aggregation.MAX => Null
       | Aggregation.COLLECT_LIST => List []
       | Aggregation.COLLECT_MAP => Map []
       end) /\
    (forall remember_sym,
       In remember_sym (Aggregate.remember_ self) ->
       frame_at (default_row self frame') remember_sym = Null))).
Proof.
  intros Hpull first.
  assert (Hfirst :
    first =
    match Aggregate.group_by_ self with
    | [] => Ok (true, consumed self input', default_row self frame') context'
    | _ => Ok (false, consumed self input', frame') context'
    end) by (subst first; apply Aggregate_first_on_empty; exact Hpull).
  split; [|split].
  - intros n f c. reflexivity.
  - intros Hgroup. rewrite Hfirst.
    destruct (Aggregate.group_by_ self); [contradiction|reflexivity].
  - intros Hgroup. rewrite Hfirst, Hgroup. split; [reflexivity|].
    intros Hnodup Hrange.
    rewrite <- default_writes_positions in Hnodup.
    assert (Hslot : forall symbol v,
              In (position symbol, v) (default_writes self) ->
              In symbol
                 (map Aggregate.output_sym (Aggregate.aggregations_ self) ++
                  Aggregate.remember_ self) ->
              frame_at (default_row self frame') symbol = v).
    { intros symbol v Hin Hsym. unfold frame_at.
      rewrite default_row_writes.
      rewrite (writes_lookup _ _ _ v Hnodup Hin); [reflexivity|].
      rewrite List.Forall_forall in Hrange. apply Hrange, Hsym. }
    split.
    + intros elem Helem.
      rewrite (Hslot (Aggregate.output_sym elem)
                     (Aggregate.DefaultAggregationOpValue elem)).
      * unfold Aggregate.DefaultAggregationOpValue.
        destruct (Aggregate.op elem); reflexivity.
      * unfold default_writes. apply in_or_app. left.
        apply (in_map (fun elem =>
                         (position (Aggregate.output_sym elem),
                          Aggregate.DefaultAggregationOpValue elem))).
        exact Helem.
      * apply in_or_app. left. apply in_map. exact Helem.
    + intros remember_sym Hrem.
      apply Hslot.
      * unfold default_writes. apply in_or_app. right.
        apply (in_map (fun remember_sym => (position remember_sym, Null))).
        exact Hrem.
      * apply in_or_app. right. exact Hrem.
Qed.

End AggregateProperties.

(** C5 at a concrete input: an [Aggregate] without group-by over a
    filter that lets nothing through. *)
Lemma C5_aggregate_on_empty_input_witness :
  let never := Fixture.literal (Bool false) in
  let input := Filter.MakeCursor (Filter.mkFilter never) (@Once.MakeCursor) in
  let self :=
    Aggregate.mkAggregate
      [Aggregate.mkElement None None Aggregation.COUNT (mkSymbol "c" 0);
       Aggregate.mkElement (Some never) None Aggregation.SUM (mkSymbol "s" 1);
       Aggregate.mkElement (Some never) None Aggregation.COLLECT_LIST
                           (mkSymbol "l" 2)]
      [] [mkSymbol "r" 3] in
  Aggregate.Pull 3 (Aggregate.MakeCursor self input)
                 [Int 9; Int 9; Int 9; Int 9]
                 (Fixture.start Fixture.empty_graph) =
  Ok (true,
      consumed self
        (Filter.mkFilterCursor (Filter.mkFilter never)
                               (Once.mkOnceCursor true)),
      [Int 0; Null; List []; Null])
     (mkContext Fixture.empty_graph [never] [] []) /\
  frame_at (default_row self [Int 9; Int 9; Int 9; Int 9]) (mkSymbol "r" 3) =
  Null.
Proof.
  intros never input self.
  assert (Hpull :
    Cursor.Pull 2 input [Int 9; Int 9; Int 9; Int 9]
                (Fixture.start Fixture.empty_graph) =
    Ok (false,
        Filter.mkFilterCursor (Filter.mkFilter never) (Once.mkOnceCursor true),
        [Int 9; Int 9; Int 9; Int 9])
       (mkContext Fixture.empty_graph [never] [] []))
    by reflexivity.
  destruct (C5_aggregate_on_empty_input self input _ _ 2 _ _ _ Hpull)
    as (_ & _ & Hrow).
  destruct (Hrow eq_refl) as [Hfirst Hslots].
  split; [exact Hfirst|].
  assert (Hnodup :
    List.NoDup
      (map position
           (map Aggregate.output_sym (Aggregate.aggregations_ self) ++
            Aggregate.remember_ self))).
  { cbn. repeat constructor; cbn; intuition lia. }
  assert (Hrange :
    Forall (fun symbol => (position symbol < 4)%nat)
           (map Aggregate.output_sym (Aggregate.aggregations_ self) ++
            Aggregate.remember_ self)).
  { cbn. repeat constructor; cbn; lia. }
  apply (proj2 (Hslots Hnodup Hrange)). cbn. left. reflexivity.
Defined.

(** ** Merge *)

Section MergeProperties.
Context {Db : Type}.
Context {TInput : Type} `{!Cursor.Cursor Db TInput}.
Context {TMatch : Type} `{!Cursor.Cursor Db TMatch}.
Context {TCreate : Type} `{!Cursor.Cursor Db TCreate}.

Local Abbreviation MergeCursor :=
  (@Merge.MergeCursor TInput TMatch (@Probe.Counted TCreate)).

(** While the match cursor goes on producing, [Merge] forwards its rows
    and leaves the create cursor alone. *)
Lemma Merge_forwards input (created : @Probe.Counted TCreate)
  merge_match frame context rows merge_match' frame' context' :
  produces (Db := Db) merge_match frame context rows
           merge_match' frame' context' ->
  produces (Db := Db)
    (Merge.mkMergeCursor input merge_match created false : MergeCursor)
    frame context rows
    (Merge.mkMergeCursor input merge_match' created false) frame' context'.
Proof.
  induction 1 as [|m f c m1 f1 c1 rows m' f' c' [N Hpull] _ IH].
  - constructor.
  - econstructor; [|exact IH].
    exists (S N). intros n Hn. destruct n as [|n]; [lia|].
    change (Cursor.Pull (S n) ?s ?f ?c) with (Merge.Pull (S n) s f c).
    cbn [Merge.Pull Merge.pull_input_]. unfold Merge.pull_match.
    cbn [Merge.merge_match_cursor_ Merge.input_cursor_
         Merge.merge_create_cursor_ Merge.pull_input_].
    unfold bind. rewrite Hpull by lia. reflexivity.
Qed.

(** C6: for an input row of [Merge], if the match plan yields rows they
    are all forwarded and the create plan is not pulled (its pull count
    stays put), the next pull after them going back to the input; if the
    match plan yields no row, the create plan is pulled exactly once and
    that pull is reported as a row, whatever it returned.  Either way the
    input row gives at least one output row. *)
Theorem C6_merge_match_or_create (this : MergeCursor)
  (frame : Frame) (context : Context Db)
  (input' : TInput) (frame1 : Frame) (context1 : Context Db)
  (merge_match : TMatch) (merge_create : TCreate) :
  Merge.pull_input_ this = true ->
  pulls (Merge.input_cursor_ this) frame context
        (Ok (true, input', frame1) context1) ->
  Cursor.Reset (Merge.merge_match_cursor_ this) = inr merge_match ->
  Cursor.Reset (Probe.inner_ (Merge.merge_create_cursor_ this)) =
  inr merge_create ->
  let count := Probe.pulls_ (Merge.merge_create_cursor_ this) in
  (forall row rows match_last frame_last context_last
          merge_match' frame' context',
     produces merge_match frame1 context1 (row :: rows)
              match_last frame_last context_last ->
     pulls match_last frame_last context_last
           (Ok (false, merge_match', frame') context') ->
     produces this frame context (row :: rows)
       (Merge.mkMergeCursor input' match_last
                            (Probe.mkCounted count merge_create) false)
       frame_last context_last /\
     (forall r,
        pulls (Merge.mkMergeCursor input' merge_match'
                 (Probe.mkCounted count merge_create) true : MergeCursor)
              frame' context' r ->
        pulls (Merge.mkMergeCursor input' match_last
                 (Probe.mkCounted count merge_create) false : MergeCursor)
              frame_last context_last r)) /\
  (forall merge_match' frame2 context2 created merge_create' frame3 context3,
     pulls merge_match frame1 context1
           (Ok (false, merge_match', frame2) context2) ->
     pulls merge_create frame2 context2
           (Ok (created, merge_create', frame3) context3) ->
     pulls this frame context
       (Ok (true,
            Merge.mkMergeCursor input' merge_match'
              (Probe.mkCounted (S count) merge_create') true,
            frame3)
           context3)).
Proof.
  intros Hinput [Ni Hin] Hrm Hrc count. split.
  - intros row rows match_last frame_last context_last merge_match' frame'
           context' Hrows [Nl Hlast].
    inversion Hrows
      as [|m f c m1 f1 c1 rows0 m' f' c' [Nm Hfirst] Hrest]; subst.
    split.
    + econstructor; [|apply Merge_forwards; exact Hrest].
      exists (S (Nat.max Ni Nm)). intros n Hn. destruct n as [|n]; [lia|].
      change (Cursor.Pull (S n) ?s ?f ?c) with (Merge.Pull (S n) s f c).
      cbn [Merge.Pull]. rewrite Hinput.
      unfold bind at 1. rewrite Hin by lia. cbn iota beta.
      unfold bind at 1. unfold lift at 1. rewrite Hrm. unfold ret at 1.
      unfold bind at 1. unfold lift at 1.
      change (Cursor.Reset (Merge.merge_create_cursor_ this))
        with (Probe.Reset (Merge.merge_create_cursor_ this)).
      unfold Probe.Reset. rewrite Hrc. unfold ret at 1.
      unfold Merge.pull_match.
      cbn [Merge.merge_match_cursor_ Merge.input_cursor_
           Merge.merge_create_cursor_ Merge.pull_input_].
      unfold bind. rewrite Hfirst by lia. reflexivity.
    + intros r [Nr Hr].
      exists (S (Nat.max Nl Nr)). intros n Hn. destruct n as [|n]; [lia|].
      change (Cursor.Pull (S n) ?s ?f ?c) with (Merge.Pull (S n) s f c).
      cbn [Merge.Pull Merge.pull_input_]. unfold Merge.pull_match.
      cbn [Merge.merge_match_cursor_ Merge.input_cursor_
           Merge.merge_create_cursor_ Merge.pull_input_].
      unfold bind at 1. rewrite Hlast by lia. cbn iota beta.
      apply Hr. lia.
  - intros merge_match' frame2 context2 created merge_create' frame3 context3
           [Nm Hmatch] [Nc Hcreate].
    exists (S (Nat.max Ni (Nat.max Nm Nc))). intros n Hn.
    destruct n as [|n]; [lia|].
    change (Cursor.Pull (S n) ?s ?f ?c) with (Merge.Pull (S n) s f c).
    cbn [Merge.Pull]. rewrite Hinput.
    unfold bind at 1. rewrite Hin by lia. cbn iota beta.
    unfold bind at 1. unfold lift at 1. rewrite Hrm. unfold ret at 1.
    unfold bind at 1. unfold lift at 1.
    change (Cursor.Reset (Merge.merge_create_cursor_ this))
      with (Probe.Reset (Merge.merge_create_cursor_ this)).
    unfold Probe.Reset. rewrite Hrc. unfold ret at 1.
    unfold Merge.pull_match.
    cbn [Merge.merge_match_cursor_ Merge.input_cursor_
         Merge.merge_create_cursor_ Merge.pull_input_].
    unfold bind at 1. rewrite Hmatch by lia. cbn iota beta.
    change (Cursor.Pull n
              (Probe.mkCounted (Probe.pulls_ (Merge.merge_create_cursor_ this))
                               merge_create) frame2)
      with (Probe.Pull n
              (Probe.mkCounted (Probe.pulls_ (Merge.merge_create_cursor_ this))
                               merge_create) frame2).
    unfold Probe.Pull. cbn [Probe.inner_ Probe.pulls_].
    unfold bind. rewrite Hcreate by lia. reflexivity.
Qed.

End MergeProperties.

(** C6 at a concrete input: the match plan is a filter that lets nothing
    through, so the create plan (a [Once]) is pulled, once. *)
Lemma C6_merge_match_or_create_witness :
  let never := Fixture.literal (Bool false) in
  let merge_match :=
    Filter.MakeCursor (Filter.mkFilter never) (@Once.MakeCursor) in
  let this :=
    Merge.MakeCursor (@Once.MakeCursor) merge_match
                     (Probe.mkCounted 0 (@Once.MakeCursor)) in
  pulls this [Null] (Fixture.start Fixture.empty_graph)
    (Ok (true,
         Merge.mkMergeCursor (Once.mkOnceCursor true)
           (Filter.mkFilterCursor (Filter.mkFilter never)
                                  (Once.mkOnceCursor true))
           (Probe.mkCounted 1 (Once.mkOnceCursor true)) true,
         [Null])
        (mkContext Fixture.empty_graph [never] [] [])).
Proof.
  intros never merge_match this.
  refine (proj2 (C6_merge_match_or_create this [Null]
                   (Fixture.start Fixture.empty_graph)
                   (Once.mkOnceCursor true) [Null]
                   (Fixture.start Fixture.empty_graph)
                   merge_match (@Once.MakeCursor) eq_refl _ eq_refl eq_refl)
                (Filter.mkFilterCursor (Filter.mkFilter never)
                                       (Once.mkOnceCursor true))
                [Null] (mkContext Fixture.empty_graph [never] [] [])
                true (Once.mkOnceCursor true) [Null]
                (mkContext Fixture.empty_graph [never] [] []) _ _).
  - exists O. intros n _. reflexivity.
  - exists 2%nat. intros n Hn.
    destruct n as [|[|n]]; [lia|lia|]. reflexivity.
  - exists O. intros n _. reflexivity.
Defined.

(** ** Distinct *)

Section DistinctProperties.
Context {Db : Type} `{!GraphDbAccessor Db} `{!TypedValueOps}.

(** The projection of a frame on the distinct symbols. *)
Definition project (symbols : list Symbol) (frame : Frame)
  : list TypedValue :=
  map (frame_at frame) symbols.











(** Counting, on tuples among which the equality is symmetric and
    transitive. *)
Section OnTheTuples.
Variable tuples : list (list TypedValue).
Hypothesis Hsym :
  forall v w, In v tuples -> In w tuples ->
              TypedValueVectorEqual v w = TypedValueVectorEqual w v.
Hypothesis Htrans :
  forall u v w, In u tuples -> In v tuples -> In w tuples ->
                TypedValueVectorEqual u v = true ->
                TypedValueVectorEqual v w = true ->
                TypedValueVectorEqual u w = true.


End OnTheTuples.

End DistinctProperties.

Section DrainsFacts.
Context {Db TCursor : Type} `{!Cursor.Cursor Db TCursor}.

(** A cursor that pulls like another one drains like it. *)
Lemma drains_head consumer (a b : TCursor) fa ca fb cb rows
  cursor' frame' context' :
  (forall r, pulls (Db := Db) a fa ca r -> pulls b fb cb r) ->
  drains consumer a fa ca rows cursor' frame' context' ->
  drains consumer b fb cb rows cursor' frame' context'.
Proof.
  intros Hlike Hdrains. inversion Hdrains; subst.
  - apply drains_done. apply Hlike. assumption.
  - eapply drains_row; [apply Hlike; eassumption|assumption].
Qed.

End DrainsFacts.

Section DistinctCursorProperties.
Context {Db : Type} `{!GraphDbAccessor Db} `{!TypedValueOps}.
Context {TInput : Type} `{!Cursor.Cursor Db TInput}.
Variable self : Distinct.Distinct.

Local Abbreviation symbols := (Distinct.value_symbols_ self).





End DistinctCursorProperties.

Section DistinctIdempotent.
Context {Db : Type} `{!GraphDbAccessor Db} `{!TypedValueOps}.
Context {TInput : Type} `{!Cursor.Cursor Db TInput}.


End DistinctIdempotent.



(** ** Accumulate and Synchronize: the order of the buffered rows *)

(** The frames a cursor hands out when it streams buffered rows: each
    row is put on the frame left by the previous one. *)
Fixpoint stream_rows (put : list TypedValue -> Frame -> Frame)
  (rows : list (list TypedValue)) (frame : Frame) : list Frame :=
  match rows with
  | [] => []
  | row :: rows' => put row frame :: stream_rows put rows' (put row frame)
  end.

Section AccumulateProperties.
Context {Db : Type} `{!GraphDbAccessor Db}.
Context {TInput : Type} `{!Cursor.Cursor Db TInput}.
Variable self : Accumulate.Accumulate.

Local Abbreviation symbols := (Accumulate.symbols_ self).

Lemma cache_input_drains (input : TInput) frame context rows input' frame'
  context' :
  drains (fun frame => frame) input frame context rows input' frame'
         context' ->
  forall cache,
  exists N, forall n, (N <= n)%nat ->
    Accumulate.cache_input n symbols input cache frame context =
    Ok (input', cache ++ map (project symbols) rows, frame') context'.
Proof.
  induction 1 as [s f c s' f' c' [N Hdone]
                 |s f c s1 f1 c1 rows s' f' c' [N Hrow] _ IH]; intros cache.
  - exists (S N). intros n Hn. destruct n as [|n]; [lia|].
    cbn [Accumulate.cache_input]. unfold bind. rewrite Hdone by lia.
    cbn. rewrite app_nil_r. reflexivity.
  - destruct (IH (cache ++ [project symbols f1])) as [N' IH'].
    exists (S (Nat.max N N')). intros n Hn. destruct n as [|n]; [lia|].
    cbn [Accumulate.cache_input]. unfold bind. rewrite Hrow by lia.
    cbn iota beta. unfold project in IH'. rewrite IH' by lia.
    cbn [map]. rewrite <- app_assoc. reflexivity.
Qed.

(** Once everything is cached, the rows still ahead of [cache_it_] are
    streamed in their order. *)
Lemma Accumulate_streams (input : TInput) cache cache_it frame context :
  drains (fun frame => frame)
    (Accumulate.mkAccumulateCursor self input cache cache_it true)
    frame context
    (stream_rows (restore_symbols symbols) cache_it frame)
    (Accumulate.mkAccumulateCursor self input cache [] true)
    (fold_left (fun frame row => restore_symbols symbols row frame)
               cache_it frame)
    context.
Proof.
  revert frame. induction cache_it as [|row rest IH]; intros frame.
  - apply drains_done. exists O. intros n _. reflexivity.
  - cbn [stream_rows fold_left]. eapply drains_row; [|apply IH].
    exists O. intros n _. reflexivity.
Qed.

(** [Accumulate] streams the projections of the rows of its input in the
    order the input produced them. *)
Lemma Accumulate_in_order (input : TInput) frame context rows input' frame'
  context' cache context'' :
  drains (fun frame => frame) input frame context rows input' frame'
         context' ->
  (if Accumulate.advance_command_ self then
     bind db_AdvanceCommand
          (fun _ => mapM (mapM Reconstruct) (map (project symbols) rows))
   else ret (map (project symbols) rows)) context' = Ok cache context'' ->
  drains (fun frame => frame) (Accumulate.MakeCursor self input)
    frame context
    (stream_rows (restore_symbols symbols) cache frame')
    (Accumulate.mkAccumulateCursor self input' cache [] true)
    (fold_left (fun frame row => restore_symbols symbols row frame)
               cache frame')
    context''.
Proof.
  intros Hdrains Hsettle.
  destruct (cache_input_drains _ _ _ _ _ _ _ Hdrains []) as [N Hcache].
  eapply drains_head; [|apply (Accumulate_streams input' cache cache)].
  intros r [Nr Hr]. exists (Nat.max N Nr). intros n Hn.
  rewrite <- (Hr n) by lia.
  change (Cursor.Pull n ?s ?f ?c) with (Accumulate.Pull n s f c).
  unfold Accumulate.Pull, Accumulate.MakeCursor.
  cbn [Accumulate.pulled_all_input_ Accumulate.self_ Accumulate.input_cursor_
       Accumulate.cache_ Accumulate.cache_it_ negb].
  unfold bind at 1. unfold bind at 1. rewrite Hcache by lia.
  cbn iota beta. cbn [app]. unfold bind at 1.
  rewrite Hsettle. reflexivity.
Qed.

End AccumulateProperties.

Section SynchronizeProperties.
Context {Db : Type} `{!GraphDbAccessor Db} `{!DistributedGraphDb Db}.
Context `{!TypedValueOps}.
Context {TInput : Type} `{!Cursor.Cursor Db TInput}.
Context {TPullRemote : Type} `{!Cursor.Cursor Db TPullRemote}.
Variable self : Synchronize.Synchronize.

Local Abbreviation SynchronizeCursor :=
  (@Synchronize.SynchronizeCursor TInput TPullRemote).

Lemma pop_back_snoc {A} (v : list A) (x : A) :
  pop_back (v ++ [x]) = Some (v, x).
Proof.
  unfold pop_back. rewrite last_snoc, List.removelast_last. reflexivity.
Qed.

Lemma overwrite_elems_length elems result :
  length (overwrite_elems elems result) = length elems.
Proof.
  revert result. induction elems as [|x elems IH]; intros [|y result];
    cbn; try reflexivity. rewrite IH. reflexivity.
Qed.

(** The context once the workers have been told to accumulate. *)
Definition announced (workers : list nat) (context : Context Db)
  : Context Db :=
  mkContext (db_accessor_ context) (eval_log context)
            (db_log context ++ map CallRemotePullAccumulate workers)
            (future_ready context).

Lemma announce_workers workers (context : Context Db) :
  forM_ (fun worker_id => log_call (CallRemotePullAccumulate worker_id))
        workers context = Ok tt (announced workers context).
Proof.
  unfold announced. revert context.
  induction workers as [|w workers IH]; intros context.
  - cbn. rewrite app_nil_r. destruct context; reflexivity.
  - cbn [forM_]. unfold bind, log_call. rewrite IH. cbn.
    rewrite <- app_assoc. reflexivity.
Qed.

Lemma accumulate_local_drains (input : TInput) frame context rows input'
  frame' context' :
  drains (map moved_from) input frame context rows input' frame' context' ->
  forall local_frames,
  exists N, forall n, (N <= n)%nat ->
    Synchronize.accumulate_local n input local_frames frame context =
    Ok (input', local_frames ++ rows, frame') context'.
Proof.
  induction 1 as [s f c s' f' c' [N Hdone]
                 |s f c s1 f1 c1 rows s' f' c' [N Hrow] _ IH];
    intros local_frames.
  - exists (S N). intros n Hn. destruct n as [|n]; [lia|].
    cbn [Synchronize.accumulate_local]. unfold bind. rewrite Hdone by lia.
    cbn. rewrite app_nil_r. reflexivity.
  - destruct (IH (local_frames ++ [f1])) as [N' IH'].
    exists (S (Nat.max N N')). intros n Hn. destruct n as [|n]; [lia|].
    cbn [Synchronize.accumulate_local]. unfold bind. rewrite Hrow by lia.
    cbn iota beta. rewrite IH' by lia. rewrite <- app_assoc. reflexivity.
Qed.

(** What is put on the frame for a buffered row. *)
Definition put_local (row : list TypedValue) (frame : Frame) : Frame :=
  overwrite_elems frame row.

(** How a buffered row is prepared for a frame of the given width: it
    is cut to the width and, after a command advance, reconstructed. *)
Definition prepared (width : nat) (context : Context Db)
  (row row' : list TypedValue) : Prop :=
  (if Synchronize.advance_command_ self
   then mapM Reconstruct (take width row)
   else ret (take width row)) context = Ok row' context.

(** The state of the cursor once the barrier is behind it. *)
Definition synchronized (input : TInput) (pull_remote : option TPullRemote)
  (local_frames : list (list TypedValue)) : SynchronizeCursor :=
  Synchronize.mkSynchronizeCursor self input pull_remote true local_frames.

(** What the remote side contributes once the local rows are out. *)
Definition remote_part (pull_remote : option TPullRemote) (frame : Frame)
  (context : Context Db) (rows : list Frame)
  (pull_remote' : option TPullRemote) (frame' : Frame)
  (context' : Context Db) : Prop :=
  match pull_remote with
  | Some remote =>
      exists remote',
        pull_remote' = Some remote' /\
        drains (fun frame => frame) remote frame context rows remote' frame'
               context'
  | None =>
      rows = [] /\ pull_remote' = None /\ frame' = frame /\ context' = context
  end.

Lemma Synchronize_remote_only (input : TInput) pull_remote frame context rows
  pull_remote' frame' context' :
  remote_part pull_remote frame context rows pull_remote' frame' context' ->
  drains (fun frame => frame) (synchronized input pull_remote [])
         frame context rows (synchronized input pull_remote' [])
         frame' context'.
Proof.
  destruct pull_remote as [remote|]; cbn [remote_part].
  - intros (remote' & -> & Hdrains).
    induction Hdrains as [s f c s' f' c' [N Hdone]
                         |s f c s1 f1 c1 rows s' f' c' [N Hrow] _ IH].
    + apply drains_done. exists N. intros n Hn.
      change (Cursor.Pull n ?s ?f ?c) with (Synchronize.Pull n s f c).
      unfold Synchronize.Pull, synchronized, bind. cbn.
      rewrite Hdone by lia. reflexivity.
    + eapply drains_row; [|exact IH]. exists N. intros n Hn.
      change (Cursor.Pull n ?s ?f ?c) with (Synchronize.Pull n s f c).
      unfold Synchronize.Pull, synchronized, bind. cbn.
      rewrite Hrow by lia. reflexivity.
  - intros (-> & -> & -> & ->). apply drains_done. exists O. intros n _.
    reflexivity.
Qed.

(** After the barrier the buffered rows come out last first, then the
    rows of the remote pull. *)
Lemma Synchronize_streams (input : TInput) pull_remote todo rows' :
  forall frame context remote_rows pull_remote' frame' context',
  Forall2 (prepared (length frame) context) todo rows' ->
  remote_part pull_remote
    (fold_left (fun frame row => put_local row frame) rows' frame)
    context remote_rows pull_remote' frame' context' ->
  drains (fun frame => frame)
    (synchronized input pull_remote (rev todo)) frame context
    (stream_rows put_local rows' frame ++ remote_rows)
    (synchronized input pull_remote' []) frame' context'.
Proof.
  intros frame context remote_rows pull_remote' frame' context'.
  revert frame rows'.
  induction todo as [|row todo IH]; intros frame rows' Hprepared Hremote.
  - inversion Hprepared; subst. cbn in *.
    apply Synchronize_remote_only. exact Hremote.
  - inversion Hprepared as [|row0 row' todo0 rows0 Hrow Hrest]; subst.
    cbn [stream_rows app fold_left] in *.
    eapply drains_row.
    + exists O. intros n _.
      change (Cursor.Pull n ?s ?f ?c) with (Synchronize.Pull n s f c).
      unfold Synchronize.Pull, synchronized.
      cbn [Synchronize.initial_pull_done_ Synchronize.local_frames_ negb rev].
      unfold bind at 1. unfold ret at 1.
      cbn [Synchronize.local_frames_]. rewrite pop_back_snoc.
      cbn [Synchronize.advance_command_ Synchronize.self_
           Synchronize.input_cursor_ Synchronize.pull_remote_cursor_
           Synchronize.initial_pull_done_].
      unfold prepared in Hrow. unfold bind. rewrite Hrow. reflexivity.
    + apply IH.
      * unfold put_local. rewrite overwrite_elems_length. exact Hrest.
      * exact Hremote.
Qed.

(** [Synchronize] streams the rows buffered from its input in the
    reverse of the order the input produced them, then the rows of the
    remote pull. *)
Lemma Synchronize_reversed (input : TInput) pull_remote frame context rows
  input' frame' context1 context2 rows' remote_rows pull_remote' frame''
  context'' :
  let this := Synchronize.MakeCursor self input pull_remote in
  let workers :=
    Synchronize.accumulating_workers this (db_accessor_ context) in
  drains (map moved_from) input frame (announced workers context) rows
         input' frame' context1 ->
  Synchronize.await_and_apply self workers context1 = Ok tt context2 ->
  Forall2 (prepared (length frame') context2) (rev rows) rows' ->
  remote_part pull_remote
    (fold_left (fun frame row => put_local row frame) rows' frame')
    context2 remote_rows pull_remote' frame'' context'' ->
  drains (fun frame => frame) this frame context
    (stream_rows put_local rows' frame' ++ remote_rows)
    (synchronized input' pull_remote' []) frame'' context''.
Proof.
  intros this workers Hdrains Hbarrier Hprepared Hremote.
  destruct (accumulate_local_drains _ _ _ _ _ _ _ Hdrains []) as [N Hlocal].
  pose proof (Synchronize_streams input' pull_remote (rev rows) rows' frame'
                context2 remote_rows pull_remote' frame'' context''
                Hprepared Hremote) as Hstream.
  rewrite rev_involutive in Hstream.
  eapply drains_head; [|exact Hstream].
  intros r [Nr Hr]. exists (Nat.max N Nr). intros n Hn.
  rewrite <- (Hr n) by lia.
  change (Cursor.Pull n ?s ?f ?c) with (Synchronize.Pull n s f c).
  unfold Synchronize.Pull at 1. subst this. unfold Synchronize.MakeCursor.
  cbn [Synchronize.initial_pull_done_ negb Synchronize.self_
       Synchronize.pull_remote_cursor_].
  unfold bind at 1. unfold bind at 1. unfold Synchronize.InitialPull.
  unfold bind at 1. unfold get_db at 1.
  unfold bind at 1. rewrite announce_workers.
  unfold bind at 1.
  cbn [Synchronize.input_cursor_ Synchronize.local_frames_].
  fold (Synchronize.MakeCursor self input pull_remote).
  rewrite Hlocal by lia. cbn iota beta.
  unfold bind at 1. cbn [Synchronize.self_].
  change (Synchronize.await_and_apply _ _ context1)
    with (Synchronize.await_and_apply self workers context1).
  rewrite Hbarrier. reflexivity.
Qed.

End SynchronizeProperties.

Section StreamingOrder.
Context {Db : Type} `{!GraphDbAccessor Db} `{!DistributedGraphDb Db}.
Context `{!TypedValueOps}.
Context {TInput : Type} `{!Cursor.Cursor Db TInput}.
Context {TPullRemote : Type} `{!Cursor.Cursor Db TPullRemote}.

(** C1 (amended).  [Accumulate] streams the rows it cached in the order
    its input produced them: the cache is the projection of the input's
    rows on the remembered symbols, in input order (reconstructed after
    a command advance), and the frames that come out are the cached rows
    restored one after the other from the front of the cache.
    [Synchronize] buffers the rows of its input in input order and,
    after its barrier, streams them last buffered first: the frames that
    come out are the buffered rows in REVERSE input order (cut to the
    width of the frame, reconstructed after a command advance), followed
    by the rows of the remote pull. *)
Theorem C1_streaming_order
  (accumulate : Accumulate.Accumulate) (synchronize : Synchronize.Synchronize)
  (input : TInput) (pull_remote : option TPullRemote)
  (frame : Frame) (context : Context Db) :
  (forall rows input' frame' context' cache context'',
     drains (fun frame => frame) input frame context rows input' frame'
            context' ->
     (if Accumulate.advance_command_ accumulate then
        bind db_AdvanceCommand
             (fun _ =>
                mapM (mapM Reconstruct)
                     (map (project (Accumulate.symbols_ accumulate)) rows))
      else ret (map (project (Accumulate.symbols_ accumulate)) rows))
       context' = Ok cache context'' ->
     drains (fun frame => frame) (Accumulate.MakeCursor accumulate input)
       frame context
       (stream_rows (restore_symbols (Accumulate.symbols_ accumulate))
                    cache frame')
       (Accumulate.mkAccumulateCursor accumulate input' cache [] true)
       (fold_left
          (fun frame row =>
             restore_symbols (Accumulate.symbols_ accumulate) row frame)
          cache frame')
       context'') /\
  (forall rows input' frame' context1 context2 rows' remote_rows
          pull_remote' frame'' context'',
     let this := Synchronize.MakeCursor synchronize input pull_remote in
     let workers :=
       Synchronize.accumulating_workers this (db_accessor_ context) in
     drains (map moved_from) input frame (announced workers context) rows
            input' frame' context1 ->
     Synchronize.await_and_apply synchronize workers context1 =
       Ok tt context2 ->
     Forall2 (prepared synchronize (length frame') context2)
             (rev rows) rows' ->
     remote_part pull_remote
       (fold_left (fun frame row => put_local row frame) rows' frame')
       context2 remote_rows pull_remote' frame'' context'' ->
     drains (fun frame => frame) this frame context
       (stream_rows put_local rows' frame' ++ remote_rows)
       (synchronized synchronize input' pull_remote' []) frame'' context'').
Proof.
  split.
  - intros rows input' frame' context' cache context''.
    apply Accumulate_in_order.
  - intros rows input' frame' context1 context2 rows' remote_rows
           pull_remote' frame'' context''.
    apply Synchronize_reversed.
Qed.

End StreamingOrder.

(** Pulls of a concrete cursor on as much fuel as asked for, and however
    much more. *)
Ltac run_fuel k :=
  exists k; intros n Hn;
  repeat (destruct n as [|n]; [exfalso; clear -Hn; lia|]);
  reflexivity.

(** The rows of [UNWIND [1, 2] AS x], for a consumer that hands the
    frame back as it is. *)
Lemma unwind_one_two (consumer : Frame -> Frame) :
  (forall frame, consumer frame = frame) ->
  let x := mkSymbol "x" 0 in
  let list_expr := Fixture.literal (List [Int 1; Int 2]) in
  drains consumer
    (Unwind.MakeCursor (Unwind.mkUnwind list_expr x) (@Once.MakeCursor))
    [Null] (Fixture.start Fixture.empty_graph)
    [[Int 1]; [Int 2]]
    (Unwind.mkUnwindCursor (Unwind.mkUnwind list_expr x)
                           (Once.mkOnceCursor true) [Int 1; Int 2] [])
    [Int 2] (mkContext Fixture.empty_graph [list_expr] [] []).
Proof.
  intros Hconsumer x list_expr.
  set (after := mkContext Fixture.empty_graph [list_expr] [] []).
  apply (drains_row _ _ _ _
           (Unwind.mkUnwindCursor (Unwind.mkUnwind list_expr x)
              (Once.mkOnceCursor true) [Int 1; Int 2] [Int 2])
           [Int 1] after); [run_fuel 4%nat|].
  rewrite Hconsumer.
  apply (drains_row _ _ _ _
           (Unwind.mkUnwindCursor (Unwind.mkUnwind list_expr x)
              (Once.mkOnceCursor true) [Int 1; Int 2] [])
           [Int 2] after); [run_fuel 4%nat|].
  rewrite Hconsumer.
  apply drains_done. run_fuel 4%nat.
Qed.

(** C1 at a concrete input: [Accumulate] and [Synchronize] over the rows
    of [UNWIND [1, 2] AS x], on a single worker. *)
Lemma C1_streaming_order_witness :
  let x := mkSymbol "x" 0 in
  let list_expr := Fixture.literal (List [Int 1; Int 2]) in
  let input :=
    Unwind.MakeCursor (Unwind.mkUnwind list_expr x) (@Once.MakeCursor) in
  let input' :=
    Unwind.mkUnwindCursor (Unwind.mkUnwind list_expr x)
                          (Once.mkOnceCursor true) [Int 1; Int 2] [] in
  let start := Fixture.start Fixture.empty_graph in
  let accumulate := Accumulate.mkAccumulate [x] false in
  let synchronize := Synchronize.mkSynchronize false in
  drains (fun frame => frame) (Accumulate.MakeCursor accumulate input)
         [Null] start [[Int 1]; [Int 2]]
         (Accumulate.mkAccumulateCursor accumulate input'
                                        [[Int 1]; [Int 2]] [] true)
         [Int 2] (mkContext Fixture.empty_graph [list_expr] [] []) /\
  drains (fun frame => frame)
         (Synchronize.MakeCursor synchronize input
                                 (None : option Once.OnceCursor))
         [Null] start [[Int 2]; [Int 1]]
         (synchronized synchronize input' None [])
         [Int 1]
         (mkContext Fixture.empty_graph [list_expr]
                    [CallRemoteUpdateApplyAll; CallUpdatesServerApply] []).
Proof.
  intros x list_expr input input' start accumulate synchronize.
  destruct (C1_streaming_order accumulate synchronize input
              (None : option Once.OnceCursor) [Null] start)
    as [Haccumulate Hsynchronize].
  split.
  - apply (Haccumulate [[Int 1]; [Int 2]] input' [Int 2]
             (mkContext Fixture.empty_graph [list_expr] [] [])
             [[Int 1]; [Int 2]]
             (mkContext Fixture.empty_graph [list_expr] [] [])).
    + apply unwind_one_two. reflexivity.
    + reflexivity.
  - apply (Hsynchronize [[Int 1]; [Int 2]] input' [Int 2]
             (mkContext Fixture.empty_graph [list_expr] [] [])
             (mkContext Fixture.empty_graph [list_expr]
                [CallRemoteUpdateApplyAll; CallUpdatesServerApply] [])
             [[Int 2]; [Int 1]] [] None [Int 1]
             (mkContext Fixture.empty_graph [list_expr]
                [CallRemoteUpdateApplyAll; CallUpdatesServerApply] [])).
    + apply (unwind_one_two (map moved_from)). intros frame.
      apply map_id.
    + reflexivity.
    + repeat constructor.
    + cbn. repeat split.
Defined.

(** C1 as worded fails for [Synchronize]: over an input that produces
    the row with 1 and then the row with 2, it produces the row with 2
    and then the row with 1. *)
Lemma C1_counterexample :
  let x := mkSymbol "x" 0 in
  let list_expr := Fixture.literal (List [Int 1; Int 2]) in
  let input :=
    Unwind.MakeCursor (Unwind.mkUnwind list_expr x) (@Once.MakeCursor) in
  let this :=
    Synchronize.MakeCursor (Synchronize.mkSynchronize false) input
                           (None : option Once.OnceCursor) in
  let start := Fixture.start Fixture.empty_graph in
  (exists input' context',
     drains (fun frame => frame) input [Null] start
            [[Int 1]; [Int 2]] input' [Int 2] context') /\
  (exists this' context',
     drains (fun frame => frame) this [Null] start
            [[Int 2]; [Int 1]] this' [Int 1] context') /\
  Fixture.pull_all 10 this [Null] start =
    Ok [[Int 2]; [Int 1]]
       (mkContext Fixture.empty_graph [list_expr]
                  [CallRemoteUpdateApplyAll; CallUpdatesServerApply] []).
Proof.
  intros x list_expr input this start.
  set (input' := Unwind.mkUnwindCursor (Unwind.mkUnwind list_expr x)
                   (Once.mkOnceCursor true) [Int 1; Int 2] []).
  set (after := mkContext Fixture.empty_graph [list_expr]
                  [CallRemoteUpdateApplyAll; CallUpdatesServerApply] []).
  split; [|split].
  - eexists _, _. apply unwind_one_two. reflexivity.
  - exists (synchronized (Synchronize.mkSynchronize false) input' None []),
      after.
    apply (drains_row _ _ _ _
             (synchronized (Synchronize.mkSynchronize false) input' None
                           [[Int 1]])
             [Int 2] after); [run_fuel 6%nat|].
    apply (drains_row _ _ _ _
             (synchronized (Synchronize.mkSynchronize false) input' None [])
             [Int 1] after); [run_fuel 6%nat|].
    apply drains_done. run_fuel 6%nat.
  - reflexivity.
Qed.

(** ** What a computation evaluates *)

Section Logs.
Context {Db : Type} `{!GraphDbAccessor Db}.

(** The outcome [r] of a computation started in [context] has entered
    in the log only evaluations of expressions that satisfy [P]. *)
Definition log_extends {A} (P : Expression Db -> Prop) (context : Context Db)
  (r : Outcome Db A) : Prop :=
  match r with
  | Ok _ context' | Throw _ context' =>
      exists added,
        eval_log context' = eval_log context ++ added /\ Forall P added
  | OutOfFuel => True
  end.

(** The computation [m] evaluates only expressions that satisfy [P]. *)
Definition evaluates_only {A} (P : Expression Db -> Prop) (m : M Db A)
  : Prop :=
  forall context, log_extends P context (m context).

Lemma evaluates_only_ret {A} P (a : A) : evaluates_only P (ret a).
Proof. intros c. exists []. rewrite app_nil_r. split; constructor. Qed.

Lemma evaluates_only_throw {A} P e : evaluates_only P (@throw Db A e).
Proof. intros c. exists []. rewrite app_nil_r. split; constructor. Qed.

Lemma evaluates_only_diverge {A} P : evaluates_only P (@diverge Db A).
Proof. intros c. exact I. Qed.

Lemma evaluates_only_bind {A B} P (m : M Db A) (k : A -> M Db B) :
  evaluates_only P m -> (forall a, evaluates_only P (k a)) ->
  evaluates_only P (bind m k).
Proof.
  intros Hm Hk c. unfold bind. specialize (Hm c).
  destruct (m c) as [a c1|e c1|]; [|exact Hm|exact I].
  destruct Hm as (added1 & Hlog1 & Hall1). specialize (Hk a c1).
  destruct (k a c1) as [b c2|e c2|]; [| |exact I];
    destruct Hk as (added2 & Hlog2 & Hall2);
    exists (added1 ++ added2);
    (split; [rewrite Hlog2, Hlog1, app_assoc; reflexivity
            |apply Forall_app; split; assumption]).
Qed.

Lemma evaluates_only_get_db P : evaluates_only P get_db.
Proof. intros c. exists []. rewrite app_nil_r. split; constructor. Qed.

Lemma evaluates_only_Accept (P : Expression Db -> Prop) expression
  graph_view frame :
  P expression -> evaluates_only P (Accept expression graph_view frame).
Proof.
  intros HP c. unfold Accept.
  destruct (expr_eval expression graph_view frame (db_accessor_ c));
    exists [expression]; (split; [reflexivity|repeat constructor; exact HP]).
Qed.

Lemma evaluates_only_ExpectType P symbol value expected :
  evaluates_only P (ExpectType symbol value expected).
Proof.
  unfold ExpectType. destruct (Type_eqb (type value) expected).
  - apply evaluates_only_ret.
  - apply evaluates_only_throw.
Qed.

Lemma evaluates_only_EvaluateFilter (P : Expression Db -> Prop) graph_view
  filter frame :
  P filter -> evaluates_only P (EvaluateFilter graph_view filter frame).
Proof.
  intros HP. unfold EvaluateFilter. apply evaluates_only_bind.
  - apply evaluates_only_Accept. exact HP.
  - intros []; first [apply evaluates_only_ret|apply evaluates_only_throw].
Qed.

Lemma evaluates_only_ValueVertex P v :
  evaluates_only P (ExpandCommon.ValueVertex v).
Proof.
  destruct v; first [apply evaluates_only_ret|apply evaluates_only_throw].
Qed.

Lemma evaluates_only_ValueEdge P v :
  evaluates_only P (ExpandCommon.ValueEdge v).
Proof.
  destruct v; first [apply evaluates_only_ret|apply evaluates_only_throw].
Qed.

Lemma evaluates_only_ValueList P v :
  evaluates_only P (ExpandCommon.ValueList v).
Proof.
  destruct v; first [apply evaluates_only_ret|apply evaluates_only_throw].
Qed.

Lemma evaluates_only_HandleExistingNode P self new_node frame :
  evaluates_only P (ExpandCommon.HandleExistingNode self new_node frame).
Proof.
  unfold ExpandCommon.HandleExistingNode.
  destruct (ExpandCommon.existing_node_ self); [|apply evaluates_only_ret].
  destruct (IsNull _); [apply evaluates_only_ret|].
  apply evaluates_only_bind; [apply evaluates_only_ExpectType|intros _].
  apply evaluates_only_bind; [apply evaluates_only_ValueVertex|intros ?].
  apply evaluates_only_ret.
Qed.

Lemma evaluates_only_found_existing P current_edge edges_on_frame :
  evaluates_only P
    (ExpandVariableCursor.found_existing current_edge edges_on_frame).
Proof.
  induction edges_on_frame as [|value rest IH];
    cbn [ExpandVariableCursor.found_existing]; [apply evaluates_only_ret|].
  apply evaluates_only_bind; [apply evaluates_only_ValueEdge|intros edge].
  destruct (EdgeAccessor_eqb current_edge edge);
    [apply evaluates_only_ret|exact IH].
Qed.

End Logs.

Section ExpandVariableLogs.
Context {Db : Type} `{!GraphDbAccessor Db}.
Context {TInput : Type} `{!Cursor.Cursor Db TInput}.

Local Abbreviation ExpandVariableCursor :=
  (@ExpandVariableCursor.ExpandVariableCursor Db TInput).

(** The expressions of the filter lambda of the plan. *)
Definition is_filter_of (self : @ExpandVariable.ExpandVariable Db)
  (expression : Expression Db) : Prop :=
  ExpandVariable.expression (ExpandVariable.filter_lambda_ self) =
  Some expression.

(** [Expand] evaluates nothing but the filter of the lambda: the bounds
    are not evaluated while a row is being expanded. *)
Lemma Expand_evaluates_filter_only fuel :
  forall (this : ExpandVariableCursor) frame,
    evaluates_only (is_filter_of (ExpandVariableCursor.self_ this))
                   (ExpandVariableCursor.Expand fuel this frame).
Proof.
  induction fuel as [|fuel IH]; intros this frame;
    cbn [ExpandVariableCursor.Expand]; [apply evaluates_only_diverge|].
  destruct (ExpandVariableCursor.pop_exhausted _) as [|[|current_edge level] below];
    try apply evaluates_only_ret.
  apply evaluates_only_bind; [apply evaluates_only_ValueList|intros edges].
  apply evaluates_only_bind;
    [apply evaluates_only_found_existing|intros existing].
  destruct existing; [apply (IH (ExpandVariableCursor.mkExpandVariableCursor
                                   _ _ _ _ _))|].
  apply evaluates_only_bind;
    [apply evaluates_only_HandleExistingNode|intros [accepted frame1]].
  destruct accepted; cbn [negb];
    [|apply (IH (ExpandVariableCursor.mkExpandVariableCursor _ _ _ _ _))].
  apply evaluates_only_bind.
  - destruct (ExpandVariable.expression _) as [filter|] eqn:Hfilter.
    + apply evaluates_only_EvaluateFilter. exact Hfilter.
    + apply evaluates_only_ret.
  - intros keep. destruct keep; cbn [negb];
      [|apply (IH (ExpandVariableCursor.mkExpandVariableCursor _ _ _ _ _))].
    apply evaluates_only_bind; [apply evaluates_only_get_db|intros db].
    cbn [ExpandVariableCursor.upper_bound_ ExpandVariableCursor.lower_bound_].
    destruct (_ <? _);
      cbn [ExpandVariableCursor.upper_bound_ ExpandVariableCursor.lower_bound_];
      (destruct (_ <=? _);
       [apply evaluates_only_ret
       |apply (IH (ExpandVariableCursor.mkExpandVariableCursor _ _ _ _ _))]).
Qed.

End ExpandVariableLogs.

(** ** ExpandVariable: the bounds of an input row *)

Section ExpandVariableBounds.
Context {Db : Type} `{!GraphDbAccessor Db}.
Context {TInput : Type} `{!Cursor.Cursor Db TInput}.
Variable self : @ExpandVariable.ExpandVariable Db.
Variables lower upper : Expression Db.
Hypothesis Hlower : ExpandVariable.lower_bound_ self = Some lower.
Hypothesis Hupper : ExpandVariable.upper_bound_ self = Some upper.

Local Abbreviation common := (ExpandVariable.common self).
Local Abbreviation input_symbol := (ExpandCommon.input_symbol_ common).
Local Abbreviation edge_symbol := (ExpandCommon.edge_symbol_ common).
Local Abbreviation graph_view := (ExpandCommon.graph_view_ common).

Local Abbreviation ExpandVariableCursor :=
  (@ExpandVariableCursor.ExpandVariableCursor Db TInput).
Local Abbreviation cursor :=
  (@ExpandVariableCursor.mkExpandVariableCursor Db TInput self).

Definition negative_bound : Exception :=
  QueryRuntimeException "Variable expansion bound must be positive or zero".

(** The frame on which the bounds of a row are evaluated. *)
Definition bounds_frame (vertex : VertexAccessor) (frame : Frame) : Frame :=
  frame_set input_symbol (Vertex (SwitchAccessor vertex graph_view)) frame.

(** What [PullInput] returns for a row with a vertex, once the bounds
    are known. *)
Definition row_cursor (input : TInput) (upper_bound lower_bound : Z)
  (edges : list (list (EdgeAccessor * EdgeAtom.Direction))) (db : Db)
  (vertex : VertexAccessor) (frame : Frame)
  : bool * ExpandVariableCursor * Frame :=
  let start := SwitchAccessor (SwitchAccessor vertex graph_view) graph_view in
  (true,
   cursor input upper_bound lower_bound
     (if 0 <? upper_bound then
        ExpandVariableCursor.ExpandFromVertex
          db start (ExpandCommon.direction_ common)
          (ExpandCommon.edge_types_ common) :: edges
      else edges),
   frame_set edge_symbol (List [])
     (if 0 <? upper_bound then
        frame_set input_symbol (Vertex start) (bounds_frame vertex frame)
      else bounds_frame vertex frame)).

Definition not_an_int : Exception :=
  QueryRuntimeException "Variable expansion bound must be an int".

(** What the evaluation of a bound comes to: its value, or the error
    the pull fails with. *)
Definition bound_value (bound : Expression Db) (frame : Frame) (db : Db)
  : Exception + Z :=
  match expr_eval bound AS_IS frame db with
  | inl e => inl e
  | inr (Int value) => if value <? 0 then inl negative_bound else inr value
  | inr _ => inl not_an_int
  end.

(** [calc_bound] evaluates the bound once, whatever comes of it. *)
Lemma calc_bound_value (bound : Expression Db) frame context :
  ExpandVariableCursor.calc_bound bound frame context =
  match bound_value bound frame (db_accessor_ context) with
  | inl e => Throw e (evaluated bound context)
  | inr value => Ok value (evaluated bound context)
  end.
Proof.
  unfold ExpandVariableCursor.calc_bound, bound_value, bind, Accept.
  destruct (expr_eval bound AS_IS frame (db_accessor_ context))
    as [e|[]]; try reflexivity.
  destruct (_ <? 0); reflexivity.
Qed.

(** [PullInput] on a row that holds a vertex goes on to the bounds. *)
Lemma PullInput_vertex (input : TInput) upper_bound lower_bound edges
  frame (context : Context Db) input1 frame1 (context1 : Context Db)
  vertex n :
  Cursor.Pull n input frame context = Ok (true, input1, frame1) context1 ->
  frame_at frame1 input_symbol = Vertex vertex ->
  ExpandVariableCursor.PullInput (S n)
    (cursor input upper_bound lower_bound edges) frame context =
  bind (ExpandVariableCursor.calc_bound lower (bounds_frame vertex frame1))
    (fun lower_bound =>
       bind (ExpandVariableCursor.calc_bound upper
               (bounds_frame vertex frame1))
         (fun upper_bound =>
            bind get_db
              (fun db =>
                 ret (row_cursor input1 upper_bound lower_bound edges db
                                 vertex frame1))))
    context1.
Proof.
  intros Hrow Hvertex. cbn [ExpandVariableCursor.PullInput].
  cbn [ExpandVariableCursor.input_cursor_ ExpandVariableCursor.self_
       ExpandVariableCursor.upper_bound_ ExpandVariableCursor.lower_bound_
       ExpandVariableCursor.edges_].
  rewrite (bind_Ok _ _ _ _ _ Hrow). cbn iota beta. cbn [negb].
  rewrite Hvertex. cbn [IsNull]. rewrite Hlower, Hupper.
  unfold ExpectType, ExpandCommon.ValueVertex. cbn [type Type_eqb].
  unfold bind at 1. unfold ret at 1. unfold bind at 1. unfold ret at 1.
  unfold row_cursor, bounds_frame, bind, get_db, ret.
  reflexivity.
Qed.

(** A pull on an empty stack goes to the input. *)
Lemma Pull_stack_empty (input : TInput) upper_bound lower_bound frame
  (context : Context Db) n :
  let this := cursor input upper_bound lower_bound [] in
  ExpandVariableCursor.Pull (S (S n)) this frame context =
  bind (ExpandVariableCursor.PullInput (S n) this frame)
    (fun '(pulled, this, frame) =>
       if (pulled : bool) then
         if ExpandVariableCursor.lower_bound_ this =? 0 then
           bind (ExpandCommon.ValueVertex
                   (frame_at frame
                      (ExpandCommon.input_symbol_
                         (ExpandVariable.common
                            (ExpandVariableCursor.self_ this)))))
             (fun start_vertex =>
                bind (ExpandCommon.HandleExistingNode
                        (ExpandVariable.common
                           (ExpandVariableCursor.self_ this))
                        start_vertex frame)
                  (fun '(accepted, frame) =>
                     if (accepted : bool) then ret (true, this, frame)
                     else ExpandVariableCursor.Pull (S n) this frame))
         else ExpandVariableCursor.Pull (S n) this frame
       else ret (false, this, frame))
    context.
Proof. reflexivity. Qed.

Lemma Expand_stack_empty (input : TInput) upper_bound lower_bound frame
  (context : Context Db) n :
  let this := cursor input upper_bound lower_bound [] in
  ExpandVariableCursor.Expand (S n) this frame context =
  Ok (false, this, frame) context.
Proof. reflexivity. Qed.

(** C2 (amended).  For an input row that holds a vertex at the input
    symbol, reached with nothing left on the stack: [PullInput]
    evaluates the lower bound once, first, and the upper bound once
    after it when the lower bound came to a non-negative integer, and
    not at all otherwise; [Expand] evaluates nothing but the filter of
    the lambda, so no bound is evaluated again for the row.  A bound
    whose evaluation fails, or that is not an integer, makes the pull
    fail at that bound; a bound that evaluates to a negative integer
    makes it fail with "Variable expansion bound must be positive or
    zero" (with a negative lower bound the upper bound is not
    evaluated).  When the upper bound is 0 and the lower bound is
    greater than 0 the row produces nothing and raises nothing: the
    stack stays empty, and the pull goes on as the pull of the cursor
    that has left the row behind it. *)
Theorem C2_variable_expansion_bounds (input : TInput) upper_bound lower_bound
  frame (context : Context Db) input1 frame1 (context1 : Context Db) vertex :
  let this := cursor input upper_bound lower_bound [] in
  let on := bounds_frame vertex frame1 in
  let db := db_accessor_ context1 in
  let context2 := evaluated upper (evaluated lower context1) in
  pulls input frame context (Ok (true, input1, frame1) context1) ->
  frame_at frame1 input_symbol = Vertex vertex ->
  (exists N, forall n, (N <= n)%nat ->
     ExpandVariableCursor.PullInput n this frame context =
     match bound_value lower on db with
     | inl e => Throw e (evaluated lower context1)
     | inr l =>
         match bound_value upper on db with
         | inl e => Throw e context2
         | inr u => Ok (row_cursor input1 u l [] db vertex frame1) context2
         end
     end) /\
  (exists N, forall n, (N <= n)%nat ->
     match ExpandVariableCursor.PullInput n this frame context with
     | Ok _ context' | Throw _ context' =>
         eval_log context' =
         eval_log context1 ++
         lower :: match bound_value lower on db with
                  | inr _ => [upper]
                  | inl _ => []
                  end
     | OutOfFuel => False
     end) /\
  (forall fuel (expanding : ExpandVariableCursor) frame,
     evaluates_only (is_filter_of (ExpandVariableCursor.self_ expanding))
                    (ExpandVariableCursor.Expand fuel expanding frame)) /\
  (forall e,
     bound_value lower on db = inl e ->
     pulls this frame context (Throw e (evaluated lower context1))) /\
  (forall l e,
     bound_value lower on db = inr l ->
     bound_value upper on db = inl e ->
     pulls this frame context (Throw e context2)) /\
  (forall l,
     expr_eval lower AS_IS on db = inr (Int l) -> l < 0 ->
     pulls this frame context
           (Throw negative_bound (evaluated lower context1))) /\
  (forall l u,
     expr_eval lower AS_IS on db = inr (Int l) ->
     expr_eval upper AS_IS on db = inr (Int u) ->
     0 <= l -> u < 0 ->
     pulls this frame context (Throw negative_bound context2)) /\
  (forall l,
     expr_eval lower AS_IS on db = inr (Int l) ->
     expr_eval upper AS_IS on db = inr (Int 0) ->
     0 < l ->
     let this1 := cursor input1 0 l [] in
     let frame2 := frame_set edge_symbol (List []) on in
     (forall n,
        ExpandVariableCursor.Expand (S n) this1 frame2 context2 =
        Ok (false, this1, frame2) context2) /\
     (forall r, pulls this1 frame2 context2 r -> pulls this frame context r)).
Proof.
  intros this on db context2 [N Hrow] Hvertex.
  assert (Hinput : forall n, (S N <= n)%nat ->
    ExpandVariableCursor.PullInput n this frame context =
    match bound_value lower on db with
    | inl e => Throw e (evaluated lower context1)
    | inr l =>
        match bound_value upper on db with
        | inl e => Throw e context2
        | inr u => Ok (row_cursor input1 u l [] db vertex frame1) context2
        end
    end).
  { intros n Hn. destruct n as [|n]; [lia|].
    unfold this. rewrite (PullInput_vertex _ _ _ _ _ _ _ _ _ _ _
                            (Hrow n ltac:(lia)) Hvertex).
    unfold bind at 1. rewrite calc_bound_value. fold on db.
    destruct (bound_value lower on db) as [e|l]; [reflexivity|].
    unfold bind at 1. rewrite calc_bound_value.
    change (db_accessor_ (evaluated lower context1)) with db. fold on.
    destruct (bound_value upper on db) as [e|u]; reflexivity. }
  assert (Hfails : forall e context',
    match bound_value lower on db with
    | inl e => Throw e (evaluated lower context1)
    | inr l =>
        match bound_value upper on db with
        | inl e => Throw e context2
        | inr u => Ok (row_cursor input1 u l [] db vertex frame1) context2
        end
    end = Throw e context' ->
    pulls this frame context (Throw e context')).
  { intros e context' Hthrow. exists (S (S N)). intros n Hn.
    destruct n as [|n]; [lia|].
    change (Cursor.Pull (S n) this frame context)
      with (ExpandVariableCursor.Pull (S n) this frame context).
    destruct n as [|n]; [lia|].
    unfold this. rewrite Pull_stack_empty.
    apply bind_Throw. fold this. rewrite Hinput by lia. exact Hthrow. }
  assert (Hnegative : forall bound l,
    expr_eval bound AS_IS on db = inr (Int l) -> l < 0 ->
    bound_value bound on db = inl negative_bound).
  { intros bound l Hl Hl0. unfold bound_value. rewrite Hl.
    destruct (Z.ltb_spec l 0); [reflexivity|lia]. }
  assert (Hvalue : forall bound l,
    expr_eval bound AS_IS on db = inr (Int l) -> 0 <= l ->
    bound_value bound on db = inr l).
  { intros bound l Hl Hl0. unfold bound_value. rewrite Hl.
    destruct (Z.ltb_spec l 0); [lia|reflexivity]. }
  split; [|split; [|split; [|split; [|split; [|split; [|split]]]]]].
  - exists (S N). exact Hinput.
  - exists (S N). intros n Hn. rewrite Hinput by exact Hn.
    destruct (bound_value lower on db) as [e|l]; [reflexivity|].
    destruct (bound_value upper on db) as [e|u];
      cbn [context2 evaluated eval_log]; rewrite <- app_assoc; reflexivity.
  - intros fuel expanding frame0. apply Expand_evaluates_filter_only.
  - intros e He. apply Hfails. rewrite He. reflexivity.
  - intros l e Hl He. apply Hfails. rewrite Hl, He. reflexivity.
  - intros l Hl Hl0. apply Hfails.
    rewrite (Hnegative _ _ Hl Hl0). reflexivity.
  - intros l u Hl Hu Hl0 Hu0. apply Hfails.
    rewrite (Hvalue _ _ Hl Hl0), (Hnegative _ _ Hu Hu0). reflexivity.
  - intros l Hl Hu Hl0 this1 frame2. split.
    + intros n. apply Expand_stack_empty.
    + intros r [Nr Hr]. exists (S (S (Nat.max N Nr))). intros n Hn.
      destruct n as [|[|n]]; [lia|lia|].
      rewrite <- (Hr (S n)) by lia.
      change (Cursor.Pull (S (S n)) this frame context)
        with (ExpandVariableCursor.Pull (S (S n)) this frame context).
      change (Cursor.Pull (S n) this1 frame2 context2)
        with (ExpandVariableCursor.Pull (S n) this1 frame2 context2).
      unfold this. rewrite Pull_stack_empty. unfold bind at 1.
      fold this. rewrite Hinput by lia.
      rewrite (Hvalue _ _ Hl (Z.lt_le_incl _ _ Hl0)).
      rewrite (Hvalue _ 0 Hu (Z.le_refl 0)).
      unfold row_cursor. cbn [Z.ltb Z.compare].
      cbn [ExpandVariableCursor.lower_bound_].
      destruct (Z.eqb_spec l 0); [lia|]. reflexivity.
Qed.

End ExpandVariableBounds.

(** C2 at a concrete input: [(n)-[r*1..0]->(m)] on a row with a vertex
    produces nothing and raises nothing. *)
Lemma C2_variable_expansion_bounds_witness :
  let lower := Fixture.literal (Int 1) in
  let upper := Fixture.literal (Int 0) in
  let self := Sample.variable EdgeAtom.OUT false (Some lower) (Some upper) in
  pulls (ExpandVariableCursor.MakeCursor self (@Once.MakeCursor))
        (Sample.row (Vertex (Sample.vertex 0)))
        (Fixture.start Fixture.empty_graph)
        (Ok (false,
             ExpandVariableCursor.mkExpandVariableCursor
               self (Once.mkOnceCursor true) 0 1 [],
             [Vertex (Sample.vertex 0); List []; Null; Null; Null])
            (mkContext Fixture.empty_graph [lower; upper] [] [])).
Proof.
  intros lower upper self.
  assert (Hrow :
    pulls (@Once.MakeCursor)
          (Sample.row (Vertex (Sample.vertex 0)))
          (Fixture.start Fixture.empty_graph)
          (Ok (true, Once.mkOnceCursor true,
               Sample.row (Vertex (Sample.vertex 0)))
              (Fixture.start Fixture.empty_graph))) by run_fuel 1%nat.
  destruct (C2_variable_expansion_bounds self lower upper eq_refl eq_refl
              (@Once.MakeCursor) (-1) (-1) _ _ _ _ _ (Sample.vertex 0)
              Hrow eq_refl) as (_ & _ & _ & _ & _ & _ & _ & Hnone).
  destruct (Hnone 1 eq_refl eq_refl ltac:(lia)) as [_ Hleft].
  apply Hleft. run_fuel 3%nat.
Defined.

(** C2 as worded fails when both bounds are negative: the pull raises
    an error instead of producing nothing. *)
Lemma C2_counterexample :
  let lower := Fixture.literal (Int (-1)) in
  let upper := Fixture.literal (Int (-2)) in
  let self := Sample.variable EdgeAtom.OUT false (Some lower) (Some upper) in
  let frame := Sample.row (Vertex (Sample.vertex 0)) in
  expr_eval lower AS_IS frame Fixture.empty_graph = inr (Int (-1)) /\
  expr_eval upper AS_IS frame Fixture.empty_graph = inr (Int (-2)) /\
  pulls (ExpandVariableCursor.MakeCursor self (@Once.MakeCursor)) frame
        (Fixture.start Fixture.empty_graph)
        (Throw (QueryRuntimeException
                  "Variable expansion bound must be positive or zero")
               (mkContext Fixture.empty_graph [lower] [] [])).
Proof.
  intros lower upper self frame.
  split; [reflexivity|]. split; [reflexivity|]. run_fuel 3%nat.
Qed.

(** ** Expansion from a row without a vertex *)

Section ExpansionInput.
Context {Db : Type} `{!GraphDbAccessor Db}.
Context {TInput : Type} `{!Cursor.Cursor Db TInput}.

Local Abbreviation ExpandCursor := (@Expand.ExpandCursor TInput).
Local Abbreviation ExpandVariableCursor :=
  (@ExpandVariableCursor.ExpandVariableCursor Db TInput).

(** The error of [ExpectType] for a vertex. *)
Definition expected_vertex (symbol : Symbol) (value : TypedValue)
  : Exception :=
  QueryRuntimeException
    ("Expected a Vertex for '" ++ name symbol ++ "', but got " ++
     Type_name (type value) ++ ".").

Lemma ExpectType_not_vertex symbol value (context : Context Db) :
  type value <> TVertex ->
  ExpectType symbol value TVertex context =
  Throw (expected_vertex symbol value) context.
Proof.
  intros Htype. unfold ExpectType.
  destruct value; try reflexivity. contradiction Htype. reflexivity.
Qed.

Lemma IsNull_false value : value <> Null -> IsNull value = false.
Proof. destruct value; [contradiction|reflexivity..]. Qed.

(** The cursors with their input replaced. *)
Definition Expand_over (this : ExpandCursor) (input : TInput)
  : ExpandCursor :=
  Expand.mkExpandCursor (Expand.self_ this) input (Expand.in_edges_ this)
    (Expand.in_edges_it_ this) (Expand.out_edges_ this)
    (Expand.out_edges_it_ this) (Expand.future_expands_ this)
    (Expand.last_frame_ this).

Definition ExpandVariable_over (this : ExpandVariableCursor)
  (input : TInput) : ExpandVariableCursor :=
  ExpandVariableCursor.mkExpandVariableCursor
    (ExpandVariableCursor.self_ this) input
    (ExpandVariableCursor.upper_bound_ this)
    (ExpandVariableCursor.lower_bound_ this)
    (ExpandVariableCursor.edges_ this).

Lemma InitEdges_null (this : ExpandCursor) frame (context : Context Db)
  input1 frame1 (context1 : Context Db) n :
  Cursor.Pull n (Expand.input_cursor_ this) frame context =
    Ok (true, input1, frame1) context1 ->
  frame_at frame1 (ExpandCommon.input_symbol_ (Expand.self_ this)) = Null ->
  Expand.InitEdges (S n) this frame context =
  Expand.InitEdges n (Expand_over this input1) frame1 context1.
Proof.
  intros Hrow Hnull. cbn [Expand.InitEdges].
  rewrite (bind_Ok _ _ _ _ _ Hrow). cbn iota beta. cbn [negb Expand.self_].
  rewrite Hnull. reflexivity.
Qed.

Lemma InitEdges_not_vertex (this : ExpandCursor) frame (context : Context Db)
  input1 frame1 (context1 : Context Db) n :
  let symbol := ExpandCommon.input_symbol_ (Expand.self_ this) in
  Cursor.Pull n (Expand.input_cursor_ this) frame context =
    Ok (true, input1, frame1) context1 ->
  frame_at frame1 symbol <> Null ->
  type (frame_at frame1 symbol) <> TVertex ->
  Expand.InitEdges (S n) this frame context =
  Throw (expected_vertex symbol (frame_at frame1 symbol)) context1.
Proof.
  intros symbol Hrow Hvalue Htype. cbn [Expand.InitEdges].
  rewrite (bind_Ok _ _ _ _ _ Hrow). cbn iota beta. cbn [negb Expand.self_].
  fold symbol. rewrite (IsNull_false _ Hvalue).
  apply bind_Throw. apply ExpectType_not_vertex. exact Htype.
Qed.

Lemma PullInput_null (this : ExpandVariableCursor) frame
  (context : Context Db) input1 frame1 (context1 : Context Db) n :
  Cursor.Pull n (ExpandVariableCursor.input_cursor_ this) frame context =
    Ok (true, input1, frame1) context1 ->
  frame_at frame1
    (ExpandCommon.input_symbol_
       (ExpandVariable.common (ExpandVariableCursor.self_ this))) = Null ->
  ExpandVariableCursor.PullInput (S n) this frame context =
  ExpandVariableCursor.PullInput n (ExpandVariable_over this input1) frame1
                                 context1.
Proof.
  intros Hrow Hnull. cbn [ExpandVariableCursor.PullInput].
  rewrite (bind_Ok _ _ _ _ _ Hrow). cbn iota beta.
  cbn [negb ExpandVariableCursor.self_].
  rewrite Hnull. reflexivity.
Qed.

Lemma PullInput_not_vertex (this : ExpandVariableCursor) frame
  (context : Context Db) input1 frame1 (context1 : Context Db) n :
  let symbol :=
    ExpandCommon.input_symbol_
      (ExpandVariable.common (ExpandVariableCursor.self_ this)) in
  Cursor.Pull n (ExpandVariableCursor.input_cursor_ this) frame context =
    Ok (true, input1, frame1) context1 ->
  frame_at frame1 symbol <> Null ->
  type (frame_at frame1 symbol) <> TVertex ->
  ExpandVariableCursor.PullInput (S n) this frame context =
  Throw (expected_vertex symbol (frame_at frame1 symbol)) context1.
Proof.
  intros symbol Hrow Hvalue Htype. cbn [ExpandVariableCursor.PullInput].
  rewrite (bind_Ok _ _ _ _ _ Hrow). cbn iota beta.
  cbn [negb ExpandVariableCursor.self_].
  fold symbol. rewrite (IsNull_false _ Hvalue).
  apply bind_Throw. apply ExpectType_not_vertex. exact Htype.
Qed.

(** Over rows that are all null at the input symbol, the input is
    pulled to its end and nothing is initialised. *)
Lemma InitEdges_only_null (input : TInput) frame context rows input' frame'
  context' :
  drains (fun frame => frame) input frame context rows input' frame'
         context' ->
  forall this : ExpandCursor,
  Expand.input_cursor_ this = input ->
  Forall (fun row =>
            frame_at row (ExpandCommon.input_symbol_ (Expand.self_ this)) =
            Null) rows ->
  exists N, forall n, (N <= n)%nat ->
    Expand.InitEdges n this frame context =
    Ok (false, Expand_over this input', frame') context'.
Proof.
  induction 1 as [s f c s' f' c' [N Hdone]
                 |s f c s1 f1 c1 rows s' f' c' [N Hrow] _ IH];
    intros this Hinput Hnull.
  - exists (S N). intros n Hn. destruct n as [|n]; [lia|].
    cbn [Expand.InitEdges]. rewrite Hinput.
    rewrite (bind_Ok _ _ _ _ _ (Hdone n ltac:(lia))). reflexivity.
  - inversion Hnull as [|row rows' Hfirst Hrest]; subst.
    destruct (IH (Expand_over this s1) eq_refl Hrest) as [N' IH'].
    exists (S (Nat.max N N')). intros n Hn. destruct n as [|n]; [lia|].
    rewrite (InitEdges_null this _ _ s1 f1 c1 n (Hrow n ltac:(lia)) Hfirst).
    apply IH'. lia.
Qed.

Lemma PullInput_only_null (input : TInput) frame context rows input' frame'
  context' :
  drains (fun frame => frame) input frame context rows input' frame'
         context' ->
  forall this : ExpandVariableCursor,
  ExpandVariableCursor.input_cursor_ this = input ->
  Forall (fun row =>
            frame_at row
              (ExpandCommon.input_symbol_
                 (ExpandVariable.common (ExpandVariableCursor.self_ this))) =
            Null) rows ->
  exists N, forall n, (N <= n)%nat ->
    ExpandVariableCursor.PullInput n this frame context =
    Ok (false, ExpandVariable_over this input', frame') context'.
Proof.
  induction 1 as [s f c s' f' c' [N Hdone]
                 |s f c s1 f1 c1 rows s' f' c' [N Hrow] _ IH];
    intros this Hinput Hnull.
  - exists (S N). intros n Hn. destruct n as [|n]; [lia|].
    cbn [ExpandVariableCursor.PullInput]. rewrite Hinput.
    rewrite (bind_Ok _ _ _ _ _ (Hdone n ltac:(lia))). reflexivity.
  - inversion Hnull as [|row rows' Hfirst Hrest]; subst.
    destruct (IH (ExpandVariable_over this s1) eq_refl Hrest) as [N' IH'].
    exists (S (Nat.max N N')). intros n Hn. destruct n as [|n]; [lia|].
    rewrite (PullInput_null this _ _ s1 f1 c1 n (Hrow n ltac:(lia)) Hfirst).
    apply IH'. lia.
Qed.

(** A pull of a cursor that has nothing pending starts with
    [InitEdges]. *)
Ltac enter_fresh_Expand Habort :=
  unfold Expand.MakeCursor in *; cbn [Expand.Pull];
  unfold check_abort; unfold bind at 1; unfold bind at 1;
  unfold get_db at 1; rewrite Habort; unfold ret at 1;
  cbn [Expand.future_expands_ Expand.find_ready_future];
  unfold bind at 1; unfold ret at 1;
  cbn [Expand.last_frame_ Expand.in_edges_ Expand.in_edges_it_
       Expand.out_edges_ Expand.out_edges_it_ Expand.next_edge
       Expand.self_ Expand.input_cursor_ Expand.future_expands_].

Lemma Expand_Pull_fresh_exhausted self (input : TInput) frame
  (context : Context Db) n input' frame' context' :
  should_abort (db_accessor_ context) = false ->
  Expand.InitEdges n (Expand.MakeCursor self input) frame context =
    Ok (false, Expand.MakeCursor self input', frame') context' ->
  Expand.Pull (S n) (Expand.MakeCursor self input) frame context =
    Ok (false, Expand.MakeCursor self input', frame') context'.
Proof.
  intros Habort Hinit. enter_fresh_Expand Habort.
  rewrite (bind_Ok _ _ _ _ _ Hinit). reflexivity.
Qed.

Lemma Expand_Pull_fresh_throws self (input : TInput) frame
  (context : Context Db) n e context' :
  should_abort (db_accessor_ context) = false ->
  Expand.InitEdges n (Expand.MakeCursor self input) frame context =
    Throw e context' ->
  Expand.Pull (S n) (Expand.MakeCursor self input) frame context =
    Throw e context'.
Proof.
  intros Habort Hinit. enter_fresh_Expand Habort.
  apply bind_Throw. exact Hinit.
Qed.

(** C9.  A row of the input with null at the input symbol is skipped:
    [InitEdges] of [Expand] and [PullInput] of the variable-length
    expansion go on with the next pull of the input, and nothing is
    raised for the row; over an input whose rows are all null at the
    input symbol, the pull of the expansion reports exhaustion.  A row
    with a value at the input symbol that is neither null nor a vertex
    makes them fail with the type error of [ExpectType]. *)
Theorem C9_null_input_skipped
  (expand : ExpandCommon.ExpandCommon)
  (variable : @ExpandVariable.ExpandVariable Db)
  (input : TInput) (frame : Frame) (context : Context Db) :
  let expand_symbol := ExpandCommon.input_symbol_ expand in
  let variable_symbol :=
    ExpandCommon.input_symbol_ (ExpandVariable.common variable) in
  should_abort (db_accessor_ context) = false ->
  (forall input1 frame1 context1,
     pulls input frame context (Ok (true, input1, frame1) context1) ->
     (frame_at frame1 expand_symbol = Null ->
      forall this : ExpandCursor,
        Expand.self_ this = expand -> Expand.input_cursor_ this = input ->
        exists N, forall n, (N <= n)%nat ->
          Expand.InitEdges (S n) this frame context =
          Expand.InitEdges n (Expand_over this input1) frame1 context1) /\
     (frame_at frame1 variable_symbol = Null ->
      forall this : ExpandVariableCursor,
        ExpandVariableCursor.self_ this = variable ->
        ExpandVariableCursor.input_cursor_ this = input ->
        exists N, forall n, (N <= n)%nat ->
          ExpandVariableCursor.PullInput (S n) this frame context =
          ExpandVariableCursor.PullInput
            n (ExpandVariable_over this input1) frame1 context1) /\
     (frame_at frame1 expand_symbol <> Null ->
      type (frame_at frame1 expand_symbol) <> TVertex ->
      pulls (Expand.MakeCursor expand input) frame context
            (Throw (expected_vertex expand_symbol
                                    (frame_at frame1 expand_symbol))
                   context1)) /\
     (frame_at frame1 variable_symbol <> Null ->
      type (frame_at frame1 variable_symbol) <> TVertex ->
      pulls (ExpandVariableCursor.MakeCursor variable input) frame context
            (Throw (expected_vertex variable_symbol
                                    (frame_at frame1 variable_symbol))
                   context1))) /\
  (forall rows input' frame' context',
     drains (fun frame => frame) input frame context rows input' frame'
            context' ->
     (Forall (fun row => frame_at row expand_symbol = Null) rows ->
      pulls (Expand.MakeCursor expand input) frame context
            (Ok (false, Expand.MakeCursor expand input', frame') context')) /\
     (Forall (fun row => frame_at row variable_symbol = Null) rows ->
      pulls (ExpandVariableCursor.MakeCursor variable input) frame context
            (Ok (false, ExpandVariableCursor.MakeCursor variable input',
                 frame') context'))).
Proof.
  intros expand_symbol variable_symbol Habort. split.
  - intros input1 frame1 context1 [N Hrow].
    split; [|split; [|split]].
    + intros Hnull this <- <-. exists N. intros n Hn.
      apply InitEdges_null; [apply Hrow; lia|exact Hnull].
    + intros Hnull this <- <-. exists N. intros n Hn.
      apply PullInput_null; [apply Hrow; lia|exact Hnull].
    + intros Hvalue Htype. exists (S (S N)). intros n Hn.
      destruct n as [|[|n]]; [lia|lia|].
      change (Cursor.Pull (S (S n)) ?s ?f ?c) with (Expand.Pull (S (S n)) s f c).
      apply Expand_Pull_fresh_throws; [exact Habort|].
      apply (InitEdges_not_vertex (Expand.MakeCursor expand input)
               frame context input1);
        [apply Hrow; lia|exact Hvalue|exact Htype].
    + intros Hvalue Htype. exists (S (S N)). intros n Hn.
      destruct n as [|[|n]]; [lia|lia|].
      change (Cursor.Pull (S (S n)) ?s ?f ?c)
        with (ExpandVariableCursor.Pull (S (S n)) s f c).
      unfold ExpandVariableCursor.MakeCursor. rewrite Pull_stack_empty.
      apply bind_Throw.
      apply (PullInput_not_vertex
               (ExpandVariableCursor.mkExpandVariableCursor
                  variable input (-1) (-1) []) frame context input1);
        [apply Hrow; lia|exact Hvalue|exact Htype].
  - intros rows input' frame' context' Hdrains. split.
    + intros Hnull.
      destruct (InitEdges_only_null _ _ _ _ _ _ _ Hdrains
                  (Expand.MakeCursor expand input) eq_refl Hnull) as [N Hinit].
      exists (S N). intros n Hn. destruct n as [|n]; [lia|].
      change (Cursor.Pull (S n) ?s ?f ?c) with (Expand.Pull (S n) s f c).
      apply Expand_Pull_fresh_exhausted; [exact Habort|].
      apply Hinit. lia.
    + intros Hnull.
      destruct (PullInput_only_null _ _ _ _ _ _ _ Hdrains
                  (ExpandVariableCursor.MakeCursor variable input)
                  eq_refl Hnull) as [N Hinit].
      exists (S (S N)). intros n Hn. destruct n as [|[|n]]; [lia|lia|].
      change (Cursor.Pull (S (S n)) ?s ?f ?c)
        with (ExpandVariableCursor.Pull (S (S n)) s f c).
      unfold ExpandVariableCursor.MakeCursor in *. rewrite Pull_stack_empty.
      rewrite (bind_Ok _ _ _ _ _ (Hinit (S n) ltac:(lia))). reflexivity.
Qed.

End ExpansionInput.

(** The single row of [Once], for a consumer that hands the frame back. *)
Lemma once_row (frame : Frame) (context : Context Fixture.Graph) :
  drains (fun frame => frame) (@Once.MakeCursor) frame context [frame]
         (Once.mkOnceCursor true) frame context.
Proof.
  apply (drains_row _ _ _ _ (Once.mkOnceCursor true) frame context);
    [run_fuel 1%nat|].
  apply drains_done. run_fuel 1%nat.
Qed.

(** C9 at concrete inputs: a row with null for [n] is skipped by both
    expansions, a row with an integer for [n] makes both fail. *)
Lemma C9_null_input_skipped_witness :
  let expand := Sample.common EdgeAtom.OUT in
  let variable := Sample.variable EdgeAtom.OUT false None None in
  let start := Fixture.start Fixture.empty_graph in
  let error := QueryRuntimeException "Expected a Vertex for 'n', but got Int." in
  pulls (Expand.MakeCursor expand (@Once.MakeCursor)) (Sample.row Null) start
        (Ok (false, Expand.MakeCursor expand (Once.mkOnceCursor true),
             Sample.row Null) start) /\
  pulls (ExpandVariableCursor.MakeCursor variable (@Once.MakeCursor))
        (Sample.row Null) start
        (Ok (false,
             ExpandVariableCursor.MakeCursor variable (Once.mkOnceCursor true),
             Sample.row Null) start) /\
  pulls (Expand.MakeCursor expand (@Once.MakeCursor)) (Sample.row (Int 7))
        start (Throw error start) /\
  pulls (ExpandVariableCursor.MakeCursor variable (@Once.MakeCursor))
        (Sample.row (Int 7)) start (Throw error start).
Proof.
  intros expand variable start error.
  assert (Habort : should_abort (db_accessor_ start) = false) by reflexivity.
  destruct (C9_null_input_skipped expand variable (@Once.MakeCursor)
              (Sample.row Null) start Habort) as [_ Hnull].
  destruct (Hnull _ _ _ _ (once_row (Sample.row Null) start))
    as [Hexpand Hvariable].
  destruct (C9_null_input_skipped expand variable (@Once.MakeCursor)
              (Sample.row (Int 7)) start Habort) as [Hrow _].
  assert (Hpull :
    pulls (@Once.MakeCursor) (Sample.row (Int 7)) start
          (Ok (true, Once.mkOnceCursor true, Sample.row (Int 7)) start))
    by run_fuel 1%nat.
  destruct (Hrow _ _ _ Hpull) as (_ & _ & Hexpand_error & Hvariable_error).
  split; [|split; [|split]].
  - apply Hexpand. repeat constructor.
  - apply Hvariable. repeat constructor.
  - apply Hexpand_error; discriminate.
  - apply Hvariable_error; discriminate.
Defined.

(** ** Variable-length expansion: no edge twice on a path *)

Section ListFacts.
Context {A : Type}.

Lemma NoDup_take_snoc (l : list A) (x : A) (k : nat) :
  NoDup l -> x ∉ l -> NoDup (take k l ++ [x]).
Proof.
  intros Hnodup Hfresh. apply NoDup_app. split; [|split].
  - apply (sublist_NoDup _ l); [exact Hnodup|apply sublist_take].
  - intros y Hy Hx. apply list_elem_of_singleton in Hx. subst y.
    apply Hfresh. exact (subseteq_take k l x Hy).
  - apply NoDup_singleton.
Qed.

Lemma NoDup_cons_drop (l : list A) (x : A) (k : nat) :
  NoDup l -> x ∉ l -> NoDup (x :: drop k l).
Proof.
  intros Hnodup Hfresh. apply NoDup_cons. split.
  - intros Hx. apply Hfresh. exact (subseteq_drop k l x Hx).
  - apply (sublist_NoDup _ l); [exact Hnodup|apply sublist_drop].
Qed.

End ListFacts.

Lemma Address_eqb_eq (a b : Address) : Address_eqb a b = true <-> a = b.
Proof.
  destruct a as [g1 w1], b as [g2 w2]. unfold Address_eqb. cbn.
  rewrite andb_true_iff, !Nat.eqb_eq. split.
  - intros [-> ->]. reflexivity.
  - intros [= -> ->]. split; reflexivity.
Qed.

Lemma frame_set_length symbol value (frame : Frame) :
  length (frame_set symbol value frame) = length frame.
Proof. apply length_insert. Qed.

Lemma frame_at_set_eq symbol value (frame : Frame) :
  (position symbol < length frame)%nat ->
  frame_at (frame_set symbol value frame) symbol = value.
Proof.
  intros Hrange. unfold frame_at, frame_set.
  rewrite list_lookup_insert_eq by exact Hrange. reflexivity.
Qed.

Lemma frame_at_set_ne symbol other value (frame : Frame) :
  position other <> position symbol ->
  frame_at (frame_set other value frame) symbol = frame_at frame symbol.
Proof.
  intros Hother. unfold frame_at, frame_set.
  rewrite list_lookup_insert_ne by exact Hother. reflexivity.
Qed.

Lemma frame_at_in_range symbol (frame : Frame) :
  frame_at frame symbol <> Null -> (position symbol < length frame)%nat.
Proof.
  unfold frame_at. intros Hvalue. apply lookup_lt_is_Some.
  destruct (frame !! position symbol) as [value|]; [eexists; reflexivity|].
  contradiction Hvalue. reflexivity.
Qed.

(** The value is a list of edges no two of which have the same
    address. *)
Definition unique_edges (value : TypedValue) : Prop :=
  exists edges,
    value = List (map Edge edges) /\ NoDup (map edge_address edges).

Lemma unique_edges_nil : unique_edges (List []).
Proof. exists []. split; [reflexivity|constructor]. Qed.

Lemma not_found_fresh current_edge edges :
  existsb (EdgeAccessor_eqb current_edge) edges = false ->
  edge_address current_edge ∉ map edge_address edges.
Proof.
  induction edges as [|edge edges IH]; cbn [existsb map].
  - intros _ Hin. inversion Hin.
  - intros Hnone. apply orb_false_iff in Hnone as [Hedge Hrest].
    apply not_elem_of_cons. split; [|exact (IH Hrest)].
    intros Hsame. apply Address_eqb_eq in Hsame.
    unfold EdgeAccessor_eqb in Hedge. congruence.
Qed.

Lemma shrink_edges is_reverse depth edges :
  NoDup (map edge_address edges) ->
  exists edges',
    ExpandVariableCursor.shrink is_reverse depth (map Edge edges) =
      map Edge edges' /\
    NoDup (map edge_address edges').
Proof.
  intros Hnodup. unfold ExpandVariableCursor.shrink.
  destruct is_reverse.
  - eexists. split; [apply List.skipn_map|].
    rewrite <- List.skipn_map.
    eapply sublist_NoDup; [exact Hnodup|apply sublist_drop].
  - eexists. split; [apply List.firstn_map|].
    rewrite <- List.firstn_map.
    eapply sublist_NoDup; [exact Hnodup|apply sublist_take].
Qed.

Lemma AppendEdge_edges is_reverse depth new_edge edges :
  NoDup (map edge_address edges) ->
  edge_address new_edge ∉ map edge_address edges ->
  exists edges',
    ExpandVariableCursor.AppendEdge is_reverse depth new_edge
                                    (map Edge edges) =
      map Edge edges' /\
    NoDup (map edge_address edges').
Proof.
  intros Hnodup Hfresh. unfold ExpandVariableCursor.AppendEdge.
  destruct is_reverse.
  - exists (new_edge :: drop (length (map Edge edges) -
                               Nat.min (length (map Edge edges)) (depth - 1))
                          edges).
    split; [cbn [map]; rewrite List.skipn_map; reflexivity|].
    cbn [map]. rewrite <- List.skipn_map.
    apply NoDup_cons_drop; assumption.
  - exists (take (Nat.min (length (map Edge edges)) (depth - 1)) edges
            ++ [new_edge]).
    split; [rewrite List.map_app, List.firstn_map; reflexivity|].
    rewrite List.map_app, <- List.firstn_map. cbn [map].
    apply NoDup_take_snoc; assumption.
Qed.

Section EdgeUniqueness.
Context {Db : Type} `{!GraphDbAccessor Db}.
Context {TInput : Type} `{!Cursor.Cursor Db TInput}.
Variable self : @ExpandVariable.ExpandVariable Db.

Local Abbreviation ExpandVariableCursor :=
  (@ExpandVariableCursor.ExpandVariableCursor Db TInput).
Local Abbreviation common := (ExpandVariable.common self).
Local Abbreviation edge_symbol := (ExpandCommon.edge_symbol_ common).
Local Abbreviation lambda := (ExpandVariable.filter_lambda_ self).

(** The symbols the expansion writes besides the edge symbol have
    positions of their own. *)
Hypothesis Hnode :
  position (ExpandCommon.node_symbol_ common) <> position edge_symbol.
Hypothesis Hinner_edge :
  position (ExpandVariable.inner_edge_symbol lambda) <> position edge_symbol.
Hypothesis Hinner_node :
  position (ExpandVariable.inner_node_symbol lambda) <> position edge_symbol.

Lemma found_existing_edges current_edge edges (context : Context Db) :
  ExpandVariableCursor.found_existing current_edge (map Edge edges) context =
  Ok (existsb (EdgeAccessor_eqb current_edge) edges) context.
Proof.
  induction edges as [|edge edges IH];
    cbn [ExpandVariableCursor.found_existing map existsb]; [reflexivity|].
  unfold bind, ExpandCommon.ValueEdge, ret.
  destruct (EdgeAccessor_eqb current_edge edge); [reflexivity|exact IH].
Qed.

Lemma HandleExistingNode_edge_slot new_node frame (context : Context Db)
  accepted frame' context' :
  ExpandCommon.HandleExistingNode common new_node frame context =
    Ok (accepted, frame') context' ->
  length frame' = length frame /\
  frame_at frame' edge_symbol = frame_at frame edge_symbol.
Proof.
  unfold ExpandCommon.HandleExistingNode.
  destruct (ExpandCommon.existing_node_ common).
  - destruct (IsNull _).
    + intros [= <- <- <-]. split; reflexivity.
    + intros Hrest.
      apply bind_Ok_inv in Hrest as (? & ? & _ & Hrest).
      apply bind_Ok_inv in Hrest as (? & ? & _ & Hrest).
      injection Hrest as <- <- <-. split; reflexivity.
  - intros [= <- <- <-]. split.
    + apply frame_set_length.
    + apply frame_at_set_ne. exact Hnode.
Qed.

(** One run of [Expand]: the list on the frame stays without
    repetition. *)
Lemma Expand_unique fuel :
  forall (input : TInput) upper_bound lower_bound edges frame
         (context : Context Db) pulled (this' : ExpandVariableCursor)
         frame' context',
  ExpandVariableCursor.Expand fuel
    (ExpandVariableCursor.mkExpandVariableCursor
       self input upper_bound lower_bound edges) frame context =
    Ok (pulled, this', frame') context' ->
  (ExpandVariableCursor.pop_exhausted edges <> [] ->
   unique_edges (frame_at frame edge_symbol)) ->
  ExpandVariableCursor.self_ this' = self /\
  length frame' = length frame /\
  (pulled = true -> unique_edges (frame_at frame' edge_symbol)) /\
  (pulled = false -> ExpandVariableCursor.edges_ this' = []).
Proof.
  induction fuel as [|fuel IH];
    intros input upper_bound lower_bound edges frame context pulled this'
           frame' context' Hexpand Hunique; [discriminate|].
  cbn [ExpandVariableCursor.Expand] in Hexpand.
  cbn [ExpandVariableCursor.self_ ExpandVariableCursor.edges_
       ExpandVariableCursor.input_cursor_ ExpandVariableCursor.upper_bound_
       ExpandVariableCursor.lower_bound_] in Hexpand.
  destruct (ExpandVariableCursor.pop_exhausted edges)
    as [|[|current_edge level] below] eqn:Hstack.
  - injection Hexpand as <- <- <- <-. repeat split; discriminate.
  - injection Hexpand as <- <- <- <-. repeat split; discriminate.
  - destruct (Hunique ltac:(discriminate)) as (on_frame & Hlist & Hnodup).
    assert (Hrange : (position edge_symbol < length frame)%nat).
    { apply frame_at_in_range. rewrite Hlist. discriminate. }
    rewrite Hlist in Hexpand. cbn [ExpandCommon.ValueList] in Hexpand.
    unfold bind at 1 in Hexpand. unfold ret at 1 in Hexpand.
    destruct (shrink_edges (ExpandVariable.is_reverse_ self)
                (S (length below)) on_frame Hnodup)
      as (shrunk & Hshrunk & Hshrunk_nodup).
    rewrite Hshrunk in Hexpand.
    rewrite (bind_Ok _ _ _ _ _ (found_existing_edges _ _ _)) in Hexpand.
    set (frame1 := frame_set edge_symbol (List (map Edge shrunk)) frame)
      in Hexpand.
    assert (Hlength1 : length frame1 = length frame)
      by apply frame_set_length.
    destruct (existsb _ shrunk) eqn:Hfound.
    + apply IH in Hexpand.
      * destruct Hexpand as (Hself & Hlength & Htrue & Hfalse).
        repeat split; try assumption. congruence.
      * intros _. exists shrunk. split; [|exact Hshrunk_nodup].
        apply frame_at_set_eq. exact Hrange.
    + destruct (AppendEdge_edges (ExpandVariable.is_reverse_ self)
                  (S (length below)) (fst current_edge) shrunk
                  Hshrunk_nodup (not_found_fresh _ _ Hfound))
        as (appended & Happended & Happended_nodup).
      rewrite Happended in Hexpand.
      set (frame2 := frame_set edge_symbol (List (map Edge appended)) frame1)
        in Hexpand.
      assert (Hlength2 : length frame2 = length frame).
      { unfold frame2. rewrite frame_set_length. exact Hlength1. }
      assert (Hslot2 : frame_at frame2 edge_symbol =
                       List (map Edge appended)).
      { apply frame_at_set_eq. rewrite Hlength1. exact Hrange. }
      apply bind_Ok_inv in Hexpand
        as ([accepted frame3] & context3 & Hhandle & Hexpand).
      apply HandleExistingNode_edge_slot in Hhandle as [Hlength3 Hslot3].
      assert (Hunique3 : unique_edges (frame_at frame3 edge_symbol)).
      { exists appended. split; [congruence|exact Happended_nodup]. }
      destruct accepted; cbn [negb] in Hexpand.
      * set (frame4 :=
               frame_set (ExpandVariable.inner_node_symbol lambda) _
                 (frame_set (ExpandVariable.inner_edge_symbol lambda) _
                            frame3)) in Hexpand.
        assert (Hlength4 : length frame4 = length frame).
        { unfold frame4. rewrite !frame_set_length. congruence. }
        assert (Hunique4 : unique_edges (frame_at frame4 edge_symbol)).
        { unfold frame4.
          rewrite frame_at_set_ne by exact Hinner_node.
          rewrite frame_at_set_ne by exact Hinner_edge.
          exact Hunique3. }
        apply bind_Ok_inv in Hexpand as (keep & context4 & _ & Hexpand).
        destruct keep; cbn [negb] in Hexpand.
        -- unfold bind at 1 in Hexpand. unfold get_db at 1 in Hexpand.
           destruct (Z.of_nat (S (length below)) <? upper_bound);
             cbn [ExpandVariableCursor.lower_bound_] in Hexpand;
             (destruct (lower_bound <=? _);
              [unfold ret in Hexpand; injection Hexpand as <- <- <- <-;
               repeat split; try assumption; try discriminate;
               intros _; exact Hunique4
              |apply IH in Hexpand;
               [destruct Hexpand as (Hself & Hlength & Htrue & Hfalse);
                repeat split; try assumption; congruence
               |intros _; exact Hunique4]]).
        -- apply IH in Hexpand.
           ++ destruct Hexpand as (Hself & Hlength & Htrue & Hfalse).
              repeat split; try assumption. congruence.
           ++ intros _. exact Hunique4.
      * apply IH in Hexpand.
        -- destruct Hexpand as (Hself & Hlength & Htrue & Hfalse).
           repeat split; try assumption. congruence.
        -- intros _. exact Hunique3.
Qed.

(** The input leaves the width of the frame as it is. *)
Hypothesis Hwidth :
  forall n (input : TInput) frame (context : Context Db) pulled input' frame'
         context',
    Cursor.Pull n input frame context = Ok (pulled, input', frame') context' ->
    length frame' = length frame.

(** [PullInput] leaves an empty list at the edge symbol. *)
Lemma PullInput_unique fuel :
  forall (input : TInput) upper_bound lower_bound edges frame
         (context : Context Db) pulled (this' : ExpandVariableCursor)
         frame' context',
  ExpandVariableCursor.PullInput fuel
    (ExpandVariableCursor.mkExpandVariableCursor
       self input upper_bound lower_bound edges) frame context =
    Ok (pulled, this', frame') context' ->
  ExpandVariableCursor.self_ this' = self /\
  length frame' = length frame /\
  (pulled = true -> (position edge_symbol < length frame)%nat ->
   frame_at frame' edge_symbol = List []).
Proof.
  induction fuel as [|fuel IH];
    intros input upper_bound lower_bound edges frame context pulled this'
           frame' context' Hpull; [discriminate|].
  cbn [ExpandVariableCursor.PullInput] in Hpull.
  cbn [ExpandVariableCursor.self_ ExpandVariableCursor.edges_
       ExpandVariableCursor.input_cursor_ ExpandVariableCursor.upper_bound_
       ExpandVariableCursor.lower_bound_] in Hpull.
  apply bind_Ok_inv in Hpull
    as ([[pulled1 input1] frame1] & context1 & Hinput & Hpull).
  apply Hwidth in Hinput.
  destruct pulled1; cbn [negb] in Hpull.
  - destruct (IsNull _).
    + apply IH in Hpull. destruct Hpull as (Hself & Hlength & Hlist).
      repeat split; [exact Hself|congruence|].
      intros Hpulled Hrange. apply Hlist; [exact Hpulled|congruence].
    + apply bind_Ok_inv in Hpull as (? & ? & _ & Hpull).
      apply bind_Ok_inv in Hpull as (vertex & ? & _ & Hpull).
      apply bind_Ok_inv in Hpull as (lower & ? & _ & Hpull).
      apply bind_Ok_inv in Hpull as (upper & ? & _ & Hpull).
      unfold bind, get_db, ret in Hpull.
      injection Hpull as <- <- <- <-.
      repeat split.
      * destruct (0 <? upper); rewrite !frame_set_length; exact Hinput.
      * intros _ Hrange. apply frame_at_set_eq.
        destruct (0 <? upper); rewrite !frame_set_length; congruence.
  - unfold ret in Hpull. injection Hpull as <- <- <- <-.
    repeat split; [exact Hinput|discriminate].
Qed.

(** One pull: a row that comes out has a list without repetition at the
    edge symbol. *)
Lemma Pull_unique fuel :
  forall (this : ExpandVariableCursor) frame (context : Context Db) pulled
         (this' : ExpandVariableCursor) frame' context',
  ExpandVariableCursor.Pull fuel this frame context =
    Ok (pulled, this', frame') context' ->
  ExpandVariableCursor.self_ this = self ->
  (position edge_symbol < length frame)%nat ->
  (ExpandVariableCursor.pop_exhausted (ExpandVariableCursor.edges_ this) <> [] ->
   unique_edges (frame_at frame edge_symbol)) ->
  ExpandVariableCursor.self_ this' = self /\
  length frame' = length frame /\
  (pulled = true -> unique_edges (frame_at frame' edge_symbol)).
Proof.
  induction fuel as [|fuel IH];
    intros this frame context pulled this' frame' context' Hpull Hself Hrange
           Hunique; [discriminate|].
  destruct this as [self0 input upper_bound lower_bound edges].
  cbn [ExpandVariableCursor.self_ ExpandVariableCursor.edges_] in Hself, Hunique.
  subst self0. cbn [ExpandVariableCursor.Pull] in Hpull.
  apply bind_Ok_inv in Hpull
    as ([[expanded this0] frame0] & context0 & Hexpand & Hpull).
  apply Expand_unique in Hexpand; [|exact Hunique].
  destruct Hexpand as (Hself0 & Hlength0 & Htrue0 & Hfalse0).
  destruct expanded.
  - unfold ret in Hpull. injection Hpull as <- <- <- <-.
    repeat split; [exact Hself0|exact Hlength0|]. intros _. auto.
  - destruct this0 as [self0 input0 upper0 lower0 edges0].
    cbn [ExpandVariableCursor.self_] in Hself0. subst self0.
    apply bind_Ok_inv in Hpull
      as ([[pulled1 this1] frame1] & context1 & Hinput & Hpull).
    apply PullInput_unique in Hinput.
    destruct Hinput as (Hself1 & Hlength1 & Hlist1).
    destruct pulled1.
    + specialize (Hlist1 eq_refl ltac:(congruence)).
      destruct (ExpandVariableCursor.lower_bound_ this1 =? 0).
      * apply bind_Ok_inv in Hpull as (start_vertex & ? & _ & Hpull).
        apply bind_Ok_inv in Hpull
          as ([accepted frame2] & context2 & Hhandle & Hpull).
        rewrite Hself1 in Hhandle.
        apply HandleExistingNode_edge_slot in Hhandle as [Hlength2 Hslot2].
        destruct accepted.
        -- unfold ret in Hpull. injection Hpull as <- <- <- <-.
           repeat split; [exact Hself1|congruence|].
           intros _. rewrite Hslot2, Hlist1. apply unique_edges_nil.
        -- apply IH in Hpull.
           ++ destruct Hpull as (Hself' & Hlength' & Htrue').
              repeat split; [exact Hself'|congruence|exact Htrue'].
           ++ exact Hself1.
           ++ congruence.
           ++ intros _. rewrite Hslot2, Hlist1. apply unique_edges_nil.
      * apply IH in Hpull.
        -- destruct Hpull as (Hself' & Hlength' & Htrue').
           repeat split; [exact Hself'|congruence|exact Htrue'].
        -- exact Hself1.
        -- congruence.
        -- intros _. rewrite Hlist1. apply unique_edges_nil.
    + unfold ret in Hpull. injection Hpull as <- <- <- <-.
      repeat split; [exact Hself1|congruence|discriminate].
Qed.

(** An edge that is already on the path is skipped: [Expand] goes on
    with the edge taken off the stack and the path as it was. *)
Lemma Expand_skips_present (input : TInput) upper_bound lower_bound edges
  frame (context : Context Db) current_edge level below on_frame shrunk n :
  ExpandVariableCursor.pop_exhausted edges =
    (current_edge :: level) :: below ->
  frame_at frame edge_symbol = List (map Edge on_frame) ->
  ExpandVariableCursor.shrink (ExpandVariable.is_reverse_ self)
    (S (length below)) (map Edge on_frame) = map Edge shrunk ->
  existsb (EdgeAccessor_eqb (fst current_edge)) shrunk = true ->
  ExpandVariableCursor.Expand (S n)
    (ExpandVariableCursor.mkExpandVariableCursor
       self input upper_bound lower_bound edges) frame context =
  ExpandVariableCursor.Expand n
    (ExpandVariableCursor.mkExpandVariableCursor
       self input upper_bound lower_bound (level :: below))
    (frame_set edge_symbol (List (map Edge shrunk)) frame) context.
Proof.
  intros Hstack Hlist Hshrunk Hfound. cbn [ExpandVariableCursor.Expand].
  cbn [ExpandVariableCursor.self_ ExpandVariableCursor.edges_
       ExpandVariableCursor.input_cursor_ ExpandVariableCursor.upper_bound_
       ExpandVariableCursor.lower_bound_].
  rewrite Hstack, Hlist. cbn [ExpandCommon.ValueList].
  unfold bind at 1. unfold ret at 1. rewrite Hshrunk.
  rewrite (bind_Ok _ _ _ _ _ (found_existing_edges _ _ _)).
  rewrite Hfound. reflexivity.
Qed.

(** C4.  Every row that the depth-first variable-length expansion
    produces has, at the edge symbol, a list of edges in which no edge
    occurs twice; and an edge that is already on the path is skipped
    when its turn comes, the path staying as it was.  The symbols the
    expansion writes besides the edge symbol are at other positions of
    the frame, the edge symbol is inside the frame and the input leaves
    the width of the frame alone. *)
Theorem C4_edge_uniqueness (this : ExpandVariableCursor) frame
  (context : Context Db) rows this' frame' context' :
  ExpandVariableCursor.self_ this = self ->
  (position edge_symbol < length frame)%nat ->
  (ExpandVariableCursor.pop_exhausted (ExpandVariableCursor.edges_ this) <> [] ->
   unique_edges (frame_at frame edge_symbol)) ->
  produces this frame context rows this' frame' context' ->
  Forall (fun row => unique_edges (frame_at row edge_symbol)) rows /\
  (forall (input : TInput) upper_bound lower_bound edges frame
          (context : Context Db) current_edge level below on_frame shrunk n,
     ExpandVariableCursor.pop_exhausted edges =
       (current_edge :: level) :: below ->
     frame_at frame edge_symbol = List (map Edge on_frame) ->
     ExpandVariableCursor.shrink (ExpandVariable.is_reverse_ self)
       (S (length below)) (map Edge on_frame) = map Edge shrunk ->
     existsb (EdgeAccessor_eqb (fst current_edge)) shrunk = true ->
     ExpandVariableCursor.Expand (S n)
       (ExpandVariableCursor.mkExpandVariableCursor
          self input upper_bound lower_bound edges) frame context =
     ExpandVariableCursor.Expand n
       (ExpandVariableCursor.mkExpandVariableCursor
          self input upper_bound lower_bound (level :: below))
       (frame_set edge_symbol (List (map Edge shrunk)) frame) context).
Proof.
  intros Hself Hrange Hunique Hproduces. split.
  - induction Hproduces as [|s f c s1 f1 c1 rows s' f' c' [N Hrow] _ IH];
      [constructor|].
    specialize (Hrow N (Nat.le_refl N)).
    change (Cursor.Pull N s f c) with (ExpandVariableCursor.Pull N s f c)
      in Hrow.
    apply Pull_unique in Hrow; [|assumption..].
    destruct Hrow as (Hself1 & Hlength1 & Hunique1).
    constructor; [auto|].
    apply IH; [exact Hself1|congruence|auto].
  - intros input upper_bound lower_bound edges frame0 context0 current_edge
           level below on_frame shrunk n.
    apply Expand_skips_present.
Qed.

End EdgeUniqueness.

Lemma Once_width {Db : Type} n (input : Once.OnceCursor) frame
  (context : Context Db) pulled input' frame' context' :
  Cursor.Pull n input frame context = Ok (pulled, input', frame') context' ->
  length frame' = length frame.
Proof.
  change (Cursor.Pull n input frame context)
    with (Once.Pull n input frame context).
  unfold Once.Pull. destruct (negb _); intros [= <- <- <- <-]; reflexivity.
Qed.

(** C4 at a concrete input: [(n)-[r*]->(m)] from vertex 0 of the ring
    produces the paths of one and of two edges; the first edge is not
    taken a second time. *)
Lemma C4_edge_uniqueness_witness :
  let self := Sample.variable EdgeAtom.OUT false None None in
  let there := Sample.edge 10 0 1 in
  let back := Sample.edge 11 1 0 in
  let first :=
    [Vertex (Sample.vertex 0); List [Edge there]; Vertex (Sample.vertex 1);
     Edge there; Vertex (Sample.vertex 1)] in
  let second :=
    [Vertex (Sample.vertex 0); List [Edge there; Edge back];
     Vertex (Sample.vertex 0); Edge back; Vertex (Sample.vertex 0)] in
  produces (ExpandVariableCursor.MakeCursor self (@Once.MakeCursor))
    (Sample.row (Vertex (Sample.vertex 0))) (Fixture.start ring)
    [first; second]
    (ExpandVariableCursor.mkExpandVariableCursor
       self (Once.mkOnceCursor true) int64_max 1
       [[(there, EdgeAtom.OUT)]; []; []])
    second (Fixture.start ring) /\
  Forall (fun row => unique_edges (frame_at row Sample.r)) [first; second].
Proof.
  intros self there back first second.
  assert (Hproduces :
    produces (ExpandVariableCursor.MakeCursor self (@Once.MakeCursor))
      (Sample.row (Vertex (Sample.vertex 0))) (Fixture.start ring)
      [first; second]
      (ExpandVariableCursor.mkExpandVariableCursor
         self (Once.mkOnceCursor true) int64_max 1
         [[(there, EdgeAtom.OUT)]; []; []])
      second (Fixture.start ring)).
  { apply (produces_row _ _ _
             (ExpandVariableCursor.mkExpandVariableCursor
                self (Once.mkOnceCursor true) int64_max 1
                [[(back, EdgeAtom.OUT)]; []])
             first (Fixture.start ring)); [run_fuel 6%nat|].
    apply (produces_row _ _ _
             (ExpandVariableCursor.mkExpandVariableCursor
                self (Once.mkOnceCursor true) int64_max 1
                [[(there, EdgeAtom.OUT)]; []; []])
             second (Fixture.start ring)); [run_fuel 6%nat|].
    apply produces_nil. }
  split; [exact Hproduces|].
  refine (proj1 (C4_edge_uniqueness self _ _ _ (@Once_width Fixture.Graph)
                   (ExpandVariableCursor.MakeCursor self (@Once.MakeCursor))
                   _ _ _ _ _ _ _ _ _ Hproduces)).
  - discriminate.
  - discriminate.
  - discriminate.
  - reflexivity.
  - cbn. lia.
  - intros Hstack. contradiction Hstack. reflexivity.
Defined.

(** ** Exhaustion is final *)

Section Exhaustion.
Context {Db : Type} `{!GraphDbAccessor Db}.

(** The abort hint is not set. *)
Definition calm (context : Context Db) : Prop :=
  should_abort (db_accessor_ context) = false.

Section OneCursor.
Context {T : Type} `{!Cursor.Cursor Db T}.

(** From a cursor in [I], a pull made while the abort hint is not set
    reports exhaustion and leaves a cursor in [I]. *)
Definition exhausted_invariant (I : T -> Prop) : Prop :=
  forall cursor, I cursor ->
  forall frame context, calm context ->
  exists cursor' frame' context',
    pulls cursor frame context (Ok (false, cursor', frame') context') /\
    I cursor'.

(** Every pull of the cursor from now on, made while the abort hint is
    not set, reports exhaustion. *)
Definition stays_exhausted (cursor : T) : Prop :=
  exists I, exhausted_invariant I /\ I cursor.

Lemma stays_exhausted_invariant : exhausted_invariant stays_exhausted.
Proof.
  intros cursor (I & Hinvariant & Hcursor) frame context Hcalm.
  destruct (Hinvariant cursor Hcursor frame context Hcalm)
    as (cursor' & frame' & context' & Hpull & Hcursor').
  exists cursor', frame', context'. split; [exact Hpull|].
  exists I. split; assumption.
Qed.

(** Once a pull has reported exhaustion, the cursor stays exhausted. *)
Definition exhaustion_is_final : Prop :=
  forall n cursor frame (context : Context Db) cursor' frame' context',
    Cursor.Pull n cursor frame context = Ok (false, cursor', frame') context' ->
    stays_exhausted cursor'.

Lemma final_by_invariant (I : T -> Prop) :
  exhausted_invariant I ->
  (forall n cursor frame (context : Context Db) cursor' frame' context',
     Cursor.Pull n cursor frame context =
       Ok (false, cursor', frame') context' ->
     I cursor') ->
  exhaustion_is_final.
Proof.
  intros Hinvariant Henter n cursor frame context cursor' frame' context'
         Hpull.
  exists I. split; [exact Hinvariant|]. eapply Henter. exact Hpull.
Qed.

End OneCursor.

Arguments exhaustion_is_final T {_}.

(** *** Once *)

Lemma Once_final : exhaustion_is_final (@Once.OnceCursor).
Proof.
  apply (final_by_invariant (fun cursor => Once.did_pull_ cursor = true)).
  - intros cursor Hdone frame context _.
    exists cursor, frame, context. split; [|exact Hdone].
    exists O. intros n _.
    change (Cursor.Pull n cursor frame context)
      with (Once.Pull n cursor frame context).
    unfold Once.Pull. rewrite Hdone. reflexivity.
  - intros n cursor frame context cursor' frame' context'.
    change (Cursor.Pull n cursor frame context)
      with (Once.Pull n cursor frame context).
    unfold Once.Pull. destruct (Once.did_pull_ cursor) eqn:Hdone; cbn [negb].
    + intros [= <- <- <-]. exact Hdone.
    + discriminate.
Qed.

Section OverInput.
Context {TInput : Type} `{!Cursor.Cursor Db TInput}.
Hypothesis Hinput : exhaustion_is_final TInput.

(** *** Filter *)

Lemma Filter_final : exhaustion_is_final (@Filter.FilterCursor Db TInput).
Proof.
  apply (final_by_invariant
           (fun cursor => stays_exhausted (Filter.input_cursor_ cursor))).
  - intros cursor Hcursor frame context Hcalm.
    destruct (stays_exhausted_invariant _ Hcursor frame context Hcalm)
      as (input' & frame' & context' & [N Hpull] & Hinput').
    exists (Filter.mkFilterCursor (Filter.self_ cursor) input'), frame',
      context'.
    split; [|exact Hinput']. exists (S N). intros n Hn.
    destruct n as [|n]; [lia|].
    change (Cursor.Pull (S n) cursor frame context)
      with (Filter.Pull (S n) cursor frame context).
    cbn [Filter.Pull]. rewrite (bind_Ok _ _ _ _ _ (Hpull n ltac:(lia))).
    reflexivity.
  - intros n. induction n as [|n IH];
      intros cursor frame context cursor' frame' context'; [discriminate|].
    change (Cursor.Pull (S n) cursor frame context)
      with (Filter.Pull (S n) cursor frame context).
    cbn [Filter.Pull]. intros Hpull.
    apply bind_Ok_inv in Hpull
      as ([[pulled input1] frame1] & context1 & Hinput1 & Hpull).
    destruct pulled.
    + apply bind_Ok_inv in Hpull as (keep & context2 & _ & Hpull).
      destruct keep; [discriminate|]. exact (IH _ _ _ _ _ _ Hpull).
    + injection Hpull as <- <- <-. cbn [Filter.input_cursor_].
      exact (Hinput _ _ _ _ _ _ _ Hinput1).
Qed.

(** *** Skip *)

Lemma Skip_final : exhaustion_is_final (@Skip.SkipCursor Db TInput).
Proof.
  apply (final_by_invariant
           (fun cursor => stays_exhausted (Skip.input_cursor_ cursor))).
  - intros cursor Hcursor frame context Hcalm.
    destruct (stays_exhausted_invariant _ Hcursor frame context Hcalm)
      as (input' & frame' & context' & [N Hpull] & Hinput').
    exists (Skip.mkSkipCursor (Skip.self_ cursor) input'
              (Skip.to_skip_ cursor) (Skip.skipped_ cursor)), frame',
      context'.
    split; [|exact Hinput']. exists (S N). intros n Hn.
    destruct n as [|n]; [lia|].
    change (Cursor.Pull (S n) cursor frame context)
      with (Skip.Pull (S n) cursor frame context).
    cbn [Skip.Pull]. rewrite (bind_Ok _ _ _ _ _ (Hpull n ltac:(lia))).
    reflexivity.
  - intros n. induction n as [|n IH];
      intros cursor frame context cursor' frame' context'; [discriminate|].
    change (Cursor.Pull (S n) cursor frame context)
      with (Skip.Pull (S n) cursor frame context).
    cbn [Skip.Pull]. intros Hpull.
    apply bind_Ok_inv in Hpull
      as ([[pulled input1] frame1] & context1 & Hinput1 & Hpull).
    destruct pulled.
    + apply bind_Ok_inv in Hpull as (to_skip & context2 & _ & Hpull).
      destruct (_ <? _); [|discriminate]. exact (IH _ _ _ _ _ _ Hpull).
    + injection Hpull as <- <- <-. cbn [Skip.input_cursor_].
      exact (Hinput _ _ _ _ _ _ _ Hinput1).
Qed.

(** *** Delete *)

Lemma Delete_final : exhaustion_is_final (@Delete.DeleteCursor Db TInput).
Proof.
  apply (final_by_invariant
           (fun cursor => stays_exhausted (Delete.input_cursor_ cursor))).
  - intros cursor Hcursor frame context Hcalm.
    destruct (stays_exhausted_invariant _ Hcursor frame context Hcalm)
      as (input' & frame' & context' & [N Hpull] & Hinput').
    exists (Delete.mkDeleteCursor (Delete.self_ cursor) input'), frame',
      context'.
    split; [|exact Hinput']. exists N. intros n Hn.
    change (Cursor.Pull n cursor frame context)
      with (Delete.Pull n cursor frame context).
    unfold Delete.Pull. rewrite (bind_Ok _ _ _ _ _ (Hpull n Hn)).
    reflexivity.
  - intros n cursor frame context cursor' frame' context'.
    change (Cursor.Pull n cursor frame context)
      with (Delete.Pull n cursor frame context).
    unfold Delete.Pull. intros Hpull.
    apply bind_Ok_inv in Hpull
      as ([[pulled input1] frame1] & context1 & Hinput1 & Hpull).
    destruct pulled; cbn [negb] in Hpull.
    + apply bind_Ok_inv in Hpull as (? & ? & _ & Hpull).
      apply bind_Ok_inv in Hpull as (? & ? & _ & Hpull).
      apply bind_Ok_inv in Hpull as (? & ? & _ & Hpull).
      discriminate.
    + injection Hpull as <- <- <-. cbn [Delete.input_cursor_].
      exact (Hinput _ _ _ _ _ _ _ Hinput1).
Qed.

(** *** Limit *)

Lemma evaluate_limit_set (this : @Limit.LimitCursor Db TInput) frame
  (context : Context Db) limit context' :
  Limit.evaluate_limit this frame context = Ok limit context' ->
  limit <> -1.
Proof.
  unfold Limit.evaluate_limit.
  destruct (Z.eqb_spec (Limit.limit_ this) (-1)) as [|Hset].
  - intros Heval. apply bind_Ok_inv in Heval as (value & ? & _ & Heval).
    destruct value; try discriminate.
    destruct (Z.ltb_spec i 0); [discriminate|].
    injection Heval as <- _. lia.
  - intros [= <- _]. exact Hset.
Qed.

Lemma Limit_final : exhaustion_is_final (@Limit.LimitCursor Db TInput).
Proof.
  apply (final_by_invariant
           (fun cursor =>
              Limit.limit_ cursor <> -1 /\
              (Limit.limit_ cursor <= Limit.pulled_ cursor \/
               stays_exhausted (Limit.input_cursor_ cursor)))).
  - intros cursor [Hset Hdone] frame context Hcalm.
    assert (Heval : Limit.evaluate_limit cursor frame context =
                    Ok (Limit.limit_ cursor) context).
    { unfold Limit.evaluate_limit.
      destruct (Z.eqb_spec (Limit.limit_ cursor) (-1)); [contradiction|].
      reflexivity. }
    destruct (Z.leb_spec (Limit.limit_ cursor) (Limit.pulled_ cursor))
      as [Hreached|Hbelow].
    + exists (Limit.mkLimitCursor (Limit.self_ cursor)
                (Limit.input_cursor_ cursor) (Limit.limit_ cursor)
                (Limit.pulled_ cursor + 1)), frame, context.
      split.
      * exists O. intros n _.
        change (Cursor.Pull n cursor frame context)
          with (Limit.Pull n cursor frame context).
        unfold Limit.Pull. rewrite (bind_Ok _ _ _ _ _ Heval).
        destruct (Z.leb_spec (Limit.limit_ cursor) (Limit.pulled_ cursor));
          [reflexivity|lia].
      * cbn. split; [exact Hset|left; lia].
    + destruct Hdone as [Hreached|Hexhausted]; [lia|].
      destruct (stays_exhausted_invariant _ Hexhausted frame context Hcalm)
        as (input' & frame' & context' & [N Hpull] & Hinput').
      exists (Limit.mkLimitCursor (Limit.self_ cursor) input'
                (Limit.limit_ cursor) (Limit.pulled_ cursor + 1)), frame',
        context'.
      split.
      * exists N. intros n Hn.
        change (Cursor.Pull n cursor frame context)
          with (Limit.Pull n cursor frame context).
        unfold Limit.Pull. rewrite (bind_Ok _ _ _ _ _ Heval).
        destruct (Z.leb_spec (Limit.limit_ cursor) (Limit.pulled_ cursor));
          [lia|].
        rewrite (bind_Ok _ _ _ _ _ (Hpull n Hn)). reflexivity.
      * cbn. split; [exact Hset|right; exact Hinput'].
  - intros n cursor frame context cursor' frame' context'.
    change (Cursor.Pull n cursor frame context)
      with (Limit.Pull n cursor frame context).
    unfold Limit.Pull. intros Hpull.
    apply bind_Ok_inv in Hpull as (limit & context1 & Heval & Hpull).
    apply evaluate_limit_set in Heval.
    destruct (Z.leb_spec limit (Limit.pulled_ cursor)) as [Hreached|Hbelow].
    + injection Hpull as <- <- <-. cbn. split; [exact Heval|left; lia].
    + apply bind_Ok_inv in Hpull
        as ([[pulled input1] frame1] & context2 & Hinput1 & Hpull).
      injection Hpull as -> <- <- <-. cbn. split; [exact Heval|right].
      exact (Hinput _ _ _ _ _ _ _ Hinput1).
Qed.

(** *** Unwind *)

Lemma check_abort_calm (context : Context Db) :
  calm context -> check_abort context = Ok tt context.
Proof.
  intros Hcalm. unfold check_abort, bind, get_db. rewrite Hcalm. reflexivity.
Qed.

Lemma check_abort_Ok (context context' : Context Db) u :
  check_abort context = Ok u context' -> context' = context.
Proof.
  unfold check_abort, bind, get_db.
  destruct (should_abort _); [discriminate|]. intros [= _ <-]. reflexivity.
Qed.

Lemma Unwind_final : exhaustion_is_final (@Unwind.UnwindCursor Db TInput).
Proof.
  apply (final_by_invariant
           (fun cursor =>
              Unwind.input_value_it_ cursor = [] /\
              stays_exhausted (Unwind.input_cursor_ cursor))).
  - intros cursor [Hend Hexhausted] frame context Hcalm.
    destruct (stays_exhausted_invariant _ Hexhausted frame context Hcalm)
      as (input' & frame' & context' & [N Hpull] & Hinput').
    exists (Unwind.mkUnwindCursor (Unwind.self_ cursor) input'
              (Unwind.input_value_ cursor) []), frame', context'.
    split; [|split; [reflexivity|exact Hinput']].
    exists (S N). intros n Hn. destruct n as [|n]; [lia|].
    change (Cursor.Pull (S n) cursor frame context)
      with (Unwind.Pull (S n) cursor frame context).
    cbn [Unwind.Pull]. rewrite (bind_Ok _ _ _ _ _ (check_abort_calm _ Hcalm)).
    rewrite Hend. rewrite (bind_Ok _ _ _ _ _ (Hpull n ltac:(lia))).
    reflexivity.
  - intros n. induction n as [|n IH];
      intros cursor frame context cursor' frame' context'; [discriminate|].
    change (Cursor.Pull (S n) cursor frame context)
      with (Unwind.Pull (S n) cursor frame context).
    cbn [Unwind.Pull]. intros Hpull.
    apply bind_Ok_inv in Hpull as (? & context0 & _ & Hpull).
    destruct (Unwind.input_value_it_ cursor); [|discriminate].
    apply bind_Ok_inv in Hpull
      as ([[pulled input1] frame1] & context1 & Hinput1 & Hpull).
    destruct pulled; cbn [negb] in Hpull.
    + apply bind_Ok_inv in Hpull as (input_value & context2 & _ & Hpull).
      destruct input_value; try discriminate.
      destruct l; [|discriminate]. exact (IH _ _ _ _ _ _ Hpull).
    + injection Hpull as <- <- <-. cbn. split; [reflexivity|].
      exact (Hinput _ _ _ _ _ _ _ Hinput1).
Qed.

(** *** Accumulate *)

Lemma Accumulate_final :
  exhaustion_is_final (@Accumulate.AccumulateCursor TInput).
Proof.
  apply (final_by_invariant
           (fun cursor =>
              Accumulate.pulled_all_input_ cursor = true /\
              Accumulate.cache_it_ cursor = [])).
  - intros cursor [Hall Hend] frame context _.
    exists cursor, frame, context. split; [|split; assumption].
    exists O. intros n _.
    change (Cursor.Pull n cursor frame context)
      with (Accumulate.Pull n cursor frame context).
    unfold Accumulate.Pull. rewrite Hall. cbn [negb].
    unfold bind at 1. unfold ret at 1. rewrite Hend. reflexivity.
  - intros n cursor frame context cursor' frame' context'.
    change (Cursor.Pull n cursor frame context)
      with (Accumulate.Pull n cursor frame context).
    unfold Accumulate.Pull. intros Hpull.
    apply bind_Ok_inv in Hpull as ([this1 frame1] & context1 & Hfirst & Hpull).
    destruct (Accumulate.cache_it_ this1) eqn:Hend; [|discriminate].
    injection Hpull as <- <- <-. split; [|exact Hend].
    destruct (Accumulate.pulled_all_input_ cursor) eqn:Hall;
      cbn [negb] in Hfirst.
    + injection Hfirst as <- <- <-. exact Hall.
    + apply bind_Ok_inv in Hfirst as ([[? ?] ?] & ? & _ & Hfirst).
      apply bind_Ok_inv in Hfirst as (? & ? & _ & Hfirst).
      injection Hfirst as <- <- <-. reflexivity.
Qed.

(** *** Merge and Optional *)

Section OverBranches.
Context {TMatch : Type} `{!Cursor.Cursor Db TMatch}.
Context {TCreate : Type} `{!Cursor.Cursor Db TCreate}.

Local Abbreviation MergeCursor := (@Merge.MergeCursor TInput TMatch TCreate).
Local Abbreviation OptionalCursor :=
  (@Optional.OptionalCursor TInput TMatch).

Lemma Merge_final : exhaustion_is_final MergeCursor.
Proof.
  apply (final_by_invariant
           (fun cursor : MergeCursor =>
              Merge.pull_input_ cursor = true /\
              stays_exhausted (Merge.input_cursor_ cursor))).
  - intros cursor [Hflag Hexhausted] frame context Hcalm.
    destruct (stays_exhausted_invariant _ Hexhausted frame context Hcalm)
      as (input' & frame' & context' & [N Hpull] & Hinput').
    exists (Merge.mkMergeCursor input' (Merge.merge_match_cursor_ cursor)
              (Merge.merge_create_cursor_ cursor) true), frame', context'.
    split; [|split; [reflexivity|exact Hinput']].
    exists (S N). intros n Hn. destruct n as [|n]; [lia|].
    change (Cursor.Pull (S n) cursor frame context)
      with (Merge.Pull (S n) cursor frame context).
    cbn [Merge.Pull]. rewrite Hflag.
    rewrite (bind_Ok _ _ _ _ _ (Hpull n ltac:(lia))). reflexivity.
  - intros n. induction n as [|n IH];
      intros cursor frame context cursor' frame' context'; [discriminate|].
    change (Cursor.Pull (S n) cursor frame context)
      with (Merge.Pull (S n) cursor frame context).
    cbn [Merge.Pull]. intros Hpull.
    assert (Hmatch :
      forall (this : MergeCursor) frame (context : Context Db),
        Merge.pull_match (Merge.Pull n) n this frame context =
          Ok (false, cursor', frame') context' ->
        Merge.pull_input_ cursor' = true /\
        stays_exhausted (Merge.input_cursor_ cursor')).
    { clear Hpull. intros this f c Hmatch. unfold Merge.pull_match in Hmatch.
      apply bind_Ok_inv in Hmatch
        as ([[matched merge_match] frame1] & context1 & _ & Hmatch).
      destruct matched; [discriminate|].
      destruct (Merge.pull_input_ this).
      - apply bind_Ok_inv in Hmatch as ([[? ?] ?] & ? & _ & Hmatch).
        discriminate.
      - exact (IH _ _ _ _ _ _ Hmatch). }
    destruct (Merge.pull_input_ cursor) eqn:Hflag.
    + apply bind_Ok_inv in Hpull
        as ([[pulled input1] frame1] & context1 & Hinput1 & Hpull).
      destruct pulled.
      * apply bind_Ok_inv in Hpull as (? & ? & _ & Hpull).
        apply bind_Ok_inv in Hpull as (? & ? & _ & Hpull).
        exact (Hmatch _ _ _ Hpull).
      * injection Hpull as <- <- <-. cbn. split; [reflexivity|].
        exact (Hinput _ _ _ _ _ _ _ Hinput1).
    + exact (Hmatch _ _ _ Hpull).
Qed.

Lemma Optional_final : exhaustion_is_final OptionalCursor.
Proof.
  apply (final_by_invariant
           (fun cursor : OptionalCursor =>
              Optional.pull_input_ cursor = true /\
              stays_exhausted (Optional.input_cursor_ cursor))).
  - intros cursor [Hflag Hexhausted] frame context Hcalm.
    destruct (stays_exhausted_invariant _ Hexhausted frame context Hcalm)
      as (input' & frame' & context' & [N Hpull] & Hinput').
    exists (Optional.mkOptionalCursor (Optional.self_ cursor) input'
              (Optional.optional_cursor_ cursor) true), frame', context'.
    split; [|split; [reflexivity|exact Hinput']].
    exists (S N). intros n Hn. destruct n as [|n]; [lia|].
    change (Cursor.Pull (S n) cursor frame context)
      with (Optional.Pull (S n) cursor frame context).
    cbn [Optional.Pull]. rewrite Hflag.
    rewrite (bind_Ok _ _ _ _ _ (Hpull n ltac:(lia))). reflexivity.
  - intros n. induction n as [|n IH];
      intros cursor frame context cursor' frame' context'; [discriminate|].
    change (Cursor.Pull (S n) cursor frame context)
      with (Optional.Pull (S n) cursor frame context).
    cbn [Optional.Pull]. intros Hpull.
    assert (Hoptional :
      forall (this : OptionalCursor) frame (context : Context Db),
        Optional.pull_optional (Optional.Pull n) n this frame context =
          Ok (false, cursor', frame') context' ->
        Optional.pull_input_ cursor' = true /\
        stays_exhausted (Optional.input_cursor_ cursor')).
    { clear Hpull. intros this f c Hoptional.
      unfold Optional.pull_optional in Hoptional.
      apply bind_Ok_inv in Hoptional
        as ([[pulled optional] frame1] & context1 & _ & Hoptional).
      destruct pulled; [discriminate|].
      destruct (Optional.pull_input_ this); [discriminate|].
      exact (IH _ _ _ _ _ _ Hoptional). }
    destruct (Optional.pull_input_ cursor) eqn:Hflag.
    + apply bind_Ok_inv in Hpull
        as ([[pulled input1] frame1] & context1 & Hinput1 & Hpull).
      destruct pulled.
      * apply bind_Ok_inv in Hpull as (? & ? & _ & Hpull).
        exact (Hoptional _ _ _ Hpull).
      * injection Hpull as <- <- <-. cbn. split; [reflexivity|].
        exact (Hinput _ _ _ _ _ _ _ Hinput1).
    + exact (Hoptional _ _ _ Hpull).
Qed.

End OverBranches.

(** *** Distinct and Aggregate *)

Section WithValues.
Context `{!TypedValueOps}.

Lemma Distinct_final :
  exhaustion_is_final (@Distinct.DistinctCursor TInput).
Proof.
  apply (final_by_invariant
           (fun cursor => stays_exhausted (Distinct.input_cursor_ cursor))).
  - intros cursor Hcursor frame context Hcalm.
    destruct (stays_exhausted_invariant _ Hcursor frame context Hcalm)
      as (input' & frame' & context' & [N Hpull] & Hinput').
    exists (Distinct.mkDistinctCursor (Distinct.self_ cursor) input'
              (Distinct.seen_rows_ cursor)), frame', context'.
    split; [|exact Hinput']. exists (S N). intros n Hn.
    destruct n as [|n]; [lia|].
    change (Cursor.Pull (S n) cursor frame context)
      with (Distinct.Pull (S n) cursor frame context).
    cbn [Distinct.Pull]. rewrite (bind_Ok _ _ _ _ _ (Hpull n ltac:(lia))).
    reflexivity.
  - intros n. induction n as [|n IH];
      intros cursor frame context cursor' frame' context'; [discriminate|].
    change (Cursor.Pull (S n) cursor frame context)
      with (Distinct.Pull (S n) cursor frame context).
    cbn [Distinct.Pull]. intros Hpull.
    apply bind_Ok_inv in Hpull
      as ([[pulled input1] frame1] & context1 & Hinput1 & Hpull).
    destruct pulled; cbn [negb] in Hpull.
    + destruct (Distinct.contains _ _); [|discriminate].
      exact (IH _ _ _ _ _ _ Hpull).
    + injection Hpull as <- <- <-. cbn [Distinct.input_cursor_].
      exact (Hinput _ _ _ _ _ _ _ Hinput1).
Qed.

Lemma Aggregate_final :
  exhaustion_is_final (@Aggregate.AggregateCursor Db TInput).
Proof.
  apply (final_by_invariant
           (fun cursor =>
              Aggregate.pulled_all_input_ cursor = true /\
              Aggregate.aggregation_it_ cursor = [])).
  - intros cursor [Hall Hend] frame context _.
    exists cursor, frame, context. split; [|split; assumption].
    exists O. intros n _.
    change (Cursor.Pull n cursor frame context)
      with (Aggregate.Pull n cursor frame context).
    unfold Aggregate.Pull, Aggregate.next_group. rewrite Hall, Hend.
    reflexivity.
  - intros n cursor frame context cursor' frame' context'.
    change (Cursor.Pull n cursor frame context)
      with (Aggregate.Pull n cursor frame context).
    unfold Aggregate.Pull. intros Hpull.
    assert (Hnext :
      forall (this : @Aggregate.AggregateCursor Db TInput) frame
             (context : Context Db),
        Aggregate.pulled_all_input_ this = true ->
        Aggregate.next_group this frame context =
          Ok (false, cursor', frame') context' ->
        Aggregate.pulled_all_input_ cursor' = true /\
        Aggregate.aggregation_it_ cursor' = []).
    { clear Hpull. intros this f c Hall Hnext.
      unfold Aggregate.next_group in Hnext.
      destruct (Aggregate.aggregation_it_ this) as [|[? ?] ?] eqn:Hend;
        [|discriminate].
      injection Hnext as <- <- <-. split; assumption. }
    destruct (Aggregate.pulled_all_input_ cursor) eqn:Hall; cbn [negb] in Hpull.
    + exact (Hnext _ _ _ Hall Hpull).
    + apply bind_Ok_inv in Hpull
        as ([[input1 aggregation] frame1] & context1 & _ & Hpull).
      destruct aggregation as [|? ?].
      * destruct (Aggregate.group_by_ _); [discriminate|].
        apply Hnext in Hpull; [exact Hpull|reflexivity].
      * apply Hnext in Hpull; [exact Hpull|reflexivity].
Qed.

(** *** Synchronize *)

Section OverRemote.
Context `{!DistributedGraphDb Db}.
Context {TPullRemote : Type} `{!Cursor.Cursor Db TPullRemote}.
Hypothesis Hremote : exhaustion_is_final TPullRemote.

Local Abbreviation SynchronizeCursor :=
  (@Synchronize.SynchronizeCursor TInput TPullRemote).

Lemma pop_back_None {A} (v : list A) : pop_back v = None -> v = [].
Proof.
  unfold pop_back. destruct (last v) eqn:Hlast; [discriminate|].
  intros _. apply last_None. exact Hlast.
Qed.

Lemma Synchronize_final : exhaustion_is_final SynchronizeCursor.
Proof.
  apply (final_by_invariant
           (fun cursor : SynchronizeCursor =>
              Synchronize.initial_pull_done_ cursor = true /\
              Synchronize.local_frames_ cursor = [] /\
              match Synchronize.pull_remote_cursor_ cursor with
              | Some pull_remote => stays_exhausted pull_remote
              | None => True
              end)).
  - intros cursor (Hdone & Hlocal & Hexhausted) frame context Hcalm.
    destruct (Synchronize.pull_remote_cursor_ cursor) as [pull_remote|]
      eqn:Hpull_remote.
    + destruct (stays_exhausted_invariant _ Hexhausted frame context Hcalm)
        as (remote' & frame' & context' & [N Hpull] & Hremote').
      exists (Synchronize.mkSynchronizeCursor
                (Synchronize.self_ cursor) (Synchronize.input_cursor_ cursor)
                (Some remote') true []), frame', context'.
      split; [|repeat split; exact Hremote'].
      exists N. intros n Hn.
      change (Cursor.Pull n cursor frame context)
        with (Synchronize.Pull n cursor frame context).
      unfold Synchronize.Pull. rewrite Hdone. cbn [negb].
      unfold bind at 1. unfold ret at 1. rewrite Hlocal, Hpull_remote.
      cbn [pop_back last]. rewrite (bind_Ok _ _ _ _ _ (Hpull n Hn)).
      rewrite Hdone. reflexivity.
    + exists cursor, frame, context.
      split; [|repeat split; try assumption; rewrite Hpull_remote; exact I].
      exists O. intros n _.
      change (Cursor.Pull n cursor frame context)
        with (Synchronize.Pull n cursor frame context).
      unfold Synchronize.Pull. rewrite Hdone. cbn [negb].
      unfold bind at 1. unfold ret at 1. rewrite Hlocal, Hpull_remote.
      reflexivity.
  - intros n cursor frame context cursor' frame' context'.
    change (Cursor.Pull n cursor frame context)
      with (Synchronize.Pull n cursor frame context).
    unfold Synchronize.Pull. intros Hpull.
    apply bind_Ok_inv in Hpull as ([this1 frame1] & context1 & Hfirst & Hpull).
    assert (Hdone : Synchronize.initial_pull_done_ this1 = true).
    { destruct (Synchronize.initial_pull_done_ cursor) eqn:Hdone;
        cbn [negb] in Hfirst.
      - injection Hfirst as <- <- <-. exact Hdone.
      - apply bind_Ok_inv in Hfirst as ([[? ?] ?] & ? & _ & Hfirst).
        injection Hfirst as <- <- <-. reflexivity. }
    destruct (pop_back (Synchronize.local_frames_ this1)) as [[? ?]|]
      eqn:Hlocal.
    + apply bind_Ok_inv in Hpull as (? & ? & _ & Hpull). discriminate.
    + apply pop_back_None in Hlocal.
      destruct (Synchronize.pull_remote_cursor_ this1) as [pull_remote|]
        eqn:Hpull_remote.
      * apply bind_Ok_inv in Hpull
          as ([[pulled remote1] frame2] & context2 & Hremote1 & Hpull).
        injection Hpull as -> <- <- <-. cbn.
        repeat split; [exact Hdone|exact Hlocal|].
        exact (Hremote _ _ _ _ _ _ _ Hremote1).
      * injection Hpull as <- <- <-.
        repeat split; [exact Hdone|exact Hlocal|].
        rewrite Hpull_remote. exact I.
Qed.

End OverRemote.

End WithValues.

(** *** Expand *)

Local Abbreviation ExpandCursor := (@Expand.ExpandCursor TInput).

Lemma InitEdges_exhausted n :
  forall (this : ExpandCursor) frame (context : Context Db) this' frame'
         context',
  Expand.InitEdges n this frame context = Ok (false, this', frame') context' ->
  this' = Expand_over this (Expand.input_cursor_ this') /\
  stays_exhausted (Expand.input_cursor_ this').
Proof.
  induction n as [|n IH]; intros this frame context this' frame' context'
                                 Hinit; [discriminate|].
  cbn [Expand.InitEdges] in Hinit.
  apply bind_Ok_inv in Hinit
    as ([[pulled input1] frame1] & context1 & Hinput1 & Hinit).
  destruct pulled; cbn [negb] in Hinit.
  - cbn [Expand.self_] in Hinit. destruct (IsNull _).
    + apply IH in Hinit. exact Hinit.
    + repeat first
        [ apply bind_Ok_inv in Hinit as (? & ? & _ & Hinit)
        | match type of Hinit with
          | context [let '(_, _) := ?p in _] => destruct p
          end ].
      discriminate.
  - injection Hinit as <- <- <-. split; [reflexivity|].
    exact (Hinput _ _ _ _ _ _ _ Hinput1).
Qed.

Lemma Expand_final : exhaustion_is_final ExpandCursor.
Proof.
  apply (final_by_invariant
           (fun cursor : ExpandCursor =>
              Expand.next_edge (Expand.in_edges_ cursor)
                               (Expand.in_edges_it_ cursor) = None /\
              Expand.next_edge (Expand.out_edges_ cursor)
                               (Expand.out_edges_it_ cursor) = None /\
              Expand.future_expands_ cursor = [] /\
              stays_exhausted (Expand.input_cursor_ cursor))).
  - intros cursor (Hin & Hout & Hfutures & Hexhausted) frame context Hcalm.
    set (frame0 := match Expand.last_frame_ cursor with
                   | [] => frame
                   | saved => saved
                   end).
    destruct (stays_exhausted_invariant _ Hexhausted frame0 context Hcalm)
      as (input' & frame' & context' & [N Hpull] & Hinput').
    exists (Expand.mkExpandCursor
              (Expand.self_ cursor) input' (Expand.in_edges_ cursor)
              (Expand.in_edges_it_ cursor) (Expand.out_edges_ cursor)
              (Expand.out_edges_it_ cursor) [] []), frame', context'.
    split; [|repeat split; assumption].
    exists (S (S N)). intros n Hn. destruct n as [|[|n]]; [lia|lia|].
    change (Cursor.Pull (S (S n)) cursor frame context)
      with (Expand.Pull (S (S n)) cursor frame context).
    remember (S n) as m eqn:Hm. cbn [Expand.Pull].
    rewrite (bind_Ok _ _ _ _ _ (check_abort_calm _ Hcalm)).
    rewrite Hfutures. cbn [Expand.find_ready_future].
    unfold bind at 1. unfold ret at 1. fold frame0. rewrite Hin, Hout.
    subst m. cbn [Expand.InitEdges Expand.input_cursor_].
    unfold bind at 1. unfold bind at 1.
    rewrite (Hpull n ltac:(lia)). reflexivity.
  - intros n. induction n as [|n IH];
      intros cursor frame context cursor' frame' context'; [discriminate|].
    change (Cursor.Pull (S n) cursor frame context)
      with (Expand.Pull (S n) cursor frame context).
    cbn [Expand.Pull]. intros Hpull.
    apply bind_Ok_inv in Hpull as (? & context0 & _ & Hpull).
    apply bind_Ok_inv in Hpull as (future_it & context1 & _ & Hpull).
    destruct future_it as [[[before future] after]|]; [discriminate|].
    destruct (Expand.next_edge (Expand.in_edges_ cursor) _)
      as [[edge rest]|] eqn:Hin.
    { unfold bind at 1 in Hpull. unfold get_db at 1 in Hpull.
      destruct (_ || _); [discriminate|]. exact (IH _ _ _ _ _ _ Hpull). }
    destruct (Expand.next_edge (Expand.out_edges_ cursor) _)
      as [[edge rest]|] eqn:Hout.
    { unfold bind at 1 in Hpull. unfold get_db at 1 in Hpull.
      destruct (match ExpandCommon.direction_ _ with
                | EdgeAtom.BOTH => _
                | _ => false
                end); [exact (IH _ _ _ _ _ _ Hpull)|].
      destruct (_ || _); [discriminate|]. exact (IH _ _ _ _ _ _ Hpull). }
    apply bind_Ok_inv in Hpull
      as ([[initialized this1] frame1] & context2 & Hinit & Hpull).
    destruct initialized; [exact (IH _ _ _ _ _ _ Hpull)|].
    destruct (Expand.future_expands_ this1) eqn:Hfutures.
    + injection Hpull as <- <- <-.
      apply InitEdges_exhausted in Hinit as [Hover Hstays].
      repeat split; [| |exact Hfutures|exact Hstays].
      * rewrite Hover. exact Hin.
      * rewrite Hover. exact Hout.
    + apply bind_Ok_inv in Hpull as (future_it & context3 & _ & Hpull).
      destruct future_it as [[[before future] after]|]; [discriminate|].
      exact (IH _ _ _ _ _ _ Hpull).
Qed.

(** *** ExpandVariable *)

Local Abbreviation ExpandVariableCursor :=
  (@ExpandVariableCursor.ExpandVariableCursor Db TInput).

Lemma Expand_exhausted n :
  forall (this : ExpandVariableCursor) frame (context : Context Db) this'
         frame' context',
  ExpandVariableCursor.Expand n this frame context =
    Ok (false, this', frame') context' ->
  ExpandVariableCursor.edges_ this' = [] /\
  ExpandVariableCursor.input_cursor_ this' =
  ExpandVariableCursor.input_cursor_ this.
Proof.
  induction n as [|n IH]; intros this frame context this' frame' context'
                                 Hexpand; [discriminate|].
  cbn [ExpandVariableCursor.Expand] in Hexpand.
  destruct (ExpandVariableCursor.pop_exhausted _)
    as [|[|current_edge level] below].
  - injection Hexpand as <- <- <-. split; reflexivity.
  - injection Hexpand as <- <- <-. split; reflexivity.
  - apply bind_Ok_inv in Hexpand as (? & ? & _ & Hexpand).
    apply bind_Ok_inv in Hexpand as (existing & ? & _ & Hexpand).
    destruct existing; [exact (IH _ _ _ _ _ _ Hexpand)|].
    apply bind_Ok_inv in Hexpand as ([accepted ?] & ? & _ & Hexpand).
    destruct accepted; cbn [negb] in Hexpand;
      [|exact (IH _ _ _ _ _ _ Hexpand)].
    apply bind_Ok_inv in Hexpand as (keep & ? & _ & Hexpand).
    destruct keep; cbn [negb] in Hexpand; [|exact (IH _ _ _ _ _ _ Hexpand)].
    unfold bind at 1 in Hexpand. unfold get_db at 1 in Hexpand.
    cbn [ExpandVariableCursor.upper_bound_] in Hexpand.
    destruct (_ <? _); (destruct (_ <=? _); [discriminate|]);
      apply IH in Hexpand; exact Hexpand.
Qed.

Lemma PullInput_exhausted n :
  forall (this : ExpandVariableCursor) frame (context : Context Db) this'
         frame' context',
  ExpandVariableCursor.PullInput n this frame context =
    Ok (false, this', frame') context' ->
  ExpandVariableCursor.edges_ this' = ExpandVariableCursor.edges_ this /\
  stays_exhausted (ExpandVariableCursor.input_cursor_ this').
Proof.
  induction n as [|n IH]; intros this frame context this' frame' context'
                                 Hpull; [discriminate|].
  cbn [ExpandVariableCursor.PullInput] in Hpull.
  apply bind_Ok_inv in Hpull
    as ([[pulled input1] frame1] & context1 & Hinput1 & Hpull).
  destruct pulled; cbn [negb] in Hpull.
  - cbn [ExpandVariableCursor.self_] in Hpull. destruct (IsNull _).
    + apply IH in Hpull. exact Hpull.
    + repeat (apply bind_Ok_inv in Hpull as (? & ? & _ & Hpull)).
      discriminate.
  - injection Hpull as <- <- <-. split; [reflexivity|].
    exact (Hinput _ _ _ _ _ _ _ Hinput1).
Qed.

Lemma ExpandVariable_final : exhaustion_is_final ExpandVariableCursor.
Proof.
  apply (final_by_invariant
           (fun cursor : ExpandVariableCursor =>
              ExpandVariableCursor.edges_ cursor = [] /\
              stays_exhausted (ExpandVariableCursor.input_cursor_ cursor))).
  - intros cursor [Hstack Hexhausted] frame context Hcalm.
    destruct (stays_exhausted_invariant _ Hexhausted frame context Hcalm)
      as (input' & frame' & context' & [N Hpull] & Hinput').
    destruct cursor as [self input upper_bound lower_bound edges].
    cbn in Hstack, Hpull. subst edges.
    exists (ExpandVariableCursor.mkExpandVariableCursor
              self input' upper_bound lower_bound []), frame', context'.
    split; [|split; [reflexivity|exact Hinput']].
    exists (S (S N)). intros n Hn. destruct n as [|[|n]]; [lia|lia|].
    change (Cursor.Pull (S (S n)) ?c frame context)
      with (ExpandVariableCursor.Pull (S (S n)) c frame context).
    rewrite Pull_stack_empty. cbn [ExpandVariableCursor.PullInput].
    cbn [ExpandVariableCursor.input_cursor_].
    unfold bind at 1. unfold bind at 1.
    rewrite (Hpull n ltac:(lia)). reflexivity.
  - intros n. induction n as [|n IH];
      intros cursor frame context cursor' frame' context'; [discriminate|].
    change (Cursor.Pull (S n) cursor frame context)
      with (ExpandVariableCursor.Pull (S n) cursor frame context).
    cbn [ExpandVariableCursor.Pull]. intros Hpull.
    apply bind_Ok_inv in Hpull
      as ([[expanded this0] frame0] & context0 & Hexpand & Hpull).
    destruct expanded; [discriminate|].
    apply Expand_exhausted in Hexpand as [Hstack _].
    apply bind_Ok_inv in Hpull
      as ([[pulled this1] frame1] & context1 & Hinput1 & Hpull).
    destruct pulled.
    + destruct (_ =? 0).
      * apply bind_Ok_inv in Hpull as (? & ? & _ & Hpull).
        apply bind_Ok_inv in Hpull as ([accepted ?] & ? & _ & Hpull).
        destruct accepted; [discriminate|]. exact (IH _ _ _ _ _ _ Hpull).
      * exact (IH _ _ _ _ _ _ Hpull).
    + injection Hpull as <- <- <-.
      apply PullInput_exhausted in Hinput1 as [Hsame Hstays].
      split; [congruence|exact Hstays].
Qed.

End OverInput.

End Exhaustion.

Arguments exhaustion_is_final {Db _} T {_}.

Section ExhaustionOfTheOperators.
Context {Db : Type} `{!GraphDbAccessor Db} `{!DistributedGraphDb Db}.
Context `{!TypedValueOps}.

Lemma check_abort_set (context : Context Db) :
  should_abort (db_accessor_ context) = true ->
  check_abort context = Throw HintedAbortError context.
Proof.
  intros Hset. unfold check_abort, bind, get_db. rewrite Hset. reflexivity.
Qed.

(** C3 (amended).  While the abort hint is not set, exhaustion is final
    for the cursors of Once, Filter, Unwind, Skip, Limit, Distinct,
    Accumulate, Aggregate, Delete, Merge, Optional, Synchronize, Expand
    and the depth-first ExpandVariable, over inputs for which it is
    final: once a pull has reported exhaustion, every later pull reports
    exhaustion again, as long as no Reset intervenes.  In particular
    Once yields exactly one row, the frame as it was given, and is
    exhausted from then on; and Aggregate without group-by over an input
    without rows yields its default row once and is exhausted from then
    on.  When the abort hint is set, a pull of a cursor that checks it
    (Unwind, Expand, the scans) raises the abort error instead, whatever
    its state. *)
Theorem C3_exhaustion_is_final :
  (forall (T : Type) `(!Cursor.Cursor Db T),
     exhausted_invariant (@stays_exhausted Db _ T _)) /\
  (forall frame (context : Context Db),
     pulls (@Once.MakeCursor) frame context
           (Ok (true, Once.mkOnceCursor true, frame) context) /\
     pulls (Once.mkOnceCursor true) frame context
           (Ok (false, Once.mkOnceCursor true, frame) context)) /\
  exhaustion_is_final (@Once.OnceCursor) /\
  (forall (TInput : Type) `(!Cursor.Cursor Db TInput),
     exhaustion_is_final TInput ->
     exhaustion_is_final (@Filter.FilterCursor Db TInput) /\
     exhaustion_is_final (@Unwind.UnwindCursor Db TInput) /\
     exhaustion_is_final (@Skip.SkipCursor Db TInput) /\
     exhaustion_is_final (@Limit.LimitCursor Db TInput) /\
     exhaustion_is_final (@Distinct.DistinctCursor TInput) /\
     exhaustion_is_final (@Delete.DeleteCursor Db TInput) /\
     exhaustion_is_final (@Expand.ExpandCursor TInput) /\
     exhaustion_is_final
       (@ExpandVariableCursor.ExpandVariableCursor Db TInput) /\
     (forall (TMatch TCreate : Type) `(!Cursor.Cursor Db TMatch)
             `(!Cursor.Cursor Db TCreate),
        exhaustion_is_final (@Merge.MergeCursor TInput TMatch TCreate) /\
        exhaustion_is_final (@Optional.OptionalCursor TInput TMatch))) /\
  (forall (TInput : Type) `(!Cursor.Cursor Db TInput),
     exhaustion_is_final (@Accumulate.AccumulateCursor TInput) /\
     exhaustion_is_final (@Aggregate.AggregateCursor Db TInput) /\
     (forall (TPullRemote : Type) `(!Cursor.Cursor Db TPullRemote),
        exhaustion_is_final TPullRemote ->
        exhaustion_is_final
          (@Synchronize.SynchronizeCursor TInput TPullRemote))) /\
  (forall (TInput : Type) `(!Cursor.Cursor Db TInput)
          (self : @Aggregate.Aggregate Db) (input : TInput) frame
          (context : Context Db) input' frame' context',
     Aggregate.group_by_ self = [] ->
     pulls input frame context (Ok (false, input', frame') context') ->
     pulls (Aggregate.MakeCursor self input) frame context
           (Ok (true, consumed self input', default_row self frame')
               context') /\
     (forall frame (context : Context Db),
        pulls (consumed self input') frame context
              (Ok (false, consumed self input', frame) context))) /\
  (forall (TInput : Type) `(!Cursor.Cursor Db TInput) frame
          (context : Context Db) n,
     should_abort (db_accessor_ context) = true ->
     (forall this : @Unwind.UnwindCursor Db TInput,
        Unwind.Pull (S n) this frame context =
        Throw HintedAbortError context) /\
     (forall this : @Expand.ExpandCursor TInput,
        Expand.Pull (S n) this frame context =
        Throw HintedAbortError context) /\
     (forall this : @ScanAll.ScanAllCursor Db TInput,
        ScanAll.Pull (S n) this frame context =
        Throw HintedAbortError context) /\
     (forall this : @ScanAllByLabelPropertyValue.ScanAllByLabelPropertyValueCursor
                      Db TInput,
        ScanAllByLabelPropertyValue.Pull (S n) this frame context =
        Throw HintedAbortError context)).
Proof.
  split; [|split; [|split; [|split; [|split; [|split]]]]].
  - intros T HT. apply stays_exhausted_invariant.
  - intros frame context. split; exists O; intros n _; reflexivity.
  - apply Once_final.
  - intros TInput HInput Hinput.
    repeat split.
    + apply Filter_final; exact Hinput.
    + apply Unwind_final; exact Hinput.
    + apply Skip_final; exact Hinput.
    + apply Limit_final; exact Hinput.
    + apply Distinct_final; exact Hinput.
    + apply Delete_final; exact Hinput.
    + apply Expand_final; exact Hinput.
    + apply ExpandVariable_final; exact Hinput.
    + apply Merge_final; exact Hinput.
    + apply Optional_final; exact Hinput.
  - intros TInput HInput. split; [|split].
    + apply Accumulate_final.
    + apply Aggregate_final.
    + intros TPullRemote HRemote Hremote.
      apply Synchronize_final; exact Hremote.
  - intros TInput HInput self input frame context input' frame' context'
           Hgroup [N Hpull].
    split.
    + exists (S N). intros n Hn. destruct n as [|n]; [lia|].
      change (Cursor.Pull (S n) ?c frame context)
        with (Aggregate.Pull (S n) c frame context).
      rewrite (Aggregate_first_on_empty self input frame context n
                 input' frame' context' (Hpull n ltac:(lia))).
      rewrite Hgroup. reflexivity.
    + intros f c. exists O. intros n _. reflexivity.
  - intros TInput HInput frame context n Hset.
    repeat split; intros this.
    + cbn [Unwind.Pull]. apply bind_Throw. apply check_abort_set, Hset.
    + cbn [Expand.Pull]. apply bind_Throw. apply check_abort_set, Hset.
    + unfold ScanAll.Pull. apply bind_Throw. apply check_abort_set, Hset.
    + cbn [ScanAllByLabelPropertyValue.Pull]. apply bind_Throw.
      apply check_abort_set, Hset.
Qed.

End ExhaustionOfTheOperators.

(** C3 at a concrete plan: exhaustion is final for
    [Filter] over [Unwind] over [Once], and [Once] yields one row. *)
Lemma C3_exhaustion_is_final_witness :
  exhaustion_is_final
    (@Filter.FilterCursor Fixture.Graph
       (@Unwind.UnwindCursor Fixture.Graph Once.OnceCursor)) /\
  pulls (@Once.MakeCursor) [Null] (Fixture.start Fixture.empty_graph)
        (Ok (true, Once.mkOnceCursor true, [Null])
            (Fixture.start Fixture.empty_graph)).
Proof.
  destruct (@C3_exhaustion_is_final Fixture.Graph _ _ _)
    as (_ & Honce & Honce_final & Hover & _).
  split.
  - apply Hover. apply Hover. exact Honce_final.
  - apply Honce.
Defined.

(** C3 as worded fails.  With the abort hint set between two pulls, an
    exhausted [Unwind] raises the abort error.  And without it: over
    [UNWIND [5, 0] AS x], the scan of the vertices with the value [x]
    reports exhaustion at the row of 5, for which the ring has no
    vertex, and produces vertex 0 when it is pulled again. *)
Lemma C3_counterexample :
  let x := mkSymbol "x" 0 in
  let node := mkSymbol "n" 1 in
  let nothing := Fixture.literal (List []) in
  let unwind_nothing := Unwind.mkUnwind nothing x in
  let exhausted :=
    Unwind.mkUnwindCursor unwind_nothing (Once.mkOnceCursor true) [] [] in
  let values := Fixture.literal (List [Int 5; Int 0]) in
  let unwind := Unwind.mkUnwind values x in
  let self :=
    ScanAllByLabelPropertyValue.mkScanAllByLabelPropertyValue
      node 0 0 (Fixture.identifier x) OLD in
  let scan :=
    ScanAllByLabelPropertyValue.MakeCursor
      self (Unwind.MakeCursor unwind (@Once.MakeCursor)) in
  let scan1 :=
    ScanAllByLabelPropertyValue.mkScanAllByLabelPropertyValueCursor
      self
      (Unwind.mkUnwindCursor unwind (Once.mkOnceCursor true)
                             [Int 5; Int 0] [Int 0])
      (Some []) (Some []) in
  let scan2 :=
    ScanAllByLabelPropertyValue.mkScanAllByLabelPropertyValueCursor
      self
      (Unwind.mkUnwindCursor unwind (Once.mkOnceCursor true)
                             [Int 5; Int 0] [])
      (Some [Sample.vertex 0]) (Some []) in
  let context1 :=
    mkContext ring [values; Fixture.identifier x] [] [] in
  let context2 :=
    mkContext ring [values; Fixture.identifier x; Fixture.identifier x]
              [] [] in
  let aborting :=
    mkContext (Fixture.mkGraph true [] []) [nothing] [] [] in
  (pulls (Unwind.MakeCursor unwind_nothing (@Once.MakeCursor)) [Null]
         (Fixture.start Fixture.empty_graph)
         (Ok (false, exhausted, [Null])
             (mkContext Fixture.empty_graph [nothing] [] [])) /\
   pulls exhausted [Null] aborting (Throw HintedAbortError aborting)) /\
  (pulls scan [Null; Null] (Fixture.start ring)
         (Ok (false, scan1, [Int 5; Null]) context1) /\
   calm context1 /\
   pulls scan1 [Int 5; Null] context1
         (Ok (true, scan2, [Int 0; Vertex (Sample.vertex 0)]) context2)).
Proof.
  intros x node nothing unwind_nothing exhausted values unwind self scan scan1
         scan2 context1 context2 aborting.
  split; [split|split; [|split]].
  - run_fuel 4%nat.
  - run_fuel 1%nat.
  - run_fuel 5%nat.
  - reflexivity.
  - run_fuel 5%nat.
Qed.

(** * Rows through the operators

    What the operators make of the rows of their input, beyond the
    properties above. *)

Section Feeds.
Context {Db T : Type} `{!Cursor.Cursor Db T}.

(** The cursor is pulled to exhaustion by a puller that, after each row,
    turns the frame and the context as [step] says before it pulls
    again.  A row is recorded with the context it was produced in. *)
Inductive feeds (step : Frame -> Context Db -> Frame * Context Db)
  : T -> Frame -> Context Db -> list (Frame * Context Db) ->
    T -> Frame -> Context Db -> Prop :=
| feeds_done cursor frame context cursor' frame' context' :
    pulls cursor frame context (Ok (false, cursor', frame') context') ->
    feeds step cursor frame context [] cursor' frame' context'
| feeds_row cursor frame context cursor1 frame1 context1 rows
            cursor' frame' context' :
    pulls cursor frame context (Ok (true, cursor1, frame1) context1) ->
    feeds step cursor1 (fst (step frame1 context1))
          (snd (step frame1 context1)) rows cursor' frame' context' ->
    feeds step cursor frame context ((frame1, context1) :: rows)
          cursor' frame' context'.

Lemma feeds_head step (a b : T) fa ca fb cb rows cursor' frame' context' :
  (forall r, pulls (Db := Db) a fa ca r -> pulls b fb cb r) ->
  feeds step a fa ca rows cursor' frame' context' ->
  feeds step b fb cb rows cursor' frame' context'.
Proof.
  intros Hlike Hfeeds. inversion Hfeeds; subst.
  - apply feeds_done. apply Hlike. assumption.
  - eapply feeds_row; [apply Hlike; eassumption|assumption].
Qed.

End Feeds.

(** ** Filter *)

Section FilterRows.
Context {Db : Type} `{!GraphDbAccessor Db}.
Context {TInput : Type} `{!Cursor.Cursor Db TInput}.
Variable self : @Filter.Filter Db.

Local Abbreviation expression := (Filter.expression_ self).

(** What [EvaluateFilter] makes of the row, when it does not fail: null
    counts as false. *)
Definition filter_value (frame : Frame) (context : Context Db)
  : option bool :=
  match expr_eval expression OLD frame (db_accessor_ context) with
  | inr Null => Some false
  | inr (Bool b) => Some b
  | _ => None
  end.

Definition passes (row : Frame * Context Db) : bool :=
  match filter_value (fst row) (snd row) with
  | Some true => true
  | _ => false
  end.

(** What the input sees between two of its rows: a row that passes goes
    to the puller of the filter, the others come straight back. *)
Definition through_filter (step : Frame -> Context Db -> Frame * Context Db)
  (frame : Frame) (context : Context Db) : Frame * Context Db :=
  if passes (frame, context) then step frame (evaluated expression context)
  else (frame, evaluated expression context).

Lemma EvaluateFilter_value frame (context : Context Db) keep :
  filter_value frame context = Some keep ->
  EvaluateFilter OLD expression frame context =
  Ok keep (evaluated expression context).
Proof.
  unfold filter_value, EvaluateFilter, bind, Accept, evaluated.
  destruct (expr_eval _ _ _ _) as [e|[]]; try discriminate;
    intros [= <-]; reflexivity.
Qed.

Lemma Filter_keeps (input : TInput) frame context input1 frame1 context1 :
  pulls input frame context (Ok (true, input1, frame1) context1) ->
  filter_value frame1 context1 = Some true ->
  pulls (Filter.MakeCursor self input) frame context
        (Ok (true, Filter.MakeCursor self input1, frame1)
            (evaluated expression context1)).
Proof.
  intros [N Hpull] Hvalue. exists (S N). intros n Hn.
  destruct n as [|n]; [lia|].
  change (Cursor.Pull (S n) ?s ?f ?c) with (Filter.Pull (S n) s f c).
  cbn [Filter.Pull Filter.MakeCursor Filter.input_cursor_ Filter.self_].
  rewrite (bind_Ok _ _ _ _ _ (Hpull n ltac:(lia))). cbn iota beta.
  cbn [Filter.self_].
  rewrite (bind_Ok _ _ _ _ _ (EvaluateFilter_value _ _ _ Hvalue)).
  reflexivity.
Qed.

Lemma Filter_drops (input : TInput) frame context input1 frame1 context1 r :
  pulls input frame context (Ok (true, input1, frame1) context1) ->
  filter_value frame1 context1 = Some false ->
  pulls (Filter.MakeCursor self input1) frame1
        (evaluated expression context1) r ->
  pulls (Filter.MakeCursor self input) frame context r.
Proof.
  intros [N Hpull] Hvalue [Nr Hr]. exists (S (Nat.max N Nr)). intros n Hn.
  destruct n as [|n]; [lia|].
  change (Cursor.Pull (S n) ?s ?f ?c) with (Filter.Pull (S n) s f c).
  cbn [Filter.Pull Filter.MakeCursor Filter.input_cursor_ Filter.self_].
  rewrite (bind_Ok _ _ _ _ _ (Hpull n ltac:(lia))). cbn iota beta.
  cbn [Filter.self_].
  rewrite (bind_Ok _ _ _ _ _ (EvaluateFilter_value _ _ _ Hvalue)).
  apply Hr. lia.
Qed.

(** [Filter] lets through, in the order of the input, exactly the rows
    on which its expression is true; a row on which it is null or false
    is dropped.  The expression is evaluated once on every row of the
    input, with the old graph view. *)
Theorem Filter_rows (step : Frame -> Context Db -> Frame * Context Db)
  (input : TInput) frame context rows input' frame' context' :
  feeds (through_filter step) input frame context rows input' frame'
        context' ->
  Forall (fun row => filter_value (fst row) (snd row) <> None) rows ->
  feeds step (Filter.MakeCursor self input) frame context
        (map (fun row => (fst row, evaluated expression (snd row)))
             (List.filter passes rows))
        (Filter.MakeCursor self input') frame' context'.
Proof.
  induction 1 as [s f c s' f' c' [N Hdone]
                 |s f c s1 f1 c1 rows s' f' c' Hrow Hrest IH]; intros Hbool.
  - apply feeds_done. exists (S N). intros n Hn. destruct n as [|n]; [lia|].
    change (Cursor.Pull (S n) ?s ?f ?c) with (Filter.Pull (S n) s f c).
    cbn [Filter.Pull Filter.MakeCursor Filter.input_cursor_ Filter.self_].
    rewrite (bind_Ok _ _ _ _ _ (Hdone n ltac:(lia))). reflexivity.
  - inversion Hbool as [|row rows' Hfirst Hothers]; subst.
    cbn [fst snd] in Hfirst. specialize (IH Hothers).
    unfold through_filter in IH. cbn [List.filter].
    destruct (filter_value f1 c1) as [[|]|] eqn:Hvalue; [| |contradiction].
    + assert (Hpasses : passes (f1, c1) = true)
        by (unfold passes; cbn [fst snd]; rewrite Hvalue; reflexivity).
      rewrite Hpasses in *. cbn [map fst snd].
      eapply feeds_row; [|exact IH]. apply Filter_keeps; assumption.
    + assert (Hpasses : passes (f1, c1) = false)
        by (unfold passes; cbn [fst snd]; rewrite Hvalue; reflexivity).
      rewrite Hpasses in *. cbn [fst snd] in IH.
      eapply feeds_head; [|exact IH].
      intros r. apply (Filter_drops s f c s1 f1 c1 r Hrow Hvalue).
Qed.

(** A value of the expression that is neither a boolean nor null is an
    error of the pull, named after the type of the value. *)
Theorem Filter_type_error (input : TInput) frame context input1 frame1
  context1 value :
  pulls input frame context (Ok (true, input1, frame1) context1) ->
  expr_eval expression OLD frame1 (db_accessor_ context1) = inr value ->
  type value <> TNull -> type value <> TBool ->
  pulls (Filter.MakeCursor self input) frame context
        (Throw (QueryRuntimeException
                  ("Filter expression must be a bool or null, but got " ++
                   Type_name (type value) ++ "."))
               (evaluated expression context1)).
Proof.
  intros [N Hpull] Hvalue Hnull Hbool. exists (S N). intros n Hn.
  destruct n as [|n]; [lia|].
  change (Cursor.Pull (S n) ?s ?f ?c) with (Filter.Pull (S n) s f c).
  cbn [Filter.Pull Filter.MakeCursor Filter.input_cursor_ Filter.self_].
  rewrite (bind_Ok _ _ _ _ _ (Hpull n ltac:(lia))). cbn iota beta.
  cbn [Filter.self_]. apply bind_Throw. unfold EvaluateFilter.
  rewrite (bind_Ok _ _ _ _ _ (Accept_Ok _ _ _ _ _ Hvalue)).
  destruct value; try reflexivity; contradiction.
Qed.

End FilterRows.

Section Yields.
Context {Db T : Type} `{!Cursor.Cursor Db T}.

(** The cursor produces the rows, pulled as for [feeds], and is left
    where the last row left it. *)
Inductive yields (step : Frame -> Context Db -> Frame * Context Db)
  : T -> Frame -> Context Db -> list (Frame * Context Db) ->
    T -> Frame -> Context Db -> Prop :=
| yields_nil cursor frame context :
    yields step cursor frame context [] cursor frame context
| yields_row cursor frame context cursor1 frame1 context1 rows
             cursor' frame' context' :
    pulls cursor frame context (Ok (true, cursor1, frame1) context1) ->
    yields step cursor1 (fst (step frame1 context1))
           (snd (step frame1 context1)) rows cursor' frame' context' ->
    yields step cursor frame context ((frame1, context1) :: rows)
           cursor' frame' context'.

Lemma yields_feeds step (cursor : T) frame context rows cursor1 frame1
  context1 rows' cursor' frame' context' :
  yields step cursor frame context rows cursor1 frame1 context1 ->
  feeds step cursor1 frame1 context1 rows' cursor' frame' context' ->
  feeds step cursor frame context (rows ++ rows') cursor' frame' context'.
Proof.
  induction 1 as [|s f c s1 f1 c1 rows s2 f2 c2 Hrow _ IH]; intros Hfeeds.
  - exact Hfeeds.
  - cbn [app]. eapply feeds_row; [exact Hrow|]. apply IH, Hfeeds.
Qed.

End Yields.

(** The puller that hands frame and context back as they are. *)
Definition hand_back {Db : Type} (frame : Frame) (context : Context Db)
  : Frame * Context Db := (frame, context).

Lemma hand_back_calm {Db : Type} `{!GraphDbAccessor Db} frame
  (context : Context Db) :
  calm context -> calm (snd (hand_back frame context)).
Proof. intros Hcalm. exact Hcalm. Qed.

(** ** Unwind *)

Section UnwindRows.
Context {Db : Type} `{!GraphDbAccessor Db}.
Context {TInput : Type} `{!Cursor.Cursor Db TInput}.
Variable self : @Unwind.Unwind Db.
Variable step : Frame -> Context Db -> Frame * Context Db.

Local Abbreviation input_expression := (Unwind.input_expression_ self).
Local Abbreviation output_symbol := (Unwind.output_symbol_ self).

(** The rows for the values of one list, and the frame and context in
    which the next row of the input is asked for. *)
Fixpoint unwound (values : list TypedValue) (frame : Frame)
  (context : Context Db)
  : list (Frame * Context Db) * (Frame * Context Db) :=
  match values with
  | [] => ([], (frame, context))
  | value :: rest =>
      let row := (frame_set output_symbol value frame, context) in
      let next := step (fst row) (snd row) in
      let '(rows, last) := unwound rest (fst next) (snd next) in
      (row :: rows, last)
  end.

(** The list the expression gives on a row. *)
Definition list_value (frame : Frame) (context : Context Db)
  : option (list TypedValue) :=
  match expr_eval input_expression AS_IS frame (db_accessor_ context) with
  | inr (List values) => Some values
  | _ => None
  end.

(** What the input sees between two of its rows. *)
Definition through_unwind (frame : Frame) (context : Context Db)
  : Frame * Context Db :=
  match list_value frame context with
  | Some values => snd (unwound values frame (evaluated input_expression context))
  | None => (frame, context)
  end.

Definition unwound_rows (row : Frame * Context Db)
  : list (Frame * Context Db) :=
  match list_value (fst row) (snd row) with
  | Some values =>
      fst (unwound values (fst row) (evaluated input_expression (snd row)))
  | None => []
  end.

(** The abort hint stays as it is through [step]. *)
Hypothesis Hstep :
  forall frame context, calm context -> calm (snd (step frame context)).

Lemma unwound_calm values :
  forall frame context,
    calm context -> calm (snd (snd (unwound values frame context))).
Proof.
  induction values as [|value rest IH]; intros frame context Hcalm.
  - exact Hcalm.
  - cbn [unwound].
    destruct (unwound rest _ _) as [rows last] eqn:Hrest. cbn [snd].
    specialize (IH (fst (step (frame_set output_symbol value frame) context))
                   (snd (step (frame_set output_symbol value frame) context))
                   (Hstep _ _ Hcalm)).
    cbn [fst snd] in Hrest. rewrite Hrest in IH. exact IH.
Qed.

(** The values still ahead of the iterator come out one per pull, in
    their order, at the output symbol. *)
Lemma Unwind_elements (input : TInput) all values :
  forall frame context,
  calm context ->
  yields step (Unwind.mkUnwindCursor self input all values) frame context
         (fst (unwound values frame context))
         (Unwind.mkUnwindCursor self input all [])
         (fst (snd (unwound values frame context)))
         (snd (snd (unwound values frame context))).
Proof.
  induction values as [|value rest IH]; intros frame context Hcalm.
  - apply yields_nil.
  - cbn [unwound].
    specialize (IH (fst (step (frame_set output_symbol value frame) context))
                   (snd (step (frame_set output_symbol value frame) context))
                   (Hstep _ _ Hcalm)).
    cbn [fst snd].
    destruct (unwound rest _ _) as [rows last]. cbn [fst snd] in *.
    eapply yields_row; [|exact IH].
    exists 1%nat. intros n Hn. destruct n as [|n]; [lia|].
    change (Cursor.Pull (S n) ?s ?f ?c) with (Unwind.Pull (S n) s f c).
    cbn [Unwind.Pull Unwind.input_value_it_].
    rewrite (bind_Ok _ _ _ _ _ (check_abort_calm _ Hcalm)). reflexivity.
Qed.

Lemma calm_evaluated expression (context : Context Db) :
  calm context -> calm (evaluated expression context).
Proof. intros Hcalm. exact Hcalm. Qed.

(** [Unwind] produces, for every row of its input in turn, one row per
    element of the list its expression gives on that row, in the order
    of the list, the element at the output symbol; a row with an empty
    list gives no row.  The expression is evaluated once per row of the
    input. *)
Theorem Unwind_rows (input : TInput) frame context rows input' frame'
  context' :
  feeds through_unwind input frame context rows input' frame' context' ->
  Forall (fun row => list_value (fst row) (snd row) <> None) rows ->
  Forall (fun row => calm (snd row)) rows ->
  calm context ->
  forall all,
  exists all',
    feeds step (Unwind.mkUnwindCursor self input all []) frame context
          (concat (map unwound_rows rows))
          (Unwind.mkUnwindCursor self input' all' []) frame' context'.
Proof.
  induction 1 as [s f c s' f' c' [N Hdone]
                 |s f c s1 f1 c1 rows s' f' c' [N Hrow] Hrest IH];
    intros Hlists Hcalms Hcalm all.
  - exists all. apply feeds_done. exists (S N). intros n Hn.
    destruct n as [|n]; [lia|].
    change (Cursor.Pull (S n) ?s ?f ?c) with (Unwind.Pull (S n) s f c).
    cbn [Unwind.Pull Unwind.input_value_it_ Unwind.input_cursor_].
    rewrite (bind_Ok _ _ _ _ _ (check_abort_calm _ Hcalm)).
    rewrite (bind_Ok _ _ _ _ _ (Hdone n ltac:(lia))). reflexivity.
  - inversion Hlists as [|row rows' Hlist Hlists']; subst.
    inversion Hcalms as [|row rows' Hcalm1 Hcalms']; subst.
    cbn [fst snd] in Hlist, Hcalm1.
    unfold through_unwind in IH. cbn [map concat].
    unfold unwound_rows at 1. cbn [fst snd].
    destruct (list_value f1 c1) as [values|] eqn:Hvalues; [|contradiction].
    assert (Heval :
      expr_eval input_expression AS_IS f1 (db_accessor_ c1) =
      inr (List values)).
    { unfold list_value in Hvalues.
      destruct (expr_eval _ _ _ _) as [|[]]; try discriminate.
      injection Hvalues as ->. reflexivity. }
    destruct values as [|value rest].
    + cbn [unwound fst snd app] in *.
      destruct (IH Hlists' Hcalms' Hcalm1 []) as [all' IH'].
      exists all'. eapply feeds_head; [|exact IH'].
      intros r [Nr Hr]. exists (S (Nat.max N Nr)). intros n Hn.
      destruct n as [|n]; [lia|].
      change (Cursor.Pull (S n) ?s ?f ?c) with (Unwind.Pull (S n) s f c).
      cbn [Unwind.Pull Unwind.input_value_it_ Unwind.input_cursor_].
      rewrite (bind_Ok _ _ _ _ _ (check_abort_calm _ Hcalm)).
      rewrite (bind_Ok _ _ _ _ _ (Hrow n ltac:(lia))). cbn iota beta.
      cbn [negb Unwind.self_].
      rewrite (bind_Ok _ _ _ _ _ (Accept_Ok _ _ _ _ _ Heval)).
      apply Hr. lia.
    + cbn [unwound fst snd] in *.
      pose proof (Unwind_elements s1 (value :: rest) rest
                    (fst (step (frame_set output_symbol value f1)
                               (evaluated input_expression c1)))
                    (snd (step (frame_set output_symbol value f1)
                               (evaluated input_expression c1)))
                    (Hstep _ _ (calm_evaluated _ _ Hcalm1))) as Helements.
      pose proof (unwound_calm rest
                    (fst (step (frame_set output_symbol value f1)
                               (evaluated input_expression c1)))
                    (snd (step (frame_set output_symbol value f1)
                               (evaluated input_expression c1)))
                    (Hstep _ _ (calm_evaluated _ _ Hcalm1))) as Hlast.
      destruct (unwound rest _ _) as [rest_rows last]. cbn [fst snd] in *.
      destruct (IH Hlists' Hcalms' Hlast (value :: rest)) as [all' IH'].
      exists all'. cbn [app].
      eapply feeds_row.
      * exists (S N). intros n Hn. destruct n as [|n]; [lia|].
        change (Cursor.Pull (S n) ?s ?f ?c) with (Unwind.Pull (S n) s f c).
        cbn [Unwind.Pull Unwind.input_value_it_ Unwind.input_cursor_].
        rewrite (bind_Ok _ _ _ _ _ (check_abort_calm _ Hcalm)).
        rewrite (bind_Ok _ _ _ _ _ (Hrow n ltac:(lia))). cbn iota beta.
        cbn [negb Unwind.self_].
        rewrite (bind_Ok _ _ _ _ _ (Accept_Ok _ _ _ _ _ Heval)).
        reflexivity.
      * eapply yields_feeds; [exact Helements|exact IH'].
Qed.

(** A value of the expression that is not a list is an error of the
    pull, named after the type of the value. *)
Theorem Unwind_type_error (input : TInput) all frame context input1 frame1
  context1 value :
  calm context ->
  pulls input frame context (Ok (true, input1, frame1) context1) ->
  expr_eval input_expression AS_IS frame1 (db_accessor_ context1) =
    inr value ->
  type value <> TList ->
  pulls (Unwind.mkUnwindCursor self input all []) frame context
        (Throw (QueryRuntimeException
                  ("UNWIND only accepts list values, got '" ++
                   Type_name (type value) ++ "'"))
               (evaluated input_expression context1)).
Proof.
  intros Hcalm [N Hrow] Heval Htype. exists (S N). intros n Hn.
  destruct n as [|n]; [lia|].
  change (Cursor.Pull (S n) ?s ?f ?c) with (Unwind.Pull (S n) s f c).
  cbn [Unwind.Pull Unwind.input_value_it_ Unwind.input_cursor_].
  rewrite (bind_Ok _ _ _ _ _ (check_abort_calm _ Hcalm)).
  rewrite (bind_Ok _ _ _ _ _ (Hrow n ltac:(lia))). cbn iota beta.
  cbn [negb Unwind.self_].
  rewrite (bind_Ok _ _ _ _ _ (Accept_Ok _ _ _ _ _ Heval)).
  destruct value; try reflexivity. contradiction Htype. reflexivity.
Qed.

End UnwindRows.

(** ** An input for the examples

    An [Unwind] over an exhausted [Once], with its iterator at the start
    of the list: it produces the values of the list and is exhausted. *)

Section Replay.
Context {Db : Type} `{!GraphDbAccessor Db}.
Variable self : @Unwind.Unwind Db.
Variable step : Frame -> Context Db -> Frame * Context Db.
Hypothesis Hstep :
  forall frame context, calm context -> calm (snd (step frame context)).

Definition replay (values : list TypedValue)
  : @Unwind.UnwindCursor Db Once.OnceCursor :=
  Unwind.mkUnwindCursor self (Once.mkOnceCursor true) values values.

Lemma replay_rest all values frame (context : Context Db) :
  calm context ->
  feeds step (Unwind.mkUnwindCursor self (Once.mkOnceCursor true) all values)
        frame context
        (fst (unwound self step values frame context))
        (Unwind.mkUnwindCursor self (Once.mkOnceCursor true) all [])
        (fst (snd (unwound self step values frame context)))
        (snd (snd (unwound self step values frame context))).
Proof.
  intros Hcalm.
  rewrite <- (app_nil_r (fst (unwound self step values frame context))).
  eapply yields_feeds.
  - apply (Unwind_elements self step Hstep); exact Hcalm.
  - apply feeds_done. exists 1%nat. intros n Hn.
    destruct n as [|n]; [lia|].
    change (Cursor.Pull (S n) ?s ?f ?c) with (Unwind.Pull (S n) s f c).
    cbn [Unwind.Pull Unwind.input_value_it_ Unwind.input_cursor_].
    rewrite (bind_Ok _ _ _ _ _
               (check_abort_calm _ (unwound_calm self step Hstep values
                                                 frame context Hcalm))).
    reflexivity.
Qed.

Lemma replay_feeds values frame (context : Context Db) :
  calm context ->
  feeds step (replay values) frame context
        (fst (unwound self step values frame context))
        (Unwind.mkUnwindCursor self (Once.mkOnceCursor true) values [])
        (fst (snd (unwound self step values frame context)))
        (snd (snd (unwound self step values frame context))).
Proof. apply replay_rest. Qed.

(** The values ahead of the iterator come out one per pull, whatever the
    input is. *)
Lemma replay_prefix {TInput : Type} `{!Cursor.Cursor Db TInput}
  (input : TInput) all prefix rest :
  forall frame (context : Context Db),
  calm context ->
  yields step (Unwind.mkUnwindCursor self input all (prefix ++ rest)) frame
         context
         (fst (unwound self step prefix frame context))
         (Unwind.mkUnwindCursor self input all rest)
         (fst (snd (unwound self step prefix frame context)))
         (snd (snd (unwound self step prefix frame context))).
Proof.
  induction prefix as [|value prefix IH]; intros frame context Hcalm.
  - apply yields_nil.
  - cbn [unwound app].
    specialize (IH (fst (step (frame_set (Unwind.output_symbol_ self) value
                                         frame) context))
                   (snd (step (frame_set (Unwind.output_symbol_ self) value
                                         frame) context))
                   (Hstep _ _ Hcalm)).
    cbn [fst snd].
    destruct (unwound self step prefix _ _) as [rows last].
    cbn [fst snd] in *.
    eapply yields_row; [|exact IH].
    exists 1%nat. intros n Hn. destruct n as [|n]; [lia|].
    change (Cursor.Pull (S n) ?s ?f ?c) with (Unwind.Pull (S n) s f c).
    cbn [Unwind.Pull Unwind.input_value_it_].
    rewrite (bind_Ok _ _ _ _ _ (check_abort_calm _ Hcalm)). reflexivity.
Qed.

End Replay.

Lemma through_filter_calm {Db : Type} `{!GraphDbAccessor Db}
  (self : @Filter.Filter Db) step :
  (forall frame context, calm context -> calm (snd (step frame context))) ->
  forall frame context,
    calm context -> calm (snd (through_filter self step frame context)).
Proof.
  intros Hstep frame context Hcalm. unfold through_filter.
  destruct (passes self _); [apply Hstep|]; exact Hcalm.
Qed.

Lemma through_unwind_calm {Db : Type} `{!GraphDbAccessor Db}
  (self : @Unwind.Unwind Db) step :
  (forall frame context, calm context -> calm (snd (step frame context))) ->
  forall frame context,
    calm context -> calm (snd (through_unwind self step frame context)).
Proof.
  intros Hstep frame context Hcalm. unfold through_unwind.
  destruct (list_value self _ _); [|exact Hcalm].
  apply (unwound_calm self step Hstep). exact Hcalm.
Qed.

(** [Filter_rows] at a concrete input: of the rows with true, null,
    false, true at [x], the first and the last pass. *)
Lemma Filter_rows_witness :
  let x := mkSymbol "x" 0 in
  let self := Filter.mkFilter (Fixture.identifier x) in
  let source := Unwind.mkUnwind (Fixture.literal Null) x in
  let values := [Bool true; Null; Bool false; Bool true] in
  let start := Fixture.start Fixture.empty_graph in
  let seen k :=
    mkContext Fixture.empty_graph (repeat (Fixture.identifier x) k) [] [] in
  feeds hand_back (Filter.MakeCursor self (replay source values))
        [Null] start
        [([Bool true], seen 1%nat); ([Bool true], seen 4%nat)]
        (Filter.MakeCursor self
           (Unwind.mkUnwindCursor source (Once.mkOnceCursor true) values []))
        [Bool true] (seen 4%nat).
Proof.
  intros x self source values start seen.
  exact (Filter_rows self hand_back (replay source values) [Null] start
           _ _ _ _
           (replay_feeds source (through_filter self hand_back)
              (through_filter_calm self hand_back hand_back_calm)
              values [Null] start eq_refl)
           ltac:(repeat constructor; discriminate)).
Defined.

(** [Filter_type_error] at a concrete input: an integer at [x]. *)
Lemma Filter_type_error_witness :
  let x := mkSymbol "x" 0 in
  let self := Filter.mkFilter (Fixture.identifier x) in
  let source := Unwind.mkUnwind (Fixture.literal Null) x in
  let start := Fixture.start Fixture.empty_graph in
  pulls (Filter.MakeCursor self (replay source [Int 7])) [Null] start
        (Throw (QueryRuntimeException
                  "Filter expression must be a bool or null, but got Int.")
               (mkContext Fixture.empty_graph [Fixture.identifier x] [] [])).
Proof.
  intros x self source start.
  refine (Filter_type_error self (replay source [Int 7]) [Null] start
            (Unwind.mkUnwindCursor source (Once.mkOnceCursor true)
                                   [Int 7] [])
            [Int 7] start (Int 7) _ eq_refl _ _);
    [run_fuel 2%nat | discriminate | discriminate].
Defined.

(** [Unwind_rows] at a concrete input: the lists [1, 2], [] and [3] at
    [y] are unwound into 1, 2, 3 at [x]. *)
Lemma Unwind_rows_witness :
  let y := mkSymbol "y" 0 in
  let x := mkSymbol "x" 1 in
  let self := Unwind.mkUnwind (Fixture.identifier y) x in
  let source := Unwind.mkUnwind (Fixture.literal Null) y in
  let values := [List [Int 1; Int 2]; List []; List [Int 3]] in
  let start := Fixture.start Fixture.empty_graph in
  let seen k :=
    mkContext Fixture.empty_graph (repeat (Fixture.identifier y) k) [] [] in
  exists all',
    feeds hand_back
          (Unwind.mkUnwindCursor self (replay source values) [] [])
          [Null; Null] start
          [([List [Int 1; Int 2]; Int 1], seen 1%nat);
           ([List [Int 1; Int 2]; Int 2], seen 1%nat);
           ([List [Int 3]; Int 3], seen 3%nat)]
          (Unwind.mkUnwindCursor self
             (Unwind.mkUnwindCursor source (Once.mkOnceCursor true) values [])
             all' [])
          [List [Int 3]; Int 3] (seen 3%nat).
Proof.
  intros y x self source values start seen.
  exact (Unwind_rows self hand_back hand_back_calm
           (replay source values) [Null; Null] start _ _ _ _
           (replay_feeds source (through_unwind self hand_back)
              (through_unwind_calm self hand_back hand_back_calm)
              values [Null; Null] start eq_refl)
           ltac:(repeat constructor; discriminate)
           ltac:(repeat constructor)
           eq_refl []).
Defined.

(** [Unwind_type_error] at a concrete input: an integer at [y]. *)
Lemma Unwind_type_error_witness :
  let y := mkSymbol "y" 0 in
  let x := mkSymbol "x" 1 in
  let self := Unwind.mkUnwind (Fixture.identifier y) x in
  let source := Unwind.mkUnwind (Fixture.literal Null) y in
  let start := Fixture.start Fixture.empty_graph in
  pulls (Unwind.mkUnwindCursor self (replay source [Int 7]) [] [])
        [Null; Null] start
        (Throw (QueryRuntimeException
                  "UNWIND only accepts list values, got 'Int'")
               (mkContext Fixture.empty_graph [Fixture.identifier y] [] [])).
Proof.
  intros y x self source start.
  refine (Unwind_type_error self (replay source [Int 7]) []
            [Null; Null] start
            (Unwind.mkUnwindCursor source (Once.mkOnceCursor true)
                                   [Int 7] [])
            [Int 7; Null] start (Int 7) eq_refl _ eq_refl _);
    [run_fuel 2%nat | discriminate].
Defined.

(** ** Limit and Skip *)

Section LimitRows.
Context {Db : Type} `{!GraphDbAccessor Db}.
Context {TInput : Type} `{!Cursor.Cursor Db TInput}.
Variable self : @Limit.Limit Db.
Variable step : Frame -> Context Db -> Frame * Context Db.

Local Abbreviation bound := (Limit.expression_ self).

Lemma Limit_first_pull (input : TInput) frame context limit fuel :
  expr_eval bound AS_IS frame (db_accessor_ context) = inr (Int limit) ->
  0 <= limit ->
  Limit.Pull fuel (Limit.MakeCursor self input) frame context =
  Limit.Pull fuel (Limit.mkLimitCursor self input limit 0) frame
             (evaluated bound context).
Proof.
  intros Hvalue Hlimit.
  rewrite (Limit_Pull_known fuel (Limit.mkLimitCursor self input limit 0))
    by exact Hlimit.
  unfold Limit.Pull, Limit.MakeCursor, Limit.evaluate_limit.
  cbn [Limit.limit_ Limit.self_].
  change (-1 =? -1) with true. cbn iota.
  unfold bind at 1. unfold bind at 1.
  rewrite (Accept_Ok _ _ _ _ _ Hvalue).
  destruct (Z.ltb_spec limit 0) as [|_]; [lia|].
  unfold ret, Limit_Pull_with_bound.
  cbn [Limit.limit_ Limit.self_ Limit.input_cursor_ Limit.pulled_].
  destruct (limit <=? 0); [reflexivity|].
  unfold bind.
  destruct (Cursor.Pull fuel input frame (evaluated bound context))
    as [[[pulled input'] frame'] c'| |]; reflexivity.
Qed.

Lemma Limit_head (input : TInput) frame context limit r :
  expr_eval bound AS_IS frame (db_accessor_ context) = inr (Int limit) ->
  0 <= limit ->
  pulls (Limit.mkLimitCursor self input limit 0) frame
        (evaluated bound context) r ->
  pulls (Limit.MakeCursor self input) frame context r.
Proof.
  intros Hvalue Hlimit [N Hpull]. exists N. intros n Hn.
  change (Cursor.Pull n ?s ?f ?c) with (Limit.Pull n s f c).
  rewrite (Limit_first_pull input frame context limit n Hvalue Hlimit).
  apply Hpull, Hn.
Qed.

Lemma Limit_pull_below (input : TInput) frame context limit pulled r :
  0 <= pulled < limit ->
  pulls input frame context r ->
  pulls (Limit.mkLimitCursor self input limit pulled) frame context
        match r with
        | Ok (more, input', frame') context' =>
            Ok (more,
                Limit.mkLimitCursor self input' limit (pulled + 1), frame')
               context'
        | Throw e context' => Throw e context'
        | OutOfFuel => OutOfFuel
        end.
Proof.
  intros Hbelow [N Hpull]. exists N. intros n Hn.
  change (Cursor.Pull n ?s ?f ?c) with (Limit.Pull n s f c).
  rewrite Limit_Pull_known by (cbn [Limit.limit_]; lia).
  unfold Limit_Pull_with_bound.
  cbn [Limit.limit_ Limit.self_ Limit.input_cursor_ Limit.pulled_].
  destruct (Z.leb_spec limit pulled) as [|_]; [lia|].
  rewrite (Hpull n Hn). destruct r as [[[more input'] frame'] context'| |];
    reflexivity.
Qed.

Lemma Limit_pull_reached (input : TInput) frame context limit pulled :
  0 <= limit <= pulled ->
  pulls (Limit.mkLimitCursor self input limit pulled) frame context
        (Ok (false, Limit.mkLimitCursor self input limit (pulled + 1), frame)
            context).
Proof.
  intros Hreached. exists 0%nat. intros n _.
  change (Cursor.Pull n ?s ?f ?c) with (Limit.Pull n s f c).
  rewrite Limit_Pull_known by (cbn [Limit.limit_]; lia).
  unfold Limit_Pull_with_bound.
  cbn [Limit.limit_ Limit.self_ Limit.input_cursor_ Limit.pulled_].
  destruct (Z.leb_spec limit pulled) as [_|]; [reflexivity|lia].
Qed.

Lemma Limit_yields (input : TInput) frame context rows input1 frame1
  context1 limit pulled :
  yields step input frame context rows input1 frame1 context1 ->
  0 <= pulled -> pulled + Z.of_nat (length rows) <= limit ->
  yields step (Limit.mkLimitCursor self input limit pulled) frame context
         rows
         (Limit.mkLimitCursor self input1 limit
                              (pulled + Z.of_nat (length rows)))
         frame1 context1.
Proof.
  intros Hyields. revert pulled.
  induction Hyields as [s f c|s f c s1 f1 c1 rows s2 f2 c2 Hrow _ IH];
    intros pulled Hpulled Hroom.
  - cbn [length Z.of_nat]. rewrite Z.add_0_r. apply yields_nil.
  - cbn [length] in *. rewrite Nat2Z.inj_succ in *.
    eapply yields_row.
    + apply (Limit_pull_below s f c limit pulled _ ltac:(lia) Hrow).
    + replace (pulled + Z.succ (Z.of_nat (length rows)))
        with (pulled + 1 + Z.of_nat (length rows)) by lia.
      apply IH; lia.
Qed.

(** [Limit] with the bound [limit] lets the first [limit] rows of its
    input through, and then reports exhaustion without pulling its input
    again: the input is left where the last of these rows left it. *)
Theorem Limit_rows (input : TInput) frame context rows input1 frame1
  context1 limit :
  expr_eval bound AS_IS frame (db_accessor_ context) = inr (Int limit) ->
  yields step input frame (evaluated bound context) rows input1 frame1
         context1 ->
  Z.of_nat (length rows) = limit ->
  feeds step (Limit.MakeCursor self input) frame context rows
        (Limit.mkLimitCursor self input1 limit (limit + 1)) frame1 context1.
Proof.
  intros Hvalue Hyields Hlength.
  assert (Hlimit : 0 <= limit) by lia.
  eapply feeds_head;
    [intros r; apply (Limit_head input frame context limit r Hvalue Hlimit)|].
  rewrite <- (app_nil_r rows).
  eapply yields_feeds.
  - apply (Limit_yields _ _ _ _ _ _ _ limit 0 Hyields); lia.
  - apply feeds_done. rewrite Z.add_0_l, Hlength.
    apply Limit_pull_reached. lia.
Qed.

(** When the input has fewer rows than the bound, [Limit] lets all of
    them through and is exhausted when its input is. *)
Theorem Limit_short (input : TInput) frame context rows input' frame'
  context' limit :
  expr_eval bound AS_IS frame (db_accessor_ context) = inr (Int limit) ->
  feeds step input frame (evaluated bound context) rows input' frame'
        context' ->
  Z.of_nat (length rows) < limit ->
  feeds step (Limit.MakeCursor self input) frame context rows
        (Limit.mkLimitCursor self input' limit
                             (Z.of_nat (length rows) + 1))
        frame' context'.
Proof.
  intros Hvalue Hfeeds Hlength.
  assert (Hlimit : 0 <= limit) by lia.
  eapply feeds_head;
    [intros r; apply (Limit_head input frame context limit r Hvalue Hlimit)|].
  assert (Hgeneral : forall pulled, 0 <= pulled ->
            pulled + Z.of_nat (length rows) < limit ->
            feeds step (Limit.mkLimitCursor self input limit pulled) frame
                  (evaluated bound context) rows
                  (Limit.mkLimitCursor self input' limit
                     (pulled + Z.of_nat (length rows) + 1))
                  frame' context').
  { clear Hvalue Hlength.
    induction Hfeeds as [s f c s' f' c' Hdone
                        |s f c s1 f1 c1 rows s' f' c' Hrow _ IH];
      intros pulled Hpulled Hroom; cbn [length] in *.
    - cbn [Z.of_nat]. rewrite Z.add_0_r. apply feeds_done.
      apply (Limit_pull_below s f c limit pulled _ ltac:(lia) Hdone).
    - rewrite Nat2Z.inj_succ in *. eapply feeds_row.
      + apply (Limit_pull_below s f c limit pulled _ ltac:(lia) Hrow).
      + replace (pulled + Z.succ (Z.of_nat (length rows)) + 1)
          with (pulled + 1 + Z.of_nat (length rows) + 1) by lia.
        apply IH; lia. }
  apply (Hgeneral 0); lia.
Qed.

End LimitRows.

Section SkipRows.
Context {Db : Type} `{!GraphDbAccessor Db}.
Context {TInput : Type} `{!Cursor.Cursor Db TInput}.
Variable self : @Skip.Skip Db.
Variable step : Frame -> Context Db -> Frame * Context Db.

Local Abbreviation bound := (Skip.expression_ self).

Lemma Skip_pull_skips (input : TInput) frame context input1 frame1 context1
  to_skip skipped r :
  0 <= skipped < to_skip ->
  pulls input frame context (Ok (true, input1, frame1) context1) ->
  pulls (Skip.mkSkipCursor self input1 to_skip (skipped + 1)) frame1
        context1 r ->
  pulls (Skip.mkSkipCursor self input to_skip skipped) frame context r.
Proof.
  intros Hbelow [N Hpull] [Nr Hr]. exists (S (Nat.max N Nr)). intros n Hn.
  destruct n as [|n]; [lia|].
  change (Cursor.Pull (S n) ?s ?f ?c) with (Skip.Pull (S n) s f c).
  rewrite Skip_Pull_known by (cbn [Skip.to_skip_]; lia).
  unfold Skip_Pull_with_bound.
  cbn [Skip.to_skip_ Skip.self_ Skip.input_cursor_ Skip.skipped_].
  rewrite (Hpull n ltac:(lia)). cbn zeta.
  destruct (Z.ltb_spec skipped to_skip) as [_|]; [|lia].
  apply Hr. lia.
Qed.

Lemma Skip_pull_passes (input : TInput) frame context input1 frame1 context1
  to_skip skipped :
  0 <= to_skip <= skipped ->
  pulls input frame context (Ok (true, input1, frame1) context1) ->
  pulls (Skip.mkSkipCursor self input to_skip skipped) frame context
        (Ok (true, Skip.mkSkipCursor self input1 to_skip (skipped + 1),
             frame1) context1).
Proof.
  intros Hreached [N Hpull]. exists (S N). intros n Hn.
  destruct n as [|n]; [lia|].
  change (Cursor.Pull (S n) ?s ?f ?c) with (Skip.Pull (S n) s f c).
  rewrite Skip_Pull_known by (cbn [Skip.to_skip_]; lia).
  unfold Skip_Pull_with_bound.
  cbn [Skip.to_skip_ Skip.self_ Skip.input_cursor_ Skip.skipped_].
  rewrite (Hpull n ltac:(lia)). cbn zeta.
  destruct (Z.ltb_spec skipped to_skip) as [|_]; [lia|reflexivity].
Qed.

Lemma Skip_pull_done (input : TInput) frame context input' frame' context'
  to_skip skipped :
  0 <= to_skip ->
  pulls input frame context (Ok (false, input', frame') context') ->
  pulls (Skip.mkSkipCursor self input to_skip skipped) frame context
        (Ok (false, Skip.mkSkipCursor self input' to_skip skipped, frame')
            context').
Proof.
  intros Hknown [N Hpull]. exists (S N). intros n Hn.
  destruct n as [|n]; [lia|].
  change (Cursor.Pull (S n) ?s ?f ?c) with (Skip.Pull (S n) s f c).
  rewrite Skip_Pull_known by (cbn [Skip.to_skip_]; lia).
  unfold Skip_Pull_with_bound.
  cbn [Skip.to_skip_ Skip.self_ Skip.input_cursor_ Skip.skipped_].
  rewrite (Hpull n ltac:(lia)). reflexivity.
Qed.

(** The first pull of a [Skip] whose input has a row on which the bound
    is [to_skip], at least one: the row is dropped and the pull goes on
    with the bound known. *)
Lemma Skip_head (input : TInput) frame context input0 frame0 context0
  to_skip r :
  pulls input frame context (Ok (true, input0, frame0) context0) ->
  expr_eval bound AS_IS frame0 (db_accessor_ context0) = inr (Int to_skip) ->
  1 <= to_skip ->
  pulls (Skip.mkSkipCursor self input0 to_skip 1) frame0
        (evaluated bound context0) r ->
  pulls (Skip.MakeCursor self input) frame context r.
Proof.
  intros [N Hpull] Hvalue Hpositive [Nr Hr].
  exists (S (Nat.max N Nr)). intros n Hn. destruct n as [|n]; [lia|].
  change (Cursor.Pull (S n) ?s ?f ?c) with (Skip.Pull (S n) s f c).
  unfold Skip.MakeCursor. cbn [Skip.Pull Skip.input_cursor_].
  rewrite (bind_Ok _ _ _ _ _ (Hpull n ltac:(lia))). cbn iota beta.
  unfold Skip.evaluate_to_skip.
  cbn [Skip.to_skip_ Skip.self_ Skip.skipped_].
  change (-1 =? -1) with true. cbn iota.
  unfold bind at 1. unfold bind at 1.
  rewrite (Accept_Ok _ _ _ _ _ Hvalue).
  destruct (Z.ltb_spec to_skip 0) as [|_]; [lia|].
  unfold ret. cbn zeta. change (0 + 1) with 1.
  destruct (Z.ltb_spec 0 to_skip) as [_|]; [|lia].
  apply Hr. lia.
Qed.

Lemma Skip_drops (input : TInput) frame context dropped input1 frame1
  context1 to_skip skipped r :
  yields hand_back input frame context dropped input1 frame1 context1 ->
  0 <= skipped -> skipped + Z.of_nat (length dropped) <= to_skip ->
  pulls (Skip.mkSkipCursor self input1 to_skip
                           (skipped + Z.of_nat (length dropped)))
        frame1 context1 r ->
  pulls (Skip.mkSkipCursor self input to_skip skipped) frame context r.
Proof.
  intros Hyields. revert skipped.
  induction Hyields as [s f c|s f c s1 f1 c1 rows s2 f2 c2 Hrow _ IH];
    intros skipped Hskipped Hroom Hr; cbn [length] in *.
  - cbn [Z.of_nat] in Hr. rewrite Z.add_0_r in Hr. exact Hr.
  - rewrite Nat2Z.inj_succ in *.
    apply (Skip_pull_skips s f c s1 f1 c1 to_skip skipped r ltac:(lia) Hrow).
    apply IH; [lia|lia|].
    replace (skipped + 1 + Z.of_nat (length rows))
      with (skipped + Z.succ (Z.of_nat (length rows))) by lia.
    exact Hr.
Qed.

Lemma Skip_passes (input : TInput) frame context rows input' frame' context'
  to_skip skipped :
  feeds step input frame context rows input' frame' context' ->
  0 <= to_skip <= skipped ->
  feeds step (Skip.mkSkipCursor self input to_skip skipped) frame context
        rows
        (Skip.mkSkipCursor self input' to_skip
                           (skipped + Z.of_nat (length rows)))
        frame' context'.
Proof.
  intros Hfeeds. revert skipped.
  induction Hfeeds as [s f c s' f' c' Hdone
                      |s f c s1 f1 c1 rows s' f' c' Hrow _ IH];
    intros skipped Hreached; cbn [length].
  - cbn [Z.of_nat]. rewrite Z.add_0_r. apply feeds_done.
    apply Skip_pull_done; [lia|exact Hdone].
  - rewrite Nat2Z.inj_succ. eapply feeds_row.
    + apply Skip_pull_passes; [exact Hreached|exact Hrow].
    + replace (skipped + Z.succ (Z.of_nat (length rows)))
        with (skipped + 1 + Z.of_nat (length rows)) by lia.
      apply IH. lia.
Qed.

(** [Skip] evaluates its bound on the first row of its input; with the
    bound [to_skip], at least one, it drops the first [to_skip] rows,
    pulling them one after the other within its own first pull, and lets
    every later row through. *)
Theorem Skip_rows (input : TInput) frame context input0 frame0 context0
  dropped input1 frame1 context1 rows input' frame' context' to_skip :
  pulls input frame context (Ok (true, input0, frame0) context0) ->
  expr_eval bound AS_IS frame0 (db_accessor_ context0) = inr (Int to_skip) ->
  yields hand_back input0 frame0 (evaluated bound context0) dropped
         input1 frame1 context1 ->
  1 + Z.of_nat (length dropped) = to_skip ->
  feeds step input1 frame1 context1 rows input' frame' context' ->
  feeds step (Skip.MakeCursor self input) frame context rows
        (Skip.mkSkipCursor self input' to_skip
                           (to_skip + Z.of_nat (length rows)))
        frame' context'.
Proof.
  intros Hfirst Hvalue Hdropped Hlength Hrows.
  eapply feeds_head.
  - intros r Hr.
    apply (Skip_head input frame context input0 frame0 context0 to_skip r
             Hfirst Hvalue ltac:(lia)).
    apply (Skip_drops _ _ _ _ _ _ _ to_skip 1 r Hdropped); [lia|lia|].
    rewrite Hlength. exact Hr.
  - apply Skip_passes; [exact Hrows|lia].
Qed.

(** When the input has no more rows than the bound, [Skip] produces
    none. *)
Theorem Skip_short (input : TInput) frame context input0 frame0 context0
  rest input' frame' context' to_skip :
  pulls input frame context (Ok (true, input0, frame0) context0) ->
  expr_eval bound AS_IS frame0 (db_accessor_ context0) = inr (Int to_skip) ->
  feeds hand_back input0 frame0 (evaluated bound context0) rest
        input' frame' context' ->
  1 + Z.of_nat (length rest) <= to_skip ->
  feeds step (Skip.MakeCursor self input) frame context []
        (Skip.mkSkipCursor self input' to_skip
                           (1 + Z.of_nat (length rest)))
        frame' context'.
Proof.
  intros Hfirst Hvalue Hrest Hlength. apply feeds_done.
  apply (Skip_head input frame context input0 frame0 context0 to_skip _
           Hfirst Hvalue ltac:(lia)).
  assert (Hgeneral : forall skipped, 0 <= skipped ->
            skipped + Z.of_nat (length rest) <= to_skip ->
            pulls (Skip.mkSkipCursor self input0 to_skip skipped) frame0
                  (evaluated bound context0)
                  (Ok (false,
                       Skip.mkSkipCursor self input' to_skip
                         (skipped + Z.of_nat (length rest)), frame')
                      context')).
  { clear Hfirst Hvalue Hlength.
    induction Hrest as [s f c s' f' c' Hdone
                       |s f c s1 f1 c1 rows s' f' c' Hrow _ IH];
      intros skipped Hskipped Hroom; cbn [length] in *.
    - cbn [Z.of_nat]. rewrite Z.add_0_r.
      apply Skip_pull_done; [lia|exact Hdone].
    - rewrite Nat2Z.inj_succ in *.
      apply (Skip_pull_skips s f c s1 f1 c1 to_skip skipped _
               ltac:(lia) Hrow).
      replace (skipped + Z.succ (Z.of_nat (length rows)))
        with (skipped + 1 + Z.of_nat (length rows)) by lia.
      apply IH; lia. }
  apply (Hgeneral 1); lia.
Qed.

End SkipRows.

(** [Limit_rows] at a concrete input: of the rows 1, 2, 3 the bound 2
    lets 1 and 2 through, and the input still has its 3 ahead. *)
Lemma Limit_rows_witness :
  let x := mkSymbol "x" 0 in
  let bound := Fixture.literal (Int 2) in
  let self := Limit.mkLimit bound in
  let source := Unwind.mkUnwind (Fixture.literal Null) x in
  let values := [Int 1; Int 2; Int 3] in
  let context := mkContext Fixture.empty_graph [bound] [] [] in
  feeds hand_back (Limit.MakeCursor self (replay source values))
        [Null] (Fixture.start Fixture.empty_graph)
        [([Int 1], context); ([Int 2], context)]
        (Limit.mkLimitCursor self
           (Unwind.mkUnwindCursor source (Once.mkOnceCursor true) values
                                  [Int 3])
           2 3)
        [Int 2] context.
Proof.
  intros x bound self source values context.
  exact (Limit_rows self hand_back (replay source values) [Null]
           (Fixture.start Fixture.empty_graph) _ _ _ _ 2 eq_refl
           (replay_prefix source hand_back hand_back_calm
              (Once.mkOnceCursor true) values [Int 1; Int 2] [Int 3]
              [Null] context eq_refl)
           eq_refl).
Defined.

(** [Limit_short] at a concrete input: the bound 5 lets the rows 1, 2
    through. *)
Lemma Limit_short_witness :
  let x := mkSymbol "x" 0 in
  let bound := Fixture.literal (Int 5) in
  let self := Limit.mkLimit bound in
  let source := Unwind.mkUnwind (Fixture.literal Null) x in
  let values := [Int 1; Int 2] in
  let context := mkContext Fixture.empty_graph [bound] [] [] in
  feeds hand_back (Limit.MakeCursor self (replay source values))
        [Null] (Fixture.start Fixture.empty_graph)
        [([Int 1], context); ([Int 2], context)]
        (Limit.mkLimitCursor self
           (Unwind.mkUnwindCursor source (Once.mkOnceCursor true) values [])
           5 3)
        [Int 2] context.
Proof.
  intros x bound self source values context.
  exact (Limit_short self hand_back (replay source values) [Null]
           (Fixture.start Fixture.empty_graph) _ _ _ _ 5 eq_refl
           (replay_feeds source hand_back hand_back_calm values [Null]
              context eq_refl)
           eq_refl).
Defined.

(** [Skip_rows] at a concrete input: of the rows 1, 2, 3, 4 the bound 2
    lets 3 and 4 through. *)
Lemma Skip_rows_witness :
  let x := mkSymbol "x" 0 in
  let bound := Fixture.literal (Int 2) in
  let self := Skip.mkSkip bound in
  let source := Unwind.mkUnwind (Fixture.literal Null) x in
  let values := [Int 1; Int 2; Int 3; Int 4] in
  let at_ rest :=
    Unwind.mkUnwindCursor source (Once.mkOnceCursor true) values rest in
  let context := mkContext Fixture.empty_graph [bound] [] [] in
  feeds hand_back (Skip.MakeCursor self (replay source values))
        [Null] (Fixture.start Fixture.empty_graph)
        [([Int 3], context); ([Int 4], context)]
        (Skip.mkSkipCursor self (at_ []) 2 4)
        [Int 4] context.
Proof.
  intros x bound self source values at_ context.
  refine (Skip_rows self hand_back (replay source values) [Null]
            (Fixture.start Fixture.empty_graph)
            (at_ [Int 2; Int 3; Int 4]) [Int 1]
            (Fixture.start Fixture.empty_graph)
            _ _ _ _ _ _ _ _ 2 _ eq_refl
            (replay_prefix source hand_back hand_back_calm
               (Once.mkOnceCursor true) values [Int 2] [Int 3; Int 4]
               [Int 1] context eq_refl)
            eq_refl
            (replay_rest source hand_back hand_back_calm values
               [Int 3; Int 4] [Int 2] context eq_refl));
    run_fuel 2%nat.
Defined.

(** [Skip_short] at a concrete input: the bound 5 lets none of the rows
    1, 2, 3 through. *)
Lemma Skip_short_witness :
  let x := mkSymbol "x" 0 in
  let bound := Fixture.literal (Int 5) in
  let self := Skip.mkSkip bound in
  let source := Unwind.mkUnwind (Fixture.literal Null) x in
  let values := [Int 1; Int 2; Int 3] in
  let at_ rest :=
    Unwind.mkUnwindCursor source (Once.mkOnceCursor true) values rest in
  let context := mkContext Fixture.empty_graph [bound] [] [] in
  feeds hand_back (Skip.MakeCursor self (replay source values))
        [Null] (Fixture.start Fixture.empty_graph)
        []
        (Skip.mkSkipCursor self (at_ []) 5 3)
        [Int 3] context.
Proof.
  intros x bound self source values at_ context.
  refine (Skip_short self hand_back (replay source values) [Null]
            (Fixture.start Fixture.empty_graph)
            (at_ [Int 2; Int 3]) [Int 1]
            (Fixture.start Fixture.empty_graph)
            _ _ _ _ 5 _ eq_refl
            (replay_rest source hand_back hand_back_calm values
               [Int 2; Int 3] [Int 1] context eq_refl)
            _); [run_fuel 2%nat|vm_compute; discriminate].
Defined.

(** ** Optional *)

(** The frame with the symbols set to null, one after the other. *)
Definition nulled (symbols : list Symbol) (frame : Frame) : Frame :=
  fold_left (fun frame sym => frame_set sym Null frame) symbols frame.

Lemma frame_at_set_Null symbol other (frame : Frame) :
  frame_at frame symbol = Null \/ position other = position symbol ->
  frame_at (frame_set other Null frame) symbol = Null.
Proof.
  unfold frame_at, frame_set. intros Hnull.
  destruct (decide (position other = position symbol)) as [Hsame|Hother].
  - rewrite Hsame.
    destruct (decide (position symbol < length frame)%nat) as [Hin|Hout].
    + rewrite list_lookup_insert_eq by exact Hin. reflexivity.
    + rewrite (lookup_ge_None_2 (<[_ := _]> frame))
        by (rewrite length_insert; lia).
      reflexivity.
  - rewrite list_lookup_insert_ne by exact Hother.
    destruct Hnull as [Hnull|Hsame]; [exact Hnull|contradiction].
Qed.

Lemma frame_at_nulled_in symbols symbol :
  forall frame : Frame,
  frame_at frame symbol = Null \/ In (position symbol) (map position symbols) ->
  frame_at (nulled symbols frame) symbol = Null.
Proof.
  unfold nulled.
  induction symbols as [|other symbols IH]; intros frame Hnull; cbn [fold_left].
  - destruct Hnull as [Hnull|[]]. exact Hnull.
  - cbn [map In] in Hnull. apply IH.
    destruct Hnull as [Hnull|[Hsame|Hlater]].
    + left. apply frame_at_set_Null. left. exact Hnull.
    + left. apply frame_at_set_Null. right. exact Hsame.
    + right. exact Hlater.
Qed.

Lemma frame_at_nulled_out symbols symbol :
  forall frame : Frame,
  ~ In (position symbol) (map position symbols) ->
  frame_at (nulled symbols frame) symbol = frame_at frame symbol.
Proof.
  unfold nulled.
  induction symbols as [|other symbols IH]; intros frame Hout; cbn [fold_left].
  - reflexivity.
  - cbn [map In] in Hout. rewrite IH by tauto.
    unfold frame_at, frame_set. rewrite list_lookup_insert_ne by tauto.
    reflexivity.
Qed.

Section OptionalRows.
Context {Db : Type} `{!GraphDbAccessor Db}.
Context {TInput : Type} `{!Cursor.Cursor Db TInput}.
Context {TOptional : Type} `{!Cursor.Cursor Db TOptional}.
Variable self : Optional.Optional.

Local Abbreviation OptionalCursor :=
  (@Optional.OptionalCursor TInput TOptional).

(** An input row for which the optional branch, reset, has no row is
    not lost: [Optional] produces it once, every optional symbol null and
    every other slot as the branch left it, and pulls its input on the
    next pull. *)
Theorem Optional_null_row (input : TInput) (optional : TOptional) frame
  (context : Context Db) input1 frame1 context1 optional0 optional1 frame2
  context2 :
  pulls input frame context (Ok (true, input1, frame1) context1) ->
  Cursor.Reset optional = inr optional0 ->
  pulls optional0 frame1 context1 (Ok (false, optional1, frame2) context2) ->
  pulls (Optional.MakeCursor self input optional : OptionalCursor)
        frame context
        (Ok (true, Optional.mkOptionalCursor self input1 optional1 true,
             nulled (Optional.optional_symbols_ self) frame2) context2) /\
  (forall symbol,
     In (position symbol) (map position (Optional.optional_symbols_ self)) ->
     frame_at (nulled (Optional.optional_symbols_ self) frame2) symbol =
     Null) /\
  (forall symbol,
     ~ In (position symbol)
          (map position (Optional.optional_symbols_ self)) ->
     frame_at (nulled (Optional.optional_symbols_ self) frame2) symbol =
     frame_at frame2 symbol).
Proof.
  intros [N Hinput] Hreset [No Hoptional]. split; [|split].
  - exists (S (Nat.max N No)). intros n Hn. destruct n as [|n]; [lia|].
    change (Cursor.Pull (S n) ?s ?f ?c) with (Optional.Pull (S n) s f c).
    unfold Optional.MakeCursor.
    cbn [Optional.Pull Optional.pull_input_ Optional.input_cursor_
         Optional.optional_cursor_ Optional.self_].
    rewrite (bind_Ok _ _ _ _ _ (Hinput n ltac:(lia))). cbn iota beta.
    rewrite Hreset. unfold lift at 1. unfold bind at 1.
    unfold ret at 1. cbn iota beta. unfold Optional.pull_optional.
    cbn [Optional.pull_input_ Optional.input_cursor_
         Optional.optional_cursor_ Optional.self_].
    rewrite (bind_Ok _ _ _ _ _ (Hoptional n ltac:(lia))). reflexivity.
  - intros symbol Hin. apply frame_at_nulled_in. right. exact Hin.
  - intros symbol Hout. apply frame_at_nulled_out. exact Hout.
Qed.

Lemma Optional_forwards (step : Frame -> Context Db -> Frame * Context Db)
  (input : TInput) (optional : TOptional) frame (context : Context Db) rows
  optional1 frame1 context1 :
  yields step optional frame context rows optional1 frame1 context1 ->
  rows <> [] ->
  yields step
         (Optional.mkOptionalCursor self input optional false
          : OptionalCursor)
         frame context rows
         (Optional.mkOptionalCursor self input optional1 false)
         frame1 context1.
Proof.
  induction 1 as [|s f c s1 f1 c1 rows s2 f2 c2 [N Hrow] Hrest IH];
    intros Hsome; [contradiction|].
  eapply yields_row.
  - exists (S N). intros n Hn. destruct n as [|n]; [lia|].
    change (Cursor.Pull (S n) ?s ?f ?c) with (Optional.Pull (S n) s f c).
    cbn [Optional.Pull Optional.pull_input_]. unfold Optional.pull_optional.
    cbn [Optional.pull_input_ Optional.input_cursor_
         Optional.optional_cursor_ Optional.self_].
    rewrite (bind_Ok _ _ _ _ _ (Hrow n ltac:(lia))). reflexivity.
  - destruct rows as [|row rows].
    + inversion Hrest; subst. apply yields_nil.
    + apply IH. discriminate.
Qed.

(** The rows the optional branch, reset, produces for an input row are
    the rows of [Optional], as they are; the input is not pulled between
    them. *)
Theorem Optional_matches (step : Frame -> Context Db -> Frame * Context Db)
  (input : TInput) (optional : TOptional) frame (context : Context Db)
  input1 frame1 context1 optional0 rows optional1 frame2 context2 :
  pulls input frame context (Ok (true, input1, frame1) context1) ->
  Cursor.Reset optional = inr optional0 ->
  yields step optional0 frame1 context1 rows optional1 frame2 context2 ->
  rows <> [] ->
  yields step (Optional.MakeCursor self input optional : OptionalCursor)
         frame context rows
         (Optional.mkOptionalCursor self input1 optional1 false)
         frame2 context2.
Proof.
  intros [N Hinput] Hreset Hrows Hsome.
  inversion Hrows as [|s f c s1 f1 c1 rest s2 f2 c2 [No Hrow] Hrest];
    subst; [contradiction|].
  eapply yields_row.
  - exists (S (Nat.max N No)). intros n Hn. destruct n as [|n]; [lia|].
    change (Cursor.Pull (S n) ?s ?f ?c) with (Optional.Pull (S n) s f c).
    unfold Optional.MakeCursor.
    cbn [Optional.Pull Optional.pull_input_ Optional.input_cursor_
         Optional.optional_cursor_ Optional.self_].
    rewrite (bind_Ok _ _ _ _ _ (Hinput n ltac:(lia))). cbn iota beta.
    rewrite Hreset. unfold lift at 1. unfold bind at 1.
    unfold ret at 1. cbn iota beta. unfold Optional.pull_optional.
    cbn [Optional.pull_input_ Optional.input_cursor_
         Optional.optional_cursor_ Optional.self_].
    rewrite (bind_Ok _ _ _ _ _ (Hrow n ltac:(lia))). reflexivity.
  - destruct rest as [|row rest].
    + inversion Hrest; subst. apply yields_nil.
    + apply Optional_forwards; [exact Hrest|discriminate].
Qed.

End OptionalRows.

(** [Optional_null_row] at a concrete input: the branch is a filter on
    [false]; the row with 1 at [x] comes out with null at [y]. *)
Lemma Optional_null_row_witness :
  let x := mkSymbol "x" 0 in
  let y := mkSymbol "y" 1 in
  let self := Optional.mkOptional [y] in
  let source := Unwind.mkUnwind (Fixture.literal Null) x in
  let never := Filter.mkFilter (Fixture.literal (Bool false)) in
  let branch := Filter.MakeCursor never (@Once.MakeCursor) in
  pulls (Optional.MakeCursor self (replay source [Int 1]) branch)
        [Null; Int 7] (Fixture.start Fixture.empty_graph)
        (Ok (true,
             Optional.mkOptionalCursor self
               (Unwind.mkUnwindCursor source (Once.mkOnceCursor true)
                                      [Int 1] [])
               (Filter.mkFilterCursor never (Once.mkOnceCursor true)) true,
             [Int 1; Null])
            (mkContext Fixture.empty_graph [Fixture.literal (Bool false)]
                       [] [])).
Proof.
  intros x y self source never branch.
  refine (proj1 (Optional_null_row self (replay source [Int 1]) branch
                   [Null; Int 7] (Fixture.start Fixture.empty_graph)
                   (Unwind.mkUnwindCursor source (Once.mkOnceCursor true)
                                          [Int 1] [])
                   [Int 1; Int 7] (Fixture.start Fixture.empty_graph)
                   branch
                   (Filter.mkFilterCursor never (Once.mkOnceCursor true))
                   [Int 1; Int 7]
                   (mkContext Fixture.empty_graph
                              [Fixture.literal (Bool false)] [] [])
                   _ eq_refl _)); run_fuel 3%nat.
Defined.

(** [Optional_matches] at a concrete input: the branch unwinds the list
    [5, 6] at [y]; the row with 1 at [x] comes out twice. *)
Lemma Optional_matches_witness :
  let x := mkSymbol "x" 0 in
  let y := mkSymbol "y" 1 in
  let self := Optional.mkOptional [y] in
  let source := Unwind.mkUnwind (Fixture.literal Null) x in
  let list := Fixture.literal (List [Int 5; Int 6]) in
  let unwind := Unwind.mkUnwind list y in
  let branch := Unwind.MakeCursor unwind (@Once.MakeCursor) in
  let context := mkContext Fixture.empty_graph [list] [] [] in
  yields hand_back
         (Optional.MakeCursor self (replay source [Int 1]) branch)
         [Null; Null] (Fixture.start Fixture.empty_graph)
         [([Int 1; Int 5], context); ([Int 1; Int 6], context)]
         (Optional.mkOptionalCursor self
            (Unwind.mkUnwindCursor source (Once.mkOnceCursor true)
                                   [Int 1] [])
            (Unwind.mkUnwindCursor unwind (Once.mkOnceCursor true)
                                   [Int 5; Int 6] [])
            false)
         [Int 1; Int 6] context.
Proof.
  intros x y self source list unwind branch context.
  refine (Optional_matches self hand_back (replay source [Int 1]) branch
            [Null; Null] (Fixture.start Fixture.empty_graph)
            (Unwind.mkUnwindCursor source (Once.mkOnceCursor true)
                                   [Int 1] [])
            [Int 1; Null] (Fixture.start Fixture.empty_graph)
            branch _ _ _ _
            _ eq_refl
            (yields_row hand_back _ _ _
               (Unwind.mkUnwindCursor unwind (Once.mkOnceCursor true)
                                      [Int 5; Int 6] [Int 6])
               [Int 1; Int 5] context _ _ _ _ _
               (replay_prefix unwind hand_back hand_back_calm
                  (Once.mkOnceCursor true) [Int 5; Int 6] [Int 6] []
                  [Int 1; Int 5] context eq_refl))
            ltac:(discriminate)); run_fuel 3%nat.
Defined.

(** ** ExpandUniquenessFilter *)

(** Induction on a value through the elements of its lists. *)
Lemma TypedValue_list_ind (P : TypedValue -> Prop) :
  (forall v, type v <> TList -> P v) ->
  (forall elems, Forall P elems -> P (List elems)) ->
  forall v, P v.
Proof.
  intros Hleaf Hlist. fix IH 1.
  intros [| | | | |elems| | | |]; try (apply Hleaf; discriminate).
  apply Hlist. induction elems as [|elem elems IHelems]; constructor.
  - apply IH.
  - exact IHelems.
Qed.

Section ContainsSame.
Import ExpandUniquenessFilter.

(** The two ways the source reaches a comparison with a value that is
    not a list agree. *)
Lemma contains_single_ContainsSame single :
  type single <> TList ->
  forall a, ContainsSame_edge a single = contains_single single a.
Proof.
  intros Hsingle a.
  induction a as [a Hleaf|elems IH] using TypedValue_list_ind.
  - destruct a; try contradiction; cbn [ContainsSame_edge contains_single];
      destruct single; try reflexivity; contradiction.
  - cbn [ContainsSame_edge contains_single].
    induction IH as [|list_elem rest Hfirst _ IHrest]; [reflexivity|].
    cbn [any_of]. rewrite Hfirst.
    destruct (contains_single single list_elem) as [e|[|]]; try reflexivity.
    exact IHrest.
Qed.

(** The value is an edge, or a list of edges. *)
Inductive holds_edges : TypedValue -> list EdgeAccessor -> Prop :=
| holds_edge ea : holds_edges (Edge ea) [ea]
| holds_list edges : holds_edges (List (map Edge edges)) edges.

Lemma any_of_existsb {A} (f : A -> Exception + bool) (h : A -> bool) l :
  (forall x, In x l -> f x = inr (h x)) ->
  any_of f l = inr (existsb h l).
Proof.
  induction l as [|x l IH]; intros Hf; [reflexivity|].
  cbn [any_of existsb]. rewrite (Hf x (or_introl eq_refl)).
  destruct (h x); [reflexivity|]. apply IH.
  intros y Hy. apply Hf. right. exact Hy.
Qed.

Lemma EdgeAccessor_eqb_address ea eb :
  EdgeAccessor_eqb ea eb = true <-> edge_address ea = edge_address eb.
Proof. apply Address_eqb_eq. Qed.

Lemma contains_single_edges ea elems edges :
  holds_edges (List elems) edges ->
  any_of (contains_single (Edge ea)) elems =
  inr (existsb (fun eb => EdgeAccessor_eqb eb ea) edges).
Proof.
  intros Hholds. inversion Hholds; subst.
  rewrite (any_of_existsb _
             (fun v => match v with
                       | Edge eb => EdgeAccessor_eqb eb ea
                       | _ => false
                       end)).
  - f_equal. induction edges as [|eb edges IH]; [reflexivity|].
    cbn [map existsb]. rewrite IH; [reflexivity|constructor].
  - intros v Hv. apply in_map_iff in Hv as (eb & <- & _). reflexivity.
Qed.

(** What [ContainsSame] answers for an edge against an edge or a list
    of edges. *)
Lemma ContainsSame_edge_against ea b edges :
  holds_edges b edges ->
  ContainsSame_edge (Edge ea) b =
  inr (existsb (fun eb => EdgeAccessor_eqb ea eb) edges).
Proof.
  intros Hholds. destruct Hholds as [eb|edges].
  - cbn. rewrite orb_false_r. reflexivity.
  - cbn [ContainsSame_edge].
    rewrite (contains_single_edges ea _ edges (holds_list edges)).
    f_equal. induction edges as [|eb edges IH]; [reflexivity|].
    cbn [existsb]. rewrite IH. f_equal.
    unfold EdgeAccessor_eqb, Address_eqb.
    rewrite (Nat.eqb_sym (gid (edge_address eb))),
            (Nat.eqb_sym (worker_id (edge_address eb))).
    reflexivity.
Qed.

Definition share_an_edge (a b : list EdgeAccessor) : bool :=
  existsb (fun ea => existsb (fun eb => EdgeAccessor_eqb ea eb) b) a.

Lemma ContainsSame_edge_flat a b edges_a edges_b :
  holds_edges a edges_a -> holds_edges b edges_b ->
  ContainsSame_edge a b = inr (share_an_edge edges_a edges_b).
Proof.
  intros Ha Hb. unfold share_an_edge. destruct Ha as [ea|edges_a].
  - rewrite (ContainsSame_edge_against ea b edges_b Hb).
    cbn [existsb]. rewrite orb_false_r. reflexivity.
  - cbn [ContainsSame_edge].
    rewrite (any_of_existsb _
               (fun v => match v with
                         | Edge ea =>
                             existsb (fun eb => EdgeAccessor_eqb ea eb) edges_b
                         | _ => false
                         end)).
    + f_equal. induction edges_a as [|ea edges_a IH]; [reflexivity|].
      cbn [map existsb]. rewrite IH. reflexivity.
    + intros v Hv. apply in_map_iff in Hv as (ea & <- & _).
      apply ContainsSame_edge_against, Hb.
Qed.

Lemma share_an_edge_spec a b :
  share_an_edge a b = true <->
  exists ea eb, In ea a /\ In eb b /\ edge_address ea = edge_address eb.
Proof.
  unfold share_an_edge. rewrite existsb_exists. split.
  - intros (ea & Ha & Hb). apply existsb_exists in Hb as (eb & Hb & Hsame).
    exists ea, eb. repeat split; try assumption.
    apply EdgeAccessor_eqb_address, Hsame.
  - intros (ea & eb & Ha & Hb & Hsame). exists ea. split; [exact Ha|].
    apply existsb_exists. exists eb. split; [exact Hb|].
    apply EdgeAccessor_eqb_address, Hsame.
Qed.

(** [ContainsSame<EdgeAccessor>] on two values, each an edge or a list
    of edges, is true exactly when an edge of the one is an edge of the
    other; it does not fail. *)
Theorem ContainsSame_edges a b edges_a edges_b :
  holds_edges a edges_a -> holds_edges b edges_b ->
  exists shared,
    ContainsSame OfEdge a b = inr shared /\
    (shared = true <->
     exists ea eb,
       In ea edges_a /\ In eb edges_b /\
       edge_address ea = edge_address eb).
Proof.
  intros Ha Hb. exists (share_an_edge edges_a edges_b). split.
  - apply ContainsSame_edge_flat; assumption.
  - apply share_an_edge_spec.
Qed.

End ContainsSame.

Section ExpandUniquenessFilterRows.
Import ExpandUniquenessFilter.
Context {Db : Type} `{!GraphDbAccessor Db}.
Context {TInput : Type} `{!Cursor.Cursor Db TInput}.
Variable self : ExpandUniquenessFilter.

Definition is_unique (row : Frame * Context Db) : bool :=
  match expansion_ok self (fst row) with
  | inr true => true
  | _ => false
  end.

(** What the input sees between two of its rows: a row that passes goes
    to the puller of the filter, the others come straight back. *)
Definition through_uniqueness
  (step : Frame -> Context Db -> Frame * Context Db)
  (frame : Frame) (context : Context Db) : Frame * Context Db :=
  if is_unique (frame, context) then step frame context
  else (frame, context).

Lemma ExpandUniquenessFilter_keeps (input : TInput) frame
  (context : Context Db) input1 frame1 context1 :
  pulls input frame context (Ok (true, input1, frame1) context1) ->
  expansion_ok self frame1 = inr true ->
  pulls (MakeCursor self input) frame context
        (Ok (true, MakeCursor self input1, frame1) context1).
Proof.
  intros [N Hpull] Hok. exists (S N). intros n Hn.
  destruct n as [|n]; [lia|].
  change (Cursor.Pull (S n) ?s ?f ?c)
    with (ExpandUniquenessFilter.Pull (S n) s f c).
  cbn [ExpandUniquenessFilter.Pull MakeCursor input_cursor_ self_].
  rewrite (bind_Ok _ _ _ _ _ (Hpull n ltac:(lia))). cbn iota beta zeta.
  rewrite Hok. reflexivity.
Qed.

Lemma ExpandUniquenessFilter_drops (input : TInput) frame
  (context : Context Db) input1 frame1 context1 r :
  pulls input frame context (Ok (true, input1, frame1) context1) ->
  expansion_ok self frame1 = inr false ->
  pulls (MakeCursor self input1) frame1 context1 r ->
  pulls (MakeCursor self input) frame context r.
Proof.
  intros [N Hpull] Hok [Nr Hr]. exists (S (Nat.max N Nr)). intros n Hn.
  destruct n as [|n]; [lia|].
  change (Cursor.Pull (S n) ?s ?f ?c)
    with (ExpandUniquenessFilter.Pull (S n) s f c).
  cbn [ExpandUniquenessFilter.Pull MakeCursor input_cursor_ self_].
  rewrite (bind_Ok _ _ _ _ _ (Hpull n ltac:(lia))). cbn iota beta zeta.
  rewrite Hok. apply Hr. lia.
Qed.

(** [ExpandUniquenessFilter] lets through, in the order of the input and
    as they are, exactly the rows in which the value at the expand symbol
    has nothing in common with the value at any of the previous
    symbols. *)
Theorem ExpandUniquenessFilter_rows
  (step : Frame -> Context Db -> Frame * Context Db)
  (input : TInput) frame context rows input' frame' context' :
  feeds (through_uniqueness step) input frame context rows input' frame'
        context' ->
  Forall (fun row => exists ok, expansion_ok self (fst row) = inr ok) rows ->
  feeds step (MakeCursor self input) frame context
        (List.filter is_unique rows)
        (MakeCursor self input') frame' context'.
Proof.
  induction 1 as [s f c s' f' c' [N Hdone]
                 |s f c s1 f1 c1 rows s' f' c' Hrow Hrest IH]; intros Htyped.
  - apply feeds_done. exists (S N). intros n Hn. destruct n as [|n]; [lia|].
    change (Cursor.Pull (S n) ?s ?f ?c)
      with (ExpandUniquenessFilter.Pull (S n) s f c).
    cbn [ExpandUniquenessFilter.Pull MakeCursor input_cursor_ self_].
    rewrite (bind_Ok _ _ _ _ _ (Hdone n ltac:(lia))). reflexivity.
  - inversion Htyped as [|row rows' [ok Hfirst] Hothers]; subst.
    cbn [fst snd] in Hfirst. specialize (IH Hothers).
    unfold through_uniqueness in IH. cbn [List.filter].
    destruct ok.
    + assert (Hunique : is_unique (f1, c1) = true)
        by (unfold is_unique; cbn [fst]; rewrite Hfirst; reflexivity).
      rewrite Hunique in *.
      eapply feeds_row; [|exact IH].
      apply ExpandUniquenessFilter_keeps; assumption.
    + assert (Hunique : is_unique (f1, c1) = false)
        by (unfold is_unique; cbn [fst]; rewrite Hfirst; reflexivity).
      rewrite Hunique in *.
      eapply feeds_head; [|exact IH].
      intros r.
      apply (ExpandUniquenessFilter_drops s f c s1 f1 c1 r Hrow Hfirst).
Qed.

Lemma none_same_In accessor expand_value frame previous_symbols previous :
  none_same accessor expand_value frame previous_symbols = inr true ->
  In previous previous_symbols ->
  ContainsSame accessor (frame_at frame previous) expand_value = inr false.
Proof.
  induction previous_symbols as [|symbol rest IH]; intros Hnone Hin;
    [destruct Hin|].
  cbn [none_same] in Hnone.
  destruct (ContainsSame accessor (frame_at frame symbol) expand_value)
    as [e|[|]] eqn:Hsame; try discriminate.
  destruct Hin as [<-|Hin]; [exact Hsame|apply IH; assumption].
Qed.

(** In a row that passes the filter on edges, no edge at the expand
    symbol is an edge at a previous symbol; in a row that passes the
    filter on vertices, the vertex at the expand symbol is none of the
    previous vertices. *)
Theorem ExpandUniquenessFilter_distinct frame previous :
  expansion_ok self frame = inr true ->
  In previous (previous_symbols_ self) ->
  match accessor_ self with
  | OfEdge =>
      forall edges edges' ea eb,
        holds_edges (frame_at frame previous) edges ->
        holds_edges (frame_at frame (expand_symbol_ self)) edges' ->
        In ea edges -> In eb edges' ->
        edge_address ea <> edge_address eb
  | OfVertex =>
      exists va vb,
        frame_at frame previous = Vertex va /\
        frame_at frame (expand_symbol_ self) = Vertex vb /\
        vertex_address va <> vertex_address vb
  end.
Proof.
  intros Hok Hin. unfold expansion_ok in Hok.
  pose proof (none_same_In _ _ _ _ _ Hok Hin) as Hsame.
  destruct (accessor_ self); cbn [ContainsSame] in Hsame.
  - unfold same_vertex in Hsame.
    destruct (frame_at frame previous) as [| | | | | | |va| |];
      try discriminate.
    destruct (frame_at frame (expand_symbol_ self)) as [| | | | | | |vb| |];
      try discriminate.
    cbn in Hsame. exists va, vb. repeat split.
    intros Haddress. apply Address_eqb_eq in Haddress.
    unfold VertexAccessor_eqb in Hsame. congruence.
  - intros edges edges' ea eb Hedges Hedges' Ha Hb Haddress.
    rewrite (ContainsSame_edge_flat _ _ _ _ Hedges Hedges') in Hsame.
    assert (Hshare : share_an_edge edges edges' = true)
      by (apply share_an_edge_spec; exists ea, eb; auto).
    congruence.
Qed.

End ExpandUniquenessFilterRows.

(** [ContainsSame_edges] at a concrete input: a list of two edges
    against one of them. *)
Lemma ContainsSame_edges_witness :
  let e1 := Sample.edge 10 0 1 in
  let e2 := Sample.edge 11 1 0 in
  exists shared,
    ExpandUniquenessFilter.ContainsSame ExpandUniquenessFilter.OfEdge
      (List [Edge e1; Edge e2]) (Edge e2) = inr shared /\
    (shared = true <->
     exists ea eb,
       In ea [e1; e2] /\ In eb [e2] /\ edge_address ea = edge_address eb).
Proof.
  intros e1 e2.
  exact (ContainsSame_edges (List [Edge e1; Edge e2]) (Edge e2)
           [e1; e2] [e2] (holds_list [e1; e2]) (holds_edge e2)).
Defined.

(** [ExpandUniquenessFilter_rows] at a concrete input: with the edges 10
    and 11 at [r], of the rows with the edges 10, 12, 11, 13 at [s] the
    second and the fourth pass. *)
Lemma ExpandUniquenessFilter_rows_witness :
  let r := mkSymbol "r" 0 in
  let s := mkSymbol "s" 1 in
  let self :=
    ExpandUniquenessFilter.mkExpandUniquenessFilter
      ExpandUniquenessFilter.OfEdge s [r] in
  let source := Unwind.mkUnwind (Fixture.literal Null) s in
  let edge id := Edge (Sample.edge id 0 1) in
  let values := [edge 10%nat; edge 12%nat; edge 11%nat; edge 13%nat] in
  let taken := List [edge 10%nat; edge 11%nat] in
  let start := Fixture.start Fixture.empty_graph in
  feeds hand_back
        (ExpandUniquenessFilter.MakeCursor self (replay source values))
        [taken; Null] start
        [([taken; edge 12%nat], start); ([taken; edge 13%nat], start)]
        (ExpandUniquenessFilter.MakeCursor self
           (Unwind.mkUnwindCursor source (Once.mkOnceCursor true) values []))
        [taken; edge 13%nat] start.
Proof.
  intros r s self source edge values taken start.
  exact (ExpandUniquenessFilter_rows self hand_back (replay source values)
           [taken; Null] start _ _ _ _
           (replay_feeds source (through_uniqueness self hand_back)
              (fun frame context Hcalm =>
                 match is_unique self (frame, context) as b
                 return calm (snd (if b then hand_back frame context
                                   else (frame, context)))
                 with true => Hcalm | false => Hcalm end)
              values [taken; Null] start eq_refl)
           ltac:(repeat constructor; eexists; reflexivity)).
Defined.

(** [ExpandUniquenessFilter_distinct] at a concrete input: a row that
    passes the filter on edges, with the edges 10 and 11 at [r] and the
    edge 12 at [s]. *)
Lemma ExpandUniquenessFilter_distinct_witness :
  edge_address (Sample.edge 11 1 0) <> edge_address (Sample.edge 12 0 1).
Proof.
  pose (r := mkSymbol "r" 0).
  pose (s := mkSymbol "s" 1).
  pose (self := ExpandUniquenessFilter.mkExpandUniquenessFilter
                  ExpandUniquenessFilter.OfEdge s [r]).
  pose (e1 := Sample.edge 10 0 1).
  pose (e2 := Sample.edge 11 1 0).
  pose (e3 := Sample.edge 12 0 1).
  exact (ExpandUniquenessFilter_distinct self
           [List [Edge e1; Edge e2]; Edge e3] r eq_refl (or_introl eq_refl)
           [e1; e2] [e3] e2 e3 (holds_list [e1; e2]) (holds_edge e3)
           (or_intror (or_introl eq_refl)) (or_introl eq_refl)).
Defined.

(** ** ConstructNamedPath *)

Section NamedPath.
Import ConstructNamedPath.
Context {Db : Type} `{!GraphDbAccessor Db}.
Context {TInput : Type} `{!Cursor.Cursor Db TInput}.
Variable self : ConstructNamedPath.

(** A vertex, an edge, or a list of edges. *)
Definition path_part (value : TypedValue) : bool :=
  match value with
  | Vertex _ | Edge _ => true
  | List edge_values =>
      forallb (fun edge_value => Type_eqb (type edge_value) TEdge) edge_values
  | _ => false
  end.

(** The edges a path element contributes. *)
Definition element_edges (value : TypedValue) : list EdgeAccessor :=
  match value with
  | Edge edge => [edge]
  | List edge_values =>
      flat_map (fun edge_value =>
                  match edge_value with Edge edge => [edge] | _ => [] end)
               edge_values
  | _ => []
  end.

Lemma expand_edge_list_appends edge_values :
  forall path,
  forallb (fun edge_value => Type_eqb (type edge_value) TEdge) edge_values
    = true ->
  vertices path <> [] ->
  exists added,
    expand_edge_list edge_values path =
      inr (mkPath (vertices path ++ added)
                  (edges path ++ element_edges (List edge_values))) /\
    length added = length (element_edges (List edge_values)).
Proof.
  induction edge_values as [|edge_value rest IH]; intros path Hedges Hsome.
  - exists []. cbn. rewrite !app_nil_r. destruct path. split; reflexivity.
  - cbn [forallb] in Hedges. apply andb_true_iff in Hedges as [Hedge Hrest].
    destruct edge_value as [| | | | | | | |edge|]; try discriminate.
    cbn [expand_edge_list].
    destruct (last (vertices path)) as [back|] eqn:Hback;
      [|apply last_None in Hback; contradiction].
    set (vertex := if VertexAccessor_eqb back (from edge)
                   then to edge else from edge).
    destruct (IH (Expand_edge_vertex path edge vertex) Hrest) as
      (added & Hexpand & Hlength).
    { cbn. intros Hempty. apply app_eq_nil in Hempty as [_ Hcons].
      discriminate. }
    exists (vertex :: added). split.
    + assert (Hstep :
        (if VertexAccessor_eqb back (from edge)
         then expand_edge_list rest (Expand_edge_vertex path edge (to edge))
         else expand_edge_list rest
                (Expand_edge_vertex path edge (from edge))) =
        expand_edge_list rest (Expand_edge_vertex path edge vertex))
        by (unfold vertex; destruct (VertexAccessor_eqb back (from edge));
            reflexivity).
      rewrite Hstep, Hexpand. cbn [Expand_edge_vertex vertices edges].
      cbn [element_edges flat_map]. cbn [element_edges] in *.
      rewrite <- !app_assoc. reflexivity.
    + cbn [element_edges flat_map length app] in *. rewrite Hlength.
      reflexivity.
Qed.

Lemma expand_elements_null frame before null_symbol after :
  forall last_was_edge_list path,
  Forall (fun symbol => path_part (frame_at frame symbol) = true) before ->
  frame_at frame null_symbol = Null ->
  vertices path <> [] ->
  expand_elements frame (before ++ null_symbol :: after)
                  last_was_edge_list path = inr None.
Proof.
  induction before as [|symbol before IH];
    intros last_was_edge_list path Hparts Hnull Hsome; cbn [app].
  - cbn [expand_elements]. rewrite Hnull. reflexivity.
  - inversion Hparts as [|s l Hpart Hrest]; subst.
    cbn [expand_elements].
    destruct (frame_at frame symbol) as [| | | | |edge_values| |vertex|edge|];
      try discriminate.
    + cbn [path_part] in Hpart.
      destruct (expand_edge_list_appends edge_values path Hpart Hsome)
        as (added & -> & _).
      apply IH; [exact Hrest|exact Hnull|].
      cbn. intros Hempty. apply app_eq_nil in Hempty as [Hempty _].
      contradiction.
    + apply IH; [exact Hrest|exact Hnull|].
      destruct last_was_edge_list; [exact Hsome|].
      cbn. intros Hempty. apply app_eq_nil in Hempty as [Hempty _].
      contradiction.
    + apply IH; [exact Hrest|exact Hnull|exact Hsome].
Qed.

(** When the value at one of the path elements is null, the elements
    before it being vertices, edges or lists of edges, the row is
    produced with null at the path symbol. *)
Theorem ConstructNamedPath_null (input : TInput) frame (context : Context Db)
  input1 frame1 context1 before null_symbol after :
  pulls input frame context (Ok (true, input1, frame1) context1) ->
  path_elements_ self = before ++ null_symbol :: after ->
  frame_at frame1 null_symbol = Null ->
  Forall (fun symbol => path_part (frame_at frame1 symbol) = true) before ->
  (forall first, head before = Some first ->
                 type (frame_at frame1 first) = TVertex) ->
  pulls (MakeCursor self input) frame context
        (Ok (true, MakeCursor self input1,
             frame_set (path_symbol_ self) Null frame1) context1).
Proof.
  intros [N Hpull] Helements Hnull Hparts Hfirst. exists N. intros n Hn.
  change (Cursor.Pull n ?s ?f ?c) with (ConstructNamedPath.Pull n s f c).
  unfold ConstructNamedPath.Pull, MakeCursor. cbn [input_cursor_ self_].
  rewrite (bind_Ok _ _ _ _ _ (Hpull n Hn)). cbn iota beta zeta.
  rewrite Helements. destruct before as [|first before]; cbn [app].
  - rewrite Hnull. reflexivity.
  - specialize (Hfirst first eq_refl).
    destruct (frame_at frame1 first) as [| | | | | | |start_vertex| |];
      try discriminate.
    inversion Hparts as [|s l _ Hrest]; subst.
    rewrite (expand_elements_null frame1 before null_symbol after false _
               Hrest Hnull) by discriminate.
    reflexivity.
Qed.

(** The elements after the first vertex: an edge or a list of edges,
    then a vertex, and so on. *)
Inductive hops (frame : Frame) : list Symbol -> Prop :=
| hops_nil : hops frame []
| hops_edge edge_symbol node_symbol rest edge vertex :
    frame_at frame edge_symbol = Edge edge ->
    frame_at frame node_symbol = Vertex vertex ->
    hops frame rest ->
    hops frame (edge_symbol :: node_symbol :: rest)
| hops_edge_list edge_symbol node_symbol rest edge_list vertex :
    frame_at frame edge_symbol = List (map Edge edge_list) ->
    frame_at frame node_symbol = Vertex vertex ->
    hops frame rest ->
    hops frame (edge_symbol :: node_symbol :: rest).

Definition elements_edges (frame : Frame) (symbols : list Symbol)
  : list EdgeAccessor :=
  flat_map (fun symbol => element_edges (frame_at frame symbol)) symbols.

Lemma element_edges_map edge_list :
  element_edges (List (map Edge edge_list)) = edge_list.
Proof.
  cbn [element_edges]. induction edge_list as [|edge rest IH];
    [reflexivity|].
  cbn [map flat_map app]. rewrite IH. reflexivity.
Qed.

Lemma forallb_map_Edge edge_list :
  forallb (fun edge_value => Type_eqb (type edge_value) TEdge)
          (map Edge edge_list) = true.
Proof. induction edge_list as [|edge rest IH]; [reflexivity|exact IH]. Qed.

Lemma expand_elements_hops frame symbols :
  hops frame symbols ->
  forall path,
  vertices path <> [] ->
  exists added,
    expand_elements frame symbols false path =
      inr (Some (mkPath (vertices path ++ added)
                        (edges path ++ elements_edges frame symbols))) /\
    length added = length (elements_edges frame symbols).
Proof.
  induction 1 as [|edge_symbol node_symbol rest edge vertex Hedge Hnode _ IH
                  |edge_symbol node_symbol rest edge_list vertex Hlist Hnode
                     _ IH]; intros path Hsome.
  - exists []. cbn. rewrite !app_nil_r. destruct path. split; reflexivity.
  - cbn [expand_elements]. rewrite Hedge, Hnode.
    destruct (IH (Expand_vertex (Expand_edge path edge) vertex))
      as (added & -> & Hlength).
    { cbn. intros Hempty. apply app_eq_nil in Hempty as [_ Hcons].
      discriminate. }
    exists (vertex :: added). unfold elements_edges in *.
    cbn [flat_map Expand_vertex Expand_edge vertices edges].
    rewrite Hedge, Hnode. cbn [element_edges app length].
    rewrite <- !app_assoc. split; [reflexivity|].
    rewrite Hlength. reflexivity.
  - cbn [expand_elements]. rewrite Hlist, Hnode.
    destruct (expand_edge_list_appends (map Edge edge_list) path
                (forallb_map_Edge edge_list) Hsome)
      as (walked & -> & Hwalked).
    rewrite element_edges_map in *.
    destruct (IH (mkPath (vertices path ++ walked) (edges path ++ edge_list)))
      as (added & -> & Hlength).
    { cbn. intros Hempty. apply app_eq_nil in Hempty as [Hempty _].
      contradiction. }
    exists (walked ++ added). unfold elements_edges in *.
    cbn [flat_map vertices edges].
    rewrite Hlist, Hnode, element_edges_map. cbn [element_edges app].
    rewrite <- !app_assoc. split; [reflexivity|].
    rewrite !length_app, Hlength, Hwalked. reflexivity.
Qed.

(** When the first path element is a vertex and the others are, in
    turn, an edge or a list of edges and then a vertex, the row is
    produced with a path at the path symbol that starts at the first
    vertex, has the edges of the elements in their order, and has one
    vertex more than it has edges: the vertex after a list of edges is not
    added a second time. *)
Theorem ConstructNamedPath_path (input : TInput) frame (context : Context Db)
  input1 frame1 context1 first rest start_vertex :
  pulls input frame context (Ok (true, input1, frame1) context1) ->
  path_elements_ self = first :: rest ->
  frame_at frame1 first = Vertex start_vertex ->
  hops frame1 rest ->
  exists added,
    pulls (MakeCursor self input) frame context
          (Ok (true, MakeCursor self input1,
               frame_set (path_symbol_ self)
                         (Path (start_vertex :: added)
                               (elements_edges frame1 rest))
                         frame1) context1) /\
    length added = length (elements_edges frame1 rest).
Proof.
  intros [N Hpull] Helements Hstart Hhops.
  destruct (expand_elements_hops frame1 rest Hhops (mkPath [start_vertex] []))
    as (added & Hexpand & Hlength); [discriminate|].
  exists added. split; [|exact Hlength].
  exists N. intros n Hn.
  change (Cursor.Pull n ?s ?f ?c) with (ConstructNamedPath.Pull n s f c).
  unfold ConstructNamedPath.Pull, MakeCursor. cbn [input_cursor_ self_].
  rewrite (bind_Ok _ _ _ _ _ (Hpull n Hn)). cbn iota beta zeta.
  rewrite Helements, Hstart, Hexpand. reflexivity.
Qed.

End NamedPath.

(** [ConstructNamedPath_null] at a concrete input: the path (n)-[r]-(m)
    with null at [r]. *)
Lemma ConstructNamedPath_null_witness :
  let p := mkSymbol "p" 3 in
  let self :=
    ConstructNamedPath.mkConstructNamedPath p [Sample.n; Sample.r; Sample.m] in
  let frame := [Vertex (Sample.vertex 0); Null; Null; Int 7] in
  let start := Fixture.start Fixture.empty_graph in
  pulls (ConstructNamedPath.MakeCursor self (@Once.MakeCursor)) frame start
        (Ok (true,
             ConstructNamedPath.MakeCursor self (Once.mkOnceCursor true),
             [Vertex (Sample.vertex 0); Null; Null; Null]) start).
Proof.
  intros p self frame start.
  refine (ConstructNamedPath_null self (@Once.MakeCursor) frame start
            (Once.mkOnceCursor true) frame start
            [Sample.n] Sample.r [Sample.m] _ eq_refl eq_refl _ _).
  - run_fuel 1%nat.
  - repeat constructor.
  - intros first [= <-]. reflexivity.
Defined.

(** [ConstructNamedPath_path] at a concrete input: the path (n)-[r*]-(m)
    over the two edges of the ring, from vertex 0 back to vertex 0. *)
Lemma ConstructNamedPath_path_witness :
  let p := mkSymbol "p" 3 in
  let self :=
    ConstructNamedPath.mkConstructNamedPath p [Sample.n; Sample.r; Sample.m] in
  let e10 := Sample.edge 10 0 1 in
  let e11 := Sample.edge 11 1 0 in
  let frame :=
    [Vertex (Sample.vertex 0); List [Edge e10; Edge e11];
     Vertex (Sample.vertex 0); Null] in
  let start := Fixture.start Fixture.empty_graph in
  exists added,
    pulls (ConstructNamedPath.MakeCursor self (@Once.MakeCursor)) frame start
          (Ok (true,
               ConstructNamedPath.MakeCursor self (Once.mkOnceCursor true),
               [Vertex (Sample.vertex 0); List [Edge e10; Edge e11];
                Vertex (Sample.vertex 0);
                Path (Sample.vertex 0 :: added) [e10; e11]]) start) /\
    length added = 2%nat.
Proof.
  intros p self e10 e11 frame start.
  refine (ConstructNamedPath_path self (@Once.MakeCursor) frame start
            (Once.mkOnceCursor true) frame start
            Sample.n [Sample.r; Sample.m] (Sample.vertex 0)
            _ eq_refl eq_refl
            (hops_edge_list frame Sample.r Sample.m [] [e10; e11]
                            (Sample.vertex 0) eq_refl eq_refl
                            (hops_nil frame))).
  run_fuel 1%nat.
Defined.

(** ** OrderBy: the order of rows *)

Section StringOrder.

Lemma ascii_compare_trans (a b c : Ascii.ascii) :
  Ascii.compare a b = Lt -> Ascii.compare b c = Lt -> Ascii.compare a c = Lt.
Proof.
  unfold Ascii.compare. rewrite !N.compare_lt_iff. apply N.lt_trans.
Qed.

Lemma string_compare_trans (a b c : string) :
  String.compare a b = Lt -> String.compare b c = Lt ->
  String.compare a c = Lt.
Proof.
  revert b c. induction a as [|x a IH]; intros [|y b] [|z c];
    cbn [String.compare]; try discriminate; try reflexivity.
  destruct (Ascii.compare x y) eqn:Hxy; try discriminate;
    destruct (Ascii.compare y z) eqn:Hyz; try discriminate; intros Hab Hbc.
  - apply Ascii.compare_eq_iff in Hxy, Hyz. subst.
    assert (Hzz : Ascii.compare z z = Eq)
      by (unfold Ascii.compare; apply N.compare_refl).
    rewrite Hzz. apply (IH b c); assumption.
  - apply Ascii.compare_eq_iff in Hxy. subst. rewrite Hyz. reflexivity.
  - apply Ascii.compare_eq_iff in Hyz. subst. rewrite Hxy. reflexivity.
  - rewrite (ascii_compare_trans x y z Hxy Hyz). reflexivity.
Qed.

Lemma string_ltb_asymmetric (a b : string) :
  String.ltb a b = true -> String.ltb b a = false.
Proof.
  unfold String.ltb. rewrite (String.compare_antisym b a).
  destruct (String.compare a b); cbn; congruence.
Qed.

Lemma string_ltb_trans (a b c : string) :
  String.ltb a b = true -> String.ltb b c = true -> String.ltb a c = true.
Proof.
  unfold String.ltb.
  destruct (String.compare a b) eqn:Hab; try discriminate.
  destruct (String.compare b c) eqn:Hbc; try discriminate.
  rewrite (string_compare_trans a b c Hab Hbc). reflexivity.
Qed.

Lemma string_ltb_neither (a b : string) :
  String.ltb a b = false -> String.ltb b a = false -> a = b.
Proof.
  unfold String.ltb. rewrite (String.compare_antisym b a).
  destruct (String.compare a b) eqn:Hab; cbn; try discriminate.
  intros _ _. apply String.compare_eq_iff, Hab.
Qed.

End StringOrder.

Section OrderByProperties.
Import OrderBy.
Context `{!DoubleOps}.

(** A value that is not a double. *)
Definition exact (value : TypedValue) : bool :=
  match value with Double _ => false | _ => true end.

Lemma TypedValueCompare_asymmetric a b :
  exact a = true -> exact b = true ->
  TypedValueCompare a b = inr true -> TypedValueCompare b a = inr false.
Proof.
  intros Ha Hb.
  destruct a, b; try discriminate; cbn; try reflexivity; intros [= Hless];
    f_equal.
  - destruct b, b0; cbn in *; congruence.
  - apply Z.ltb_lt in Hless. apply Z.ltb_ge. lia.
  - apply string_ltb_asymmetric, Hless.
Qed.

Lemma TypedValueCompare_transitive a b c :
  exact a = true -> exact b = true -> exact c = true ->
  TypedValueCompare a b = inr true -> TypedValueCompare b c = inr true ->
  TypedValueCompare a c = inr true.
Proof.
  intros Ha Hb Hc.
  destruct a, b; try discriminate; cbn; try reflexivity; intros [= Hab];
    destruct c; try discriminate; cbn; try reflexivity; intros [= Hbc];
    f_equal.
  - destruct b, b0, b1; cbn in *; congruence.
  - apply Z.ltb_lt in Hab, Hbc. apply Z.ltb_lt. lia.
  - apply (string_ltb_trans _ _ _ Hab Hbc).
Qed.

(** Two values neither of which is less than the other are the same
    value. *)
Lemma TypedValueCompare_neither a b :
  exact a = true -> exact b = true ->
  TypedValueCompare a b = inr false -> TypedValueCompare b a = inr false ->
  a = b.
Proof.
  intros Ha Hb.
  destruct a, b; try discriminate; cbn; try reflexivity;
    intros [= Hab] [= Hba]; f_equal.
  - destruct b, b0; cbn in *; congruence.
  - apply Z.ltb_ge in Hab, Hba. lia.
  - apply string_ltb_neither; assumption.
Qed.

Lemma compare_elements_asymmetric ordering :
  forall c1 c2,
  Forall (fun value => exact value = true) c1 ->
  Forall (fun value => exact value = true) c2 ->
  compare_elements ordering c1 c2 = inr true ->
  compare_elements ordering c2 c1 = inr false.
Proof.
  induction ordering as [|o ordering IH]; intros c1 c2 H1 H2;
    destruct c1 as [|x c1], c2 as [|y c2]; cbn [compare_elements];
    try discriminate; try reflexivity.
  inversion H1 as [|? ? Hx H1']; inversion H2 as [|? ? Hy H2']; subst.
  destruct (TypedValueCompare x y) as [e|[|]] eqn:Hxy; try discriminate.
  - rewrite (TypedValueCompare_asymmetric x y Hx Hy Hxy).
    destruct o; cbn; congruence.
  - destruct (TypedValueCompare y x) as [e|[|]] eqn:Hyx; try discriminate.
    + destruct o; cbn; congruence.
    + apply IH; assumption.
Qed.

(** On rows without doubles the comparison of [OrderBy] is asymmetric:
    of two rows, at most one comes before the other. *)
Theorem TypedValueVectorCompare_asymmetric ordering c1 c2 :
  Forall (fun value => exact value = true) c1 ->
  Forall (fun value => exact value = true) c2 ->
  TypedValueVectorCompare ordering c1 c2 = inr true ->
  TypedValueVectorCompare ordering c2 c1 = inr false.
Proof.
  intros H1 H2. unfold TypedValueVectorCompare.
  rewrite (andb_comm (length c2 <=? length ordering)%nat).
  destruct ((length c1 <=? length ordering)%nat &&
            (length c2 <=? length ordering)%nat); [|discriminate].
  apply compare_elements_asymmetric; assumption.
Qed.

Lemma compare_elements_transitive ordering :
  forall c1 c2 c3,
  Forall (fun value => exact value = true) c1 ->
  Forall (fun value => exact value = true) c2 ->
  Forall (fun value => exact value = true) c3 ->
  compare_elements ordering c1 c2 = inr true ->
  compare_elements ordering c2 c3 = inr true ->
  compare_elements ordering c1 c3 = inr true.
Proof.
  induction ordering as [|o ordering IH]; intros c1 c2 c3 H1 H2 H3;
    destruct c1 as [|x c1], c2 as [|y c2], c3 as [|z c3];
    cbn [compare_elements]; try discriminate; try reflexivity.
  inversion H1 as [|? ? Hx H1']; inversion H2 as [|? ? Hy H2'];
    inversion H3 as [|? ? Hz H3']; subst.
  destruct (TypedValueCompare x y) as [e|[|]] eqn:Hxy; try discriminate.
  - (* x before y *)
    intros Ho. destruct o; try discriminate.
    destruct (TypedValueCompare y z) as [e|[|]] eqn:Hyz; try discriminate.
    + intros _.
      rewrite (TypedValueCompare_transitive x y z Hx Hy Hz Hxy Hyz).
      reflexivity.
    + destruct (TypedValueCompare z y) as [e|[|]] eqn:Hzy; try discriminate.
      intros _.
      rewrite <- (TypedValueCompare_neither y z Hy Hz Hyz Hzy), ?Hxy.
      reflexivity.
  - destruct (TypedValueCompare y x) as [e|[|]] eqn:Hyx; try discriminate.
    + (* y before x *)
      intros Ho. destruct o; try discriminate.
      destruct (TypedValueCompare y z) as [e|[|]] eqn:Hyz; try discriminate.
      destruct (TypedValueCompare z y) as [e|[|]] eqn:Hzy; try discriminate.
      * intros _.
        pose proof (TypedValueCompare_transitive z y x Hz Hy Hx Hzy Hyx)
          as Hzx.
        rewrite (TypedValueCompare_asymmetric z x Hz Hx Hzx), Hzx.
        reflexivity.
      * intros _.
        rewrite <- (TypedValueCompare_neither y z Hy Hz Hyz Hzy), ?Hxy, ?Hyx.
        reflexivity.
    + (* the same value *)
      rewrite (TypedValueCompare_neither x y Hx Hy Hxy Hyx).
      destruct (TypedValueCompare y z) as [e|[|]] eqn:Hyz; try discriminate;
        [intros _ Ho; exact Ho|].
      destruct (TypedValueCompare z y) as [e|[|]] eqn:Hzy; try discriminate;
        [intros _ Ho; exact Ho|].
      apply IH; assumption.
Qed.

(** On rows without doubles the comparison of [OrderBy] is transitive. *)
Theorem TypedValueVectorCompare_transitive ordering c1 c2 c3 :
  Forall (fun value => exact value = true) c1 ->
  Forall (fun value => exact value = true) c2 ->
  Forall (fun value => exact value = true) c3 ->
  TypedValueVectorCompare ordering c1 c2 = inr true ->
  TypedValueVectorCompare ordering c2 c3 = inr true ->
  TypedValueVectorCompare ordering c1 c3 = inr true.
Proof.
  intros H1 H2 H3. unfold TypedValueVectorCompare.
  destruct (length c1 <=? length ordering)%nat; [|discriminate].
  destruct (length c2 <=? length ordering)%nat; [|discriminate].
  destruct (length c3 <=? length ordering)%nat; [|discriminate].
  cbn [andb]. apply compare_elements_transitive; assumption.
Qed.

(** Null sorts last in ascending order and first in descending order:
    against a null, any other value decides the comparison at its
    position, whatever its type. *)
Theorem TypedValueVectorCompare_null ordering o value c1 c2 :
  value <> Null ->
  (length c1 <= length ordering)%nat ->
  (length c2 <= length ordering)%nat ->
  TypedValueVectorCompare (o :: ordering) (value :: c1) (Null :: c2) =
    inr (Ordering_eqb o ASC) /\
  TypedValueVectorCompare (o :: ordering) (Null :: c1) (value :: c2) =
    inr (Ordering_eqb o DESC).
Proof.
  intros Hvalue Hc1 Hc2. unfold TypedValueVectorCompare. cbn [length].
  apply Nat.leb_le in Hc1, Hc2.
  change (S ?a <=? S ?b)%nat with (a <=? b)%nat. rewrite Hc1, Hc2.
  cbn [andb compare_elements].
  destruct value; try contradiction; split; reflexivity.
Qed.

End OrderByProperties.

(** [TypedValueVectorCompare_asymmetric] at a concrete input: two rows
    that differ at the second key, which is descending. *)
Lemma TypedValueVectorCompare_asymmetric_witness :
  OrderBy.TypedValueVectorCompare [OrderBy.ASC; OrderBy.DESC]
    [Int 1; String "a"] [Int 1; String "b"] = inr false.
Proof.
  apply (TypedValueVectorCompare_asymmetric [OrderBy.ASC; OrderBy.DESC]
           [Int 1; String "b"] [Int 1; String "a"]);
    [repeat constructor|repeat constructor|reflexivity].
Defined.

(** [TypedValueVectorCompare_transitive] at a concrete input: 1 before
    2 before null, ascending. *)
Lemma TypedValueVectorCompare_transitive_witness :
  OrderBy.TypedValueVectorCompare [OrderBy.ASC] [Int 1] [Null] = inr true.
Proof.
  apply (TypedValueVectorCompare_transitive [OrderBy.ASC]
           [Int 1] [Int 2] [Null]);
    [repeat constructor|repeat constructor|repeat constructor
    |reflexivity|reflexivity].
Defined.

(** [TypedValueVectorCompare_null] at a concrete input: a list against
    null, descending. *)
Lemma TypedValueVectorCompare_null_witness :
  OrderBy.TypedValueVectorCompare [OrderBy.DESC] [List []] [Null] =
    inr false /\
  OrderBy.TypedValueVectorCompare [OrderBy.DESC] [Null] [List []] =
    inr true.
Proof.
  apply (TypedValueVectorCompare_null [] OrderBy.DESC (List []) [] []);
    [discriminate|reflexivity|reflexivity].
Defined.

(** ** Union *)

Section UnionRows.
Context {Db : Type} `{!GraphDbAccessor Db}.
Context {TLeft : Type} `{!Cursor.Cursor Db TLeft}.
Context {TRight : Type} `{!Cursor.Cursor Db TRight}.
Variable self : Union.Union.
Variable step : Frame -> Context Db -> Frame * Context Db.

Local Abbreviation UnionCursor := (@Union.UnionCursor TLeft TRight).

(** The frame a row of one side is handed on with: its values at the
    symbols of that side, at the union symbols of the same names. *)
Definition renamed (symbols : list Symbol) (frame : Frame) : Frame :=
  Union.place (Union.union_symbols_ self) (Union.collect symbols frame) frame.

Definition renamed_row (symbols : list Symbol) (row : Frame * Context Db)
  : Frame * Context Db :=
  (renamed symbols (fst row), snd row).

(** What a side sees between two of its rows. *)
Definition through_union (symbols : list Symbol) (frame : Frame)
  (context : Context Db) : Frame * Context Db :=
  step (renamed symbols frame) context.

Lemma Union_left (left : TLeft) (right : TRight) frame
  (context : Context Db) rows left1 frame1 context1 :
  yields (through_union (Union.left_symbols_ self)) left frame context rows
         left1 frame1 context1 ->
  yields step (Union.mkUnionCursor self left right : UnionCursor)
         frame context
         (map (renamed_row (Union.left_symbols_ self)) rows)
         (Union.mkUnionCursor self left1 right) frame1 context1.
Proof.
  induction 1 as [|s f c s1 f1 c1 rows s2 f2 c2 [N Hrow] _ IH].
  - apply yields_nil.
  - cbn [map]. eapply yields_row; [|exact IH].
    exists N. intros n Hn.
    change (Cursor.Pull n ?s ?f ?c) with (Union.Pull n s f c).
    unfold Union.Pull. cbn [Union.left_cursor_ Union.right_cursor_ Union.self_].
    rewrite (bind_Ok _ _ _ _ _ (Hrow n Hn)). reflexivity.
Qed.

Lemma Union_right (left : TLeft) (right : TRight) frame
  (context : Context Db) rows right' frame' context' :
  (forall frame context,
     pulls left frame context (Ok (false, left, frame) context)) ->
  feeds (through_union (Union.right_symbols_ self)) right frame context rows
        right' frame' context' ->
  feeds step (Union.mkUnionCursor self left right : UnionCursor)
        frame context
        (map (renamed_row (Union.right_symbols_ self)) rows)
        (Union.mkUnionCursor self left right') frame' context'.
Proof.
  intros Hleft.
  induction 1 as [s f c s' f' c' [N Hdone]
                 |s f c s1 f1 c1 rows s' f' c' [N Hrow] _ IH].
  - apply feeds_done. destruct (Hleft f c) as [Nl Hl].
    exists (Nat.max N Nl). intros n Hn.
    change (Cursor.Pull n ?s ?f ?c) with (Union.Pull n s f c).
    unfold Union.Pull. cbn [Union.left_cursor_ Union.right_cursor_ Union.self_].
    rewrite (bind_Ok _ _ _ _ _ (Hl n ltac:(lia))). cbn iota beta.
    rewrite (bind_Ok _ _ _ _ _ (Hdone n ltac:(lia))). reflexivity.
  - cbn [map]. eapply feeds_row; [|exact IH].
    destruct (Hleft f c) as [Nl Hl].
    exists (Nat.max N Nl). intros n Hn.
    change (Cursor.Pull n ?s ?f ?c) with (Union.Pull n s f c).
    unfold Union.Pull. cbn [Union.left_cursor_ Union.right_cursor_ Union.self_].
    rewrite (bind_Ok _ _ _ _ _ (Hl n ltac:(lia))). cbn iota beta.
    rewrite (bind_Ok _ _ _ _ _ (Hrow n ltac:(lia))). reflexivity.
Qed.

(** [Union] produces the rows of its left side, in their order, and
    then the rows of its right side, in theirs; the right side is not
    pulled before the left side has reported exhaustion, and the left
    side is pulled again before every row of the right side.  Each row
    goes on with the values of its side renamed to the union symbols. *)
Theorem Union_rows (left : TLeft) (right : TRight) frame
  (context : Context Db) rows left1 frame1 context1 left2 frame2 context2
  rows' right' frame' context' :
  yields (through_union (Union.left_symbols_ self)) left frame context rows
         left1 frame1 context1 ->
  pulls left1 frame1 context1 (Ok (false, left2, frame2) context2) ->
  (forall frame context,
     pulls left2 frame context (Ok (false, left2, frame) context)) ->
  feeds (through_union (Union.right_symbols_ self)) right frame2 context2
        rows' right' frame' context' ->
  feeds step (Union.MakeCursor self left right : UnionCursor) frame context
        (map (renamed_row (Union.left_symbols_ self)) rows ++
         map (renamed_row (Union.right_symbols_ self)) rows')
        (Union.mkUnionCursor self left2 right') frame' context'.
Proof.
  intros Hleft [N Hdone] Hstays Hright.
  eapply yields_feeds; [apply Union_left; exact Hleft|].
  pose proof (Union_right left2 right frame2 context2 rows' right' frame'
                context' Hstays Hright) as Hrest.
  eapply feeds_head; [|exact Hrest].
  intros r [Nr Hr]. destruct (Hstays frame2 context2) as [Ns Hs].
  exists (Nat.max N (Nat.max Ns Nr)). intros n Hn.
  rewrite <- (Hr n ltac:(lia)).
  change (Cursor.Pull n ?s ?f ?c) with (Union.Pull n s f c).
  unfold Union.Pull. cbn [Union.left_cursor_ Union.right_cursor_ Union.self_].
  rewrite (bind_Ok _ _ _ _ _ (Hdone n ltac:(lia))).
  rewrite (bind_Ok _ _ _ _ _ (Hs n ltac:(lia))). reflexivity.
Qed.

End UnionRows.

Section UnionNames.
Variable self : Union.Union.

Lemma at_name_collect_other frame key symbols :
  forall results,
  ~ In key (map name symbols) ->
  Union.at_name key
    (fold_left (fun results output_symbol =>
                  Union.assign (name output_symbol)
                               (frame_at frame output_symbol) results)
               symbols results) =
  Union.at_name key results.
Proof.
  induction symbols as [|symbol symbols IH]; intros results Hother;
    [reflexivity|].
  cbn [fold_left map In] in *. rewrite IH by tauto.
  unfold Union.assign. cbn [Union.at_name].
  destruct (String.eqb_spec key (name symbol)) as [Hsame|_]; [|reflexivity].
  exfalso. apply Hother. left. symmetry. exact Hsame.
Qed.

Lemma at_name_collect frame symbols side_symbol :
  List.NoDup (map name symbols) ->
  In side_symbol symbols ->
  Union.at_name (name side_symbol) (Union.collect symbols frame) =
  frame_at frame side_symbol.
Proof.
  unfold Union.collect. generalize (@nil (string * TypedValue)).
  induction symbols as [|symbol symbols IH]; intros results Hnames Hin;
    [destruct Hin|].
  cbn [map] in Hnames. apply List.NoDup_cons_iff in Hnames as [Hfresh Hnames].
  cbn [fold_left]. destruct Hin as [->|Hin].
  - rewrite at_name_collect_other by exact Hfresh.
    unfold Union.assign. cbn [Union.at_name].
    rewrite String.eqb_refl. reflexivity.
  - apply IH; assumption.
Qed.

Lemma frame_at_place symbols results frame union_symbol :
  List.NoDup (map position symbols) ->
  In union_symbol symbols ->
  (position union_symbol < length frame)%nat ->
  frame_at (Union.place symbols results frame) union_symbol =
  Union.at_name (name union_symbol) results.
Proof.
  intros Hpositions Hin Hrange. unfold Union.place, frame_at, frame_set.
  rewrite <- (fold_left_over_map
                (fun (frame : Frame) (w : nat * TypedValue) =>
                   <[fst w := snd w]> frame)
                (fun symbol =>
                   (position symbol, Union.at_name (name symbol) results))).
  rewrite (writes_lookup _ frame (position union_symbol)
             (Union.at_name (name union_symbol) results)).
  - reflexivity.
  - rewrite map_map. exact Hpositions.
  - apply in_map_iff. exists union_symbol. split; [reflexivity|exact Hin].
  - exact Hrange.
Qed.

(** The values go from a side to the union symbols by name: a union
    symbol holds what the symbol of the same name held on that side, and
    null when the side has no symbol of that name.  The union symbols are
    at distinct positions inside the frame, and the names of the symbols
    of the side are distinct. *)
Theorem Union_by_name symbols frame union_symbol :
  List.NoDup (map position (Union.union_symbols_ self)) ->
  In union_symbol (Union.union_symbols_ self) ->
  (position union_symbol < length frame)%nat ->
  List.NoDup (map name symbols) ->
  (forall side_symbol,
     In side_symbol symbols -> name side_symbol = name union_symbol ->
     frame_at (renamed self symbols frame) union_symbol =
     frame_at frame side_symbol) /\
  (~ In (name union_symbol) (map name symbols) ->
   frame_at (renamed self symbols frame) union_symbol = Null).
Proof.
  intros Hpositions Hin Hrange Hnames. unfold renamed. split.
  - intros side_symbol Hside Hname.
    rewrite frame_at_place by assumption.
    rewrite <- Hname. apply at_name_collect; assumption.
  - intros Hmissing. rewrite frame_at_place by assumption.
    unfold Union.collect. rewrite at_name_collect_other by exact Hmissing.
    reflexivity.
Qed.

End UnionNames.

(** [Union_rows] at a concrete input: the left side gives its one row,
    with 1 at its [x]; the right side gives 5 and 6 at its [x]. *)
Lemma Union_rows_witness :
  let left_x := mkSymbol "x" 0 in
  let right_x := mkSymbol "x" 1 in
  let union_x := mkSymbol "x" 2 in
  let self := Union.mkUnion [union_x] [left_x] [right_x] in
  let source := Unwind.mkUnwind (Fixture.literal Null) right_x in
  let start := Fixture.start Fixture.empty_graph in
  feeds hand_back
        (Union.MakeCursor self (@Once.MakeCursor)
                          (replay source [Int 5; Int 6]))
        [Int 1; Null; Null] start
        [([Int 1; Null; Int 1], start);
         ([Int 1; Int 5; Int 5], start);
         ([Int 1; Int 6; Int 6], start)]
        (Union.mkUnionCursor self (Once.mkOnceCursor true)
           (Unwind.mkUnwindCursor source (Once.mkOnceCursor true)
                                  [Int 5; Int 6] []))
        [Int 1; Int 6; Int 6] start.
Proof.
  intros left_x right_x union_x self source start.
  refine (Union_rows self hand_back (@Once.MakeCursor)
            (replay source [Int 5; Int 6]) [Int 1; Null; Null] start
            [([Int 1; Null; Null], start)]
            (Once.mkOnceCursor true) [Int 1; Null; Int 1] start
            (Once.mkOnceCursor true) [Int 1; Null; Int 1] start
            _ _ _ _
            (yields_row _ _ _ _ (Once.mkOnceCursor true)
                        [Int 1; Null; Null] start _ _ _ _ _
                        (yields_nil _ _ _ _))
            _ _
            (replay_feeds source
               (through_union self hand_back [right_x])
               (fun frame context Hcalm => Hcalm)
               [Int 5; Int 6] [Int 1; Null; Int 1] start eq_refl)).
  - run_fuel 1%nat.
  - run_fuel 1%nat.
  - intros frame context. run_fuel 1%nat.
Defined.

(** [Union_by_name] at a concrete input: the union symbol [x] takes the
    value of the [x] of the side, not that of its [y]. *)
Lemma Union_by_name_witness :
  let side_x := mkSymbol "x" 0 in
  let side_y := mkSymbol "y" 1 in
  let union_y := mkSymbol "y" 2 in
  let union_x := mkSymbol "x" 3 in
  let self := Union.mkUnion [union_y; union_x] [side_x; side_y] [] in
  frame_at (renamed self [side_x; side_y] [Int 1; Int 2; Null; Null])
           union_x = Int 1.
Proof.
  intros side_x side_y union_y union_x self.
  refine (proj1 (Union_by_name self [side_x; side_y]
                   [Int 1; Int 2; Null; Null] union_x _ _ _ _)
                side_x (or_introl eq_refl) eq_refl).
  - repeat constructor; cbn; intros H;
      repeat (destruct H as [H|H]; try discriminate H); exact H.
  - right. left. reflexivity.
  - cbn. lia.
  - repeat constructor; cbn; intros H;
      repeat (destruct H as [H|H]; try discriminate H); exact H.
Defined.

(** ** Cartesian *)

(** A cursor that is pulled to exhaustion by a puller that only turns
    the frame is drained by it. *)
Lemma feeds_drains {Db T : Type} `{!Cursor.Cursor Db T}
  (consumer : Frame -> Frame) (cursor : T) frame (context : Context Db)
  rows cursor' frame' context' :
  feeds (fun frame context => (consumer frame, context)) cursor frame context
        rows cursor' frame' context' ->
  drains consumer cursor frame context (map fst rows) cursor' frame' context'.
Proof.
  induction 1 as [s f c s' f' c' Hdone
                 |s f c s1 f1 c1 rows s' f' c' Hrow _ IH].
  - apply drains_done. exact Hdone.
  - cbn [map fst]. eapply drains_row; [exact Hrow|exact IH].
Qed.

Section CartesianRows.
Context {Db : Type} `{!GraphDbAccessor Db} `{!TypedValueOps}.
Context {TLeft : Type} `{!Cursor.Cursor Db TLeft}.
Context {TRight : Type} `{!Cursor.Cursor Db TRight}.
Variable self : Cartesian.Cartesian.
Variable step : Frame -> Context Db -> Frame * Context Db.

Local Abbreviation CartesianCursor :=
  (@Cartesian.CartesianCursor TLeft TRight).
Local Abbreviation left_symbols := (Cartesian.left_symbols_ self).
Local Abbreviation right_symbols := (Cartesian.right_symbols_ self).

Lemma pull_left_frames_drains (left_cursor : TLeft) frame
  (context : Context Db) rows left_cursor' frame' context' :
  drains (map moved_from) left_cursor frame context rows left_cursor' frame'
         context' ->
  forall left_op_frames,
  exists N, forall n, (N <= n)%nat ->
    Cartesian.pull_left_frames n left_cursor left_op_frames frame context =
    Ok (left_cursor', left_op_frames ++ rows, frame') context'.
Proof.
  induction 1 as [s f c s' f' c' [N Hdone]
                 |s f c s1 f1 c1 rows s' f' c' [N Hrow] _ IH];
    intros left_op_frames.
  - exists (S N). intros n Hn. destruct n as [|n]; [lia|].
    cbn [Cartesian.pull_left_frames]. unfold bind. rewrite Hdone by lia.
    cbn. rewrite app_nil_r. reflexivity.
  - destruct (IH (left_op_frames ++ [f1])) as [N' IH'].
    exists (S (Nat.max N N')). intros n Hn. destruct n as [|n]; [lia|].
    cbn [Cartesian.pull_left_frames]. unfold bind. rewrite Hrow by lia.
    cbn iota beta. rewrite IH' by lia. rewrite <- app_assoc. reflexivity.
Qed.

(** The cursor once the frames of the left side are cached. *)
Definition cached (lefts : list (list TypedValue))
  (right_frame : list TypedValue) (left_cursor : TLeft)
  (right_cursor : TRight) (ahead : list (list TypedValue))
  : CartesianCursor :=
  Cartesian.mkCartesianCursor self lefts right_frame left_cursor right_cursor
                              ahead true.

(** The first pull caches the frames of the left side and goes on as
    any later pull. *)
Lemma Cartesian_first_pull (left_cursor : TLeft) (right_cursor : TRight)
  frame (context : Context Db) lefts left_cursor' frame0 context0 r :
  drains (map moved_from) left_cursor frame context lefts left_cursor' frame0
         context0 ->
  pulls (cached lefts [] left_cursor' right_cursor []) frame0 context0 r ->
  pulls (Cartesian.MakeCursor self left_cursor right_cursor
         : CartesianCursor) frame context r.
Proof.
  intros Hleft [Nr Hr].
  destruct (pull_left_frames_drains _ _ _ _ _ _ _ Hleft []) as [N Hcache].
  exists (Nat.max N Nr). intros n Hn. rewrite <- (Hr n ltac:(lia)).
  change (Cursor.Pull n ?s ?f ?c) with (Cartesian.Pull n s f c).
  unfold Cartesian.Pull, Cartesian.MakeCursor, cached.
  cbn [Cartesian.cartesian_pull_initialized_ Cartesian.left_op_cursor_
       Cartesian.left_op_frames_ Cartesian.right_op_frame_
       Cartesian.right_op_cursor_ Cartesian.self_ negb].
  unfold bind at 1. unfold bind at 1.
  rewrite (Hcache n ltac:(lia)). reflexivity.
Qed.

(** The rows for the cached frames still ahead, for the row of the
    right side last pulled, and what the puller hands back after the last
    of them. *)
Fixpoint later_rows (right_frame : list TypedValue)
  (ahead : list (list TypedValue)) (frame : Frame) (context : Context Db)
  : list (Frame * Context Db) * (Frame * Context Db) :=
  match ahead with
  | [] => ([], (frame, context))
  | current :: ahead' =>
      let row :=
        (Cartesian.restore_frame left_symbols current
           (Cartesian.restore_frame right_symbols right_frame frame),
         context) in
      let next := step (fst row) (snd row) in
      let '(rows, last) :=
        later_rows right_frame ahead' (fst next) (snd next) in
      (row :: rows, last)
  end.

(** The rows for one row of the right side: one for each cached frame
    of the left side, in their order. *)
Definition product (lefts : list (list TypedValue))
  (row : Frame * Context Db)
  : list (Frame * Context Db) * (Frame * Context Db) :=
  match lefts with
  | [] => ([], row)
  | first :: others =>
      let row1 :=
        (Cartesian.restore_frame left_symbols first
           (map moved_from (fst row)),
         snd row) in
      let next := step (fst row1) (snd row1) in
      let '(rows, last) := later_rows (fst row) others (fst next) (snd next) in
      (row1 :: rows, last)
  end.

Definition through_cartesian (lefts : list (list TypedValue))
  (frame : Frame) (context : Context Db) : Frame * Context Db :=
  snd (product lefts (frame, context)).

Definition product_rows (lefts : list (list TypedValue))
  (row : Frame * Context Db) : list (Frame * Context Db) :=
  fst (product lefts row).

Lemma Cartesian_later lefts right_frame (left_cursor : TLeft)
  (right_cursor : TRight) ahead :
  lefts <> [] ->
  forall frame (context : Context Db),
  yields step (cached lefts right_frame left_cursor right_cursor ahead)
         frame context
         (fst (later_rows right_frame ahead frame context))
         (cached lefts right_frame left_cursor right_cursor [])
         (fst (snd (later_rows right_frame ahead frame context)))
         (snd (snd (later_rows right_frame ahead frame context))).
Proof.
  intros Hsome. induction ahead as [|current ahead IH]; intros frame context.
  - apply yields_nil.
  - cbn [later_rows]. cbn [fst snd].
    specialize (IH
      (fst (step (Cartesian.restore_frame left_symbols current
                    (Cartesian.restore_frame right_symbols right_frame frame))
                 context))
      (snd (step (Cartesian.restore_frame left_symbols current
                    (Cartesian.restore_frame right_symbols right_frame frame))
                 context))).
    destruct (later_rows right_frame ahead _ _) as [rows last].
    cbn [fst snd] in *.
    eapply yields_row; [|exact IH].
    exists 0%nat. intros n _.
    change (Cursor.Pull n ?s ?f ?c) with (Cartesian.Pull n s f c).
    unfold Cartesian.Pull, cached.
    cbn [Cartesian.cartesian_pull_initialized_ Cartesian.left_op_cursor_
         Cartesian.left_op_frames_ Cartesian.right_op_frame_
         Cartesian.right_op_cursor_ Cartesian.self_
         Cartesian.left_op_frames_it_ negb].
    destruct lefts; [contradiction|reflexivity].
Qed.

Lemma Cartesian_cached lefts (left_cursor : TLeft) (right_cursor : TRight)
  frame (context : Context Db) rows right_cursor' frame' context' :
  lefts <> [] ->
  feeds (through_cartesian lefts) right_cursor frame context rows
        right_cursor' frame' context' ->
  forall right_frame,
  exists right_frame',
    feeds step (cached lefts right_frame left_cursor right_cursor [])
          frame context
          (concat (map (product_rows lefts) rows))
          (cached lefts right_frame' left_cursor right_cursor' [])
          frame' context'.
Proof.
  intros Hsome.
  induction 1 as [s f c s' f' c' [N Hdone]
                 |s f c s1 f1 c1 rows s' f' c' [N Hrow] _ IH];
    intros right_frame.
  - exists right_frame. apply feeds_done. exists N. intros n Hn.
    change (Cursor.Pull n ?s ?f ?c) with (Cartesian.Pull n s f c).
    unfold Cartesian.Pull, cached.
    cbn [Cartesian.cartesian_pull_initialized_ Cartesian.left_op_cursor_
         Cartesian.left_op_frames_ Cartesian.right_op_frame_
         Cartesian.right_op_cursor_ Cartesian.self_
         Cartesian.left_op_frames_it_ negb].
    destruct lefts as [|first others]; [contradiction|].
    unfold bind at 1. unfold ret at 1. cbn iota beta.
    cbn [Cartesian.cartesian_pull_initialized_ Cartesian.left_op_cursor_
         Cartesian.left_op_frames_ Cartesian.right_op_frame_
         Cartesian.right_op_cursor_ Cartesian.self_
         Cartesian.left_op_frames_it_ negb].
    rewrite (bind_Ok _ _ _ _ _ (Hdone n Hn)). reflexivity.
  - destruct (IH f1) as [right_frame' IH']. exists right_frame'.
    cbn [map concat]. unfold product_rows at 1.
    unfold through_cartesian in IH'.
    destruct lefts as [|first others] eqn:Hlefts; [contradiction|].
    rewrite <- Hlefts in *.
    assert (Hproduct :
      product lefts (f1, c1) =
      let row1 :=
        (Cartesian.restore_frame left_symbols first (map moved_from f1), c1) in
      let next := step (fst row1) (snd row1) in
      let '(rows, last) := later_rows f1 others (fst next) (snd next) in
      (row1 :: rows, last)) by (rewrite Hlefts; reflexivity).
    rewrite Hproduct in *. cbn zeta in *. cbn [fst snd] in *.
    pose proof (Cartesian_later lefts f1 left_cursor s1 others Hsome
      (fst (step (Cartesian.restore_frame left_symbols first
                    (map moved_from f1)) c1))
      (snd (step (Cartesian.restore_frame left_symbols first
                    (map moved_from f1)) c1))) as Hlater.
    destruct (later_rows f1 others _ _) as [later last].
    cbn [fst snd] in *. cbn [app].
    eapply feeds_row.
    + exists N. intros n Hn.
      change (Cursor.Pull n ?s ?f ?c) with (Cartesian.Pull n s f c).
      unfold Cartesian.Pull, cached.
      cbn [Cartesian.cartesian_pull_initialized_ Cartesian.left_op_cursor_
           Cartesian.left_op_frames_ Cartesian.right_op_frame_
           Cartesian.right_op_cursor_ Cartesian.self_
           Cartesian.left_op_frames_it_ negb].
      rewrite Hlefts.
      unfold bind at 1. unfold ret at 1. cbn iota beta.
      cbn [Cartesian.cartesian_pull_initialized_ Cartesian.left_op_cursor_
           Cartesian.left_op_frames_ Cartesian.right_op_frame_
           Cartesian.right_op_cursor_ Cartesian.self_
           Cartesian.left_op_frames_it_ negb].
      rewrite (bind_Ok _ _ _ _ _ (Hrow n Hn)). reflexivity.
    + eapply yields_feeds; [exact Hlater|exact IH'].
Qed.

(** [Cartesian] first pulls its left side to exhaustion.  Then, for
    every row of its right side in turn, it produces one row for each
    frame of the left side, in the order the left side produced them, with
    the left symbols restored from that frame.  The right side is pulled
    once per group of rows. *)
Theorem Cartesian_rows (left_cursor : TLeft) (right_cursor : TRight) frame
  (context : Context Db) lefts left_cursor' frame0 context0 rows
  right_cursor' frame' context' :
  drains (map moved_from) left_cursor frame context lefts left_cursor' frame0
         context0 ->
  lefts <> [] ->
  feeds (through_cartesian lefts) right_cursor frame0 context0 rows
        right_cursor' frame' context' ->
  exists right_frame,
    feeds step (Cartesian.MakeCursor self left_cursor right_cursor
                : CartesianCursor) frame context
          (concat (map (product_rows lefts) rows))
          (cached lefts right_frame left_cursor' right_cursor' [])
          frame' context'.
Proof.
  intros Hleft Hsome Hright.
  destruct (Cartesian_cached lefts left_cursor' right_cursor frame0 context0
              rows right_cursor' frame' context' Hsome Hright [])
    as [right_frame Hfeeds].
  exists right_frame. eapply feeds_head; [|exact Hfeeds].
  intros r. apply Cartesian_first_pull. exact Hleft.
Qed.

(** When the left side has no row, [Cartesian] produces none and does
    not pull its right side, at the first pull or later. *)
Theorem Cartesian_empty_left (left_cursor : TLeft) (right_cursor : TRight)
  frame (context : Context Db) left_cursor' frame0 context0 :
  pulls left_cursor frame context (Ok (false, left_cursor', frame0) context0) ->
  pulls (Cartesian.MakeCursor self left_cursor right_cursor
         : CartesianCursor) frame context
        (Ok (false, cached [] [] left_cursor' right_cursor [], frame0)
            context0) /\
  forall frame1 (context1 : Context Db),
    pulls (cached [] [] left_cursor' right_cursor []) frame1 context1
          (Ok (false, cached [] [] left_cursor' right_cursor [], frame1)
              context1).
Proof.
  intros Hleft.
  assert (Hlater : forall frame1 (context1 : Context Db),
            pulls (cached [] [] left_cursor' right_cursor []) frame1 context1
                  (Ok (false, cached [] [] left_cursor' right_cursor [],
                       frame1) context1)).
  { intros frame1 context1. exists 0%nat. intros n _. reflexivity. }
  split; [|exact Hlater].
  apply (Cartesian_first_pull left_cursor right_cursor frame context []
           left_cursor' frame0 context0).
  - apply drains_done. exact Hleft.
  - apply Hlater.
Qed.

End CartesianRows.

(** [Cartesian_rows] at a concrete input: the left side gives 1 and 2
    at [a], the right side 5 and 6 at [b]. *)
Lemma Cartesian_rows_witness :
  let a := mkSymbol "a" 0 in
  let b := mkSymbol "b" 1 in
  let self := Cartesian.mkCartesian [a] [b] in
  let left_source := Unwind.mkUnwind (Fixture.literal Null) a in
  let right_source := Unwind.mkUnwind (Fixture.literal Null) b in
  let start := Fixture.start Fixture.empty_graph in
  exists right_frame,
    feeds hand_back
          (Cartesian.MakeCursor self (replay left_source [Int 1; Int 2])
                                (replay right_source [Int 5; Int 6]))
          [Null; Null] start
          [([Int 1; Int 5], start); ([Int 2; Int 5], start);
           ([Int 1; Int 6], start); ([Int 2; Int 6], start)]
          (cached self [[Int 1; Null]; [Int 2; Null]] right_frame
             (Unwind.mkUnwindCursor left_source (Once.mkOnceCursor true)
                                    [Int 1; Int 2] [])
             (Unwind.mkUnwindCursor right_source (Once.mkOnceCursor true)
                                    [Int 5; Int 6] [])
             [])
          [Int 2; Int 6] start.
Proof.
  intros a b self left_source right_source start.
  pose proof (feeds_drains
                (T := @Unwind.UnwindCursor Fixture.Graph Once.OnceCursor)
                (map moved_from) _ _ _ _ _ _ _
                (replay_feeds left_source
                   (fun frame context => (map moved_from frame, context))
                   (fun frame context Hcalm => Hcalm)
                   [Int 1; Int 2] [Null; Null] start eq_refl)) as Hleft.
  exact (Cartesian_rows self hand_back
           (replay left_source [Int 1; Int 2])
           (replay right_source [Int 5; Int 6])
           [Null; Null] start [[Int 1; Null]; [Int 2; Null]]
           _ _ _ _ _ _ _ Hleft ltac:(discriminate)
           (replay_feeds right_source
              (through_cartesian self hand_back
                                 [[Int 1; Null]; [Int 2; Null]])
              (fun frame context Hcalm => Hcalm)
              [Int 5; Int 6] [Int 2; Null] start eq_refl)).
Defined.

(** [Cartesian_empty_left] at a concrete input: the left side is a
    filter on [false]. *)
Lemma Cartesian_empty_left_witness :
  let a := mkSymbol "a" 0 in
  let b := mkSymbol "b" 1 in
  let self := Cartesian.mkCartesian [a] [b] in
  let never := Filter.mkFilter (Fixture.literal (Bool false)) in
  let right_source := Unwind.mkUnwind (Fixture.literal Null) b in
  let right_cursor := replay right_source [Int 5; Int 6] in
  pulls (Cartesian.MakeCursor self
           (Filter.MakeCursor never (@Once.MakeCursor)) right_cursor)
        [Null; Null] (Fixture.start Fixture.empty_graph)
        (Ok (false,
             cached self [] []
               (Filter.mkFilterCursor never (Once.mkOnceCursor true))
               right_cursor [],
             [Null; Null])
            (mkContext Fixture.empty_graph [Fixture.literal (Bool false)]
                       [] [])).
Proof.
  intros a b self never right_source right_cursor.
  refine (proj1 (Cartesian_empty_left self
                   (Filter.MakeCursor never (@Once.MakeCursor)) right_cursor
                   [Null; Null] (Fixture.start Fixture.empty_graph)
                   (Filter.mkFilterCursor never (Once.mkOnceCursor true))
                   [Null; Null]
                   (mkContext Fixture.empty_graph
                              [Fixture.literal (Bool false)] [] [])
                   _)).
  run_fuel 3%nat.
Defined.

(** ** Synchronize: failures at the barrier *)

Section SynchronizeFailures.
Context {Db : Type} `{!GraphDbAccessor Db} `{!DistributedGraphDb Db}.
Context `{!TypedValueOps}.
Context {TInput : Type} `{!Cursor.Cursor Db TInput}.
Context {TPullRemote : Type} `{!Cursor.Cursor Db TPullRemote}.
Variable self : Synchronize.Synchronize.

Local Abbreviation SynchronizeCursor :=
  (@Synchronize.SynchronizeCursor TInput TPullRemote).

(** A loop of checks fails at the first element that fails, the earlier
    ones having changed nothing. *)
Lemma forM__first_failure {A} (f : A -> M Db unit) passed failed rest e
  (context : Context Db) :
  Forall (fun x => f x context = Ok tt context) passed ->
  f failed context = Throw e context ->
  forM_ f (passed ++ failed :: rest) context = Throw e context.
Proof.
  intros Hpassed Hfailed.
  induction Hpassed as [|x passed Hx _ IH]; cbn [app forM_].
  - unfold bind. rewrite Hfailed. reflexivity.
  - unfold bind at 1. rewrite Hx. exact IH.
Qed.

Lemma forM__all_pass {A} (f : A -> M Db unit) passed
  (context : Context Db) :
  Forall (fun x => f x context = Ok tt context) passed ->
  forM_ f passed context = Ok tt context.
Proof.
  induction 1 as [|x passed Hx _ IH]; cbn [forM_]; [reflexivity|].
  unfold bind at 1. rewrite Hx. exact IH.
Qed.

Lemma check_accumulation_outcome state (context : Context Db) :
  (state = RemotePullState.CURSOR_EXHAUSTED /\
   Synchronize.check_accumulation state context = Ok tt context) \/
  (state <> RemotePullState.CURSOR_EXHAUSTED /\
   exists e, Synchronize.check_accumulation state context = Throw e context).
Proof.
  destruct state; [left; split; reflexivity|..];
    right; (split; [discriminate|eexists; reflexivity]).
Qed.

Lemma check_apply_outcome result (context : Context Db) :
  (result = RemoteUpdateResult.DONE /\
   Synchronize.check_apply result context = Ok tt context) \/
  (result <> RemoteUpdateResult.DONE /\
   exists e, Synchronize.check_apply result context = Throw e context).
Proof.
  destruct result; [left; split; reflexivity|..];
    right; (split; [discriminate|eexists; reflexivity]).
Qed.

(** The first pull, up to the barrier. *)
Lemma Synchronize_to_barrier (input : TInput) pull_remote frame
  (context : Context Db) rows input' frame' context1 e context2 :
  let this := Synchronize.MakeCursor self input pull_remote in
  let workers :=
    Synchronize.accumulating_workers this (db_accessor_ context) in
  drains (map moved_from) input frame (announced workers context) rows
         input' frame' context1 ->
  Synchronize.await_and_apply self workers context1 = Throw e context2 ->
  pulls (this : SynchronizeCursor) frame context (Throw e context2).
Proof.
  intros this workers Hdrains Hbarrier.
  destruct (accumulate_local_drains _ _ _ _ _ _ _ Hdrains []) as [N Hlocal].
  exists N. intros n Hn.
  change (Cursor.Pull n ?s ?f ?c) with (Synchronize.Pull n s f c).
  unfold Synchronize.Pull at 1. subst this. unfold Synchronize.MakeCursor.
  cbn [Synchronize.initial_pull_done_ negb Synchronize.self_
       Synchronize.pull_remote_cursor_].
  unfold bind at 1. unfold bind at 1. unfold Synchronize.InitialPull.
  unfold bind at 1. unfold get_db at 1.
  unfold bind at 1. rewrite announce_workers.
  unfold bind at 1.
  cbn [Synchronize.input_cursor_ Synchronize.local_frames_].
  fold (Synchronize.MakeCursor self input pull_remote).
  rewrite Hlocal by lia. cbn iota beta.
  unfold bind at 1. cbn [Synchronize.self_].
  change (Synchronize.await_and_apply _ _ context1)
    with (Synchronize.await_and_apply self workers context1).
  rewrite Hbarrier. reflexivity.
Qed.

(** When a worker reports anything but an exhausted cursor for its
    accumulation, the workers asked before it having reported exhaustion,
    the first pull of [Synchronize] fails with the error of that report
    once its own input is drained: the command is not advanced and no
    deferred update is applied, here or on the workers. *)
Theorem Synchronize_accumulation_failure (input : TInput) pull_remote frame
  (context : Context Db) rows input' frame' context1 reached failed rest :
  let this := Synchronize.MakeCursor self input pull_remote in
  let workers :=
    Synchronize.accumulating_workers this (db_accessor_ context) in
  drains (map moved_from) input frame (announced workers context) rows
         input' frame' context1 ->
  workers = reached ++ failed :: rest ->
  Forall (fun worker_id =>
            RemotePull_accumulate (db_accessor_ context1) worker_id =
            RemotePullState.CURSOR_EXHAUSTED) reached ->
  RemotePull_accumulate (db_accessor_ context1) failed <>
    RemotePullState.CURSOR_EXHAUSTED ->
  exists e,
    Synchronize.check_accumulation
      (RemotePull_accumulate (db_accessor_ context1) failed) context1 =
      Throw e context1 /\
    pulls (this : SynchronizeCursor) frame context (Throw e context1).
Proof.
  intros this workers Hdrains Hworkers Hreached Hfailed.
  destruct (check_accumulation_outcome
              (RemotePull_accumulate (db_accessor_ context1) failed) context1)
    as [[Hdone _]|[_ [e He]]]; [contradiction|].
  exists e. split; [exact He|].
  apply (Synchronize_to_barrier input pull_remote frame context rows input'
           frame' context1 e context1 Hdrains).
  fold this. fold workers. rewrite Hworkers.
  unfold Synchronize.await_and_apply.
  unfold bind at 1. unfold get_db at 1. apply bind_Throw.
  apply forM__first_failure; [|exact He].
  eapply List.Forall_impl; [|exact Hreached].
  intros worker_id Hworker. cbn beta. rewrite Hworker. reflexivity.
Qed.

(** The context in which the results of the apply-all broadcast are
    looked at: the command advanced, if it is to be, and the deferred
    updates applied here. *)
Definition applying (context : Context Db) : Context Db :=
  let advanced :=
    if Synchronize.advance_command_ self then
      mkContext (AdvanceCommand (db_accessor_ context)) (eval_log context)
                (db_log context ++ [CallAdvanceCommand])
                (future_ready context)
    else context in
  mkContext (updates_server_Apply (db_accessor_ advanced))
            (eval_log advanced)
            (db_log advanced ++
             [CallRemoteUpdateApplyAll; CallUpdatesServerApply])
            (future_ready advanced).

Definition apply_futures (context : Context Db)
  : list RemoteUpdateResult.t :=
  RemoteUpdateApplyAll
    (if Synchronize.advance_command_ self
     then AdvanceCommand (db_accessor_ context)
     else db_accessor_ context).

(** When every worker has reported exhaustion and a worker then reports
    a failure for the apply of its deferred updates, the first pull of
    [Synchronize] fails with the error of that report, after the updates
    have been applied here and the command advanced; the workers are not
    told of the advance. *)
Theorem Synchronize_apply_failure (input : TInput) pull_remote frame
  (context : Context Db) rows input' frame' context1 applied failed rest :
  let this := Synchronize.MakeCursor self input pull_remote in
  let workers :=
    Synchronize.accumulating_workers this (db_accessor_ context) in
  drains (map moved_from) input frame (announced workers context) rows
         input' frame' context1 ->
  Forall (fun worker_id =>
            RemotePull_accumulate (db_accessor_ context1) worker_id =
            RemotePullState.CURSOR_EXHAUSTED) workers ->
  apply_futures context1 = applied ++ failed :: rest ->
  Forall (fun result => result = RemoteUpdateResult.DONE) applied ->
  failed <> RemoteUpdateResult.DONE ->
  exists e,
    Synchronize.check_apply failed (applying context1) =
      Throw e (applying context1) /\
    pulls (this : SynchronizeCursor) frame context
          (Throw e (applying context1)).
Proof.
  intros this workers Hdrains Hworkers Hfutures Happlied Hfailed.
  destruct (check_apply_outcome failed (applying context1))
    as [[Hdone _]|[_ [e He]]]; [contradiction|].
  exists e. split; [exact He|].
  apply (Synchronize_to_barrier input pull_remote frame context rows input'
           frame' context1 e (applying context1) Hdrains).
  fold this. fold workers.
  unfold Synchronize.await_and_apply.
  unfold bind at 1. unfold get_db at 1.
  assert (Hpassed :
    forM_ (fun worker_id =>
             Synchronize.check_accumulation
               (RemotePull_accumulate (db_accessor_ context1) worker_id))
          workers context1 = Ok tt context1).
  { apply forM__all_pass. eapply List.Forall_impl; [|exact Hworkers].
    intros worker_id Hworker. cbn beta. rewrite Hworker. reflexivity. }
  rewrite (bind_Ok _ _ _ _ _ Hpassed).
  assert (Hloop : forall context2 : Context Db,
            Synchronize.check_apply failed context2 = Throw e context2 ->
            forM_ Synchronize.check_apply (applied ++ failed :: rest)
                  context2 = Throw e context2).
  { intros context2 He2. apply forM__first_failure; [|exact He2].
    eapply List.Forall_impl; [|exact Happlied].
    intros result ->. reflexivity. }
  unfold apply_futures in Hfutures. unfold applying in *.
  destruct (Synchronize.advance_command_ self).
  - unfold db_AdvanceCommand, log_call, get_db, set_db, bind.
    cbn [db_accessor_ eval_log db_log future_ready].
    rewrite Hfutures. rewrite <- app_assoc. cbn [app].
    cbn [db_accessor_ eval_log db_log future_ready] in He.
    rewrite (Hloop _ He). reflexivity.
  - unfold log_call, get_db, set_db, bind, ret.
    cbn [db_accessor_ eval_log db_log future_ready].
    rewrite Hfutures. rewrite <- app_assoc. cbn [app].
    cbn [db_accessor_ eval_log db_log future_ready] in He.
    rewrite (Hloop _ He). reflexivity.
Qed.

End SynchronizeFailures.

Section Troubled.

(** A master with two workers; the second worker reports a lock timeout
    for its accumulation, and the apply-all broadcast a serialization
    error after a success. *)
#[local] Instance Troubled_Distributed : DistributedGraphDb Fixture.Graph := {|
  GetWorkerIds _ := [0; 1; 2]%nat;
  RemotePull_accumulate _ worker_id :=
    if Nat.eqb worker_id 2 then RemotePullState.LOCK_TIMEOUT_ERROR
    else RemotePullState.CURSOR_EXHAUSTED;
  RemoteUpdateApplyAll _ :=
    [RemoteUpdateResult.DONE; RemoteUpdateResult.SERIALIZATION_ERROR];
  updates_server_Apply g := g
|}.

(** [Synchronize_accumulation_failure] at a concrete input: the pull
    fails with the lock timeout, the one row of the input buffered and
    nothing applied. *)
Lemma Synchronize_accumulation_failure_witness :
  let self := Synchronize.mkSynchronize true in
  let this :=
    Synchronize.MakeCursor self (@Once.MakeCursor)
                           (Some (@Once.MakeCursor)) in
  pulls this [Null] (Fixture.start Fixture.empty_graph)
        (Throw (LockTimeoutException
                  "Failed to perform remote accumulate due to LockTimeoutException")
               (mkContext Fixture.empty_graph []
                          [CallRemotePullAccumulate 1;
                           CallRemotePullAccumulate 2] [])).
Proof.
  intros self this.
  destruct (Synchronize_accumulation_failure self (@Once.MakeCursor)
              (Some (@Once.MakeCursor)) [Null]
              (Fixture.start Fixture.empty_graph) [[Null]]
              (Once.mkOnceCursor true) [Null]
              (mkContext Fixture.empty_graph []
                         [CallRemotePullAccumulate 1;
                          CallRemotePullAccumulate 2] [])
              [1%nat] 2%nat [])
    as (e & He & Hpull).
  - eapply drains_row; [run_fuel 1%nat|]. apply drains_done. run_fuel 1%nat.
  - reflexivity.
  - repeat constructor.
  - discriminate.
  - cbn in He. injection He as <-. exact Hpull.
Defined.

(** [Synchronize_apply_failure] at a concrete input, without a remote
    pull: the pull fails with the serialization error, the command
    advanced and the updates applied here. *)
Lemma Synchronize_apply_failure_witness :
  let self := Synchronize.mkSynchronize true in
  let this :=
    Synchronize.MakeCursor self (@Once.MakeCursor)
                           (None : option Once.OnceCursor) in
  pulls this [Null] (Fixture.start Fixture.empty_graph)
        (Throw (SerializationError
                  "Failed to apply deferred updates due to SerializationError")
               (mkContext Fixture.empty_graph []
                          [CallAdvanceCommand; CallRemoteUpdateApplyAll;
                           CallUpdatesServerApply] [])).
Proof.
  intros self this.
  destruct (Synchronize_apply_failure self (@Once.MakeCursor)
              (None : option Once.OnceCursor) [Null]
              (Fixture.start Fixture.empty_graph) [[Null]]
              (Once.mkOnceCursor true) [Null]
              (Fixture.start Fixture.empty_graph)
              [RemoteUpdateResult.DONE] RemoteUpdateResult.SERIALIZATION_ERROR
              [])
    as (e & He & Hpull).
  - eapply drains_row; [run_fuel 1%nat|]. apply drains_done. run_fuel 1%nat.
  - constructor.
  - reflexivity.
  - repeat constructor.
  - discriminate.
  - cbn in He. injection He as <-. exact Hpull.
Defined.

End Troubled.

(** ** ScanAll *)

Section ScanAllRows.
Context {Db : Type} `{!GraphDbAccessor Db}.
Context {TInput : Type} `{!Cursor.Cursor Db TInput}.
Variable output_symbol : Symbol.
Variable graph_view : GraphView.
Variable step : Frame -> Context Db -> Frame * Context Db.

(** The abort hint stays as it is through [step]. *)
Hypothesis Hstep :
  forall frame context, calm context -> calm (snd (step frame context)).

(** The lambda of [ScanAll::MakeCursor]. *)
Definition get_vertices (frame : Frame) : M Db (list VertexAccessor) :=
  db <- get_db ;;
  ret (Vertices db (match graph_view with NEW => true | _ => false end)).

(** The vertices the scan finds for a row of its input. *)
Definition scan_vertices (context : Context Db) : list VertexAccessor :=
  Vertices (db_accessor_ context)
           (match graph_view with NEW => true | _ => false end).

(** The rows for the vertices still ahead, and the frame and context in
    which the next row of the input is asked for. *)
Fixpoint scanned (vertices : list VertexAccessor) (frame : Frame)
  (context : Context Db)
  : list (Frame * Context Db) * (Frame * Context Db) :=
  match vertices with
  | [] => ([], (frame, context))
  | vertex :: rest =>
      let row := (frame_set output_symbol (Vertex vertex) frame, context) in
      let next := step (fst row) (snd row) in
      let '(rows, last) := scanned rest (fst next) (snd next) in
      (row :: rows, last)
  end.

Definition through_scan (frame : Frame) (context : Context Db)
  : Frame * Context Db :=
  snd (scanned (scan_vertices context) frame context).

Definition scanned_rows (row : Frame * Context Db)
  : list (Frame * Context Db) :=
  fst (scanned (scan_vertices (snd row)) (fst row) (snd row)).

Lemma get_vertices_Ok frame (context : Context Db) :
  get_vertices frame context = Ok (scan_vertices context) context.
Proof. reflexivity. Qed.

Lemma scanned_calm vertices :
  forall frame context,
    calm context -> calm (snd (snd (scanned vertices frame context))).
Proof.
  induction vertices as [|vertex rest IH]; intros frame context Hcalm.
  - exact Hcalm.
  - cbn [scanned].
    specialize (IH
      (fst (step (frame_set output_symbol (Vertex vertex) frame) context))
      (snd (step (frame_set output_symbol (Vertex vertex) frame) context))
      (Hstep _ _ Hcalm)).
    cbn [fst snd]. destruct (scanned rest _ _) as [rows last].
    exact IH.
Qed.

(** The cursor with the given vertices found and the given ones ahead. *)
Definition scanning (input : TInput) (found ahead : list VertexAccessor)
  : @ScanAll.ScanAllCursor Db TInput :=
  ScanAll.mkScanAllCursor output_symbol input get_vertices (Some found)
                          (Some ahead).

Lemma ScanAll_ahead (input : TInput) found ahead :
  forall frame context,
  calm context ->
  yields step (scanning input found ahead) frame context
         (fst (scanned ahead frame context))
         (scanning input found [])
         (fst (snd (scanned ahead frame context)))
         (snd (snd (scanned ahead frame context))).
Proof.
  induction ahead as [|vertex rest IH]; intros frame context Hcalm.
  - apply yields_nil.
  - cbn [scanned].
    specialize (IH
      (fst (step (frame_set output_symbol (Vertex vertex) frame) context))
      (snd (step (frame_set output_symbol (Vertex vertex) frame) context))
      (Hstep _ _ Hcalm)).
    cbn [fst snd]. destruct (scanned rest _ _) as [rows last].
    cbn [fst snd] in *.
    eapply yields_row; [|exact IH].
    exists 0%nat. intros n _.
    change (Cursor.Pull n ?s ?f ?c) with (ScanAll.Pull n s f c).
    unfold ScanAll.Pull.
    rewrite (bind_Ok _ _ _ _ _ (check_abort_calm _ Hcalm)).
    reflexivity.
Qed.

(** [ScanAll] produces, for every row of its input in turn, one row per
    vertex of the graph as the chosen view has it when the row is pulled,
    in the order of the accessor, the vertex at the output symbol.  The
    rows are those of inputs for which there is a vertex, pulled while no
    abort is asked for. *)
Theorem ScanAll_rows (input : TInput) frame context rows input' frame'
  context' :
  feeds through_scan input frame context rows input' frame' context' ->
  Forall (fun row => scan_vertices (snd row) <> []) rows ->
  Forall (fun row => calm (snd row)) rows ->
  calm context ->
  exists this',
    feeds step (ScanAll.MakeCursor output_symbol graph_view input)
          frame context
          (concat (map scanned_rows rows))
          this' frame' context' /\
    ScanAll.input_cursor_ this' = input'.
Proof.
  intros Hfeeds Hsome Hcalms Hcalm.
  assert (Hgeneral :
    forall vertices vertices_it,
    ScanAll.at_end
      (ScanAll.mkScanAllCursor output_symbol input get_vertices vertices
                               vertices_it) = true ->
    exists this',
      feeds step
            (ScanAll.mkScanAllCursor output_symbol input get_vertices
                                     vertices vertices_it)
            frame context (concat (map scanned_rows rows))
            this' frame' context' /\
      ScanAll.input_cursor_ this' = input').
  { induction Hfeeds as [s f c s' f' c' [N Hdone]
                        |s f c s1 f1 c1 rows s' f' c' [N Hrow] Hrest IH];
      intros vertices vertices_it Hend.
    - eexists. split.
      + apply feeds_done. exists N. intros n Hn.
        change (Cursor.Pull n ?s ?f ?c) with (ScanAll.Pull n s f c).
        unfold ScanAll.Pull.
        rewrite (bind_Ok _ _ _ _ _ (check_abort_calm _ Hcalm)).
        rewrite Hend.
        cbn [ScanAll.input_cursor_ ScanAll.output_symbol_
             ScanAll.get_vertices_ ScanAll.vertices_ ScanAll.vertices_it_].
        unfold bind at 1. unfold bind at 1.
        rewrite (Hdone n Hn). reflexivity.
      + reflexivity.
    - inversion Hsome as [|row rows' Hfound Hsome']; subst.
      inversion Hcalms as [|row rows' Hcalm1 Hcalms']; subst.
      cbn [fst snd] in Hfound, Hcalm1.
      unfold through_scan in IH. cbn [map concat].
      unfold scanned_rows at 1. cbn [fst snd].
      destruct (scan_vertices c1) as [|vertex rest] eqn:Hvertices;
        [contradiction|].
      cbn [scanned fst snd] in *.
      pose proof (ScanAll_ahead s1 (vertex :: rest) rest
        (fst (step (frame_set output_symbol (Vertex vertex) f1) c1))
        (snd (step (frame_set output_symbol (Vertex vertex) f1) c1))
        (Hstep _ _ Hcalm1)) as Hahead.
      pose proof (scanned_calm rest
        (fst (step (frame_set output_symbol (Vertex vertex) f1) c1))
        (snd (step (frame_set output_symbol (Vertex vertex) f1) c1))
        (Hstep _ _ Hcalm1)) as Hlast.
      destruct (scanned rest _ _) as [rest_rows last]. cbn [fst snd] in *.
      destruct (IH Hsome' Hcalms' Hlast (Some (vertex :: rest)) (Some []))
        as (this' & IH' & Hinput); [reflexivity|].
      exists this'. split; [|exact Hinput]. cbn [app].
      eapply feeds_row.
      + exists N. intros n Hn.
        change (Cursor.Pull n ?s ?f ?c) with (ScanAll.Pull n s f c).
        unfold ScanAll.Pull.
        rewrite (bind_Ok _ _ _ _ _ (check_abort_calm _ Hcalm)).
        rewrite Hend.
        cbn [ScanAll.input_cursor_ ScanAll.output_symbol_
             ScanAll.get_vertices_ ScanAll.vertices_ ScanAll.vertices_it_].
        unfold bind at 1. unfold bind at 1.
        rewrite (Hrow n Hn). cbn iota beta. cbn [negb].
        unfold bind at 1. rewrite get_vertices_Ok, Hvertices. reflexivity.
      + eapply yields_feeds; [exact Hahead|exact IH']. }
  apply (Hgeneral None None). reflexivity.
Qed.

End ScanAllRows.

(** [ScanAll_rows] at a concrete input: the two vertices of the ring,
    for the one row of [Once]. *)
Lemma ScanAll_rows_witness :
  let start := Fixture.start ring in
  exists this',
    feeds hand_back
          (ScanAll.MakeCursor Sample.n OLD (@Once.MakeCursor))
          [Null] start
          [([Vertex (Sample.vertex 0)], start);
           ([Vertex (Sample.vertex 1)], start)]
          this' [Vertex (Sample.vertex 1)] start /\
    ScanAll.input_cursor_ this' = Once.mkOnceCursor true.
Proof.
  intros start.
  refine (ScanAll_rows Sample.n OLD hand_back hand_back_calm
            (@Once.MakeCursor) [Null] start [([Null], start)]
            (Once.mkOnceCursor true) [Vertex (Sample.vertex 1)] start
            (feeds_row _ _ _ _ (Once.mkOnceCursor true) [Null] start _ _ _ _
                       _ (feeds_done _ _ _ _ _ _ _ _))
            _ _ eq_refl).
  - run_fuel 1%nat.
  - run_fuel 1%nat.
  - repeat constructor. discriminate.
  - repeat constructor.
Defined.

(** ** Expand *)

Section ExpandRows.
Import ExpandCommon.
Context {Db : Type} `{!GraphDbAccessor Db}.
Context {TInput : Type} `{!Cursor.Cursor Db TInput}.
Variable self : ExpandCommon.
Variable step : Frame -> Context Db -> Frame * Context Db.

(** The puller leaves the database as it is. *)
Hypothesis Hstep :
  forall frame context,
    db_accessor_ (snd (step frame context)) = db_accessor_ context.

(** The node symbol is not bound yet. *)
Hypothesis Hnew : existing_node_ self = false.

Local Abbreviation ExpandCursor := (@Expand.ExpandCursor TInput).

(** In both directions an edge from a vertex to itself is taken once,
    as an incoming edge. *)
Definition skipped (edge : EdgeAccessor) : bool :=
  match direction_ self with
  | EdgeAtom.BOTH => is_cycle edge
  | _ => false
  end.

Definition ahead (edges edges_it : option (list EdgeAccessor))
  : list EdgeAccessor :=
  match Expand.next_edge edges edges_it with
  | Some (edge, rest) => edge :: rest
  | None => []
  end.

(** The expansions still ahead of the cursor: the incoming edges, then
    the outgoing ones. *)
Definition expansions (ins outs : list EdgeAccessor)
  : list (EdgeAccessor * EdgeAtom.Direction) :=
  map (fun edge => (edge, EdgeAtom.IN)) ins ++
  map (fun edge => (edge, EdgeAtom.OUT))
      (List.filter (fun edge => negb (skipped edge)) outs).

Definition items (this : ExpandCursor)
  : list (EdgeAccessor * EdgeAtom.Direction) :=
  expansions (ahead (Expand.in_edges_ this) (Expand.in_edges_it_ this))
             (ahead (Expand.out_edges_ this) (Expand.out_edges_it_ this)).

(** The frame of the row for an expansion. *)
Definition row_frame (item : EdgeAccessor * EdgeAtom.Direction)
  (frame : Frame) : Frame :=
  Expand.pull_node self (fst item) (snd item)
    (frame_set (edge_symbol_ self) (Edge (fst item)) frame).

(** The rows for the expansions, and the frame and context in which the
    next row of the input is asked for. *)
Fixpoint expanded (todo : list (EdgeAccessor * EdgeAtom.Direction))
  (frame : Frame) (context : Context Db)
  : list (Frame * Context Db) * (Frame * Context Db) :=
  match todo with
  | [] => ([], (frame, context))
  | item :: rest =>
      let row := (row_frame item frame, context) in
      let next := step (fst row) (snd row) in
      let '(rows, last) := expanded rest (fst next) (snd next) in
      (row :: rows, last)
  end.

Lemma expanded_db todo :
  forall frame context,
    db_accessor_ (snd (snd (expanded todo frame context))) =
    db_accessor_ context.
Proof.
  induction todo as [|item rest IH]; intros frame context; [reflexivity|].
  cbn [expanded]. cbn [fst snd].
  specialize (IH (fst (step (row_frame item frame) context))
                 (snd (step (row_frame item frame) context))).
  destruct (expanded rest _ _) as [rows last]. cbn [snd] in *.
  rewrite IH. apply Hstep.
Qed.

(** A cursor of this operator with nothing pending from other workers. *)
Definition settled (this : ExpandCursor) : Prop :=
  Expand.self_ this = self /\
  Expand.future_expands_ this = [] /\
  Expand.last_frame_ this = [].

Definition all_local (context : Context Db)
  (todo : list (EdgeAccessor * EdgeAtom.Direction)) : Prop :=
  Forall (fun item => Expand.is_local (db_accessor_ context) (fst item) = true)
         todo.

(** The head of a pull of a settled cursor. *)
Lemma Expand_Pull_settled n (this : ExpandCursor) frame
  (context : Context Db) :
  settled this -> calm context ->
  Expand.Pull (S n) this frame context =
  match Expand.next_edge (Expand.in_edges_ this) (Expand.in_edges_it_ this)
  with
  | Some (edge, rest) =>
      if Expand.is_local (db_accessor_ context) edge then
        Ok (true,
            Expand.mkExpandCursor self (Expand.input_cursor_ this)
              (Expand.in_edges_ this) (Some rest) (Expand.out_edges_ this)
              (Expand.out_edges_it_ this) [] [],
            row_frame (edge, EdgeAtom.IN) frame) context
      else
        Expand.Pull n
          (Expand.mkExpandCursor self (Expand.input_cursor_ this)
             (Expand.in_edges_ this) (Some rest) (Expand.out_edges_ this)
             (Expand.out_edges_it_ this)
             [Expand.push_future_edge edge EdgeAtom.IN frame] [])
          frame context
  | None =>
      match Expand.next_edge (Expand.out_edges_ this)
                             (Expand.out_edges_it_ this) with
      | Some (edge, rest) =>
          if skipped edge then
            Expand.Pull n
              (Expand.mkExpandCursor self (Expand.input_cursor_ this)
                 (Expand.in_edges_ this) (Expand.in_edges_it_ this)
                 (Expand.out_edges_ this) (Some rest) [] [])
              frame context
          else if Expand.is_local (db_accessor_ context) edge then
            Ok (true,
                Expand.mkExpandCursor self (Expand.input_cursor_ this)
                  (Expand.in_edges_ this) (Expand.in_edges_it_ this)
                  (Expand.out_edges_ this) (Some rest) [] [],
                row_frame (edge, EdgeAtom.OUT) frame) context
          else
            Expand.Pull n
              (Expand.mkExpandCursor self (Expand.input_cursor_ this)
                 (Expand.in_edges_ this) (Expand.in_edges_it_ this)
                 (Expand.out_edges_ this) (Some rest)
                 [Expand.push_future_edge edge EdgeAtom.OUT frame] [])
              frame context
      | None =>
          bind (Expand.InitEdges n
                  (Expand.mkExpandCursor self (Expand.input_cursor_ this)
                     (Expand.in_edges_ this) (Expand.in_edges_it_ this)
                     (Expand.out_edges_ this) (Expand.out_edges_it_ this)
                     [] [])
                  frame)
               (fun r =>
                  let '(initialized, this, frame) := r in
                  if (initialized : bool) then Expand.Pull n this frame
                  else
                    match Expand.future_expands_ this with
                    | [] => ret (false, this, frame)
                    | _ =>
                        future_it <-
                          Expand.find_ready_future
                            (Expand.future_expands_ this) ;;
                        match future_it with
                        | Some (before, future, after) =>
                            ret (true,
                                 Expand.mkExpandCursor (Expand.self_ this)
                                   (Expand.input_cursor_ this)
                                   (Expand.in_edges_ this)
                                   (Expand.in_edges_it_ this)
                                   (Expand.out_edges_ this)
                                   (Expand.out_edges_it_ this)
                                   (before ++ after)
                                   (Expand.last_frame_ this),
                                 Expand.put_future_edge_on_frame
                                   (Expand.self_ this) future)
                        | None => Expand.Pull n this frame
                        end
                    end)
               context
      end
  end.
Proof.
  intros (Hself & Hfutures & Hlast) Hcalm.
  cbn [Expand.Pull].
  rewrite (bind_Ok _ _ _ _ _ (check_abort_calm _ Hcalm)).
  rewrite Hfutures, Hlast, Hself. cbn [Expand.find_ready_future].
  unfold bind at 1. unfold ret at 1. cbn iota beta.
  destruct (Expand.next_edge (Expand.in_edges_ this) _) as [[edge rest]|].
  - unfold bind at 1. unfold get_db at 1. rewrite Hnew, orb_false_r.
    destruct (Expand.is_local _ _); reflexivity.
  - destruct (Expand.next_edge (Expand.out_edges_ this) _) as [[edge rest]|].
    + unfold bind at 1. unfold get_db at 1. rewrite Hnew, orb_false_r.
      unfold skipped.
      destruct (direction_ self); try destruct (is_cycle edge);
        try destruct (Expand.is_local (db_accessor_ context) edge);
        reflexivity.
    + reflexivity.
Qed.

Lemma ahead_Some edges edges_it :
  ahead (Some edges) (Some edges_it) = edges_it.
Proof. destruct edges_it; reflexivity. Qed.

Lemma calm_step frame (context : Context Db) :
  calm context -> calm (snd (step frame context)).
Proof. unfold calm. rewrite Hstep. intros Hcalm. exact Hcalm. Qed.

Lemma all_local_step frame (context : Context Db) todo :
  all_local context todo -> all_local (snd (step frame context)) todo.
Proof. unfold all_local. rewrite Hstep. intros Hlocal. exact Hlocal. Qed.

(** The cursor with nothing pending, by its fields. *)
Definition at_edges (input : TInput)
  (in_edges in_edges_it out_edges out_edges_it : option (list EdgeAccessor))
  : ExpandCursor :=
  Expand.mkExpandCursor self input in_edges in_edges_it out_edges
                        out_edges_it [] [].

Lemma settled_at_edges (this : ExpandCursor) :
  settled this ->
  this = at_edges (Expand.input_cursor_ this) (Expand.in_edges_ this)
                  (Expand.in_edges_it_ this) (Expand.out_edges_ this)
                  (Expand.out_edges_it_ this).
Proof.
  destruct this. unfold settled, at_edges. cbn.
  intros (Hself & Hfutures & Hlast). subst. reflexivity.
Qed.

(** The outgoing edges: the skipped ones are passed over within the
    pull. *)
Lemma Expand_pull_out (input : TInput) in_edges in_edges_it out_edges outs :
  Expand.next_edge in_edges in_edges_it = None ->
  forall frame (context : Context Db) item rest,
  calm context ->
  all_local context (expansions [] outs) ->
  expansions [] outs = item :: rest ->
  exists outs',
    pulls (at_edges input in_edges in_edges_it (Some out_edges) (Some outs))
          frame context
          (Ok (true,
               at_edges input in_edges in_edges_it (Some out_edges)
                        (Some outs'),
               row_frame item frame) context) /\
    expansions [] outs' = rest.
Proof.
  intros Hin frame context item rest Hcalm.
  induction outs as [|edge outs IH]; intros Hlocal Hitems; [discriminate|].
  unfold expansions in Hitems, Hlocal. cbn [map app List.filter] in *.
  destruct (skipped edge) eqn:Hskipped; cbn [negb] in *.
  - destruct (IH Hlocal Hitems) as (outs' & [N Hpull] & Hrest).
    exists outs'. split; [|exact Hrest].
    exists (S N). intros n Hn. destruct n as [|n]; [lia|].
    change (Cursor.Pull (S n) ?s ?f ?c) with (Expand.Pull (S n) s f c).
    rewrite Expand_Pull_settled; [|repeat split|exact Hcalm].
    unfold at_edges.
    cbn [Expand.in_edges_ Expand.in_edges_it_ Expand.out_edges_
         Expand.out_edges_it_ Expand.input_cursor_].
    rewrite Hin. cbn [Expand.next_edge]. rewrite Hskipped.
    apply Hpull. lia.
  - cbn [map] in *. injection Hitems as <- <-.
    inversion Hlocal as [|? ? Hedge _]; subst. cbn [fst] in Hedge.
    exists outs. split; [|reflexivity].
    exists 1%nat. intros n Hn. destruct n as [|n]; [lia|].
    change (Cursor.Pull (S n) ?s ?f ?c) with (Expand.Pull (S n) s f c).
    rewrite Expand_Pull_settled; [|repeat split|exact Hcalm].
    unfold at_edges.
    cbn [Expand.in_edges_ Expand.in_edges_it_ Expand.out_edges_
         Expand.out_edges_it_ Expand.input_cursor_].
    rewrite Hin. cbn [Expand.next_edge]. rewrite Hskipped, Hedge.
    reflexivity.
Qed.

Lemma next_edge_ahead edges edges_it :
  Expand.next_edge edges edges_it = None -> ahead edges edges_it = [].
Proof. unfold ahead. intros ->. reflexivity. Qed.

Lemma ahead_cons edges edges_it edge rest :
  ahead edges edges_it = edge :: rest ->
  exists all, edges = Some all /\ edges_it = Some (edge :: rest).
Proof.
  unfold ahead, Expand.next_edge.
  destruct edges as [all|], edges_it as [[|first others]|];
    try discriminate.
  intros [= -> ->]. exists all. split; reflexivity.
Qed.

(** The next expansion ahead of a settled cursor is its next row. *)
Lemma Expand_pull_item (this : ExpandCursor) frame (context : Context Db)
  item rest :
  settled this -> calm context ->
  all_local context (items this) ->
  items this = item :: rest ->
  exists this1,
    pulls this frame context (Ok (true, this1, row_frame item frame) context)
    /\ settled this1 /\ items this1 = rest /\
    Expand.input_cursor_ this1 = Expand.input_cursor_ this.
Proof.
  intros Hsettled Hcalm Hlocal Hitems.
  rewrite (settled_at_edges this Hsettled) in *.
  destruct this as [self0 input ine inei oute outei futures last].
  cbn [Expand.in_edges_ Expand.in_edges_it_ Expand.out_edges_
       Expand.out_edges_it_ Expand.input_cursor_] in *.
  clear Hsettled. unfold items, at_edges in Hitems, Hlocal.
  cbn [Expand.in_edges_ Expand.in_edges_it_ Expand.out_edges_
       Expand.out_edges_it_] in *.
  destruct (ahead ine inei) as [|edge ins] eqn:Hins.
  - destruct (ahead oute outei) as [|edge outs] eqn:Houts;
      [discriminate|].
    apply ahead_cons in Houts as (all & -> & ->).
    assert (Hin : Expand.next_edge ine inei = None).
    { unfold ahead in Hins.
      destruct (Expand.next_edge ine inei) as [[]|];
        [discriminate|reflexivity]. }
    destruct (Expand_pull_out input ine inei all (edge :: outs) Hin frame
                context item rest Hcalm Hlocal Hitems)
      as (outs' & Hpull & Hrest).
    eexists. split; [exact Hpull|]. split; [repeat split|]. split.
    + unfold items, at_edges.
      cbn [Expand.in_edges_ Expand.in_edges_it_ Expand.out_edges_
           Expand.out_edges_it_].
      rewrite Hins, ahead_Some. exact Hrest.
    + reflexivity.
  - apply ahead_cons in Hins as (all & -> & ->).
    unfold expansions in Hitems, Hlocal. cbn [map app] in *.
    injection Hitems as <- <-.
    inversion Hlocal as [|? ? Hedge _]; subst. cbn [fst] in Hedge.
    exists (at_edges input (Some all) (Some ins) oute outei).
    split; [|split; [repeat split|split]].
    + exists 1%nat. intros n Hn. destruct n as [|n]; [lia|].
      change (Cursor.Pull (S n) ?s ?f ?c) with (Expand.Pull (S n) s f c).
      rewrite Expand_Pull_settled; [|repeat split|exact Hcalm].
      unfold at_edges.
      cbn [Expand.in_edges_ Expand.in_edges_it_ Expand.out_edges_
           Expand.out_edges_it_ Expand.input_cursor_ Expand.next_edge].
      rewrite Hedge. reflexivity.
    + unfold items, at_edges.
      cbn [Expand.in_edges_ Expand.in_edges_it_ Expand.out_edges_
           Expand.out_edges_it_].
      rewrite ahead_Some. reflexivity.
    + reflexivity.
Qed.

(** The expansions ahead of a settled cursor come out one per pull, in
    their order. *)
Lemma Expand_ahead todo :
  forall (this : ExpandCursor) frame (context : Context Db),
  settled this -> calm context ->
  items this = todo -> all_local context todo ->
  exists this1,
    yields step this frame context
           (fst (expanded todo frame context)) this1
           (fst (snd (expanded todo frame context)))
           (snd (snd (expanded todo frame context))) /\
    settled this1 /\ items this1 = [] /\
    Expand.input_cursor_ this1 = Expand.input_cursor_ this.
Proof.
  induction todo as [|item rest IH];
    intros this frame context Hsettled Hcalm Hitems Hlocal.
  - exists this. split; [apply yields_nil|]. repeat split; try assumption;
      apply Hsettled.
  - rewrite <- Hitems in Hlocal.
    destruct (Expand_pull_item this frame context item rest Hsettled Hcalm
                Hlocal Hitems)
      as (this1 & Hpull & Hsettled1 & Hitems1 & Hinput1).
    rewrite Hitems in Hlocal.
    inversion Hlocal as [|? ? _ Hlocal']; subst.
    destruct (IH this1 (fst (step (row_frame item frame) context))
                 (snd (step (row_frame item frame) context))
                 Hsettled1 (calm_step _ _ Hcalm) eq_refl
                 (all_local_step _ _ _ Hlocal'))
      as (this2 & Hyields & Hsettled2 & Hitems2 & Hinput2).
    exists this2. cbn [expanded]. cbn [fst snd].
    destruct (expanded (items this1) _ _) as [rows last]. cbn [fst snd] in *.
    split; [|repeat split; try assumption; try apply Hsettled2; congruence].
    eapply yields_row; [exact Hpull|exact Hyields].
Qed.

(** Skipped edges ahead are passed over within the pull. *)
Lemma Expand_pass_skipped (input : TInput) in_edges in_edges_it out_edges
  outs frame (context : Context Db) r :
  Expand.next_edge in_edges in_edges_it = None ->
  expansions [] outs = [] ->
  calm context ->
  pulls (at_edges input in_edges in_edges_it (Some out_edges) (Some []))
        frame context r ->
  pulls (at_edges input in_edges in_edges_it (Some out_edges) (Some outs))
        frame context r.
Proof.
  intros Hin Hnone Hcalm Hdrained.
  induction outs as [|edge outs IH]; [exact Hdrained|].
  unfold expansions in Hnone. cbn [map app List.filter] in Hnone.
  destruct (skipped edge) eqn:Hskipped; cbn [negb] in Hnone; [|discriminate].
  destruct (IH Hnone) as [N Hpull].
  exists (S N). intros n Hn. destruct n as [|n]; [lia|].
  change (Cursor.Pull (S n) ?s ?f ?c) with (Expand.Pull (S n) s f c).
  rewrite Expand_Pull_settled; [|repeat split|exact Hcalm].
  unfold at_edges.
  cbn [Expand.in_edges_ Expand.in_edges_it_ Expand.out_edges_
       Expand.out_edges_it_ Expand.input_cursor_].
  rewrite Hin. cbn [Expand.next_edge]. rewrite Hskipped.
  apply Hpull. lia.
Qed.

(** Both iterators at their ends, or not set. *)
Definition drained (this : ExpandCursor) : Prop :=
  Expand.next_edge (Expand.in_edges_ this) (Expand.in_edges_it_ this) = None
  /\
  Expand.next_edge (Expand.out_edges_ this) (Expand.out_edges_it_ this) = None.

Lemma Expand_to_drained (this : ExpandCursor) frame (context : Context Db) :
  settled this -> items this = [] -> calm context ->
  exists this0,
    settled this0 /\ drained this0 /\
    Expand.input_cursor_ this0 = Expand.input_cursor_ this /\
    forall r, pulls this0 frame context r -> pulls this frame context r.
Proof.
  intros Hsettled Hitems Hcalm.
  rewrite (settled_at_edges this Hsettled) in *.
  destruct this as [self0 input ine inei oute outei futures last].
  cbn [Expand.in_edges_ Expand.in_edges_it_ Expand.out_edges_
       Expand.out_edges_it_ Expand.input_cursor_] in *.
  clear Hsettled. unfold items, at_edges in Hitems.
  cbn [Expand.in_edges_ Expand.in_edges_it_ Expand.out_edges_
       Expand.out_edges_it_] in *.
  unfold expansions in Hitems. apply app_eq_nil in Hitems as [Hins Houts].
  apply map_eq_nil in Hins.
  assert (Hin : Expand.next_edge ine inei = None).
  { unfold ahead in Hins.
    destruct (Expand.next_edge ine inei) as [[]|];
      [discriminate|reflexivity]. }
  destruct (ahead oute outei) as [|edge outs] eqn:Hout.
  - exists (at_edges input ine inei oute outei).
    split; [repeat split|]. split; [|split; [reflexivity|auto]].
    split; [exact Hin|].
    unfold ahead in Hout. cbn.
    destruct (Expand.next_edge oute outei) as [[]|];
      [discriminate|reflexivity].
  - apply ahead_cons in Hout as (all & -> & ->).
    exists (at_edges input ine inei (Some all) (Some [])).
    split; [repeat split|]. split; [split; [exact Hin|reflexivity]|].
    split; [reflexivity|].
    intros r. apply Expand_pass_skipped; [exact Hin| |exact Hcalm].
    unfold expansions. cbn [map app]. rewrite Houts. reflexivity.
Qed.

(** The cursor [InitEdges] leaves for a row of the input with a vertex
    at the input symbol. *)
Definition entered (this : ExpandCursor) (input : TInput)
  (context : Context Db) (vertex : VertexAccessor) : ExpandCursor :=
  let db := db_accessor_ context in
  let ins := Some (vertex_in db vertex (edge_types_ self)) in
  let outs := Some (vertex_out db vertex (edge_types_ self)) in
  match direction_ self with
  | EdgeAtom.IN =>
      at_edges input ins ins (Expand.out_edges_ this)
               (Expand.out_edges_it_ this)
  | EdgeAtom.OUT =>
      at_edges input (Expand.in_edges_ this) (Expand.in_edges_it_ this)
               outs outs
  | EdgeAtom.BOTH => at_edges input ins ins outs outs
  end.

(** The expansions for a row of the input: the edges into the vertex at
    the input symbol, then the edges out of it. *)
Definition incident (frame : Frame) (context : Context Db)
  : list (EdgeAccessor * EdgeAtom.Direction) :=
  match frame_at frame (input_symbol_ self) with
  | Vertex vertex =>
      let db := db_accessor_ context in
      let vertex := SwitchAccessor vertex (graph_view_ self) in
      expansions
        (match direction_ self with
         | EdgeAtom.OUT => []
         | _ => vertex_in db vertex (edge_types_ self)
         end)
        (match direction_ self with
         | EdgeAtom.IN => []
         | _ => vertex_out db vertex (edge_types_ self)
         end)
  | _ => []
  end.

(** The frame [InitEdges] leaves: the vertex switched to the graph
    view. *)
Definition switched (frame : Frame) : Frame :=
  match frame_at frame (input_symbol_ self) with
  | Vertex vertex =>
      frame_set (input_symbol_ self)
                (Vertex (SwitchAccessor vertex (graph_view_ self))) frame
  | _ => frame
  end.

Lemma InitEdges_vertex n (this : ExpandCursor) frame (context : Context Db)
  input1 frame1 context1 vertex :
  settled this ->
  Cursor.Pull n (Expand.input_cursor_ this) frame context =
    Ok (true, input1, frame1) context1 ->
  frame_at frame1 (input_symbol_ self) = Vertex vertex ->
  Expand.InitEdges (S n) this frame context =
  Ok (true,
      entered this input1 context1 (SwitchAccessor vertex (graph_view_ self)),
      switched frame1) context1.
Proof.
  intros Hsettled Hpull Hvertex.
  rewrite (settled_at_edges this Hsettled) in *.
  destruct this as [self0 input ine inei oute outei futures last].
  cbn [Expand.in_edges_ Expand.in_edges_it_ Expand.out_edges_
       Expand.out_edges_it_ Expand.input_cursor_] in *.
  clear Hsettled. unfold at_edges in *.
  cbn [Expand.InitEdges Expand.input_cursor_].
  rewrite (bind_Ok _ _ _ _ _ Hpull). cbn iota beta zeta. cbn [negb].
  cbn [Expand.self_ Expand.in_edges_ Expand.in_edges_it_ Expand.out_edges_
       Expand.out_edges_it_ Expand.future_expands_ Expand.last_frame_].
  unfold switched, entered, at_edges. rewrite Hvertex. cbn [IsNull].
  unfold ExpectType. cbn [type Type_eqb].
  unfold bind at 1. unfold ret at 1.
  unfold bind at 1. unfold ValueVertex at 1. unfold ret at 1.
  unfold bind at 1. unfold get_db at 1.
  unfold Expand.init_direction. rewrite Hnew.
  cbn [Expand.in_edges_ Expand.in_edges_it_ Expand.out_edges_
       Expand.out_edges_it_].
  destruct (direction_ self); reflexivity.
Qed.

Lemma InitEdges_end n (this : ExpandCursor) frame (context : Context Db)
  input' frame' context' :
  settled this ->
  Cursor.Pull n (Expand.input_cursor_ this) frame context =
    Ok (false, input', frame') context' ->
  Expand.InitEdges (S n) this frame context =
  Ok (false,
      at_edges input' (Expand.in_edges_ this) (Expand.in_edges_it_ this)
               (Expand.out_edges_ this) (Expand.out_edges_it_ this),
      frame') context'.
Proof.
  intros Hsettled Hpull.
  rewrite (settled_at_edges this Hsettled) in *.
  destruct this as [self0 input ine inei oute outei futures last].
  cbn [Expand.in_edges_ Expand.in_edges_it_ Expand.out_edges_
       Expand.out_edges_it_ Expand.input_cursor_] in *.
  unfold at_edges in *. cbn [Expand.InitEdges Expand.input_cursor_].
  rewrite (bind_Ok _ _ _ _ _ Hpull). reflexivity.
Qed.

Lemma Pull_drained n (this : ExpandCursor) frame (context : Context Db) :
  settled this -> drained this -> calm context ->
  Expand.Pull (S n) this frame context =
  match Expand.InitEdges n this frame context with
  | Ok (true, this', frame') context' => Expand.Pull n this' frame' context'
  | Ok (false, this', frame') context' =>
      match Expand.future_expands_ this' with
      | [] => Ok (false, this', frame') context'
      | _ =>
          bind (Expand.find_ready_future (Expand.future_expands_ this'))
               (fun future_it =>
                  match future_it with
                  | Some (before, future, after) =>
                      ret (true,
                           Expand.mkExpandCursor (Expand.self_ this')
                             (Expand.input_cursor_ this')
                             (Expand.in_edges_ this')
                             (Expand.in_edges_it_ this')
                             (Expand.out_edges_ this')
                             (Expand.out_edges_it_ this')
                             (before ++ after) (Expand.last_frame_ this'),
                           Expand.put_future_edge_on_frame
                             (Expand.self_ this') future)
                  | None => Expand.Pull n this' frame'
                  end)
               context'
      end
  | Throw e context' => Throw e context'
  | OutOfFuel => OutOfFuel
  end.
Proof.
  intros Hsettled [Hin Hout] Hcalm.
  rewrite Expand_Pull_settled by assumption. rewrite Hin, Hout.
  fold (at_edges (Expand.input_cursor_ this) (Expand.in_edges_ this)
                 (Expand.in_edges_it_ this) (Expand.out_edges_ this)
                 (Expand.out_edges_it_ this)).
  rewrite <- (settled_at_edges this Hsettled).
  unfold bind at 1.
  destruct (Expand.InitEdges n this frame context)
    as [[[[|] this'] frame'] context'| |]; try reflexivity.
  destruct (Expand.future_expands_ this'); reflexivity.
Qed.

(** What the input sees between two of its rows. *)
Definition through_expand (frame : Frame) (context : Context Db)
  : Frame * Context Db :=
  snd (expanded (incident frame context) (switched frame) context).

Definition expanded_rows (row : Frame * Context Db)
  : list (Frame * Context Db) :=
  fst (expanded (incident (fst row) (snd row)) (switched (fst row))
                (snd row)).

Lemma items_entered (this : ExpandCursor) input context frame vertex :
  drained this ->
  frame_at frame (input_symbol_ self) = Vertex vertex ->
  items (entered this input context
                 (SwitchAccessor vertex (graph_view_ self))) =
  incident frame context.
Proof.
  intros [Hin Hout] Hvertex. unfold incident, entered, items. rewrite Hvertex.
  destruct (direction_ self); unfold at_edges;
    cbn [Expand.in_edges_ Expand.in_edges_it_ Expand.out_edges_
         Expand.out_edges_it_];
    rewrite ?ahead_Some, ?(next_edge_ahead _ _ Hin),
            ?(next_edge_ahead _ _ Hout); reflexivity.
Qed.

Lemma settled_entered (this : ExpandCursor) input context vertex :
  settled (entered this input context vertex).
Proof. unfold entered. destruct (direction_ self); repeat split. Qed.

Lemma input_entered (this : ExpandCursor) input context vertex :
  Expand.input_cursor_ (entered this input context vertex) = input.
Proof. unfold entered. destruct (direction_ self); reflexivity. Qed.

(** [Expand] produces, for every row of its input in turn that has a
    vertex at the input symbol, one row per edge of that vertex: first the
    incoming edges, with the source at the node symbol, then the outgoing
    edges, with the target at the node symbol, each in the order of the
    accessor and with the edge at the edge symbol.  In both directions an
    edge from the vertex to itself comes once, as an incoming edge.  A
    vertex without edges gives no row.  The edges are on this worker, the
    node symbol is not bound before, and no abort is asked for. *)
Theorem Expand_rows (input : TInput) frame context rows input' frame'
  context' :
  feeds through_expand input frame context rows input' frame' context' ->
  Forall (fun row => type (frame_at (fst row) (input_symbol_ self)) = TVertex)
         rows ->
  Forall (fun row => all_local (snd row) (incident (fst row) (snd row)))
         rows ->
  Forall (fun row => calm (snd row)) rows ->
  calm context ->
  exists this',
    feeds step (Expand.MakeCursor self input) frame context
          (concat (map expanded_rows rows)) this' frame' context' /\
    Expand.input_cursor_ this' = input'.
Proof.
  intros Hfeeds Hvertices Hlocals Hcalms Hcalm.
  assert (Hgeneral :
    forall this : ExpandCursor,
    settled this -> items this = [] -> Expand.input_cursor_ this = input ->
    exists this',
      feeds step this frame context (concat (map expanded_rows rows))
            this' frame' context' /\
      Expand.input_cursor_ this' = input').
  { induction Hfeeds as [s f c s' f' c' [N Hdone]
                        |s f c s1 f1 c1 rows s' f' c' [N Hrow] Hrest IH];
      intros this Hsettled Hitems Hinput; subst s.
    - destruct (Expand_to_drained this f c Hsettled Hitems Hcalm)
        as (this0 & Hsettled0 & Hdrained0 & Hinput0 & Hlike).
      eexists. split.
      + apply feeds_done. apply Hlike.
        exists (S (S N)). intros n Hn. destruct n as [|n]; [lia|].
        change (Cursor.Pull (S n) ?s ?f ?c) with (Expand.Pull (S n) s f c).
        rewrite Pull_drained by assumption.
        destruct n as [|n]; [lia|].
        rewrite (InitEdges_end n this0 f c s' f' c' Hsettled0)
          by (rewrite Hinput0; apply Hdone; lia).
        reflexivity.
      + reflexivity.
    - inversion Hvertices as [|row rows' Hvertex Hvertices']; subst.
      inversion Hlocals as [|row rows' Hlocal Hlocals']; subst.
      inversion Hcalms as [|row rows' Hcalm1 Hcalms']; subst.
      cbn [fst snd] in Hvertex, Hlocal, Hcalm1.
      destruct (frame_at f1 (input_symbol_ self))
        as [| | | | | | |vertex| |] eqn:Hvalue; try discriminate.
      destruct (Expand_to_drained this f c Hsettled Hitems Hcalm)
        as (this0 & Hsettled0 & Hdrained0 & Hinput0 & Hlike).
      set (vertex' := SwitchAccessor vertex (graph_view_ self)).
      pose proof (items_entered this0 s1 c1 f1 vertex Hdrained0 Hvalue)
        as Hentered. fold vertex' in Hentered.
      assert (Henter :
        forall r, pulls (entered this0 s1 c1 vertex') (switched f1) c1 r ->
                  pulls this f c r).
      { intros r [Nr Hr]. apply Hlike.
        exists (S (S (Nat.max N Nr))). intros n Hn.
        destruct n as [|[|n]]; try lia.
        change (Cursor.Pull (S (S n)) ?s ?f ?c)
          with (Expand.Pull (S (S n)) s f c).
        rewrite Pull_drained by assumption.
        rewrite (InitEdges_vertex n this0 f c s1 f1 c1 vertex Hsettled0)
          by (try (rewrite Hinput0; apply Hrow; lia); exact Hvalue).
        exact (Hr (S n) ltac:(lia)). }
      destruct (Expand_ahead (incident f1 c1) (entered this0 s1 c1 vertex')
                  (switched f1) c1 (settled_entered _ _ _ _) Hcalm1 Hentered
                  Hlocal)
        as (this1 & Hyields & Hsettled1 & Hitems1 & Hinput1).
      rewrite input_entered in Hinput1.
      assert (Hcalm2 :
        calm (snd (snd (expanded (incident f1 c1) (switched f1) c1)))).
      { unfold calm. rewrite expanded_db. exact Hcalm1. }
      unfold through_expand in IH.
      destruct (IH Hvertices' Hlocals' Hcalms' Hcalm2 this1 Hsettled1 Hitems1
                   Hinput1)
        as (this' & Hfeeds' & Hinput').
      exists this'. split; [|exact Hinput'].
      cbn [map concat]. unfold expanded_rows at 1. cbn [fst snd].
      eapply feeds_head; [exact Henter|].
      eapply yields_feeds; [exact Hyields|exact Hfeeds']. }
  apply (Hgeneral (Expand.MakeCursor self input)).
  - repeat split.
  - reflexivity.
  - reflexivity.
Qed.

End ExpandRows.

(** Two vertices, an edge from the first to itself and an edge from the
    first to the second. *)
Definition looped : Fixture.Graph :=
  Fixture.mkGraph false [Sample.vertex 0; Sample.vertex 1]
    [Sample.edge 12 0 0; Sample.edge 10 0 1].

(** [Expand_rows] at a concrete input: from the first vertex of the
    looped graph, in both directions, the loop comes once. *)
Lemma Expand_rows_witness :
  let self := Sample.common EdgeAtom.BOTH in
  let start := Fixture.start looped in
  let v0 := Vertex (Sample.vertex 0) in
  let v1 := Vertex (Sample.vertex 1) in
  exists this',
    feeds hand_back (Expand.MakeCursor self (@Once.MakeCursor))
          (Sample.row v0) start
          [([v0; Edge (Sample.edge 12 0 0); v0; Null; Null], start);
           ([v0; Edge (Sample.edge 10 0 1); v1; Null; Null], start)]
          this' [v0; Edge (Sample.edge 10 0 1); v1; Null; Null] start /\
    Expand.input_cursor_ this' = Once.mkOnceCursor true.
Proof.
  intros self start v0 v1.
  refine (Expand_rows self hand_back (fun frame context => eq_refl) eq_refl
            (@Once.MakeCursor) (Sample.row v0) start
            [(Sample.row v0, start)]
            (Once.mkOnceCursor true)
            [v0; Edge (Sample.edge 10 0 1); v1; Null; Null] start
            (feeds_row _ _ _ _ (Once.mkOnceCursor true) (Sample.row v0) start
                       _ _ _ _ _ (feeds_done _ _ _ _ _ _ _ _))
            _ _ _ eq_refl).
  - run_fuel 1%nat.
  - run_fuel 1%nat.
  - repeat constructor.
  - repeat constructor.
  - repeat constructor.
Defined.

(** ** ExpandVariable: the length of the paths *)

Section PathLength.
Context {Db : Type} `{!GraphDbAccessor Db}.
Context {TInput : Type} `{!Cursor.Cursor Db TInput}.
Variable self : @ExpandVariable.ExpandVariable Db.

Local Abbreviation ExpandVariableCursor :=
  (@ExpandVariableCursor.ExpandVariableCursor Db TInput).
Local Abbreviation common := (ExpandVariable.common self).
Local Abbreviation edge_symbol := (ExpandCommon.edge_symbol_ common).
Local Abbreviation lambda := (ExpandVariable.filter_lambda_ self).

(** The symbols the expansion writes besides the edge symbol have
    positions of their own. *)
Hypothesis Hnode :
  position (ExpandCommon.node_symbol_ common) <> position edge_symbol.
Hypothesis Hinner_edge :
  position (ExpandVariable.inner_edge_symbol lambda) <> position edge_symbol.
Hypothesis Hinner_node :
  position (ExpandVariable.inner_node_symbol lambda) <> position edge_symbol.

(** The input leaves the width of the frame as it is. *)
Hypothesis Hwidth :
  forall n (input : TInput) frame (context : Context Db) pulled input' frame'
         context',
    Cursor.Pull n input frame context = Ok (pulled, input', frame') context' ->
    length frame' = length frame.

(** The stack of edge iterators is not deeper than the upper bound. *)
Definition within_upper
  (edges : list (list (EdgeAccessor * EdgeAtom.Direction))) (upper_bound : Z)
  : Prop :=
  edges = [] \/ Z.of_nat (length edges) <= upper_bound.

Definition bounded (this : ExpandVariableCursor) : Prop :=
  within_upper (ExpandVariableCursor.edges_ this)
               (ExpandVariableCursor.upper_bound_ this).

(** The list at the edge symbol has a length between the bounds. *)
Definition path_within (this : ExpandVariableCursor) (frame : Frame) : Prop :=
  exists edges_on_frame,
    frame_at frame edge_symbol = List edges_on_frame /\
    ExpandVariableCursor.lower_bound_ this <=
      Z.of_nat (length edges_on_frame) <=
      ExpandVariableCursor.upper_bound_ this.

Lemma pop_exhausted_length
  (edges : list (list (EdgeAccessor * EdgeAtom.Direction))) :
  (length (ExpandVariableCursor.pop_exhausted edges) <= length edges)%nat.
Proof.
  induction edges as [|[|pair level] below IH]; cbn; try lia.
Qed.

Lemma AppendEdge_length is_reverse depth new_edge edges_on_frame :
  (1 <= depth)%nat ->
  (length (ExpandVariableCursor.AppendEdge is_reverse depth new_edge
                                           edges_on_frame) <= depth)%nat.
Proof.
  intros Hdepth. unfold ExpandVariableCursor.AppendEdge.
  destruct is_reverse.
  - cbn [length]. rewrite length_drop. lia.
  - rewrite length_app, length_take. cbn [length]. lia.
Qed.

Lemma HandleExistingNode_slot new_node frame (context : Context Db)
  accepted frame' context' :
  ExpandCommon.HandleExistingNode common new_node frame context =
    Ok (accepted, frame') context' ->
  length frame' = length frame /\
  frame_at frame' edge_symbol = frame_at frame edge_symbol.
Proof.
  unfold ExpandCommon.HandleExistingNode.
  destruct (ExpandCommon.existing_node_ common).
  - destruct (IsNull _).
    + intros [= <- <- <-]. split; reflexivity.
    + intros Hrest.
      apply bind_Ok_inv in Hrest as (? & ? & _ & Hrest).
      apply bind_Ok_inv in Hrest as (? & ? & _ & Hrest).
      injection Hrest as <- <- <-. split; reflexivity.
  - intros [= <- <- <-]. split.
    + apply frame_set_length.
    + apply frame_at_set_ne. exact Hnode.
Qed.

(** One run of [Expand]. *)
Lemma Expand_within fuel :
  forall (input : TInput) upper_bound lower_bound edges frame
         (context : Context Db) pulled (this' : ExpandVariableCursor)
         frame' context',
  ExpandVariableCursor.Expand fuel
    (ExpandVariableCursor.mkExpandVariableCursor
       self input upper_bound lower_bound edges) frame context =
    Ok (pulled, this', frame') context' ->
  within_upper edges upper_bound ->
  ExpandVariableCursor.self_ this' = self /\
  length frame' = length frame /\
  bounded this' /\
  (pulled = true -> path_within this' frame') /\
  (pulled = false -> ExpandVariableCursor.edges_ this' = []).
Proof.
  induction fuel as [|fuel IH];
    intros input upper_bound lower_bound edges frame context pulled this'
           frame' context' Hexpand Hwithin; [discriminate|].
  cbn [ExpandVariableCursor.Expand] in Hexpand.
  cbn [ExpandVariableCursor.self_ ExpandVariableCursor.edges_
       ExpandVariableCursor.input_cursor_ ExpandVariableCursor.upper_bound_
       ExpandVariableCursor.lower_bound_] in Hexpand.
  pose proof (pop_exhausted_length edges) as Hpopped.
  destruct (ExpandVariableCursor.pop_exhausted edges)
    as [|[|current_edge level] below] eqn:Hstack.
  - injection Hexpand as <- <- <- <-.
    repeat split; try discriminate. left. reflexivity.
  - injection Hexpand as <- <- <- <-.
    repeat split; try discriminate. left. reflexivity.
  - assert (Hdepth : Z.of_nat (S (length below)) <= upper_bound).
    { destruct Hwithin as [->|Hwithin]; [discriminate|].
      cbn [length] in Hpopped. lia. }
    apply bind_Ok_inv in Hexpand as (on_frame & context0 & Hlist & Hexpand).
    assert (Hvalue : frame_at frame edge_symbol = List on_frame).
    { destruct (frame_at frame edge_symbol); try discriminate.
      injection Hlist as <- _. reflexivity. }
    assert (Hrange : (position edge_symbol < length frame)%nat).
    { apply frame_at_in_range. rewrite Hvalue. discriminate. }
    set (shrunk := ExpandVariableCursor.shrink _ _ on_frame) in Hexpand.
    set (frame1 := frame_set edge_symbol (List shrunk) frame) in Hexpand.
    assert (Hlength1 : length frame1 = length frame)
      by apply frame_set_length.
    assert (Hkept : within_upper (level :: below) upper_bound).
    { right. cbn [length]. exact Hdepth. }
    apply bind_Ok_inv in Hexpand as (existing & context1 & _ & Hexpand).
    destruct existing.
    + apply IH in Hexpand; [|exact Hkept].
      destruct Hexpand as (Hself & Hlength & Hbounded & Htrue & Hfalse).
      repeat split; try assumption. congruence.
    + set (appended := ExpandVariableCursor.AppendEdge _ _ _ shrunk)
        in Hexpand.
      assert (Happended : (length appended <= S (length below))%nat)
        by (apply AppendEdge_length; lia).
      set (frame2 := frame_set edge_symbol (List appended) frame1)
        in Hexpand.
      assert (Hlength2 : length frame2 = length frame).
      { unfold frame2. rewrite frame_set_length. exact Hlength1. }
      assert (Hslot2 : frame_at frame2 edge_symbol = List appended).
      { apply frame_at_set_eq. rewrite Hlength1. exact Hrange. }
      apply bind_Ok_inv in Hexpand
        as ([accepted frame3] & context3 & Hhandle & Hexpand).
      apply HandleExistingNode_slot in Hhandle as [Hlength3 Hslot3].
      destruct accepted; cbn [negb] in Hexpand.
      * set (frame4 :=
               frame_set (ExpandVariable.inner_node_symbol lambda) _
                 (frame_set (ExpandVariable.inner_edge_symbol lambda) _
                            frame3)) in Hexpand.
        assert (Hlength4 : length frame4 = length frame).
        { unfold frame4. rewrite !frame_set_length. congruence. }
        assert (Hslot4 : frame_at frame4 edge_symbol = List appended).
        { unfold frame4.
          rewrite frame_at_set_ne by exact Hinner_node.
          rewrite frame_at_set_ne by exact Hinner_edge.
          congruence. }
        apply bind_Ok_inv in Hexpand as (keep & context4 & _ & Hexpand).
        destruct keep; cbn [negb] in Hexpand.
        -- unfold bind at 1 in Hexpand. unfold get_db at 1 in Hexpand.
           destruct (Z.ltb_spec (Z.of_nat (S (length below))) upper_bound)
             as [Hroom|Hfull];
             cbn [ExpandVariableCursor.lower_bound_] in Hexpand;
             destruct (Z.leb_spec lower_bound (Z.of_nat (length appended)))
               as [Hlower|Hshort].
           ++ unfold ret in Hexpand. injection Hexpand as <- <- <- <-.
              split; [reflexivity|]. split; [exact Hlength4|].
              split; [right; cbn [ExpandVariableCursor.edges_
                                  ExpandVariableCursor.upper_bound_ length]
                              in *; lia|].
              split; [|discriminate].
              intros _. exists appended. split; [exact Hslot4|].
              cbn [ExpandVariableCursor.lower_bound_
                   ExpandVariableCursor.upper_bound_]. lia.
           ++ apply IH in Hexpand;
                [|right; cbn [length] in *; lia].
              destruct Hexpand
                as (Hself & Hlength & Hbounded & Htrue & Hfalse).
              repeat split; try assumption. congruence.
           ++ unfold ret in Hexpand. injection Hexpand as <- <- <- <-.
              split; [reflexivity|]. split; [exact Hlength4|].
              split; [exact Hkept|]. split; [|discriminate].
              intros _. exists appended. split; [exact Hslot4|].
              cbn [ExpandVariableCursor.lower_bound_
                   ExpandVariableCursor.upper_bound_]. lia.
           ++ apply IH in Hexpand; [|exact Hkept].
              destruct Hexpand
                as (Hself & Hlength & Hbounded & Htrue & Hfalse).
              repeat split; try assumption. congruence.
        -- apply IH in Hexpand; [|exact Hkept].
           destruct Hexpand as (Hself & Hlength & Hbounded & Htrue & Hfalse).
           repeat split; try assumption. congruence.
      * apply IH in Hexpand; [|exact Hkept].
        destruct Hexpand as (Hself & Hlength & Hbounded & Htrue & Hfalse).
        repeat split; try assumption. congruence.
Qed.

Lemma calc_bound_nonnegative (bound : Expression Db) frame
  (context : Context Db) value context' :
  ExpandVariableCursor.calc_bound bound frame context = Ok value context' ->
  0 <= value.
Proof.
  unfold ExpandVariableCursor.calc_bound. intros Hbound.
  apply bind_Ok_inv in Hbound as (v & ? & _ & Hbound).
  destruct v; try discriminate.
  destruct (Z.ltb_spec i 0); [discriminate|].
  injection Hbound as <- _. assumption.
Qed.

(** [PullInput] leaves an empty list at the edge symbol, the bounds of
    the row in the cursor and at most one level on the stack. *)
Lemma PullInput_within fuel :
  forall (input : TInput) upper_bound lower_bound frame
         (context : Context Db) pulled (this' : ExpandVariableCursor)
         frame' context',
  ExpandVariableCursor.PullInput fuel
    (ExpandVariableCursor.mkExpandVariableCursor
       self input upper_bound lower_bound []) frame context =
    Ok (pulled, this', frame') context' ->
  ExpandVariableCursor.self_ this' = self /\
  length frame' = length frame /\
  (pulled = true ->
   bounded this' /\ 0 <= ExpandVariableCursor.upper_bound_ this' /\
   ((position edge_symbol < length frame)%nat ->
    frame_at frame' edge_symbol = List [])) /\
  (pulled = false -> bounded this').
Proof.
  induction fuel as [|fuel IH];
    intros input upper_bound lower_bound frame context pulled this'
           frame' context' Hpull; [discriminate|].
  cbn [ExpandVariableCursor.PullInput] in Hpull.
  cbn [ExpandVariableCursor.self_ ExpandVariableCursor.edges_
       ExpandVariableCursor.input_cursor_ ExpandVariableCursor.upper_bound_
       ExpandVariableCursor.lower_bound_] in Hpull.
  apply bind_Ok_inv in Hpull
    as ([[pulled1 input1] frame1] & context1 & Hinput & Hpull).
  apply Hwidth in Hinput.
  destruct pulled1; cbn [negb] in Hpull.
  - destruct (IsNull _).
    + apply IH in Hpull.
      destruct Hpull as (Hself & Hlength & Htrue & Hfalse).
      split; [exact Hself|]. split; [congruence|].
      split; [|exact Hfalse].
      intros Hpulled. destruct (Htrue Hpulled) as (Hbounded & Hupper & Hlist).
      split; [exact Hbounded|]. split; [exact Hupper|].
      intros Hrange. apply Hlist. congruence.
    + apply bind_Ok_inv in Hpull as (? & ? & _ & Hpull).
      apply bind_Ok_inv in Hpull as (vertex & ? & _ & Hpull).
      apply bind_Ok_inv in Hpull as (lower & ? & _ & Hpull).
      apply bind_Ok_inv in Hpull as (upper & ? & Hupper & Hpull).
      assert (Hnonnegative : 0 <= upper).
      { destruct (ExpandVariable.upper_bound_ self) as [bound|].
        - exact (calc_bound_nonnegative _ _ _ _ _ Hupper).
        - unfold ret in Hupper. injection Hupper as <- _.
          unfold int64_max. lia. }
      unfold bind, get_db, ret in Hpull.
      injection Hpull as <- <- <- <-.
      split; [reflexivity|]. split.
      { destruct (0 <? upper); rewrite !frame_set_length; exact Hinput. }
      split; [|discriminate]. intros _. split; [|split].
      * unfold bounded, within_upper.
        cbn [ExpandVariableCursor.edges_ ExpandVariableCursor.upper_bound_].
        destruct (Z.ltb_spec 0 upper); [right; cbn [length]; lia|left].
        reflexivity.
      * exact Hnonnegative.
      * intros Hrange. apply frame_at_set_eq.
        destruct (0 <? upper); rewrite !frame_set_length; congruence.
  - unfold ret in Hpull. injection Hpull as <- <- <- <-.
    split; [reflexivity|]. split; [exact Hinput|].
    split; [discriminate|]. intros _. left. reflexivity.
Qed.

Lemma Pull_within fuel :
  forall (this : ExpandVariableCursor) frame (context : Context Db) pulled
         (this' : ExpandVariableCursor) frame' context',
  ExpandVariableCursor.Pull fuel this frame context =
    Ok (pulled, this', frame') context' ->
  ExpandVariableCursor.self_ this = self ->
  (position edge_symbol < length frame)%nat ->
  bounded this ->
  ExpandVariableCursor.self_ this' = self /\
  length frame' = length frame /\
  bounded this' /\
  (pulled = true -> path_within this' frame').
Proof.
  induction fuel as [|fuel IH];
    intros this frame context pulled this' frame' context' Hpull Hself Hrange
           Hbounded; [discriminate|].
  destruct this as [self0 input upper_bound lower_bound edges].
  cbn [ExpandVariableCursor.self_] in Hself. subst self0.
  unfold bounded in Hbounded.
  cbn [ExpandVariableCursor.edges_ ExpandVariableCursor.upper_bound_]
    in Hbounded.
  cbn [ExpandVariableCursor.Pull] in Hpull.
  apply bind_Ok_inv in Hpull
    as ([[expanded this0] frame0] & context0 & Hexpand & Hpull).
  apply Expand_within in Hexpand; [|exact Hbounded].
  destruct Hexpand as (Hself0 & Hlength0 & Hbounded0 & Htrue0 & Hfalse0).
  destruct expanded.
  - unfold ret in Hpull. injection Hpull as <- <- <- <-.
    split; [exact Hself0|]. split; [exact Hlength0|].
    split; [exact Hbounded0|]. intros _. apply Htrue0. reflexivity.
  - destruct this0 as [self0 input0 upper0 lower0 edges0].
    cbn [ExpandVariableCursor.self_] in Hself0. subst self0.
    specialize (Hfalse0 eq_refl).
    cbn [ExpandVariableCursor.edges_] in Hfalse0. subst edges0.
    apply bind_Ok_inv in Hpull
      as ([[pulled1 this1] frame1] & context1 & Hinput & Hpull).
    apply PullInput_within in Hinput.
    destruct Hinput as (Hself1 & Hlength1 & Htrue1 & Hfalse1).
    destruct pulled1.
    + destruct (Htrue1 eq_refl) as (Hbounded1 & Hupper1 & Hlist1).
      specialize (Hlist1 ltac:(congruence)).
      destruct (Z.eqb_spec (ExpandVariableCursor.lower_bound_ this1) 0)
        as [Hzero|_].
      * apply bind_Ok_inv in Hpull as (start_vertex & ? & _ & Hpull).
        apply bind_Ok_inv in Hpull
          as ([accepted frame2] & context2 & Hhandle & Hpull).
        rewrite Hself1 in Hhandle.
        apply HandleExistingNode_slot in Hhandle as [Hlength2 Hslot2].
        destruct accepted.
        -- unfold ret in Hpull. injection Hpull as <- <- <- <-.
           split; [exact Hself1|]. split; [congruence|].
           split; [exact Hbounded1|].
           intros _. exists []. split; [congruence|].
           cbn [length]. lia.
        -- apply IH in Hpull; [|exact Hself1|congruence|exact Hbounded1].
           destruct Hpull as (Hself' & Hlength' & Hbounded' & Htrue').
           split; [exact Hself'|]. split; [congruence|].
           split; [exact Hbounded'|exact Htrue'].
      * apply IH in Hpull; [|exact Hself1|congruence|exact Hbounded1].
        destruct Hpull as (Hself' & Hlength' & Hbounded' & Htrue').
        split; [exact Hself'|]. split; [congruence|].
        split; [exact Hbounded'|exact Htrue'].
    + unfold ret in Hpull. injection Hpull as <- <- <- <-.
      split; [exact Hself1|]. split; [congruence|].
      split; [apply Hfalse1; reflexivity|discriminate].
Qed.

(** Every row of the depth-first variable-length expansion has, at the
    edge symbol, a list whose length is between the lower and the upper
    bound evaluated for its input row; the stack of the cursor is never
    deeper than the upper bound.  The symbols the expansion writes
    besides the edge symbol are at other positions of the frame, the edge
    symbol is inside the frame and the input leaves the width of the frame
    alone. *)
Theorem ExpandVariable_path_length (this : ExpandVariableCursor) frame
  (context : Context Db) this' frame' context' :
  ExpandVariableCursor.self_ this = self ->
  (position edge_symbol < length frame)%nat ->
  bounded this ->
  pulls this frame context (Ok (true, this', frame') context') ->
  path_within this' frame' /\
  bounded this' /\
  ExpandVariableCursor.self_ this' = self /\
  length frame' = length frame.
Proof.
  intros Hself Hrange Hbounded [N Hpull].
  specialize (Hpull N (Nat.le_refl N)).
  change (Cursor.Pull N this frame context)
    with (ExpandVariableCursor.Pull N this frame context) in Hpull.
  apply Pull_within in Hpull; [|assumption..].
  destruct Hpull as (Hself' & Hlength' & Hbounded' & Htrue').
  split; [apply Htrue'; reflexivity|].
  split; [exact Hbounded'|]. split; [exact Hself'|exact Hlength'].
Qed.

End PathLength.

(** [ExpandVariable_path_length] at a concrete input: [(n)-[r*1..1]->(m)]
    from vertex 0 of the ring gives a path of one edge. *)
Lemma ExpandVariable_path_length_witness :
  let one := Fixture.literal (Int 1) in
  let self := Sample.variable EdgeAtom.OUT false (Some one) (Some one) in
  let there := Sample.edge 10 0 1 in
  let first :=
    [Vertex (Sample.vertex 0); List [Edge there]; Vertex (Sample.vertex 1);
     Edge there; Vertex (Sample.vertex 1)] in
  let this' :=
    ExpandVariableCursor.mkExpandVariableCursor
      self (Once.mkOnceCursor true) 1 1 [[]] in
  path_within self this' first /\
  bounded this' /\
  ExpandVariableCursor.self_ this' = self /\
  length first = 5%nat.
Proof.
  intros one self there first this'.
  refine (ExpandVariable_path_length self _ _ _ (@Once_width Fixture.Graph)
            (ExpandVariableCursor.MakeCursor self (@Once.MakeCursor))
            (Sample.row (Vertex (Sample.vertex 0))) (Fixture.start ring)
            this' first
            (mkContext ring [one; one] [] [])
            eq_refl _ _ _).
  - discriminate.
  - discriminate.
  - discriminate.
  - cbn. lia.
  - left. reflexivity.
  - run_fuel 8%nat.
Defined.

(** ** ScanAllByLabelPropertyValue *)

Section ScanByValueRows.
Import ScanAllByLabelPropertyValue.
Context {Db : Type} `{!GraphDbAccessor Db}.
Context {TInput : Type} `{!Cursor.Cursor Db TInput}.
Variable self : @ScanAllByLabelPropertyValue Db.
Variable step : Frame -> Context Db -> Frame * Context Db.

(** The abort hint stays as it is through [step]. *)
Hypothesis Hstep :
  forall frame context, calm context -> calm (snd (step frame context)).

Local Abbreviation ScanCursor :=
  (@ScanAllByLabelPropertyValueCursor Db TInput).

(** The vertices the scan goes through for a row of its input: none
    when the value looked up is null, else the vertices the index has for
    the value.  No answer when the evaluation or the lookup fails, or
    when the index has no vertex for the value. *)
Definition matching (frame : Frame) (context : Context Db)
  : option (list VertexAccessor) :=
  match expr_eval (expression self) (graph_view self) frame
                  (db_accessor_ context) with
  | inr Null => Some []
  | inr value =>
      match VerticesByValue (db_accessor_ context) (label self)
              (property self) value
              (match graph_view self with NEW => true | _ => false end) with
      | inr (vertex :: rest) => Some (vertex :: rest)
      | _ => None
      end
  | inl _ => None
  end.

Definition through_lookup (frame : Frame) (context : Context Db)
  : Frame * Context Db :=
  match matching frame context with
  | Some vertices =>
      snd (scanned (output_symbol self) step vertices frame
                   (evaluated (expression self) context))
  | None => (frame, context)
  end.

Definition matching_rows (row : Frame * Context Db)
  : list (Frame * Context Db) :=
  match matching (fst row) (snd row) with
  | Some vertices =>
      fst (scanned (output_symbol self) step vertices (fst row)
                   (evaluated (expression self) (snd row)))
  | None => []
  end.

Definition looking (input : TInput) (found ahead : list VertexAccessor)
  : ScanCursor :=
  mkScanAllByLabelPropertyValueCursor self input (Some found) (Some ahead).

Lemma ScanByValue_ahead (input : TInput) found ahead :
  forall frame context,
  calm context ->
  yields step (looking input found ahead) frame context
         (fst (scanned (output_symbol self) step ahead frame context))
         (looking input found [])
         (fst (snd (scanned (output_symbol self) step ahead frame context)))
         (snd (snd (scanned (output_symbol self) step ahead frame context))).
Proof.
  induction ahead as [|vertex rest IH]; intros frame context Hcalm.
  - apply yields_nil.
  - cbn [scanned].
    specialize (IH
      (fst (step (frame_set (output_symbol self) (Vertex vertex) frame)
                 context))
      (snd (step (frame_set (output_symbol self) (Vertex vertex) frame)
                 context))
      (Hstep _ _ Hcalm)).
    cbn [fst snd]. destruct (scanned (output_symbol self) step rest _ _)
      as [rows last].
    cbn [fst snd] in *.
    eapply yields_row; [|exact IH].
    exists 1%nat. intros n Hn. destruct n as [|n]; [lia|].
    change (Cursor.Pull (S n) ?s ?f ?c)
      with (ScanAllByLabelPropertyValue.Pull (S n) s f c).
    cbn [ScanAllByLabelPropertyValue.Pull].
    rewrite (bind_Ok _ _ _ _ _ (check_abort_calm _ Hcalm)).
    reflexivity.
Qed.

(** [ScanAllByLabelPropertyValue] produces, for every row of its input
    in turn, one row per vertex the index has for the value of its
    expression on that row, the vertex at the output symbol; a row on
    which the value is null gives no row, and the index is not asked.
    The expression is evaluated once per row of the input.  The rows are
    those of inputs for which the value is null or the index has a
    vertex, pulled while no abort is asked for. *)
Theorem ScanAllByLabelPropertyValue_rows (input : TInput) frame context rows
  input' frame' context' :
  feeds through_lookup input frame context rows input' frame' context' ->
  Forall (fun row => matching (fst row) (snd row) <> None) rows ->
  Forall (fun row => calm (snd row)) rows ->
  calm context ->
  exists this',
    feeds step (MakeCursor self input) frame context
          (concat (map matching_rows rows)) this' frame' context' /\
    input_cursor_ this' = input'.
Proof.
  intros Hfeeds Hsome Hcalms Hcalm.
  assert (Hgeneral :
    forall vertices vertices_it,
    at_end (mkScanAllByLabelPropertyValueCursor self input vertices
                                                vertices_it) = true ->
    exists this',
      feeds step
            (mkScanAllByLabelPropertyValueCursor self input vertices
                                                 vertices_it)
            frame context (concat (map matching_rows rows))
            this' frame' context' /\
      input_cursor_ this' = input').
  { induction Hfeeds as [s f c s' f' c' [N Hdone]
                        |s f c s1 f1 c1 rows s' f' c' [N Hrow] Hrest IH];
      intros vertices vertices_it Hend.
    - eexists. split.
      + apply feeds_done. exists (S N). intros n Hn.
        destruct n as [|n]; [lia|].
        change (Cursor.Pull (S n) ?s ?f ?c)
          with (ScanAllByLabelPropertyValue.Pull (S n) s f c).
        cbn [ScanAllByLabelPropertyValue.Pull].
        rewrite (bind_Ok _ _ _ _ _ (check_abort_calm _ Hcalm)).
        rewrite Hend. cbn [input_cursor_ self_ vertices_ vertices_it_].
        rewrite (bind_Ok _ _ _ _ _ (Hdone n ltac:(lia))). reflexivity.
      + reflexivity.
    - inversion Hsome as [|row rows' Hfound Hsome']; subst.
      inversion Hcalms as [|row rows' Hcalm1 Hcalms']; subst.
      cbn [fst snd] in Hfound, Hcalm1.
      unfold through_lookup in IH. cbn [map concat].
      unfold matching_rows at 1. cbn [fst snd].
      destruct (matching f1 c1) as [found|] eqn:Hmatching; [|contradiction].
      unfold matching in Hmatching.
      destruct (expr_eval (expression self) (graph_view self) f1
                          (db_accessor_ c1)) as [e|value] eqn:Hvalue;
        [discriminate|].
      pose proof (Accept_Ok _ _ _ _ _ Hvalue) as Haccept.
      assert (Hnull : IsNull value = true /\ found = [] \/
                      IsNull value = false /\
                      exists vertex rest,
                        found = vertex :: rest /\
                        vertices_for self value
                                     (evaluated (expression self) c1) =
                        Ok found (evaluated (expression self) c1)).
      { destruct value; try (left; split; [reflexivity|congruence]);
          right; (split; [reflexivity|]);
          unfold vertices_for, bind, get_db;
          cbn [evaluated db_accessor_];
          destruct (VerticesByValue _ _ _ _ _) as [failure|[|vertex rest]];
          try discriminate; injection Hmatching as <-;
          exists vertex, rest; split; reflexivity. }
      destruct Hnull as [[Hnull ->]|[Hnull (vertex & rest & -> & Hfor)]].
      + cbn [scanned fst snd app] in *.
        destruct (IH Hsome' Hcalms' (calm_evaluated _ _ Hcalm1)
                     vertices vertices_it)
          as (this' & IH' & Hinput); [exact Hend|].
        exists this'. split; [|exact Hinput].
        eapply feeds_head; [|exact IH'].
        intros r [Nr Hr]. exists (S (Nat.max N Nr)). intros n Hn.
        destruct n as [|n]; [lia|].
        change (Cursor.Pull (S n) ?s ?f ?c)
          with (ScanAllByLabelPropertyValue.Pull (S n) s f c).
        cbn [ScanAllByLabelPropertyValue.Pull].
        rewrite (bind_Ok _ _ _ _ _ (check_abort_calm _ Hcalm)).
        rewrite Hend. cbn [input_cursor_ self_ vertices_ vertices_it_].
        rewrite (bind_Ok _ _ _ _ _ (Hrow n ltac:(lia))). cbn iota beta zeta.
        cbn [negb self_].
        rewrite (bind_Ok _ _ _ _ _ Haccept). rewrite Hnull.
        exact (Hr n ltac:(lia)).
      + cbn [scanned fst snd] in *.
        pose proof (ScanByValue_ahead s1 (vertex :: rest) rest
          (fst (step (frame_set (output_symbol self) (Vertex vertex) f1)
                     (evaluated (expression self) c1)))
          (snd (step (frame_set (output_symbol self) (Vertex vertex) f1)
                     (evaluated (expression self) c1)))
          (Hstep _ _ (calm_evaluated _ _ Hcalm1))) as Hahead.
        pose proof (scanned_calm (output_symbol self) step Hstep rest
          (fst (step (frame_set (output_symbol self) (Vertex vertex) f1)
                     (evaluated (expression self) c1)))
          (snd (step (frame_set (output_symbol self) (Vertex vertex) f1)
                     (evaluated (expression self) c1)))
          (Hstep _ _ (calm_evaluated _ _ Hcalm1))) as Hlast.
        destruct (scanned (output_symbol self) step rest _ _)
          as [rest_rows last].
        cbn [fst snd] in *.
        destruct (IH Hsome' Hcalms' Hlast (Some (vertex :: rest)) (Some []))
          as (this' & IH' & Hinput); [reflexivity|].
        exists this'. split; [|exact Hinput]. cbn [app].
        eapply feeds_row.
        * exists (S N). intros n Hn. destruct n as [|n]; [lia|].
          change (Cursor.Pull (S n) ?s ?f ?c)
            with (ScanAllByLabelPropertyValue.Pull (S n) s f c).
          cbn [ScanAllByLabelPropertyValue.Pull].
          rewrite (bind_Ok _ _ _ _ _ (check_abort_calm _ Hcalm)).
          rewrite Hend. cbn [input_cursor_ self_ vertices_ vertices_it_].
          rewrite (bind_Ok _ _ _ _ _ (Hrow n ltac:(lia))).
          cbn iota beta zeta. cbn [negb self_].
          rewrite (bind_Ok _ _ _ _ _ Haccept). rewrite Hnull.
          rewrite (bind_Ok _ _ _ _ _ Hfor). reflexivity.
        * eapply yields_feeds; [exact Hahead|exact IH']. }
  apply (Hgeneral None None). reflexivity.
Qed.

End ScanByValueRows.

Lemma through_lookup_calm {Db : Type} `{!GraphDbAccessor Db}
  (self : @ScanAllByLabelPropertyValue.ScanAllByLabelPropertyValue Db)
  (step : Frame -> Context Db -> Frame * Context Db) :
  (forall frame context, calm context -> calm (snd (step frame context))) ->
  forall frame context,
    calm context -> calm (snd (through_lookup self step frame context)).
Proof.
  intros Hstep frame context Hcalm. unfold through_lookup.
  destruct (matching self frame context); [|exact Hcalm].
  apply (scanned_calm _ step Hstep). apply calm_evaluated. exact Hcalm.
Qed.

(** [ScanAllByLabelPropertyValue_rows] at a concrete input: for the
    values 1, null and 0 at [y], the vertices 1 and 0 of the ring at
    [x]. *)
Lemma ScanAllByLabelPropertyValue_rows_witness :
  let y := mkSymbol "y" 0 in
  let x := mkSymbol "x" 1 in
  let self :=
    ScanAllByLabelPropertyValue.mkScanAllByLabelPropertyValue
      x 0%nat 0%nat (Fixture.identifier y) OLD in
  let source := Unwind.mkUnwind (Fixture.literal Null) y in
  let values := [Int 1; Null; Int 0] in
  let start := Fixture.start ring in
  let seen k := mkContext ring (repeat (Fixture.identifier y) k) [] [] in
  exists this',
    feeds hand_back
          (ScanAllByLabelPropertyValue.MakeCursor self (replay source values))
          [Null; Null] start
          [([Int 1; Vertex (Sample.vertex 1)], seen 1%nat);
           ([Int 0; Vertex (Sample.vertex 0)], seen 3%nat)]
          this' [Int 0; Vertex (Sample.vertex 0)] (seen 3%nat) /\
    ScanAllByLabelPropertyValue.input_cursor_ this' =
    Unwind.mkUnwindCursor source (Once.mkOnceCursor true) values [].
Proof.
  intros y x self source values start seen.
  exact (ScanAllByLabelPropertyValue_rows self hand_back hand_back_calm
           (replay source values) [Null; Null] start _ _ _ _
           (replay_feeds source (through_lookup self hand_back)
              (through_lookup_calm self hand_back hand_back_calm)
              values [Null; Null] start eq_refl)
           ltac:(repeat constructor; discriminate)
           ltac:(repeat constructor)
           eq_refl).
Defined.

Section ScanByValueEdges.
Import ScanAllByLabelPropertyValue.
Context {Db : Type} `{!GraphDbAccessor Db}.
Context {TInput : Type} `{!Cursor.Cursor Db TInput}.

Local Abbreviation ScanCursor :=
  (@ScanAllByLabelPropertyValueCursor Db TInput).

Local Abbreviation lookup this value context :=
  (VerticesByValue (db_accessor_ context) (label (self_ this))
     (property (self_ this)) value
     (match graph_view (self_ this) with NEW => true | _ => false end)).

Lemma ScanByValue_next_row (this : ScanCursor) frame context input1 frame1
  context1 value :
  at_end this = true ->
  calm context ->
  pulls (input_cursor_ this) frame context
        (Ok (true, input1, frame1) context1) ->
  expr_eval (expression (self_ this)) (graph_view (self_ this)) frame1
            (db_accessor_ context1) = inr value ->
  IsNull value = false ->
  forall r,
    (vertices <- vertices_for (self_ this) value ;;
     next_vertex
       (mkScanAllByLabelPropertyValueCursor
          (self_ this) input1 (Some vertices) (Some vertices))
       frame1) (evaluated (expression (self_ this)) context1) = r ->
    pulls this frame context r.
Proof.
  intros Hend Hcalm [N Hrow] Hvalue Hnull r Hr.
  exists (S N). intros n Hn. destruct n as [|n]; [lia|].
  change (Cursor.Pull (S n) ?s ?f ?c)
    with (ScanAllByLabelPropertyValue.Pull (S n) s f c).
  cbn [ScanAllByLabelPropertyValue.Pull].
  rewrite (bind_Ok _ _ _ _ _ (check_abort_calm _ Hcalm)).
  rewrite Hend.
  rewrite (bind_Ok _ _ _ _ _ (Hrow n ltac:(lia))). cbn iota beta zeta.
  cbn [negb self_].
  rewrite (bind_Ok _ _ _ _ _ (Accept_Ok _ _ _ _ _ Hvalue)). rewrite Hnull.
  exact Hr.
Qed.

(** When the index has no vertex for the value of a row of the input,
    [ScanAllByLabelPropertyValue] reports exhaustion at that pull,
    whatever rows its input still has: it does not go on to the next
    row, as it does when the value is null. *)
Theorem ScanAllByLabelPropertyValue_no_match (this : ScanCursor) frame
  context input1 frame1 context1 value :
  at_end this = true ->
  calm context ->
  pulls (input_cursor_ this) frame context
        (Ok (true, input1, frame1) context1) ->
  expr_eval (expression (self_ this)) (graph_view (self_ this)) frame1
            (db_accessor_ context1) = inr value ->
  IsNull value = false ->
  lookup this value context1 = inr [] ->
  pulls this frame context
        (Ok (false,
             mkScanAllByLabelPropertyValueCursor
               (self_ this) input1 (Some []) (Some []),
             frame1)
            (evaluated (expression (self_ this)) context1)).
Proof.
  intros Hend Hcalm Hrow Hvalue Hnull Hlookup.
  eapply ScanByValue_next_row; try eassumption.
  unfold bind at 1. unfold vertices_for, bind, get_db.
  cbn [evaluated db_accessor_]. rewrite Hlookup. reflexivity.
Qed.

(** A value the index cannot take as a property value makes the pull
    fail with a [QueryRuntimeException] that names the type of the
    value. *)
Theorem ScanAllByLabelPropertyValue_type_error (this : ScanCursor) frame
  context input1 frame1 context1 value :
  at_end this = true ->
  calm context ->
  pulls (input_cursor_ this) frame context
        (Ok (true, input1, frame1) context1) ->
  expr_eval (expression (self_ this)) (graph_view (self_ this)) frame1
            (db_accessor_ context1) = inr value ->
  IsNull value = false ->
  lookup this value context1 = inl TypedValueException ->
  pulls this frame context
        (Throw (QueryRuntimeException
                  ("'" ++ Type_name (type value) ++
                   "' cannot be used as a property value."))
               (evaluated (expression (self_ this)) context1)).
Proof.
  intros Hend Hcalm Hrow Hvalue Hnull Hlookup.
  eapply ScanByValue_next_row; try eassumption.
  unfold bind at 1. unfold vertices_for, bind, get_db.
  cbn [evaluated db_accessor_]. rewrite Hlookup. reflexivity.
Qed.

End ScanByValueEdges.

(** [ScanAllByLabelPropertyValue_no_match] at a concrete input: the ring
    has no vertex 5, and the scan ends with the value 0 still ahead in
    its input. *)
Lemma ScanAllByLabelPropertyValue_no_match_witness :
  let y := mkSymbol "y" 0 in
  let x := mkSymbol "x" 1 in
  let self :=
    ScanAllByLabelPropertyValue.mkScanAllByLabelPropertyValue
      x 0%nat 0%nat (Fixture.identifier y) OLD in
  let source := Unwind.mkUnwind (Fixture.literal Null) y in
  let start := Fixture.start ring in
  pulls (ScanAllByLabelPropertyValue.MakeCursor
           self (replay source [Int 5; Int 0]))
        [Null; Null] start
        (Ok (false,
             ScanAllByLabelPropertyValue.mkScanAllByLabelPropertyValueCursor
               self
               (Unwind.mkUnwindCursor source (Once.mkOnceCursor true)
                                      [Int 5; Int 0] [Int 0])
               (Some []) (Some []),
             [Int 5; Null])
            (mkContext ring [Fixture.identifier y] [] [])).
Proof.
  intros y x self source start.
  refine (ScanAllByLabelPropertyValue_no_match
            (ScanAllByLabelPropertyValue.MakeCursor
               self (replay source [Int 5; Int 0]))
            [Null; Null] start
            (Unwind.mkUnwindCursor source (Once.mkOnceCursor true)
                                   [Int 5; Int 0] [Int 0])
            [Int 5; Null] start (Int 5) eq_refl eq_refl _ eq_refl eq_refl
            eq_refl).
  run_fuel 2%nat.
Defined.

(** [ScanAllByLabelPropertyValue_type_error] at a concrete input: a
    vertex as the value to look up. *)
Lemma ScanAllByLabelPropertyValue_type_error_witness :
  let y := mkSymbol "y" 0 in
  let x := mkSymbol "x" 1 in
  let self :=
    ScanAllByLabelPropertyValue.mkScanAllByLabelPropertyValue
      x 0%nat 0%nat (Fixture.identifier y) OLD in
  let source := Unwind.mkUnwind (Fixture.literal Null) y in
  let start := Fixture.start ring in
  let value := Vertex (Sample.vertex 0) in
  pulls (ScanAllByLabelPropertyValue.MakeCursor
           self (replay source [value]))
        [Null; Null] start
        (Throw (QueryRuntimeException
                  "'Vertex' cannot be used as a property value.")
               (mkContext ring [Fixture.identifier y] [] [])).
Proof.
  intros y x self source start value.
  refine (ScanAllByLabelPropertyValue_type_error
            (ScanAllByLabelPropertyValue.MakeCursor
               self (replay source [value]))
            [Null; Null] start
            (Unwind.mkUnwindCursor source (Once.mkOnceCursor true)
                                   [value] [])
            [value; Null] start value eq_refl eq_refl _ eq_refl eq_refl
            eq_refl).
  run_fuel 2%nat.
Defined.
